(* ===== verification/_CoqProject ===== *)
-Q . S2P
Prelude.v
Status.v
CxxString.v
Log.v
Wire.v
Codec.v
Router.v
Loop.v
LoopThread.v
SessionSpec.v
Platform.v
SocketIo.v
H2Session.v
H2Run.v
H2Promise.v
Channel.v
ChannelInv.v
ChannelRun.v
ChannelCalls.v
ChannelSends.v
ServerConn.v
ServerInv.v
ServerRun.v
Owners.v
ServerCalls.v
ServerStreams.v
ServerEnds.v
Lifecycle.v
LifecycleRun.v
Facade.v
Api.v
Arena.v
UnaryServer.v
UnaryClient.v
StreamServer.v
StreamServerRun.v
StreamChain.v
StreamClient.v
Codegen.v
Generated.v
EndToEnd.v
TypedEnd.v
StreamEnd.v
TypedStream.v
TypedChain.v
BidiEnd.v
BenchCore.v
BenchUnary.v
BenchStreaming.v
TypedChat.v
