(* ===== verification/Prelude.v ===== *)
(** * uRPC: a verification development

    uRPC (src/urpc) is a gRPC-compatible RPC library in C++: a core that speaks
    HTTP/2 through nghttp2 on one libuv loop per endpoint (core/), a typed API
    over it whose messages are upb messages in arenas (api/), and a protoc plugin
    that writes proxies and registrations against that API (generator/).

    This development models the code of these three parts function by function
    and proves what each is there for.  libuv, nghttp2, upb and protoc are not
    modelled: they are parameters and environments, and every theorem is about
    all the behaviours that the model leaves to them.

** The program, and the files that model it

    Core, from the bottom:
    - Status.v: status.h, urpc_status.cpp, and the C mirror urpc_c_status.c.
    - CxxString.v: what std::stoi, std::stoull and std::atoi do.
    - Log.v: log.h, urpc_log.cpp.
    - Wire.v: grpc-timeout and grpc-status as server and channel read and print them.
    - Codec.v: codec.h, urpc_codec.cpp.  A [FrameDecoder] has the code's buffer,
      its queue and its counters.
    - Router.v: router.h, urpc_router.cpp.  A snapshot is a [gmap]; a sequence of
      calls is what the mutex lets through.
    - Loop.v: loop.h, urpc_loop.cpp.  Posted tasks, timers, [Start], [Stop].  A task
      is data; the owner of the loop says what running it does ([LoopHost]).
      LoopThread.v has its threads: [RunLoop], [Post] and [Stop], interleaved.
    - Platform.v: urpc_platform.cpp.  Addresses, connect, the listener.  SocketIo.v: what
      the owners of a socket allocate to read and write it.
    - H2Session.v, H2Run.v: h2_session.h, urpc_h2_session.cc.  The bodies that
      nghttp2 reads are a heap, as their pointers are aliased.
    - SessionSpec.v: the contract between a session and its owner, as a relation.
      H2Promise.v shows that the session's runs follow it; Owners.v that the two
      connections' models take every step that it allows.
    - Channel.v: channel.h, urpc_channel.cc, the client's end of a connection.
      ChannelInv.v has the invariant, ChannelRun.v the runs, ChannelCalls.v what
      happens to one call or one stream, ChannelSends.v what a caller's sends become.
    - ServerConn.v: Server::Impl::Conn of urpc_server.cc, the server's end.  ServerInv.v,
      ServerRun.v, ServerCalls.v, ServerStreams.v and ServerEnds.v follow.
    - Lifecycle.v, LifecycleRun.v: Server::Start, Shutdown, Wait and the drain.

    The typed API:
    - Facade.v: ServerContext and Server of urpc_api_impl.cc.
    - Api.v: the registration bridge of urpc_api_impl.cc.
    - Arena.v: what the API uses of upb: [MethodTraits] is a class with the types,
      parsers and encoders of a method; [Arenas] is a ledger of the arenas.
    - UnaryServer.v: unary.h.  UnaryClient.v: client.h and proxy.h.
    - StreamServer.v, StreamServerRun.v, StreamClient.v: stream.h.  StreamChain.v:
      handlers that write each message when the one before was delivered.

    The generator: Codegen.v is the plugin, Generated.v what it writes.

    EndToEnd.v joins a channel and a connection by what each gives to its session;
    TypedEnd.v puts the typed API on both ends.  StreamEnd.v is a server-streaming
    call of the core; in TypedStream.v the typed server of StreamServer.v is the
    environment of its connection, and the typed reader is at the other end; in
    TypedChain.v so for a stream of any length.  BidiEnd.v is a conversation: a
    handler that answers each message and reads again.

    The benchmarks, which are the programs that the repository keeps beside the
    library: BenchCore.v (bench_core.cpp) and BenchStreaming.v (bench_streaming.cc)
    have their handlers and what their iterations make of the results, BenchUnary.v
    (bench_unary.cpp) the serial calls and the two threads of a batch of calls.
    TypedChat.v puts the typed conversation of bench_streaming.cc on both ends, with
    its loop as the caller.

** How the parts interact

    A component is a record of its state and one definition per method or
    callback, in state-passing style.  Where the code calls something that can
    come back into the component before it returns (a handler, a callback, the
    session), the call is an argument of the definitions, [reenter].  It is
    instantiated with [reenter_to] below, or its like: an oracle, which is any
    function, says which operations happen inside a call, and these call out in
    turn, to a depth that is any number.  So a theorem about runs is about every
    handler, callback and peer, and every nesting of them.

    A run is a sequence of events: a task or timer of the loop, an event of the
    session, a call from a thread.  The mutexes and the loop make these atomic in
    the code; where the code holds a mutex and calls on, the model has the mutex.
    Invariants are proved for every operation under the assumption that [reenter]
    keeps them, then for [reenter_to] by induction on the depth, then for runs.

    What C++ leaves undefined is a flag that stays set ([ub], [fault], [dangling]);
    a thread that locks a mutex it holds is [deadlocked], a loop that does not end
    is [hung], an empty std::function that is called is [threw].

    Integers are [Z] with the widths written out ([u32], [u64], [Wire], [Codec]);
    bytes are [ascii]; maps are [gmap].

** What the theorems show

    - Calls from end to end: [unary_call_end_to_end], [typed_call_end_to_end],
      [streaming_call_end_to_end], [typed_streaming_end_to_end], and for streams
      that the bound of the queue would not hold, [long_stream_end_to_end].
    - The benchmarks measure what they say: [download_end_to_end],
      [chat_end_to_end], [echo_end_to_end] and [chat_echoes] for the core,
      [serial_round_trip], [download_streams_file] and [typed_chat_echoes] for the
      typed handlers, and [typed_chat_end_to_end] for both ends of a typed
      conversation; the verdict of a batch is right in every interleaving ([batch_verdict_sound]),
      although a wake-up can be lost ([wakeup_lost]).
    - The client's core: every call and stream ends once ([ends_exactly_once]), and
      all do when the connection goes ([connection_lost_ends_all]); messages come
      in order ([stream_messages_in_order]).
    - The server's core: the frames of a stream follow gRPC's grammar, except that
      a stream whose first header block was refused has no call, so that the
      client's trailers are refused again ([response_grammar]); queues are bounded;
      reads are answered in order for a reader that keeps up ([stream_reads_in_order])
      and up to 65 writes leave in order ([stream_responses_served]); an expired
      deadline ends its call, whatever the cancel callbacks do ([deadline_ends_call]);
      refusals have their status; a shutdown completes ([shutdown_completes]), under
      the conditions without which the code deadlocks.
    - The session: bodies are read whole, in order, and reported once
      ([consumed_once_after_whole_body]); it keeps its contract, and no body is read
      after it was freed ([session_refines_contract], [bodies_outlive_reads]), when
      nghttp2 reads bodies as it documents ([nghttp2_reads]).
    - The typed API: callbacks run once, arenas are freed once and when nobody
      needs them, a stream is finished once and last, each error has its status, whatever
      allocations fail ([server_streaming_served]), and exceptions of stream handlers
      are contained, whatever came before them ([handler_exception_contained]).
    - The loop's threads: no task is lost or run twice, no wake-up is lost, [Stop]
      returns.
    - Sockets: writes reach the wire in order, what they allocate is freed once.
    - Framing, router, conversions: round trips, equivalence with a reference,
      termination, bounds.
    - The generator: the text of a service's registration is read back and run, and
      every method is found, in the form that its declaration says
      ([generated_service_routed]).
    - Where the code does not do what it says, a theorem says what it does.

** Where the code and the contracts of the repository (src/specs) differ

    The theorems state what the code does.  In these points that is not what the
    contracts say, and the doc comments of the theorems concerned repeat it:
    - A request carries no grpc-timeout, whatever its timeout: the six headers of
      [Channel.request_headers] are all.  wire-protocol.md and client-api.md have it
      carried when there is a deadline, so the server learns of a deadline only from
      other clients.
    - grpc-message is the bytes of the message ([ServerConn.status_trailers],
      [ServerConn.trailers_only_headers]); wire-protocol.md has it percent-encoded.
    - A server-streaming handler without a response is finished with UNIMPLEMENTED;
      spec 004 wants such a stream to end with OK.
    - The 66th message that waits is dropped with RESOURCE_EXHAUSTED, and the 65th
      unread one ends the stream; spec 004 wants the producer to wait.
    - A deadline in the middle of a stream calls no waiting read.
    - A shutdown sends neither GOAWAY nor UNAVAILABLE.
    - The log has the end of a call and not its start.
    - WritesDone does not wait until the half-close was delivered.

** Bounds and fuel

    - The decoder's loop has the buffered bytes plus two as fuel; [consume_terminates]
      shows that this is enough.  FlushOut has the number of bodies plus one;
      [notifications_drained] shows that.
    - The loop of CancelStreamIo can be kept going for ever by a callback: its fuel
      is the parameter [spin], and the model is [hung] when it runs out.  Theorems
      about runs hold for every [spin].
    - The depth of calls that come back is a parameter, any number.
    - [in_flight] of a stream is a [nat]: it counts lambdas that the core holds, and
      can not wrap.

** What is not modelled, and why

    - Exceptions that user code throws, apart from those of string conversions
      and of the handlers of typed streams: the models have no unwinding.
    - Races of threads on the same object: the threads of the loop are interleaved
      at the accesses that they share (LoopThread.v), everything else that the code
      keeps under a mutex or on the loop's thread is one step.
    - The bytes on the socket: a session is given bytes and gives bytes, and how
      nghttp2 makes frames of them is its own.  The connections' environments may
      announce streams and consume bodies as the contract allows; that the order of
      their header blocks and chunks is that of the peer's frames is nghttp2's part.
    - [getenv] and the output under URPC_WIRE_DEBUG, except where the variable
      changes what the code does (StreamClient.v).
    - The reader of a typed server stream has an arena from its construction on; the
      model keeps it until the end, as copies of the reader may.
    - Of the benchmarks: Google Benchmark's loop and clock, and the environments
      of the typed ones, which are static and end with the program.  A wait with a
      timeout is an event that may find nothing.
    - Versions, bindings, examples and tests.

** Conventions

    Scope, records with functional update, hints ([urpc]) and the tactics that the
    files share are below.  A theorem with hypotheses is followed, at the end of
    its file, by an instance named [_witness]. *)
From stdpp Require Export base tactics numbers gmap list strings pretty sorting.
From Stdlib Require Export ZArith Lia.
From Stdlib Require Export Ascii.

#[global] Set Default Proof Using "Type".
#[export] Set Suggest Proof Using.

(** ** Scopes *)
Declare Scope urpc_scope.
Delimit Scope urpc_scope with urpc.
#[global] Open Scope urpc_scope.
#[global] Open Scope Z_scope.

(** ** Functional record update

    [r <| f := v |>] is the record [r] with its field [f] replaced by [v];
    [r <| f ::= g |>] applies [g] to the field.  A record takes part by an
    [EtaRecord] instance that spells its eta expansion. *)
Class EtaRecord (R : Type) : Type := eta_record : R → R.
Class FieldUpdate {R E : Type} (field : R → E) : Type :=
  field_update : (E → E) → R → R.
Arguments field_update {R E} field {_} _ _ / : assert.

Ltac derive_field_update :=
  lazymatch goal with
  | |- @FieldUpdate ?R ?E ?field =>
      let inst := constr:(_ : EtaRecord R) in
      let body := eval hnf in inst in
      lazymatch eval pattern field in body with
      | ?ctx _ => exact (fun g : E → E => ctx (fun r : R => g (field r)))
      end
  end.
#[export] Hint Extern 0 (FieldUpdate _) => derive_field_update : typeclass_instances.

Notation "r <| f := v |>" := (field_update f (λ _, v) r)
  (at level 1, f at next level, left associativity,
   format "r  <| f  :=  v |>") : urpc_scope.
Notation "r <| f ::= g |>" := (field_update f g r)
  (at level 1, f at next level, left associativity,
   format "r  <| f  ::=  g |>") : urpc_scope.

(** ** Machine integers

    [uint8_t], [uint32_t], [uint64_t] and [size_t] are [Z] with the wrap
    around written out where the code converts or computes. *)
Definition u8 (z : Z) : Z := z mod 2 ^ 8.
Definition u32 (z : Z) : Z := z mod 2 ^ 32.
Definition u64 (z : Z) : Z := z mod 2 ^ 64.

(** ** Bytes

    A [std::string] used as a byte buffer is a list of 8-bit characters. *)
Abbreviation bytes := (list ascii).

(** [static_cast<char>(z & 0xff)] and back through [uint8_t]. *)
Definition chr (z : Z) : ascii := ascii_of_N (Z.to_N (u8 z)).
Definition ord (a : ascii) : Z := Z.of_N (N_of_ascii a).

Lemma ord_range a : 0 ≤ ord a < 256.
Proof. unfold ord. pose proof (N_ascii_bounded a). lia. Qed.

Lemma ord_chr z : ord (chr z) = u8 z.
Proof.
  unfold ord, chr. rewrite N_ascii_embedding, Z2N.id; [done| |];
    unfold u8; pose proof (Z.mod_pos_bound z (2 ^ 8)); lia.
Qed.

Lemma chr_ord a : chr (ord a) = a.
Proof.
  unfold chr, u8. rewrite Z.mod_small by (pose proof (ord_range a); lia).
  unfold ord. rewrite N2Z.id. apply ascii_N_embedding.
Qed.

Lemma u8_small z : 0 ≤ z < 2 ^ 8 → u8 z = z.
Proof. apply Z.mod_small. Qed.
Lemma u32_small z : 0 ≤ z < 2 ^ 32 → u32 z = z.
Proof. apply Z.mod_small. Qed.
Lemma u64_small z : 0 ≤ z < 2 ^ 64 → u64 z = z.
Proof. apply Z.mod_small. Qed.
Lemma u32_range z : 0 ≤ u32 z < 2 ^ 32.
Proof. apply Z.mod_pos_bound; lia. Qed.
Lemma u64_range z : 0 ≤ u64 z < 2 ^ 64.
Proof. apply Z.mod_pos_bound; lia. Qed.

(** ** Counting the elements of a list with a key *)
Definition count_by {A K} `{!EqDecision K} (f : A → option K) (id : K) (l : list A) : nat :=
  length (filter (λ x, f x = Some id) l).

Lemma count_by_app {A K} `{!EqDecision K} (f : A → option K) id l k :
  count_by f id (l ++ k) = (count_by f id l + count_by f id k)%nat.
Proof. unfold count_by. by rewrite filter_app, length_app. Qed.

Lemma count_by_cons {A K} `{!EqDecision K} (f : A → option K) id x l :
  count_by f id (x :: l) = ((if decide (f x = Some id) then 1 else 0) + count_by f id l)%nat.
Proof. unfold count_by. rewrite filter_cons. by case_decide. Qed.

Lemma count_by_nil {A K} `{!EqDecision K} (f : A → option K) id : count_by f id [] = 0%nat.
Proof. done. Qed.

#[export] Instance count_by_proper {A K} `{!EqDecision K} (f : A → option K) id :
  Proper ((≡ₚ) ==> eq) (count_by f id).
Proof. intros l k H. unfold count_by. by rewrite H. Qed.

Lemma filter_sublist {A} (P : A → Prop) `{!∀ x, Decision (P x)} l k :
  l `sublist_of` k → filter P l `sublist_of` filter P k.
Proof. induction 1; rewrite ?filter_cons; repeat case_decide; try done; by constructor. Qed.

(** ** Code that is called back

    A call out of a component may come back to it before it returns: [oracle]
    says with which operations, and these may call out again, to depth [n]. *)
Section Reenter.
Context {W O Op : Type} (do_op : (O → W → W) → Op → W → W) (oracle : O → W → list Op).

Fixpoint reenter_to (n : nat) (o : O) (w : W) : W :=
  match n with
  | 0%nat => w
  | S n => fold_left (λ w op, do_op (reenter_to n) op w) (oracle o w) w
  end.

(** What every operation keeps, whatever it calls, a call out keeps. *)
Lemma fold_left_keeps {A} (P : W → W → Prop) `{!PreOrder P} (f : W → A → W) l w :
  (∀ w x, P w (f w x)) → P w (fold_left f l w).
Proof.
  intros Hf. revert w. induction l as [|x l IH]; intros w; simpl; [reflexivity|].
  by transitivity (f w x).
Qed.

Lemma reenter_to_keeps (P : W → W → Prop) `{!PreOrder P} n o w :
  (∀ re, (∀ o w, P w (re o w)) → ∀ op w, P w (do_op re op w)) → P w (reenter_to n o w).
Proof.
  intros Hop. revert o w. induction n as [|n IH]; intros o w; simpl; [reflexivity|].
  apply fold_left_keeps; [done|]. intros w' op. by apply Hop.
Qed.
End Reenter.

(** ** Hints and tactics *)
Create HintDb urpc.
Create Rewrite HintDb urpc.
#[export] Hint Resolve ord_range u32_range u64_range : urpc.
#[export] Hint Rewrite ord_chr chr_ord : urpc.

(** Case analysis on the scrutinee of a [match] or [if] of the goal, then of
    the hypotheses, keeping the equation. *)
Ltac split_match :=
  match goal with
  | |- context [match ?x with _ => _ end] =>
      lazymatch x with context [match _ with _ => _ end] => fail | _ => idtac end;
      destruct x eqn:?
  | H : context [match ?x with _ => _ end] |- _ =>
      lazymatch x with context [match _ with _ => _ end] => fail | _ => idtac end;
      destruct x eqn:?
  end.
Ltac split_matches := repeat (split_match; simplify_eq/=).

(** Boolean conditions of the code as propositions. *)
Ltac bool_cond :=
  repeat match goal with
  | H : (_ && _)%bool = true |- _ => apply andb_true_iff in H as [? ?]
  | H : (_ || _)%bool = false |- _ => apply orb_false_iff in H as [? ?]
  | H : negb _ = true |- _ => apply negb_true_iff in H
  | H : negb _ = false |- _ => apply negb_false_iff in H
  | H : (_ <? _)%Z = true |- _ => apply Z.ltb_lt in H
  | H : (_ <? _)%Z = false |- _ => apply Z.ltb_ge in H
  | H : (_ <=? _)%Z = true |- _ => apply Z.leb_le in H
  | H : (_ <=? _)%Z = false |- _ => apply Z.leb_gt in H
  | H : (_ =? _)%Z = true |- _ => apply Z.eqb_eq in H
  | H : (_ =? _)%Z = false |- _ => apply Z.eqb_neq in H
  end.
