(* ===== verification/Status.v ===== *)
(** * Status values (core/include/urpc/core/status.h, core/source/urpc_status.cpp,
    api/source/urpc_c_status.c)

    The closed set of gRPC status codes, their numbers and names, the [Status]
    value and the C mirror of the enumeration. *)
From S2P Require Import Prelude.

(** [enum class StatusCode : int].  The type has a fixed underlying [int], so a
    [static_cast] of any [int] is a value of it, whether or not an enumerator
    has that number: the type is the [int] itself, the enumerators its names. *)
Definition StatusCode : Type := Z.

Definition kOk : StatusCode := 0.
Definition kDeadlineExceeded : StatusCode := 4.
Definition kResourceExhausted : StatusCode := 8.
Definition kUnimplemented : StatusCode := 12.
Definition kInternal : StatusCode := 13.
Definition kUnavailable : StatusCode := 14.
Definition kDataLoss : StatusCode := 15.

(** The enumerators, in declaration order. *)
Definition status_codes : list StatusCode :=
  [kOk; kDeadlineExceeded; kResourceExhausted; kUnimplemented; kInternal;
   kUnavailable; kDataLoss].

Definition StatusCodeName (code : StatusCode) : string :=
  if code =? kOk then "OK"
  else if code =? kDeadlineExceeded then "DEADLINE_EXCEEDED"
  else if code =? kUnimplemented then "UNIMPLEMENTED"
  else if code =? kInternal then "INTERNAL"
  else if code =? kUnavailable then "UNAVAILABLE"
  else if code =? kResourceExhausted then "RESOURCE_EXHAUSTED"
  else if code =? kDataLoss then "DATA_LOSS"
  else "UNKNOWN".

Record Status := mkStatus { code : StatusCode; message : string }.
#[export] Instance eta_Status : EtaRecord Status :=
  λ s, mkStatus (code s) (message s).
#[export] Instance Status_eq_dec : EqDecision Status.
Proof. solve_decision. Defined.

Definition Ok : Status := mkStatus kOk "".
Definition ok (s : Status) : bool := code s =? kOk.

Definition ToString (s : Status) : string :=
  if decide (message s = "") then StatusCodeName (code s)
  else StatusCodeName (code s) +:+ ": " +:+ message s.

(** ** The C surface *)
Definition URPC_C_OK : Z := 0.
Definition URPC_C_DEADLINE_EXCEEDED : Z := 4.
Definition URPC_C_UNIMPLEMENTED : Z := 12.
Definition URPC_C_INTERNAL : Z := 13.
Definition URPC_C_UNAVAILABLE : Z := 14.
Definition URPC_C_DATA_LOSS : Z := 15.

Definition urpc_c_status_code_name (code : Z) : string :=
  if code =? URPC_C_OK then "OK"
  else if code =? URPC_C_DEADLINE_EXCEEDED then "DEADLINE_EXCEEDED"
  else if code =? URPC_C_UNIMPLEMENTED then "UNIMPLEMENTED"
  else if code =? URPC_C_INTERNAL then "INTERNAL"
  else if code =? URPC_C_UNAVAILABLE then "UNAVAILABLE"
  else if code =? 8 then "RESOURCE_EXHAUSTED"
  else if code =? URPC_C_DATA_LOSS then "DATA_LOSS"
  else "UNKNOWN".

(** [struct urpc_c_status]; the pointer argument is [None] when null. *)
Record urpc_c_status := mkCStatus { c_code : Z; c_message : string }.

Definition urpc_c_status_ok (s : option urpc_c_status) : Z :=
  match s with
  | None => 0
  | Some s => if c_code s =? URPC_C_OK then 1 else 0
  end.

(** ** Lemmas *)
Lemma ok_Ok : ok Ok = true.
Proof. reflexivity. Qed.

Lemma ok_false_code s : ok s = false ↔ code s ≠ kOk.
Proof. unfold ok. rewrite Z.eqb_neq. done. Qed.
#[export] Hint Rewrite ok_Ok : urpc.

(** The C surface gives every integer the name that the C++ one gives it, and
    calls the same statuses OK; it has no constant for RESOURCE_EXHAUSTED. *)
Theorem c_status_mirrors (c : Z) (msg : string) :
  urpc_c_status_code_name c = StatusCodeName c ∧
  urpc_c_status_ok (Some (mkCStatus c msg)) = Z.b2z (ok (mkStatus c msg)) ∧
  kResourceExhausted ∉ [URPC_C_OK; URPC_C_DEADLINE_EXCEEDED; URPC_C_UNIMPLEMENTED; URPC_C_INTERNAL;
    URPC_C_UNAVAILABLE; URPC_C_DATA_LOSS].
Proof.
  split_and!.
  - unfold urpc_c_status_code_name, StatusCodeName, kResourceExhausted, kUnavailable, kInternal, kUnimplemented,
      kDeadlineExceeded, kOk, kDataLoss, URPC_C_OK, URPC_C_DEADLINE_EXCEEDED, URPC_C_UNIMPLEMENTED,
      URPC_C_INTERNAL, URPC_C_UNAVAILABLE, URPC_C_DATA_LOSS.
    repeat (case_match; rewrite ?Z.eqb_eq, ?Z.eqb_neq in *; try done; subst; try done).
  - unfold urpc_c_status_ok, ok, URPC_C_OK, kOk. simpl. by destruct (c =? 0).
  - by apply (bool_decide_unpack _).
Qed.
