(* ===== verification/CxxString.v ===== *)
(** * The C++ standard library's string-to-integer conversions

    [std::stoull], [std::stoi], [std::atoi] and the string operations the program uses, as
    the C and C++ standards define them ([strtoull] and [strtol] in base 10:
    leading white space, an optional sign, the longest run of digits, the rest
    ignored; an exception, here [None], when there is no digit or the value is
    out of range).  [std::to_string] is stdpp's [pretty]. *)
From S2P Require Import Prelude.

Definition isspace (c : ascii) : bool :=
  let n := ord c in (n =? 32) || ((9 <=? n) && (n <=? 13)).

Definition isdigit (c : ascii) : bool := (48 <=? ord c) && (ord c <=? 57).

(** A [std::string] as the list of its characters. *)
Definition chars (s : string) : list ascii := String.list_ascii_of_string s.

Fixpoint skip_spaces (s : list ascii) : list ascii :=
  match s with
  | c :: s' => if isspace c then skip_spaces s' else s
  | [] => []
  end.

(** The value of the leading digits of [s] after [acc]. *)
Fixpoint digits_from (acc : Z) (s : list ascii) : Z :=
  match s with
  | c :: s' => if isdigit c then digits_from (10 * acc + (ord c - 48)) s' else acc
  | [] => acc
  end.

Definition starts_with_digit (s : list ascii) : bool :=
  match s with c :: _ => isdigit c | [] => false end.

(** The sign of a number and what follows it. *)
Definition split_sign (s : list ascii) : bool * list ascii :=
  match s with
  | c :: s' =>
      if ord c =? 45 then (true, s') else if ord c =? 43 then (false, s') else (false, s)
  | [] => (false, s)
  end.

(** The subject sequence: sign and magnitude, [None] without a digit. *)
Definition parse_integer (s : string) : option (bool * Z) :=
  let '(neg, digits) := split_sign (skip_spaces (chars s)) in
  if starts_with_digit digits then Some (neg, digits_from 0 digits) else None.

(** [std::stoull]: [strtoull] negates in the unsigned type. *)
Definition stoull (s : string) : option Z :=
  match parse_integer s with
  | Some (neg, m) =>
      if m <? 2 ^ 64 then Some (if neg then u64 (- m) else m) else None
  | None => None
  end.

(** [std::stoi], with a 32-bit [int]. *)
Definition stoi (s : string) : option Z :=
  match parse_integer s with
  | Some (neg, m) =>
      let v := if neg then - m else m in
      if (- 2 ^ 31 <=? v) && (v <? 2 ^ 31) then Some v else None
  | None => None
  end.

(** [std::atoi]: 0 without a digit; out of the range of [int] it is undefined. *)
Definition atoi (s : string) : option Z :=
  match parse_integer s with
  | Some (neg, m) =>
      let v := if neg then - m else m in
      if (- 2 ^ 31 <=? v) && (v <? 2 ^ 31) then Some v else None
  | None => Some 0
  end.

(** ** Decimal numerals *)

(** [s] is a run of digits. *)
Definition all_digits (s : list ascii) : Prop := Forall (λ c, isdigit c = true) s.

Lemma chars_app s t : chars (s +:+ t) = chars s ++ chars t.
Proof. induction s as [|c s IH]; [done|]. simpl. unfold chars in *. simpl. by rewrite IH. Qed.

Lemma chars_inj s t : chars s = chars t → s = t.
Proof.
  revert t. induction s as [|x s IH]; intros [|y t] H; try done.
  injection H as -> H. f_equal. by apply IH.
Qed.

(** Text up to the first [x], and the rest. *)
Lemma split_at_first {A} (x : A) (a b a' b' : list A) :
  x ∉ a → x ∉ a' → a ++ x :: b = a' ++ x :: b' → a = a' ∧ b = b'.
Proof.
  revert a'. induction a as [|y a IH]; intros [|y' a'] Ha Ha' H; simplify_eq/=; try done.
  - exfalso. apply Ha'. left.
  - exfalso. apply Ha. left.
  - destruct (IH a') as [-> ->]; [| |done|done]; intros Hin; [apply Ha|apply Ha']; by right.
Qed.

Lemma isdigit_not_space c : isdigit c = true → isspace c = false.
Proof. unfold isdigit, isspace. intros. bool_cond. apply orb_false_iff. split; [lia|].
  apply andb_false_iff. lia. Qed.

Lemma isdigit_range c : isdigit c = true → 48 ≤ ord c ≤ 57.
Proof. unfold isdigit. intros. bool_cond. lia. Qed.

Lemma parse_integer_digits s :
  s ≠ "" → all_digits (chars s) → parse_integer s = Some (false, digits_from 0 (chars s)).
Proof.
  intros Hne Hd. unfold parse_integer. destruct s as [|c s]; [done|].
  change (chars (String c s)) with (c :: chars s) in *.
  apply Forall_cons in Hd as [Hc Hd]. simpl.
  rewrite (isdigit_not_space c Hc). unfold split_sign.
  pose proof (isdigit_range c Hc).
  destruct (Z.eqb_spec (ord c) 45); [lia|]. destruct (Z.eqb_spec (ord c) 43); [lia|].
  simpl. by rewrite Hc.
Qed.

(** A run of digits stops before a character that is not one. *)
Lemma digits_from_app acc s c t :
  all_digits s → isdigit c = false → digits_from acc (s ++ c :: t) = digits_from acc s.
Proof.
  intros Hs Hc. revert acc. induction Hs as [|d s Hd _ IH]; intros acc; simpl.
  - by rewrite Hc.
  - by rewrite Hd, IH.
Qed.

Lemma digits_from_nonneg acc s : 0 ≤ acc → 0 ≤ digits_from acc s.
Proof.
  revert acc. induction s as [|c s IH]; intros acc Ha; simpl; [done|].
  destruct (isdigit c) eqn:Hc; [|done]. apply IH.
  pose proof (isdigit_range c Hc). lia.
Qed.

(** [k] digits are a number below [10 ^ k]. *)
Lemma digits_from_bound acc s :
  0 ≤ acc → digits_from acc s < (acc + 1) * 10 ^ Z.of_nat (length s).
Proof.
  revert acc. induction s as [|c s IH]; intros acc Ha; [simpl; lia|].
  cbn [length digits_from]. rewrite Nat2Z.inj_succ, Z.pow_succ_r by lia.
  pose proof (Z.pow_pos_nonneg 10 (Z.of_nat (length s))).
  destruct (isdigit c) eqn:Hc; [|nia].
  pose proof (isdigit_range c Hc).
  pose proof (IH (10 * acc + (ord c - 48))). nia.
Qed.

(** ** [std::to_string] and back *)
Lemma pretty_N_char_digit x :
  isdigit (pretty_N_char (x `mod` 10)) = true ∧
  ord (pretty_N_char (x `mod` 10)) = 48 + Z.of_N (x `mod` 10).
Proof.
  pose proof (N.mod_lt x 10). assert (x `mod` 10 < 10)%N as Hx by lia.
  generalize dependent (x `mod` 10)%N. intros y _ Hy.
  destruct y as [|p]; [done|]. do 4 (destruct p as [p|p|]; try done; try lia).
Qed.

Lemma pretty_N_go_digits x s :
  all_digits (chars s) → all_digits (chars (pretty_N_go x s)).
Proof.
  revert s. induction (N.lt_wf_0 x) as [x _ IH]; intros s Hs.
  destruct (decide (0 < x)%N).
  - rewrite pretty_N_go_step by done. apply IH; [by apply N.div_lt|].
    constructor; [apply pretty_N_char_digit|done].
  - assert (x = 0%N) as -> by lia. by rewrite pretty_N_go_0.
Qed.

Lemma pretty_N_go_value x s :
  digits_from 0 (chars (pretty_N_go x s)) = digits_from (Z.of_N x) (chars s).
Proof.
  revert s. induction (N.lt_wf_0 x) as [x _ IH]; intros s.
  destruct (decide (0 < x)%N).
  - rewrite pretty_N_go_step by done. rewrite IH by (by apply N.div_lt).
    change (chars (String ?c s)) with (c :: chars s). simpl.
    destruct (pretty_N_char_digit x) as [-> ->]. f_equal.
    pose proof (N.div_mod x 10). lia.
  - assert (x = 0%N) as -> by lia. by rewrite pretty_N_go_0.
Qed.

Lemma pretty_N_chars (x : N) :
  pretty x ≠ "" ∧ all_digits (chars (pretty x)) ∧ digits_from 0 (chars (pretty x)) = Z.of_N x.
Proof.
  unfold pretty, pretty_N. destruct (decide (x = 0%N)) as [->|Hx].
  { split_and!; [done| |done]. repeat constructor. }
  split_and!.
  - intros Hnil. pose proof (pretty_N_go_value x "") as Hv. rewrite Hnil in Hv. simpl in Hv. lia.
  - apply pretty_N_go_digits. constructor.
  - apply pretty_N_go_value.
Qed.

(** Non-negative numbers print as digits; a minus sign comes first otherwise. *)
Lemma parse_integer_pretty (n : Z) : parse_integer (pretty n) = Some (n <? 0, Z.abs n).
Proof.
  unfold pretty, pretty_Z. destruct n as [|p|p]; [done| |].
  - destruct (pretty_N_chars (N.pos p)) as (? & ? & Hv).
    change (parse_integer (pretty (N.pos p)) = Some (Z.pos p <? 0, Z.pos p)).
    rewrite parse_integer_digits by done. by rewrite Hv.
  - destruct (pretty_N_chars (N.pos p)) as (Hne & Hd & Hv).
    change (parse_integer ("-" +:+ pretty (N.pos p)) = Some (Z.neg p <? 0, Z.pos p)).
    unfold parse_integer. change (chars ("-" +:+ ?s)) with ("-"%char :: chars s).
    generalize dependent (chars (pretty (N.pos p))). intros cs Hd Hv. simpl.
    destruct cs as [|c l]; [done|]. apply Forall_cons in Hd as [Hc _].
    cbn [starts_with_digit]. by rewrite Hc, Hv.
Qed.

Lemma stoi_pretty (n : Z) : - 2 ^ 31 ≤ n < 2 ^ 31 → stoi (pretty n) = Some n.
Proof.
  intros Hn. unfold stoi. rewrite parse_integer_pretty.
  assert ((if n <? 0 then - Z.abs n else Z.abs n) = n) as -> by (destruct (Z.ltb_spec n 0); lia).
  destruct (Z.leb_spec (- 2 ^ 31) n); [|lia]. destruct (Z.ltb_spec n (2 ^ 31)); [done|lia].
Qed.
#[export] Hint Rewrite stoi_pretty using lia : urpc.

Lemma atoi_stoi s n : stoi s = Some n → atoi s = Some n.
Proof. unfold stoi, atoi. by destruct (parse_integer s) as [[neg m]|]. Qed.
