(* ===== verification/Log.v ===== *)
(** * Logging (core/include/urpc/core/log.h, core/source/urpc_log.cpp)

    The process-wide level and sink, the filter, and the line that the default
    sink prints. *)
From S2P Require Import Prelude CxxString.

Inductive LogLevel := kError | kWarn | kInfo | kDebug.
Inductive LogCategory := kConnection | kCall.
#[export] Instance LogLevel_eq_dec : EqDecision LogLevel.
Proof. solve_decision. Defined.

Definition level_number (l : LogLevel) : Z :=
  match l with kError => 0 | kWarn => 1 | kInfo => 2 | kDebug => 3 end.
Definition LevelName (l : LogLevel) : string :=
  match l with kError => "ERROR" | kWarn => "WARN" | kInfo => "INFO" | kDebug => "DEBUG" end.
Definition CategoryName (c : LogCategory) : string :=
  match c with kConnection => "conn" | kCall => "call" end.

(** [DefaultStderrSink], or one of the user's. *)
Inductive LogSink := DefaultStderrSink | UserSink (n : nat).

(** What the sinks were given, and what was printed on stderr. *)
Record World := mkWorld {
  g_level : LogLevel;
  g_sink : LogSink;
  records : list (nat * LogLevel * LogCategory * string * string);
  stderr : string
}.
#[export] Instance eta_LogWorld : EtaRecord World := λ w,
  mkWorld (g_level w) (g_sink w) (records w) (stderr w).

Definition new_log : World := mkWorld kWarn DefaultStderrSink [] "".

(** [c_str()] printed with [%s]: up to the first NUL. *)
Fixpoint until_nul (s : string) : string :=
  match s with
  | EmptyString => EmptyString
  | String c s => if decide (c = chr 0) then EmptyString else String c (until_nul s)
  end.

Definition newline : string := String (chr 10) EmptyString.
Definition stderr_line (l : LogLevel) (c : LogCategory) (event fields : string) : string :=
  LevelName l +:+ " " +:+ CategoryName c +:+ " " +:+ event +:+ " " +:+ until_nul fields +:+ newline.

Definition SetLevel (l : LogLevel) (w : World) : World := w <| g_level := l |>.
Definition Level (w : World) : LogLevel := g_level w.
Definition SetSink (sink : option LogSink) (w : World) : World :=
  w <| g_sink := match sink with Some s => s | None => DefaultStderrSink end |>.
Definition Enabled (l : LogLevel) (w : World) : bool := level_number l <=? level_number (Level w).

Definition sink_Write (sink : LogSink) (l : LogLevel) (c : LogCategory) (event fields : string) (w : World)
    : World :=
  match sink with
  | DefaultStderrSink => w <| stderr ::= λ s, s +:+ stderr_line l c event fields |>
  | UserSink n => w <| records ::= λ r, r ++ [(n, l, c, event, fields)] |>
  end.

Definition Write (l : LogLevel) (c : LogCategory) (event fields : string) (w : World) : World :=
  if negb (Enabled l w) then w else sink_Write (g_sink w) l c event fields w.

Definition Error := Write kError.
Definition Warn := Write kWarn.
Definition Info := Write kInfo.
Definition Debug := Write kDebug.

(** ** Lemmas *)

(** Raising the threshold never hides a record: what is enabled at a level is
    enabled at every more talkative one. *)
Lemma Enabled_mono l l1 l2 w :
  level_number l1 <= level_number l2 → Enabled l (SetLevel l1 w) = true → Enabled l (SetLevel l2 w) = true.
Proof. unfold Enabled, Level. simpl. rewrite !Z.leb_le. lia. Qed.

(** Errors and warnings are always shown by default, the rest never. *)
Lemma default_level c event fields :
  Error c event fields new_log ≠ new_log ∧ Warn c event fields new_log ≠ new_log ∧
  Info c event fields new_log = new_log ∧ Debug c event fields new_log = new_log.
Proof. by destruct c. Qed.

Definition no_space (s : string) : Prop := " "%char ∉ chars s.

Lemma split_word a b s t :
  no_space a → no_space b → a +:+ " " +:+ s = b +:+ " " +:+ t → a = b ∧ s = t.
Proof.
  intros Ha Hb H%(f_equal chars). rewrite !chars_app in H.
  apply split_at_first in H as [H1 H2]; [|done..]. split; by apply chars_inj.
Qed.

Lemma no_space_lit s : bool_decide (no_space s) = true → no_space s.
Proof. by intros H%bool_decide_eq_true. Qed.

(** A line of the default sink tells its parts: the level, the category, the
    event (which has no space) and the fields up to a NUL. *)
Theorem stderr_line_inj l c event fields l' c' event' fields' :
  no_space event → no_space event' →
  stderr_line l c event fields = stderr_line l' c' event' fields' →
  l = l' ∧ c = c' ∧ event = event' ∧ until_nul fields = until_nul fields'.
Proof.
  intros He He' H. unfold stderr_line in H.
  apply split_word in H as [Hl H]; [|by destruct l; apply no_space_lit|by destruct l'; apply no_space_lit].
  apply split_word in H as [Hc H]; [|by destruct c; apply no_space_lit|by destruct c'; apply no_space_lit].
  apply split_word in H as [-> H]; [|done..].
  split_and!; [by destruct l, l'|by destruct c, c'|done|].
  apply (f_equal chars) in H. rewrite !chars_app in H. apply app_inj_tail in H as [H _]. by apply chars_inj.
Qed.

Lemma stderr_line_inj_witness :
  stderr_line kInfo kCall "call_end" "sid=1" = "INFO call call_end sid=1" +:+ newline ∧
  (stderr_line kInfo kCall "call_end" "sid=1" = stderr_line kInfo kCall "call_end" "sid=1" → "call_end" = "call_end").
Proof.
  split; [done|]. intros H.
  by apply (stderr_line_inj kInfo kCall "call_end" "sid=1" kInfo kCall "call_end" "sid=1") in H;
    [|apply no_space_lit..].
Defined.
