(* ===== verification/Wire.v ===== *)
(** * Text fields of the wire protocol

    [ParseGrpcTimeout] of the server (core/source/urpc_server.cc) and
    [GrpcStatusFromInt] of the channel (core/source/urpc_channel.cc): the two
    header values that are parsed, and what the peers print for them. *)
From S2P Require Import Prelude Status CxxString.

(** [v.back()] and [v.substr(0, v.size() - 1)] of a non-empty string. *)
Definition back (v : string) : ascii :=
  match String.get (String.length v - 1) v with Some c => c | None => chr 0 end.
Definition but_last (v : string) : string := String.substring 0 (String.length v - 1) v.

Definition ParseGrpcTimeout (v : string) : Z :=
  if (String.length v <? 2)%nat then 0
  else
    let unit := back v in
    match stoull (but_last v) with
    | None => 0
    | Some n =>
        if Ascii.eqb unit "H" then u64 (n * 3600000)
        else if Ascii.eqb unit "M" then u64 (n * 60000)
        else if Ascii.eqb unit "S" then u64 (n * 1000)
        else if Ascii.eqb unit "m" then n
        else if Ascii.eqb unit "u" then n / 1000
        else if Ascii.eqb unit "n" then n / 1000000
        else 0
    end.

Definition GrpcStatusFromInt (v : string) (fallback : StatusCode) : StatusCode :=
  match stoi v with
  | Some n => n
  | None => fallback
  end.

(** What the server puts in [grpc-status]. *)
Definition grpc_status_text (c : StatusCode) : string := pretty c.

(** ** The gRPC meaning of a timeout *)

(** Nanoseconds in a unit. *)
Definition unit_ns (u : ascii) : option Z :=
  if Ascii.eqb u "H" then Some 3600000000000
  else if Ascii.eqb u "M" then Some 60000000000
  else if Ascii.eqb u "S" then Some 1000000000
  else if Ascii.eqb u "m" then Some 1000000
  else if Ascii.eqb u "u" then Some 1000
  else if Ascii.eqb u "n" then Some 1
  else None.

(** ** Lemmas *)
Lemma string_length_app s t :
  String.length (s +:+ t) = (String.length s + String.length t)%nat.
Proof. induction s as [|c s IH]; [done|]. simpl. by rewrite IH. Qed.

Lemma string_length_chars s : String.length s = length (chars s).
Proof. induction s as [|c s IH]; [done|]. simpl. by rewrite IH. Qed.

Lemma back_snoc s c : back (s +:+ String c "") = c.
Proof.
  unfold back. rewrite string_length_app. simpl. rewrite Nat.add_sub.
  induction s as [|d s IH]; [done|]. simpl. apply IH.
Qed.

Lemma but_last_snoc s c : but_last (s +:+ String c "") = s.
Proof.
  unfold but_last. rewrite string_length_app. simpl. rewrite Nat.add_sub.
  induction s as [|d s IH]; [done|]. simpl. by rewrite IH.
Qed.

(** [stoull] of at most eight digits is their value, far below the limit. *)
Lemma stoull_digits v :
  v ≠ "" → all_digits (chars v) → (String.length v ≤ 8)%nat →
  stoull v = Some (digits_from 0 (chars v)) ∧ 0 ≤ digits_from 0 (chars v) < 10 ^ 8.
Proof.
  intros Hne Hd Hl. unfold stoull. rewrite parse_integer_digits by done.
  pose proof (digits_from_nonneg 0 (chars v)).
  pose proof (digits_from_bound 0 (chars v)).
  assert (10 ^ Z.of_nat (length (chars v)) ≤ 10 ^ 8).
  { apply Z.pow_le_mono_r; [lia|]. rewrite <- string_length_chars. lia. }
  destruct (Z.ltb_spec (digits_from 0 (chars v)) (2 ^ 64)); [|lia].
  split; [done|lia].
Qed.

(** ** Properties *)

(** C38: Timeouts are exact on the wire format.  For a value of one to eight
    digits (what gRPC allows) and one of the six units, the parsed deadline is
    the announced duration in milliseconds, rounded down: the 64-bit products
    never wrap. *)
Theorem timeout_exact v u ns :
  v ≠ "" → all_digits (chars v) → (String.length v ≤ 8)%nat → unit_ns u = Some ns →
  ParseGrpcTimeout (v +:+ String u "") = digits_from 0 (chars v) * ns / 1000000.
Proof.
  intros Hne Hd Hl Hu. destruct (stoull_digits v Hne Hd Hl) as [Hst Hr].
  unfold ParseGrpcTimeout. rewrite string_length_app, back_snoc, but_last_snoc, Hst.
  destruct (Nat.ltb_spec (String.length v + String.length (String u "")) 2) as [Hlt|_].
  { destruct v; [done|simpl in Hlt; lia]. }
  set (n := digits_from 0 (chars v)) in *. unfold unit_ns in Hu.
  repeat (case_match; [simplify_eq;
    rewrite ?u64_small by lia; Z.to_euclidean_division_equations; lia|]).
  done.
Qed.

Lemma timeout_exact_witness :
  ParseGrpcTimeout ("99999999" +:+ "H") = 99999999 * 3600000000000 / 1000000.
Proof. apply (timeout_exact "99999999" "H"%char); [done|repeat constructor|simpl; lia|done]. Defined.

(** Status codes survive the wire.  The number that the server writes in
    [grpc-status] for any status code, in the closed set or not, is read back
    by the channel as the same code. *)
Theorem status_code_roundtrip c fallback :
  - 2 ^ 31 ≤ c < 2 ^ 31 → GrpcStatusFromInt (grpc_status_text c) fallback = c.
Proof. intros Hc. unfold GrpcStatusFromInt, grpc_status_text. by rewrite stoi_pretty. Qed.

Lemma status_code_roundtrip_witness :
  GrpcStatusFromInt (grpc_status_text kResourceExhausted) kInternal = kResourceExhausted.
Proof. apply status_code_roundtrip. vm_compute. split; congruence. Defined.
