(* ===== verification/Codec.v ===== *)
(** * gRPC message framing (core/include/urpc/core/codec.h, core/source/urpc_codec.cpp)

    The 5-byte prefix (one compression flag, four big-endian length bytes), the
    encoder [EncodeFrame] and the incremental [FrameDecoder], with its buffer
    kept as the code keeps it.  The theorems relate the decoder to the byte
    stream: what it has consumed is the framing of the messages it queued
    followed by what it still holds, however the stream was cut into chunks. *)
From S2P Require Import Prelude Status.
From coqutil Require Import Z.bitblast.

Definition kPrefixLen : nat := 5.

(** Appends the four bytes of [v], most significant first. *)
Definition AppendU32BE (out : bytes) (v : Z) : bytes :=
  out ++ [chr (Z.land (Z.shiftr v 24) 255); chr (Z.land (Z.shiftr v 16) 255);
          chr (Z.land (Z.shiftr v 8) 255); chr (Z.land v 255)].

Definition EncodeFrame (data : bytes) (out : bytes) : bytes :=
  AppendU32BE (out ++ [chr 0]) (u32 (Z.of_nat (length data))) ++ data.

(** ** FrameDecoder *)
Record FrameDecoder := mkDecoder {
  max_message_size_ : Z;
  buffer_ : bytes;
  needed_ : Z;
  have_header_ : bool;
  flag_ : Z;
  messages_ : list bytes;
  message_count_ : Z
}.
#[export] Instance eta_FrameDecoder : EtaRecord FrameDecoder := λ d,
  mkDecoder (max_message_size_ d) (buffer_ d) (needed_ d) (have_header_ d)
    (flag_ d) (messages_ d) (message_count_ d).

(** The constructor; the default limit is 4 MiB. *)
Definition kDefaultMaxMessageSize : Z := 4 * 1024 * 1024.
Definition newFrameDecoder (max_message_size : Z) : FrameDecoder :=
  mkDecoder max_message_size [] 0 false 0 [] 0.

Definition compressed_error : Status :=
  mkStatus kInternal "compressed messages are not supported".
Definition oversize_error (mlen limit : Z) : Status :=
  mkStatus kResourceExhausted
    ("message of " +:+ pretty mlen +:+ " bytes exceeds limit of " +:+ pretty limit).

(** The byte [p[i]]; the reads of [Consume] are within the buffer. *)
Definition byte_at (p : bytes) (i : nat) : Z :=
  match p !! i with Some c => ord c | None => 0 end.

(** The declared length: the four length bytes of a prefix. *)
Definition header_length (p : bytes) : Z :=
  Z.lor (Z.lor (Z.lor (Z.shiftl (byte_at p 1) 24) (Z.shiftl (byte_at p 2) 16))
    (Z.shiftl (byte_at p 3) 8)) (byte_at p 4).

(** What one pass of the loop of [Consume] does: return, or go round again. *)
Inductive loop_result :=
  | Return (st : Status) (d : FrameDecoder)
  | Again (d : FrameDecoder).

(** The second half of the body: queue the payload once it is complete. *)
Definition consume_payload (d : FrameDecoder) : loop_result :=
  if Z.of_nat (length (buffer_ d)) <? needed_ d then Return Ok d
  else
    let n := Z.to_nat (needed_ d) in
    Again (d <| messages_ ::= λ q, q ++ [take n (buffer_ d)] |>
             <| buffer_ ::= drop n |>
             <| have_header_ := false |>
             <| needed_ := 0 |>).

(** One pass of [while (true)]. *)
Definition consume_pass (d : FrameDecoder) : loop_result :=
  if have_header_ d then consume_payload d
  else if (length (buffer_ d) <? kPrefixLen)%nat then Return Ok d
  else
    let p := buffer_ d in
    let d := d <| flag_ := byte_at p 0 |> in
    if negb (flag_ d =? 0) then Return compressed_error d
    else
      let mlen := header_length p in
      if max_message_size_ d <? mlen then
        Return (oversize_error mlen (max_message_size_ d)) d
      else
        consume_payload (d <| needed_ := mlen |> <| have_header_ := true |>
                           <| buffer_ ::= drop kPrefixLen |>).

Fixpoint consume_loop (fuel : nat) (d : FrameDecoder) : option (Status * FrameDecoder) :=
  match fuel with
  | O => None
  | S fuel =>
      match consume_pass d with
      | Return st d => Some (st, d)
      | Again d => consume_loop fuel d
      end
  end.

(** Fuel for the loop: a pass that goes round again takes the prefix off the
    buffer or clears [have_header_] (lemma [consume_pass_measure]). *)
Definition consume_measure (d : FrameDecoder) : nat :=
  length (buffer_ d) + (if have_header_ d then 1 else 0).

Definition Consume (data : bytes) (d : FrameDecoder) : Status * FrameDecoder :=
  let d := d <| buffer_ ::= λ b, b ++ data |> in
  default (Ok, d) (consume_loop (S (consume_measure d)) d).

Definition HasMessage (d : FrameDecoder) : bool :=
  match messages_ d with [] => false | _ => true end.

(** [TakeMessage] on an empty queue is undefined behaviour: [None]. *)
Definition TakeMessage (d : FrameDecoder) : option (bytes * FrameDecoder) :=
  match messages_ d with
  | [] => None
  | m :: q => Some (m, d <| messages_ := q |>
                         <| message_count_ := u64 (message_count_ d + 1) |>)
  end.

(** Feeding the chunks of a stream until the decoder reports an error, as its
    callers do. *)
Fixpoint feed (d : FrameDecoder) (chunks : list bytes) : Status * FrameDecoder :=
  match chunks with
  | [] => (Ok, d)
  | c :: cs =>
      let '(st, d) := Consume c d in
      if ok st then feed d cs else (st, d)
  end.

(** ** The framed view of a stream *)

(** The framing of a list of messages. *)
Definition frames (ms : list bytes) : bytes := concat (map (λ m, EncodeFrame m []) ms).

Definition frame_header (n : Z) : bytes := AppendU32BE [chr 0] n.

(** The bytes received and not yet turned into a message. *)
Definition pending_bytes (d : FrameDecoder) : bytes :=
  (if have_header_ d then frame_header (needed_ d) else []) ++ buffer_ d.

Definition decoder_wf (d : FrameDecoder) : Prop :=
  0 ≤ max_message_size_ d ∧
  (have_header_ d = true → 0 ≤ needed_ d ≤ max_message_size_ d ∧ needed_ d < 2 ^ 32) ∧
  Forall (λ m, Z.of_nat (length m) ≤ max_message_size_ d) (messages_ d).

(** The decoder waits: no whole message and no whole prefix is in the buffer. *)
Definition decoder_waiting (d : FrameDecoder) : Prop :=
  if have_header_ d then Z.of_nat (length (buffer_ d)) < needed_ d
  else (length (buffer_ d) < kPrefixLen)%nat.

(** A message that a decoder with this limit takes. *)
Definition fits (limit : Z) (m : bytes) : Prop :=
  Z.of_nat (length m) ≤ limit ∧ Z.of_nat (length m) < 2 ^ 32.

(** ** Bit-level lemmas *)
Lemma testbit_small b n i : 0 ≤ b < 2 ^ n → 0 ≤ n ≤ i → Z.testbit b i = false.
Proof.
  intros Hb Hi. destruct (decide (b = 0)) as [->|]; [apply Z.bits_0|].
  apply Z.bits_above_log2; [lia|].
  enough (Z.log2 b < n) by lia. apply Z.log2_lt_pow2; lia.
Qed.

Lemma lor_shiftl_add a b n :
  0 ≤ n → 0 ≤ b < 2 ^ n → Z.lor (Z.shiftl a n) b = a * 2 ^ n + b.
Proof.
  intros Hn Hb. rewrite <- Z.shiftl_mul_pow2 by done.
  assert (Z.land (Z.shiftl a n) b = 0) as Hland.
  { apply Z.bits_inj'. intros i Hi. rewrite Z.land_spec, Z.bits_0.
    destruct (decide (i < n)).
    - by rewrite Z.shiftl_spec_low.
    - rewrite (testbit_small b n i) by lia. apply andb_false_r. }
  rewrite Z.add_nocarry_lxor by done. symmetry. by apply Z.lxor_lor.
Qed.

Lemma land_255 v : Z.land v 255 = v mod 256.
Proof. apply (Z.land_ones v 8). lia. Qed.

Lemma chr_land_255 v : chr (Z.land v 255) = chr v.
Proof. unfold chr, u8. rewrite land_255. by rewrite Z.mod_mod. Qed.

(** The big-endian value of four bytes, as a sum. *)
Lemma be_value x1 x2 x3 x4 :
  0 ≤ x2 < 256 → 0 ≤ x3 < 256 → 0 ≤ x4 < 256 →
  Z.lor (Z.lor (Z.lor (Z.shiftl x1 24) (Z.shiftl x2 16)) (Z.shiftl x3 8)) x4 =
  x1 * 2 ^ 24 + x2 * 2 ^ 16 + x3 * 2 ^ 8 + x4.
Proof.
  intros H2 H3 H4.
  rewrite (lor_shiftl_add x1) by (rewrite ?Z.shiftl_mul_pow2; lia).
  replace (x1 * 2 ^ 24 + Z.shiftl x2 16) with (Z.shiftl (x1 * 2 ^ 8 + x2) 16)
    by (rewrite !Z.shiftl_mul_pow2 by lia; lia).
  rewrite lor_shiftl_add by (rewrite ?Z.shiftl_mul_pow2; lia).
  replace ((x1 * 2 ^ 8 + x2) * 2 ^ 16 + Z.shiftl x3 8)
    with (Z.shiftl ((x1 * 2 ^ 8 + x2) * 2 ^ 8 + x3) 8)
    by (rewrite !Z.shiftl_mul_pow2 by lia; lia).
  rewrite lor_shiftl_add by lia. lia.
Qed.

Lemma byte_at_range p i : 0 ≤ byte_at p i < 256.
Proof. unfold byte_at. destruct (p !! i); [apply ord_range|lia]. Qed.
#[export] Hint Resolve byte_at_range : urpc.

Lemma header_length_sum f b1 b2 b3 b4 rest :
  header_length (f :: b1 :: b2 :: b3 :: b4 :: rest) =
  ord b1 * 2 ^ 24 + ord b2 * 2 ^ 16 + ord b3 * 2 ^ 8 + ord b4.
Proof. unfold header_length. rewrite be_value by auto with urpc. done. Qed.

Lemma frame_header_bytes v :
  frame_header v =
  [chr 0; chr (v / 2 ^ 24); chr (v / 2 ^ 16); chr (v / 2 ^ 8); chr v].
Proof.
  unfold frame_header, AppendU32BE. rewrite !chr_land_255.
  rewrite !Z.shiftr_div_pow2 by lia. done.
Qed.

Lemma u8_digit a x : 0 ≤ x < 256 → u8 (a * 256 + x) = x.
Proof. intros Hx. unfold u8. rewrite Z.add_comm, Z.mod_add by lia. apply Z.mod_small. lia. Qed.

Lemma chr_digit a b : chr (a * 256 + ord b) = b.
Proof.
  rewrite <- (chr_ord b) at 2. unfold chr.
  rewrite u8_digit, u8_small by apply ord_range. done.
Qed.

Lemma header_length_frame_header v rest :
  0 ≤ v < 2 ^ 32 → header_length (frame_header v ++ rest) = v.
Proof.
  intros Hv. rewrite frame_header_bytes. simpl app. rewrite header_length_sum.
  rewrite !ord_chr. unfold u8.
  change (2 ^ 24) with (2 ^ 8 * 2 ^ 16). change (2 ^ 16) with (2 ^ 8 * 2 ^ 8).
  rewrite <- !Z.div_div by lia.
  pose proof (Z.div_mod v (2 ^ 8)). pose proof (Z.div_mod (v / 2 ^ 8) (2 ^ 8)).
  pose proof (Z.div_mod (v / 2 ^ 8 / 2 ^ 8) (2 ^ 8)).
  assert (0 ≤ v / 2 ^ 8 / 2 ^ 8 / 2 ^ 8 < 2 ^ 8).
  { rewrite !Z.div_div by lia. split; [apply Z.div_pos; lia|].
    apply Z.div_lt_upper_bound; lia. }
  rewrite (Z.mod_small (v / 2 ^ 8 / 2 ^ 8 / 2 ^ 8)) by done. lia.
Qed.

(** A prefix with a zero flag is the header of the length it declares. *)
Lemma frame_header_header_length f b1 b2 b3 b4 rest :
  ord f = 0 →
  frame_header (header_length (f :: b1 :: b2 :: b3 :: b4 :: rest)) = [f; b1; b2; b3; b4].
Proof.
  intros Hf. rewrite header_length_sum, frame_header_bytes.
  pose proof (ord_range b1). pose proof (ord_range b2).
  pose proof (ord_range b3). pose proof (ord_range b4).
  set (v := _ + ord b4).
  assert (v / 2 ^ 24 = 0 * 256 + ord b1) as ->
    by (symmetry; apply Z.div_unique with (ord b2 * 2 ^ 16 + ord b3 * 2 ^ 8 + ord b4); lia).
  assert (v / 2 ^ 16 = ord b1 * 256 + ord b2) as ->
    by (symmetry; apply Z.div_unique with (ord b3 * 2 ^ 8 + ord b4); lia).
  assert (v / 2 ^ 8 = (ord b1 * 256 + ord b2) * 256 + ord b3) as ->
    by (symmetry; apply Z.div_unique with (ord b4); lia).
  replace v with (((ord b1 * 256 + ord b2) * 256 + ord b3) * 256 + ord b4) by lia.
  rewrite !chr_digit. by rewrite <- (chr_ord f), Hf.
Qed.

Lemma header_length_range p : 0 ≤ header_length p < 2 ^ 32.
Proof.
  unfold header_length. rewrite be_value by auto with urpc.
  pose proof (byte_at_range p 1). pose proof (byte_at_range p 2).
  pose proof (byte_at_range p 3). pose proof (byte_at_range p 4). lia.
Qed.

Arguments header_length : simpl never.
Arguments byte_at : simpl never.
Arguments frame_header : simpl never.
Arguments EncodeFrame : simpl never.

(** ** The loop *)

Lemma consume_pass_measure d d' :
  decoder_wf d → consume_pass d = Again d' →
  (consume_measure d' < consume_measure d)%nat.
Proof.
  unfold consume_pass, consume_payload, consume_measure, kPrefixLen.
  intros (_ & Hneed & _) Hp. destruct d as [lim buf need [] fl ms mc]; simpl in *.
  - split_matches. rewrite length_drop. lia.
  - split_matches. rewrite !length_drop.
    match goal with H : (_ <? _)%nat = false |- _ => apply Nat.ltb_ge in H end. lia.
Qed.

(** What is queued and what is pending always frame the same bytes. *)
Definition framed_view (d : FrameDecoder) : bytes := frames (messages_ d) ++ pending_bytes d.

Lemma frames_app ms1 ms2 : frames (ms1 ++ ms2) = frames ms1 ++ frames ms2.
Proof. unfold frames. by rewrite map_app, concat_app. Qed.

Lemma EncodeFrame_header m :
  Z.of_nat (length m) < 2 ^ 32 →
  EncodeFrame m [] = frame_header (Z.of_nat (length m)) ++ m.
Proof. intros H. unfold EncodeFrame. rewrite u32_small by lia. done. Qed.

Lemma frames_single m : frames [m] = EncodeFrame m [].
Proof. unfold frames. simpl. by rewrite app_nil_r. Qed.

Definition result_decoder (r : loop_result) : FrameDecoder :=
  match r with Return _ d | Again d => d end.

Lemma consume_payload_view d :
  decoder_wf d → have_header_ d = true →
  decoder_wf (result_decoder (consume_payload d)) ∧
  framed_view (result_decoder (consume_payload d)) = framed_view d.
Proof.
  intros (Hlim & Hneed & Hms) Hh. destruct (Hneed Hh) as [Hn Hn32].
  unfold consume_payload. destruct (Z.ltb_spec (Z.of_nat (length (buffer_ d))) (needed_ d)).
  { by split. }
  destruct d as [lim buf need hh fl ms mc]; simpl in *; subst hh.
  assert (length (take (Z.to_nat need) buf) = Z.to_nat need) as Hlen.
  { rewrite length_take. lia. }
  split; [split_and!; simpl; [done..|]|].
  - apply Forall_app; split; [done|]. constructor; [rewrite Hlen; lia|constructor].
  - unfold framed_view, pending_bytes; simpl.
    rewrite frames_app, frames_single, EncodeFrame_header by (rewrite Hlen; lia).
    rewrite Hlen, Z2Nat.id by lia. rewrite <- !(assoc_L (++)). by rewrite take_drop.
Qed.

Lemma consume_pass_view d :
  decoder_wf d →
  decoder_wf (result_decoder (consume_pass d)) ∧
  framed_view (result_decoder (consume_pass d)) = framed_view d.
Proof.
  intros Hwf. unfold consume_pass, kPrefixLen.
  destruct (have_header_ d) eqn:Hh; [by apply consume_payload_view|].
  destruct (Nat.ltb_spec (length (buffer_ d)) 5) as [Hlt|Hge]; [by split|].
  destruct d as [lim buf need hh fl ms mc]; simpl in *; subst hh.
  pose proof Hwf as (Hlim & _ & Hms); simpl in Hlim, Hms.
  destruct buf as [|f [|b1 [|b2 [|b3 [|b4 rest]]]]]; simpl in Hge; try lia.
  change (byte_at (f :: _) 0) with (ord f).
  destruct (Z.eqb_spec (ord f) 0) as [Hf|]; simpl; [|split; [exact Hwf|done]].
  set (p := f :: b1 :: b2 :: b3 :: b4 :: rest).
  pose proof (header_length_range p) as Hr.
  destruct (Z.ltb_spec lim (header_length p)); [split; [exact Hwf|done]|].
  match goal with |- context [consume_payload ?d0] => set (d1 := d0) end.
  destruct (consume_payload_view d1) as [Hwf1 Hv1]; [|done|].
  { split_and!; simpl; [done| |done]. intros _. lia. }
  split; [done|]. rewrite Hv1. unfold d1, framed_view, pending_bytes.
  cbn [messages_ have_header_ needed_ buffer_ field_update]. unfold p. rewrite frame_header_header_length by done. done.
Qed.

(** A pass that returns [Ok] leaves the decoder waiting. *)
Lemma consume_pass_waiting d st d' :
  consume_pass d = Return st d' → ok st = true → st = Ok ∧ decoder_waiting d'.
Proof.
  unfold consume_pass, consume_payload, decoder_waiting. intros Hp Hok.
  destruct (have_header_ d) eqn:Hh.
  - case_match eqn:Hlt; simplify_eq. rewrite Hh. by apply Z.ltb_lt in Hlt.
  - case_match eqn:Hlt; simplify_eq/=.
    + rewrite Hh. by apply Nat.ltb_lt in Hlt.
    + repeat (case_match; simplify_eq/=); try done.
      split; [done|]. by apply Z.ltb_lt.
Qed.

(** The loop with fuel, as an unbounded loop: a pass more or less of fuel than
    the measure asks for changes nothing. *)
Lemma consume_loop_fuel d fuel1 fuel2 :
  decoder_wf d → (consume_measure d < fuel1)%nat → (consume_measure d < fuel2)%nat →
  consume_loop fuel1 d = consume_loop fuel2 d.
Proof.
  revert d fuel2. induction fuel1 as [|fuel1 IH]; intros d [|fuel2] Hwf H1 H2; try lia.
  simpl. destruct (consume_pass d) as [st d'|d'] eqn:Hp; [done|].
  pose proof (consume_pass_measure _ _ Hwf Hp).
  apply IH; [|lia..]. destruct (consume_pass_view d Hwf) as [Hwf' _]. by rewrite Hp in Hwf'.
Qed.

Definition consume_run (d : FrameDecoder) : option (Status * FrameDecoder) :=
  consume_loop (S (consume_measure d)) d.

Lemma consume_run_unfold d :
  decoder_wf d →
  consume_run d =
  match consume_pass d with
  | Return st d' => Some (st, d')
  | Again d' => consume_run d'
  end.
Proof.
  intros Hwf. unfold consume_run at 1. simpl.
  destruct (consume_pass d) as [st d'|d'] eqn:Hp; [done|].
  pose proof (consume_pass_measure _ _ Hwf Hp).
  apply consume_loop_fuel; [|lia..]. destruct (consume_pass_view d Hwf) as [Hwf' _].
  by rewrite Hp in Hwf'.
Qed.

(** Induction along the passes of the loop. *)
Lemma consume_run_ind (P : FrameDecoder → Prop) :
  (∀ d, decoder_wf d → (∀ d', decoder_wf d' → consume_pass d = Again d' → P d') → P d) →
  ∀ d, decoder_wf d → P d.
Proof.
  intros Hstep d. remember (consume_measure d) as n eqn:Hn. revert d Hn.
  induction n as [n IH] using lt_wf_ind; intros d -> Hwf.
  apply Hstep; [done|]. intros d' Hwf' Hp.
  eapply IH; [|done..]. by apply consume_pass_measure.
Qed.

Lemma consume_payload_limit d :
  max_message_size_ (result_decoder (consume_payload d)) = max_message_size_ d.
Proof. unfold consume_payload. by case_match. Qed.

Lemma consume_pass_limit d :
  max_message_size_ (result_decoder (consume_pass d)) = max_message_size_ d.
Proof.
  unfold consume_pass. repeat case_match; try done; by rewrite consume_payload_limit.
Qed.

Lemma consume_run_limit d st d' :
  decoder_wf d → consume_run d = Some (st, d') → max_message_size_ d' = max_message_size_ d.
Proof.
  intros Hwf. revert d Hwf st d'. apply (consume_run_ind (λ d, ∀ st d', _ → _)).
  intros d Hwf IH st d' Hrun. rewrite consume_run_unfold in Hrun by done.
  pose proof (consume_pass_limit d) as Hl. destruct (consume_pass_view d Hwf) as [Hwf1 _].
  destruct (consume_pass d) as [st1 d1|d1]; simpl in *; [by simplify_eq|].
  rewrite <- Hl. by eapply IH.
Qed.

Lemma consume_run_view d st d' :
  decoder_wf d → consume_run d = Some (st, d') →
  decoder_wf d' ∧ framed_view d' = framed_view d ∧
  (ok st = true → st = Ok ∧ decoder_waiting d').
Proof.
  intros Hwf. revert d Hwf st d'. apply (consume_run_ind (λ d, ∀ st d', _ → _)).
  intros d Hwf IH st d' Hrun. rewrite consume_run_unfold in Hrun by done.
  destruct (consume_pass_view d Hwf) as [Hwf1 Hv1].
  destruct (consume_pass d) as [st1 d1|d1] eqn:Hp; simpl in *.
  - simplify_eq. split_and!; [done..|]. by eapply consume_pass_waiting.
  - destruct (IH d1 Hwf1 eq_refl _ _ Hrun) as (? & ? & ?). split_and!; congruence || done.
Qed.

Lemma consume_run_total d : decoder_wf d → is_Some (consume_run d).
Proof.
  revert d. apply consume_run_ind. intros d Hwf IH. rewrite consume_run_unfold by done.
  destruct (consume_pass_view d Hwf) as [Hwf1 _].
  destruct (consume_pass d) as [st1 d1|d1] eqn:Hp; [done|]. by apply IH.
Qed.

(** ** Extending the buffer *)
Definition extend (b : bytes) (d : FrameDecoder) : FrameDecoder :=
  d <| buffer_ ::= λ buf, buf ++ b |>.

Lemma extend_app a b d : extend b (extend a d) = extend (a ++ b) d.
Proof. unfold extend. cbn. by rewrite (assoc_L (++)). Qed.

Lemma extend_wf b d : decoder_wf d → decoder_wf (extend b d).
Proof. done. Qed.
#[export] Hint Resolve extend_wf : urpc.

(** How a pass changes when more bytes follow: a pass that went round or
    failed does the same, a pass that ran dry continues from where it stopped. *)
Definition pass_extends (b : bytes) (r r' : loop_result) (resume : loop_result) : Prop :=
  match r with
  | Again d' => r' = Again (extend b d')
  | Return st d' => if ok st then r' = resume else r' = Return st (extend b d')
  end.

Lemma consume_payload_extend b d :
  pass_extends b (consume_payload d) (consume_payload (extend b d))
    (consume_payload (extend b d)).
Proof.
  unfold consume_payload, extend; cbn [buffer_ needed_ field_update].
  destruct (Z.ltb_spec (Z.of_nat (length (buffer_ d))) (needed_ d)); simpl; [done|].
  rewrite length_app. destruct (Z.ltb_spec (Z.of_nat (length (buffer_ d) + length b)) (needed_ d));
    [lia|].
  cbn. rewrite take_app_le, drop_app_le by lia. done.
Qed.

Lemma byte_at_app p b i : (i < length p)%nat → byte_at (p ++ b) i = byte_at p i.
Proof. intros Hi. unfold byte_at. by rewrite lookup_app_l. Qed.

Lemma header_length_app p b : (5 ≤ length p)%nat → header_length (p ++ b) = header_length p.
Proof. intros Hp. unfold header_length. by rewrite !byte_at_app by lia. Qed.

(** Where a pass without a header leads when the prefix is there. *)
Definition consume_header (d : FrameDecoder) : FrameDecoder :=
  d <| flag_ := byte_at (buffer_ d) 0 |>
    <| needed_ := header_length (buffer_ d) |> <| have_header_ := true |>
    <| buffer_ ::= drop kPrefixLen |>.

Lemma consume_header_extend b d :
  (5 ≤ length (buffer_ d))%nat → consume_header (extend b d) = extend b (consume_header d).
Proof.
  intros H. unfold consume_header, extend, kPrefixLen; simpl.
  by rewrite byte_at_app, header_length_app, drop_app_le by lia.
Qed.

(** The three ways a pass goes. *)
Lemma consume_pass_cases d :
  (have_header_ d = true ∧ consume_pass d = consume_payload d) ∨
  (have_header_ d = false ∧ (length (buffer_ d) < 5)%nat ∧ consume_pass d = Return Ok d) ∨
  (have_header_ d = false ∧ (5 ≤ length (buffer_ d))%nat ∧
   ∃ st, ok st = false ∧ ∀ b, consume_pass (extend b d) =
     Return st (extend b (d <| flag_ := byte_at (buffer_ d) 0 |>))) ∨
  (have_header_ d = false ∧ (5 ≤ length (buffer_ d))%nat ∧
   ∀ b, consume_pass (extend b d) = consume_payload (consume_header (extend b d))).
Proof.
  destruct d as [lim buf need [] fl ms mc]; [by left|right].
  unfold consume_pass, kPrefixLen, extend; simpl.
  destruct (Nat.ltb_spec (length buf) 5) as [Hlt|Hge]; [by left|right].
  assert (∀ b, (length (buf ++ b) <? 5)%nat = false) as Hb.
  { intros b. apply Nat.ltb_ge. rewrite length_app. lia. }
  destruct (negb (byte_at buf 0 =? 0)) eqn:Hf.
  { left. split_and!; [done..|]. exists compressed_error. split; [done|].
    intros b. rewrite Hb, byte_at_app, Hf by lia. done. }
  destruct (lim <? header_length buf) eqn:Hl.
  { left. split_and!; [done..|]. eexists. split; [|intros b].
    2: { rewrite Hb, byte_at_app, Hf, header_length_app, Hl by lia. reflexivity. }
    done. }
  right. split_and!; [done..|]. intros b.
  rewrite Hb, byte_at_app, Hf, header_length_app, Hl by lia.
  unfold consume_header; simpl. rewrite byte_at_app, header_length_app by lia. done.
Qed.

Lemma extend_nil d : extend [] d = d.
Proof. destruct d. unfold extend. simpl. by rewrite app_nil_r. Qed.

(** A payload pass that ran dry is resumed by a pass over the extended buffer. *)
Lemma consume_payload_resume b d :
  have_header_ d = true →
  pass_extends b (consume_payload d) (consume_payload (extend b d))
    (consume_pass (extend b (result_decoder (consume_payload d)))).
Proof.
  intros Hh. pose proof (consume_payload_extend b d) as Hp. unfold pass_extends in *.
  destruct (consume_payload d) as [st d'|d'] eqn:Hd; [|done].
  unfold consume_payload in Hd. destruct (_ <? _); simplify_eq.
  simpl. unfold consume_pass. simpl. by rewrite Hh.
Qed.

Lemma consume_pass_extend b d :
  pass_extends b (consume_pass d) (consume_pass (extend b d))
    (consume_pass (extend b (result_decoder (consume_pass d)))).
Proof.
  destruct (consume_pass_cases d) as
    [[Hh Hp]|[(Hh & Hlt & Hp)|[(Hh & Hge & st & Hst & Hp)|(Hh & Hge & Hp)]]].
  - rewrite Hp. assert (consume_pass (extend b d) = consume_payload (extend b d)) as ->
      by (unfold consume_pass; simpl; by rewrite Hh).
    by apply consume_payload_resume.
  - by rewrite Hp.
  - pose proof (Hp []) as Hp0. rewrite !extend_nil in Hp0. rewrite Hp0, (Hp b).
    simpl. by rewrite Hst.
  - pose proof (Hp []) as Hp0. rewrite !extend_nil in Hp0. rewrite Hp0, (Hp b).
    rewrite consume_header_extend by done. by apply consume_payload_resume.
Qed.

Lemma consume_run_extend b d st d' :
  decoder_wf d → consume_run d = Some (st, d') →
  consume_run (extend b d) =
    if ok st then consume_run (extend b d') else Some (st, extend b d').
Proof.
  intros Hwf. revert d Hwf st d'. apply (consume_run_ind (λ d, ∀ st d', _ → _)).
  intros d Hwf IH st d' Hrun. rewrite consume_run_unfold in Hrun by done.
  rewrite (consume_run_unfold (extend b d)) by auto with urpc.
  pose proof (consume_pass_extend b d) as Hx. unfold pass_extends in Hx.
  destruct (consume_pass_view d Hwf) as [Hwf1 _].
  destruct (consume_pass d) as [st1 d1|d1] eqn:Hp; cbn [result_decoder] in *.
  - injection Hrun as -> ->. destruct (ok st); rewrite Hx; [|done].
    by rewrite consume_run_unfold by auto with urpc.
  - rewrite Hx. by apply IH.
Qed.

(** ** Consume *)
Lemma Consume_run data d :
  decoder_wf d → Some (Consume data d) = consume_run (extend data d).
Proof.
  intros Hwf. unfold Consume. fold (extend data d). fold (consume_run (extend data d)).
  destruct (consume_run_total (extend data d)) as [r Hr]; [done|]. by rewrite Hr.
Qed.

Lemma Consume_view data d st d' :
  decoder_wf d → Consume data d = (st, d') →
  decoder_wf d' ∧ framed_view d' = framed_view d ++ data ∧
  (ok st = true → st = Ok ∧ decoder_waiting d').
Proof.
  intros Hwf HC. pose proof (Consume_run data d Hwf) as Hrun. rewrite HC in Hrun.
  destruct (consume_run_view _ _ _ (extend_wf data d Hwf) (eq_sym Hrun)) as (? & Hv & ?).
  split_and!; [done| |done]. rewrite Hv. unfold framed_view, pending_bytes, extend. cbn.
  by rewrite !(assoc_L (++)).
Qed.

Lemma Consume_limit data d st d' :
  decoder_wf d → Consume data d = (st, d') → max_message_size_ d' = max_message_size_ d.
Proof.
  intros Hwf HC. pose proof (Consume_run data d Hwf) as Hrun. rewrite HC in Hrun.
  by apply (consume_run_limit (extend data d) st).
Qed.

Lemma newFrameDecoder_wf limit : 0 ≤ limit → decoder_wf (newFrameDecoder limit).
Proof. intros H. split_and!; simpl; [done|done|constructor]. Qed.
#[export] Hint Resolve newFrameDecoder_wf : urpc.

(** Cutting the input in two changes nothing as long as no error is reported. *)
Lemma Consume_app_step a b d :
  decoder_wf d →
  Consume (a ++ b) d =
    let '(st, d1) := Consume a d in
    if ok st then Consume b d1 else (st, extend b d1).
Proof.
  intros Hwf. apply (inj Some). rewrite Consume_run by done. rewrite <- extend_app.
  pose proof (Consume_run a d Hwf) as Ha.
  destruct (Consume a d) as [st d1] eqn:HCa.
  erewrite consume_run_extend by (done || by rewrite <- Ha).
  destruct (Consume_view _ _ _ _ Hwf HCa) as (Hwf1 & _ & _).
  destruct (ok st); [|done]. by rewrite Consume_run.
Qed.

Lemma Consume_nil d : decoder_wf d → decoder_waiting d → Consume [] d = (Ok, d).
Proof.
  intros Hwf Hw. apply (inj Some). rewrite Consume_run, extend_nil by done.
  rewrite consume_run_unfold by done. unfold decoder_waiting, consume_pass, consume_payload in *.
  destruct (have_header_ d).
  - by apply Z.ltb_lt in Hw as ->.
  - by apply Nat.ltb_lt in Hw as ->.
Qed.

(** A stream cut into chunks and the stream in one piece. *)
Lemma feed_concat chunks d :
  decoder_wf d → decoder_waiting d →
  (Consume (concat chunks) d).1 = (feed d chunks).1 ∧
  messages_ (Consume (concat chunks) d).2 = messages_ (feed d chunks).2 ∧
  (ok (feed d chunks).1 = true → Consume (concat chunks) d = feed d chunks).
Proof.
  revert d. induction chunks as [|c cs IH]; intros d Hwf Hw; simpl.
  { by rewrite Consume_nil. }
  rewrite Consume_app_step by done. destruct (Consume c d) as [st d1] eqn:HC.
  destruct (Consume_view _ _ _ _ Hwf HC) as (Hwf1 & _ & Hok).
  destruct (ok st) eqn:Hst; [|simpl; by rewrite Hst].
  apply IH; [done|]. by apply Hok.
Qed.

Lemma feed_view chunks d d' :
  decoder_wf d → decoder_waiting d → feed d chunks = (Ok, d') →
  max_message_size_ d' = max_message_size_ d ∧ decoder_wf d' ∧ decoder_waiting d' ∧
  framed_view d' = framed_view d ++ concat chunks.
Proof.
  revert d. induction chunks as [|c cs IH]; intros d Hwf Hw Hf; simpl in *.
  { simplify_eq. by rewrite app_nil_r. }
  destruct (Consume c d) as [st d1] eqn:HC.
  destruct (Consume_view _ _ _ _ Hwf HC) as (Hwf1 & Hv1 & Hok).
  pose proof (Consume_limit _ _ _ _ Hwf HC) as Hl1.
  destruct (ok st) eqn:Hst; [|simplify_eq; done].
  destruct (IH d1 Hwf1) as (? & ? & ? & Hv); [by apply Hok|done|].
  split_and!; [congruence|done..|]. by rewrite Hv, Hv1, (assoc_L (++)).
Qed.

(** A failed pass fails again, with the same status, when more bytes follow. *)
Lemma consume_pass_error b d st d' :
  consume_pass d = Return st d' → ok st = false →
  consume_pass (extend b d') = Return st (extend b d').
Proof.
  intros Hp Hst. destruct (consume_pass_cases d) as
    [[Hh Hc]|[(Hh & Hlt & Hc)|[(Hh & Hge & st' & Hst' & Hc)|(Hh & Hge & Hc)]]].
  - rewrite Hc in Hp. unfold consume_payload in Hp. by case_match; simplify_eq.
  - rewrite Hc in Hp. by simplify_eq.
  - pose proof (Hc []) as H0. rewrite !extend_nil, Hp in H0. injection H0 as -> ->.
    pose proof (Hc b) as Hb. destruct d as [lim buf need hh fl ms mc]; simpl in *; subst hh.
    unfold consume_pass, kPrefixLen, extend in *; simpl in *.
    assert ((length (buf ++ b) <? 5)%nat = false) as Hl
      by (apply Nat.ltb_ge; rewrite length_app; lia).
    rewrite Hl in *. exact Hb.
  - pose proof (Hc []) as H0. rewrite !extend_nil, Hp in H0.
    unfold consume_payload in H0. by case_match; simplify_eq.
Qed.

Lemma consume_run_error b d st d' :
  decoder_wf d → consume_run d = Some (st, d') → ok st = false →
  consume_run (extend b d') = Some (st, extend b d').
Proof.
  intros Hwf. revert d Hwf st d'. apply (consume_run_ind (λ d, ∀ st d', _ → _ → _)).
  intros d Hwf IH st d' Hrun Hst. rewrite consume_run_unfold in Hrun by done.
  destruct (consume_pass_view d Hwf) as [Hwf1 _].
  destruct (consume_pass d) as [st1 d1|d1] eqn:Hp; simpl in *; [|by eapply IH].
  simplify_eq. rewrite consume_run_unfold by auto with urpc.
  by rewrite (consume_pass_error b d st d').
Qed.

(** The decoder after a message has left the buffer. *)
Definition decoded (m : bytes) (rest : bytes) (d : FrameDecoder) : FrameDecoder :=
  d <| buffer_ := rest |> <| messages_ ::= λ q, q ++ [m] |>
    <| flag_ := 0 |> <| needed_ := 0 |> <| have_header_ := false |>.

Lemma consume_run_frame m rest d :
  decoder_wf d → have_header_ d = false → fits (max_message_size_ d) m →
  buffer_ d = EncodeFrame m [] ++ rest →
  consume_run d = consume_run (decoded m rest d).
Proof.
  intros Hwf Hh [Hm1 Hm2] Hbuf. rewrite consume_run_unfold by done.
  rewrite EncodeFrame_header in Hbuf by done.
  assert (byte_at (buffer_ d) 0 = 0) as Hflag.
  { rewrite Hbuf, frame_header_bytes. apply (ord_chr 0). }
  assert (header_length (buffer_ d) = Z.of_nat (length m)) as Hlen.
  { rewrite Hbuf, <- (assoc_L (++)). apply header_length_frame_header. lia. }
  assert (drop 5 (buffer_ d) = m ++ rest) as Hdrop.
  { rewrite Hbuf, frame_header_bytes. done. }
  assert ((length (buffer_ d) <? 5)%nat = false) as Hlong.
  { apply Nat.ltb_ge. rewrite Hbuf, frame_header_bytes. simpl. lia. }
  unfold consume_pass, kPrefixLen. simpl. rewrite Hh, Hlong, Hflag, Hlen. simpl.
  destruct (Z.ltb_spec (max_message_size_ d) (Z.of_nat (length m))); [lia|].
  unfold consume_payload; simpl. rewrite Hdrop, length_app, Nat2Z.id.
  destruct (Z.ltb_spec (Z.of_nat (length m + length rest)) (Z.of_nat (length m))); [lia|].
  by rewrite take_app_length, drop_app_length.
Qed.

Lemma Consume_frames msgs d :
  decoder_wf d → have_header_ d = false → needed_ d = 0 → flag_ d = 0 → buffer_ d = [] →
  Forall (fits (max_message_size_ d)) msgs →
  Consume (frames msgs) d = (Ok, d <| messages_ ::= λ q, q ++ msgs |>).
Proof.
  intros Hwf Hh Hn Hf Hb Hfits. apply (inj Some). rewrite Consume_run by done.
  assert (extend (frames msgs) d = d <| buffer_ := frames msgs |>) as ->.
  { unfold extend. simpl. by rewrite Hb. }
  revert d Hwf Hh Hn Hf Hb Hfits. induction msgs as [|m ms IH]; intros d Hwf Hh Hn Hf Hb Hfits.
  - destruct d; simpl in *; subst. rewrite consume_run_unfold by done. simpl.
    by rewrite app_nil_r.
  - apply Forall_cons in Hfits as [Hm Hms].
    rewrite (consume_run_frame m (frames ms)) by (done || by apply Hm).
    specialize (IH (decoded m [] d)). unfold decoded in *; simpl in *.
    rewrite Hn, Hf, Hb, Hh, <- (assoc_L (++)) in *. apply IH; [|done..].
    destruct Hwf as (? & ? & Hq). split_and!; simpl; [done|done|].
    apply Forall_app; split; [done|]. constructor; [apply Hm|constructor].
Qed.

(** A framing cut into chunks. *)
Lemma feed_frames limit msgs chunks :
  0 ≤ limit → Forall (fits limit) msgs → concat chunks = frames msgs →
  feed (newFrameDecoder limit) chunks =
    (Ok, (newFrameDecoder limit) <| messages_ := msgs |>).
Proof.
  intros Hl Hfits Hcat.
  pose proof (Consume_frames msgs (newFrameDecoder limit) (newFrameDecoder_wf _ Hl)
    eq_refl eq_refl eq_refl eq_refl Hfits) as HC.
  destruct (feed_concat chunks (newFrameDecoder limit)) as (Hst & _ & Heq);
    [by apply newFrameDecoder_wf|unfold decoder_waiting; simpl; unfold kPrefixLen; lia|].
  rewrite Hcat, HC in *. symmetry. apply Heq. by rewrite <- Hst.
Qed.

(** *** Feeding in two parts *)
Lemma feed_app d cs cs' :
  feed d (cs ++ cs') = let '(st, d1) := feed d cs in if ok st then feed d1 cs' else (st, d1).
Proof.
  revert d. induction cs as [|c cs IH]; intros d; simpl; [done|].
  destruct (Consume c d) as [st d1]. destruct (ok st) eqn:Hst; [apply IH|by rewrite Hst].
Qed.

Lemma ok_Ok_feed d cs st d' : feed d cs = (st, d') → ok st = true → decoder_wf d → st = Ok.
Proof.
  revert d. induction cs as [|c cs IH]; intros d; simpl; [by intros [= <- <-]|].
  destruct (Consume c d) as [st1 d1] eqn:HC. intros Hf Hst Hwf.
  destruct (Consume_view _ _ _ _ Hwf HC) as (Hwf1 & _ & _).
  destruct (ok st1) eqn:Hst1; [by eapply IH|]. simplify_eq. congruence.
Qed.

(** *** The queue does not matter to the loop *)

(** The decoder with further messages in front of its queue, and another count
    of the messages taken. *)
Definition requeue (pre : list bytes) (n : Z) (d : FrameDecoder) : FrameDecoder :=
  d <| messages_ ::= λ q, pre ++ q |> <| message_count_ := n |>.

Definition requeue_result (pre : list bytes) (n : Z) (r : loop_result) : loop_result :=
  match r with Return st d => Return st (requeue pre n d) | Again d => Again (requeue pre n d) end.

Lemma consume_payload_requeue pre n d :
  consume_payload (requeue pre n d) = requeue_result pre n (consume_payload d).
Proof.
  unfold consume_payload, requeue. simpl. destruct (_ <? _); [done|]. simpl.
  by rewrite <-(assoc_L (++)).
Qed.

Lemma consume_pass_requeue pre n d :
  consume_pass (requeue pre n d) = requeue_result pre n (consume_pass d).
Proof.
  unfold consume_pass. simpl. destruct (have_header_ d); [apply consume_payload_requeue|].
  destruct (_ <? _)%nat; [done|]. destruct (negb _); [done|]. destruct (_ <? _); [done|].
  rewrite <-consume_payload_requeue. done.
Qed.

Lemma Consume_requeue pre n b d :
  Consume b (requeue pre n d) = let '(st, d) := Consume b d in (st, requeue pre n d).
Proof.
  unfold Consume. set (d0 := d <| buffer_ ::= λ b0, b0 ++ b |>).
  change ((requeue pre n d) <| buffer_ ::= λ b0, b0 ++ b |>) with (requeue pre n d0).
  change (consume_measure (requeue pre n d0)) with (consume_measure d0).
  generalize (S (consume_measure d0)). intros fuel.
  assert (consume_loop fuel (requeue pre n d0) =
    (λ r, (r.1, requeue pre n r.2)) <$> consume_loop fuel d0) as ->.
  { clearbody d0. revert d0. induction fuel as [|fuel IH]; intros d0; [done|]. simpl.
    rewrite consume_pass_requeue. destruct (consume_pass d0); simpl; [done|apply IH]. }
  by destruct (consume_loop fuel d0) as [[st d']|].
Qed.

Lemma feed_requeue pre n chunks d :
  feed (requeue pre n d) chunks = let '(st, d) := feed d chunks in (st, requeue pre n d).
Proof.
  revert d. induction chunks as [|c cs IH]; intros d; simpl; [done|].
  rewrite Consume_requeue. destruct (Consume c d) as [st d1]. destruct (ok st); [apply IH|done].
Qed.

(** ** Properties *)

(** C35: Round trip through any fragmentation.  The framing of a list of
    messages within the receive limit, cut into chunks in any way at all (in
    the middle of a prefix, empty chunks included), decodes without error to
    exactly those messages, in order, and leaves nothing in the buffer. *)
Theorem decode_any_chunking limit msgs chunks :
  0 ≤ limit → Forall (fits limit) msgs → concat chunks = frames msgs →
  feed (newFrameDecoder limit) chunks =
    (Ok, (newFrameDecoder limit) <| messages_ := msgs |>).
Proof. apply feed_frames. Qed.

Lemma decode_any_chunking_witness :
  let m1 := [chr 1; chr 2; chr 3] in
  let w := frames [m1; []] in
  feed (newFrameDecoder 4) [take 2 w; []; drop 2 w] =
    (Ok, (newFrameDecoder 4) <| messages_ := [m1; []] |>).
Proof.
  apply decode_any_chunking; [lia| |vm_compute; reflexivity].
  repeat constructor; simpl; lia.
Defined.

(** Soundness of decoding.  When a stream is accepted, its bytes are the
    framing of the queued messages followed by the bytes the decoder still
    holds; every queued message is within the limit, and what is held back is
    less than a prefix or less than one announced payload, so the memory of a
    connection's decoder is bounded by the limit. *)
Theorem decode_sound limit chunks d :
  0 ≤ limit → feed (newFrameDecoder limit) chunks = (Ok, d) →
  concat chunks = frames (messages_ d) ++ pending_bytes d ∧
  Forall (λ m, Z.of_nat (length m) ≤ limit) (messages_ d) ∧
  Z.of_nat (length (buffer_ d)) < Z.max 5 limit.
Proof.
  intros Hl Hfeed.
  destruct (feed_view chunks (newFrameDecoder limit) d) as (Hlim & (_ & Hneed & Hms) & Hw & Hv);
    [by apply newFrameDecoder_wf|unfold decoder_waiting; simpl; unfold kPrefixLen; lia|done|].
  simpl in Hlim. rewrite Hlim in *. split_and!; [symmetry; exact Hv|done|].
  unfold decoder_waiting, kPrefixLen in Hw. destruct (have_header_ d); [|lia].
  destruct (Hneed eq_refl). lia.
Qed.

Lemma decode_sound_witness :
  let chunks := [take 4 (frames [[chr 7]]); drop 4 (frames [[chr 7]]) ++ [chr 0; chr 0]] in
  let d := (feed (newFrameDecoder 4) chunks).2 in
  concat chunks = frames (messages_ d) ++ pending_bytes d ∧
  Forall (λ m, Z.of_nat (length m) ≤ 4) (messages_ d) ∧
  Z.of_nat (length (buffer_ d)) < Z.max 5 4.
Proof. intros chunks d. apply decode_sound; [lia|vm_compute; reflexivity]. Defined.

(** C36: Chunk independence.  For a decoder that waits for more bytes, feeding a
    stream piecewise (stopping at the first error, as the callers do) gives the
    status and the queued messages that feeding it in one piece gives: no
    fragmentation by the transport changes what is decoded or refused. *)
Theorem feed_chunk_independent limit chunks chunks' :
  0 ≤ limit → concat chunks = concat chunks' →
  (feed (newFrameDecoder limit) chunks).1 = (feed (newFrameDecoder limit) chunks').1 ∧
  messages_ (feed (newFrameDecoder limit) chunks).2 =
    messages_ (feed (newFrameDecoder limit) chunks').2.
Proof.
  intros Hl Hcat. set (d := newFrameDecoder limit).
  assert (decoder_wf d) by by apply newFrameDecoder_wf.
  assert (decoder_waiting d) by (unfold decoder_waiting; simpl; unfold kPrefixLen; lia).
  destruct (feed_concat chunks d) as (<- & <- & _); [done..|].
  destruct (feed_concat chunks' d) as (<- & <- & _); [done..|]. by rewrite Hcat.
Qed.

Lemma feed_chunk_independent_witness :
  let w := frames [[chr 1; chr 2]] ++ [chr 1; chr 0; chr 0; chr 0; chr 0; chr 9] in
  (feed (newFrameDecoder 4) [w]).1 = (feed (newFrameDecoder 4) (map (λ c, [c]) w)).1.
Proof. apply feed_chunk_independent; [lia|vm_compute; reflexivity]. Defined.

(** C37: The decoding loop terminates.  The passes the loop makes are fewer than
    the buffered bytes plus two, on any well-formed decoder, so [Consume]
    always returns a status and a well-formed decoder. *)
Theorem consume_terminates data d :
  decoder_wf d →
  ∃ st d', consume_loop (S (S (length (buffer_ d) + length data))) (extend data d) = Some (st, d') ∧
    Consume data d = (st, d') ∧ decoder_wf d'.
Proof.
  intros Hwf. destruct (Consume data d) as [st d'] eqn:HC. exists st, d'.
  destruct (Consume_view _ _ _ _ Hwf HC) as (Hwf' & _ & _).
  split_and!; [|done..]. rewrite <- HC, Consume_run by done. unfold consume_run.
  apply consume_loop_fuel; [done| |lia].
  unfold consume_measure, extend; simpl. rewrite length_app. case_match; lia.
Qed.

Lemma consume_terminates_witness :
  ∃ st d', consume_loop 9 (extend [chr 0; chr 0; chr 0; chr 0; chr 1; chr 5; chr 0]
    (newFrameDecoder 1)) = Some (st, d') ∧
    Consume [chr 0; chr 0; chr 0; chr 0; chr 1; chr 5; chr 0] (newFrameDecoder 1) = (st, d') ∧
    decoder_wf d'.
Proof. apply consume_terminates. apply newFrameDecoder_wf. lia. Defined.

(** A framing violation at the head of the buffer, with its status. *)
Definition violation (limit : Z) (p : bytes) : option Status :=
  if negb (byte_at p 0 =? 0) then Some compressed_error
  else if limit <? header_length p then Some (oversize_error (header_length p) limit)
  else None.

(** Framing errors.  When the messages before it are within the limit, a
    prefix with a compression flag is refused with INTERNAL and one that
    announces more than the limit with RESOURCE_EXHAUSTED, whatever follows and
    however the stream is cut; the messages before the violation stay queued. *)
Theorem decode_violation limit msgs p rest st chunks :
  0 ≤ limit → Forall (fits limit) msgs → length p = 5%nat → violation limit p = Some st →
  concat chunks = frames msgs ++ p ++ rest →
  (feed (newFrameDecoder limit) chunks).1 = st ∧
  messages_ (feed (newFrameDecoder limit) chunks).2 = msgs.
Proof.
  intros Hl Hfits Hp Hv Hcat. set (d := newFrameDecoder limit).
  assert (decoder_wf d) by by apply newFrameDecoder_wf.
  destruct (feed_concat chunks d) as (<- & <- & _);
    [done|unfold decoder_waiting; simpl; unfold kPrefixLen; lia|].
  rewrite Hcat, Consume_app_step by done.
  rewrite (Consume_frames msgs d) by done. simpl.
  match goal with |- context [Consume _ ?x] => set (d1 := x) end.
  assert (decoder_wf d1) as Hwf1.
  { split_and!; simpl; [done|done|]. eapply Forall_impl; [done|]. by intros m [? _]. }
  enough (Consume (p ++ rest) d1 = (st, (extend (p ++ rest) d1) <| flag_ := byte_at p 0 |>))
    as -> by done.
  apply (inj Some). rewrite Consume_run, consume_run_unfold by auto with urpc.
  unfold violation in Hv. unfold consume_pass, kPrefixLen; simpl.
  rewrite length_app, byte_at_app, header_length_app by lia.
  destruct (Nat.ltb_spec (length p + length rest) 5); [lia|].
  destruct (negb (byte_at p 0 =? 0)); [by simplify_eq|].
  destruct (limit <? header_length p); [|done]. simplify_eq. done.
Qed.

Lemma decode_violation_witness :
  (feed (newFrameDecoder 4) [frames [[chr 1]] ++ [chr 0; chr 0; chr 0; chr 0; chr 5] ++ []]).1 =
    oversize_error 5 4.
Proof.
  apply (decode_violation 4 [[chr 1]] [chr 0; chr 0; chr 0; chr 0; chr 5] []); [lia| |reflexivity| |].
  - repeat constructor; simpl; lia.
  - vm_compute. reflexivity.
  - vm_compute. reflexivity.
Defined.

(** Errors are sticky.  Once [Consume] has refused the stream, every later
    [Consume] refuses it with the same status and queues nothing. *)
Theorem consume_error_sticky a b d st d1 :
  decoder_wf d → Consume a d = (st, d1) → ok st = false →
  (Consume b d1).1 = st ∧ messages_ (Consume b d1).2 = messages_ d1.
Proof.
  intros Hwf HC Hst. pose proof (Consume_run a d Hwf) as Hrun. rewrite HC in Hrun.
  destruct (Consume_view _ _ _ _ Hwf HC) as (Hwf1 & _ & _).
  enough (Consume b d1 = (st, extend b d1)) as -> by done.
  apply (inj Some). rewrite Consume_run by done.
  by apply (consume_run_error b (extend a d)).
Qed.

Lemma consume_error_sticky_witness :
  (Consume [chr 0; chr 0] (Consume [chr 1; chr 0; chr 0; chr 0; chr 0]
     (newFrameDecoder 4)).2).1 = compressed_error.
Proof.
  eapply (consume_error_sticky [chr 1; chr 0; chr 0; chr 0; chr 0] [chr 0; chr 0]
    (newFrameDecoder 4)); [apply newFrameDecoder_wf; lia|reflexivity|reflexivity].
Defined.
