(* ===== verification/Router.v ===== *)
(** * The method router (core/include/urpc/core/router.h, core/source/urpc_router.cpp)

    A registry of handlers by path.  The code swaps an immutable snapshot under
    a mutex: a reader works on the map that was current when it looked, which is
    what a value of type [gmap] is, and the registrations are serialized by the
    lock, which is what the sequence of calls is. *)
From S2P Require Import Prelude Status.

Inductive MethodForm := kUnary | kServerStreaming | kClientStreaming | kBidi.
#[export] Instance MethodForm_eq_dec : EqDecision MethodForm.
Proof. solve_decision. Defined.

(** A [std::function] handler is the code it refers to, or empty ([None]). *)
Section Router.
Context {UH SH : Type}.

Record HandlerEntry := mkEntry {
  form : MethodForm;
  unary : option UH;
  stream : option SH
}.
(** The default member initializers. *)
Definition default_entry : HandlerEntry := mkEntry kUnary None None.

Record Router := mkRouter { snapshot_ : gmap string HandlerEntry }.
Definition newRouter : Router := mkRouter ∅.

Definition invalid_registration (path : string) : Status :=
  mkStatus kInternal ("invalid registration: " +:+ path).
Definition duplicate_path (path : string) : Status :=
  mkStatus kInternal ("duplicate method path: " +:+ path +:+ " (rejected)").
Definition not_streaming (path : string) : Status :=
  mkStatus kInternal ("RegisterStream requires a streaming form: " +:+ path).

(** [path.empty() || path.front() != '/'] *)
Definition bad_path (path : string) : bool :=
  match path with
  | EmptyString => true
  | String c _ => negb (Ascii.eqb c "/")
  end.

Definition is_null {A} (f : option A) : bool :=
  match f with Some _ => false | None => true end.

Definition RegisterUnary (path : string) (handler : option UH) (r : Router) : Status * Router :=
  if bad_path path || is_null handler then (invalid_registration path, r)
  else
    let next := snapshot_ r in
    match next !! path with
    | Some _ => (duplicate_path path, r)
    | None => (Ok, mkRouter (<[path := mkEntry kUnary handler None]> next))
    end.

Definition RegisterStream (path : string) (f : MethodForm) (handler : option SH)
    (r : Router) : Status * Router :=
  if bad_path path || is_null handler then (invalid_registration path, r)
  else if decide (f = kUnary) then (not_streaming path, r)
  else
    let next := snapshot_ r in
    match next !! path with
    | Some _ => (duplicate_path path, r)
    | None => (Ok, mkRouter (<[path := mkEntry f None handler]> next))
    end.

Definition Find (path : string) (r : Router) : option HandlerEntry := snapshot_ r !! path.

Definition router_size (r : Router) : nat := size (snapshot_ r).

(** ** Registrations as requests *)
Inductive registration :=
  | RegUnary (path : string) (h : option UH)
  | RegStream (path : string) (f : MethodForm) (h : option SH).

Definition register (q : registration) (r : Router) : Status * Router :=
  match q with
  | RegUnary path h => RegisterUnary path h r
  | RegStream path f h => RegisterStream path f h r
  end.

(** A sequence of registrations, with the status each one got. *)
Fixpoint register_all (qs : list registration) (r : Router) : list Status * Router :=
  match qs with
  | [] => ([], r)
  | q :: qs =>
      let '(st, r) := register q r in
      let '(sts, r) := register_all qs r in
      (st :: sts, r)
  end.

(** The entry that an acceptable registration asks for. *)
Definition requested (q : registration) : option (string * HandlerEntry) :=
  match q with
  | RegUnary path h =>
      if bad_path path || is_null h then None else Some (path, mkEntry kUnary h None)
  | RegStream path f h =>
      if bad_path path || is_null h then None
      else if decide (f = kUnary) then None else Some (path, mkEntry f None h)
  end.

(** The specification: the first acceptable registration of a path decides. *)
Fixpoint first_requested (path : string) (qs : list registration) : option HandlerEntry :=
  match qs with
  | [] => None
  | q :: qs =>
      match requested q with
      | Some (p, e) => if decide (p = path) then Some e else first_requested path qs
      | None => first_requested path qs
      end
  end.

(** Exactly the handler of the entry's form is there. *)
Definition entry_wf (e : HandlerEntry) : Prop :=
  match form e with
  | kUnary => is_Some (unary e) ∧ stream e = None
  | _ => is_Some (stream e) ∧ unary e = None
  end.

Definition router_wf (r : Router) : Prop :=
  ∀ path e, Find path r = Some e → bad_path path = false ∧ entry_wf e.

(** ** Lemmas *)
Lemma is_null_false {A} (f : option A) : is_null f = false → is_Some f.
Proof. destruct f; [by eexists|done]. Qed.

Lemma requested_wf q p e : requested q = Some (p, e) → bad_path p = false ∧ entry_wf e.
Proof.
  destruct q as [path h|path f h]; simpl; intros Hq; repeat case_match; simplify_eq.
  - bool_cond. split; [done|]. split; [by apply is_null_false|done].
  - bool_cond. split; [done|]. unfold entry_wf; simpl.
    destruct f; [done|..]; (split; [by apply is_null_false|done]).
Qed.

(** A registration, by what it asks for and what is already there. *)
Lemma register_spec q r :
  match requested q with
  | Some (p, e) =>
      match Find p r with
      | Some _ => register q r = (duplicate_path p, r)
      | None => register q r = (Ok, mkRouter (<[p := e]> (snapshot_ r)))
      end
  | None => ok (register q r).1 = false ∧ (register q r).2 = r
  end.
Proof.
  unfold Find. destruct q as [path h|path f h]; simpl.
  - unfold RegisterUnary. destruct (bad_path path || is_null h); [done|].
    by destruct (snapshot_ r !! path).
  - unfold RegisterStream. destruct (bad_path path || is_null h); [done|].
    case_decide; [done|]. by destruct (snapshot_ r !! path).
Qed.

Lemma register_find q r path :
  Find path (register q r).2 =
  match Find path r with
  | Some e => Some e
  | None => first_requested path [q]
  end.
Proof.
  pose proof (register_spec q r) as Hs. simpl.
  destruct (requested q) as [[p e]|] eqn:Hq.
  - destruct (Find p r) as [e'|] eqn:Hf; rewrite Hs; simpl.
    + destruct (Find path r) eqn:Hpath; [done|]. case_decide; [|done]. congruence.
    + unfold Find in *. simpl. rewrite lookup_insert.
      destruct (decide (p = path)) as [->|]; [by rewrite Hf|]. by destruct (snapshot_ r !! path).
  - destruct Hs as [_ ->]. by destruct (Find path r).
Qed.

Lemma register_wf q r : router_wf r → router_wf (register q r).2.
Proof.
  intros Hwf path e. rewrite register_find. destruct (Find path r) as [e'|] eqn:Hf.
  - intros [= <-]. by apply Hwf.
  - simpl. destruct (requested q) as [[p e']|] eqn:Hq; [|done]. case_decide; [|done].
    intros [= <-]. subst. by eapply requested_wf.
Qed.

Lemma register_all_wf qs r : router_wf r → router_wf (register_all qs r).2.
Proof.
  revert r. induction qs as [|q qs IH]; intros r Hwf; simpl; [done|].
  pose proof (register_wf q r Hwf) as Hq. destruct (register q r) as [st r1].
  specialize (IH r1 Hq). by destruct (register_all qs r1).
Qed.

Lemma newRouter_wf : router_wf newRouter.
Proof. intros path e. unfold Find. simpl. by rewrite lookup_empty. Qed.

Lemma register_all_find qs r path :
  Find path (register_all qs r).2 =
  match Find path r with
  | Some e => Some e
  | None => first_requested path qs
  end.
Proof.
  revert r. induction qs as [|q qs IH]; intros r; simpl; [by destruct (Find path r)|].
  pose proof (register_find q r path) as Hq. destruct (register q r) as [st r1]. simpl in Hq.
  specialize (IH r1). destruct (register_all qs r1) as [sts r2]. simpl in *.
  rewrite IH, Hq. destruct (Find path r); [done|].
  destruct (requested q) as [[p e]|]; [|done]. by case_decide.
Qed.

(** ** Properties *)

(** C39: The router is the first-registration-wins table.  After any sequence of
    registrations on a fresh router, looking up a path gives the entry of the
    first acceptable registration of that path (well-formed path, handler
    present, streaming form for a streaming handler), and nothing when there is
    none; later duplicates and unacceptable requests change nothing. *)
Theorem router_refines_first_wins qs path :
  Find path (register_all qs newRouter).2 = first_requested path qs.
Proof. rewrite register_all_find. unfold Find. simpl. by rewrite lookup_empty. Qed.

(** A found entry is callable.  Whatever the registrations, an entry that
    [Find] returns has a path starting with a slash and holds exactly the
    handler of its form, so the dispatch never calls an empty function. *)
Theorem find_callable qs path e :
  Find path (register_all qs newRouter).2 = Some e → bad_path path = false ∧ entry_wf e.
Proof. apply register_all_wf, newRouter_wf. Qed.

(** The status of a registration.  On any router, a registration is
    answered OK exactly when it is acceptable and its path is free; then the
    router grows by one entry, and otherwise it is unchanged. *)
Theorem register_status q r :
  (ok (register q r).1 = true ↔
    ∃ p e, requested q = Some (p, e) ∧ Find p r = None) ∧
  router_size (register q r).2 =
    (router_size r + if ok (register q r).1 then 1 else 0)%nat ∧
  (ok (register q r).1 = false → (register q r).2 = r).
Proof.
  pose proof (register_spec q r) as Hs. unfold router_size.
  destruct (requested q) as [[p e]|] eqn:Hq.
  - destruct (Find p r) as [e'|] eqn:Hf; rewrite Hs; simpl.
    + split_and!; [|lia|done]. split; [done|]. intros (? & ? & ? & ?). congruence.
    + split_and!; [|rewrite map_size_insert_None by done; lia|done].
      split; [intros _; eauto|done].
  - destruct Hs as [Hst ->]. rewrite Hst. split_and!; [|lia|done].
    split; [done|]. intros (? & ? & ? & ?). congruence.
Qed.
End Router.

Arguments HandlerEntry : clear implicits.
Arguments Router : clear implicits.
Arguments registration : clear implicits.

Lemma find_callable_witness :
  let qs := [RegUnary "/s/m" (Some 1%nat); RegStream "/s/m" kBidi (Some 2%nat)] in
  bad_path "/s/m" = false ∧ entry_wf (mkEntry kUnary (Some 1%nat) (None (A:=nat))).
Proof.
  apply (find_callable [RegUnary "/s/m" (Some 1%nat); RegStream "/s/m" kBidi (Some 2%nat)]).
  reflexivity.
Defined.
