(* ===== verification/Loop.v ===== *)
(** * The event loop (core/include/urpc/core/loop.h, core/source/urpc_loop.cpp)

    [LoopRunner] as its owner sees it: the queue of posted tasks, the one-shot
    timers and the flags that [Start] and [Stop] exchange.  libuv itself (when a
    timer expires, when the wake-up is delivered) is the environment: an expiry
    or a wake-up is a step somebody else takes.  Tasks are data, and what
    running one does is a function of the host, the component that owns the
    loop; a host gives access to its loop through [LoopHost]. *)
From S2P Require Import Prelude.

Section Loop.
Context {Task : Type}.

(** A queued task: one from [Post], or the quit task of [Stop]. *)
Inductive Queued :=
  | Posted (t : Task)
  | QuitTask.

Record TimerCtx := mkTimer { delay_ms : Z; task : Task }.

Record LoopRunner := mkLoop {
  running_ : bool;
  quit_requested_ : bool;
  woken : bool;                   (* uv_async_send on wake_ is pending *)
  wake_closed : bool;             (* wake_ has been closed by the quit task *)
  pending_ : list Queued;
  timers_ : gmap Z TimerCtx;
  next_timer_id_ : Z
}.
#[global] Instance eta_LoopRunner : EtaRecord LoopRunner := λ l,
  mkLoop (running_ l) (quit_requested_ l) (woken l) (wake_closed l) (pending_ l)
    (timers_ l) (next_timer_id_ l).

Definition newLoop : LoopRunner := mkLoop false false false false [] ∅ 1.

(** [Start], when libuv initializes (its failures return before any change). *)
Definition Start (l : LoopRunner) : bool * LoopRunner :=
  if running_ l then (false, l)
  else (true, l <| running_ := true |> <| quit_requested_ := false |>).

Definition Post (t : Task) (l : LoopRunner) : LoopRunner :=
  let l := l <| pending_ ::= λ q, q ++ [Posted t] |> in
  if running_ l then l <| woken := true |> else l.

Definition SetTimer (ms : Z) (t : Task) (l : LoopRunner) : Z * LoopRunner :=
  if negb (running_ l) then (0, l)
  else
    let id := next_timer_id_ l in
    (id, l <| next_timer_id_ := u64 (id + 1) |> <| timers_ ::= <[id := mkTimer ms t]> |>).

Definition CancelTimer (id : Z) (l : LoopRunner) : LoopRunner :=
  match timers_ l !! id with
  | None => l
  | Some _ => l <| timers_ ::= delete id |>
  end.

(** [Stop], up to the join: the queue is replaced by the quit task. *)
Definition Stop (l : LoopRunner) : LoopRunner :=
  if negb (running_ l) then l
  else
    let l := l <| running_ := false |> <| quit_requested_ := true |>
               <| pending_ := [QuitTask] |> in
    if negb (wake_closed l) then l <| woken := true |> else l.

Definition CloseAllHandlesOnLoop (l : LoopRunner) : LoopRunner :=
  l <| timers_ := ∅ |> <| wake_closed := true |>.

(** The swap under the mutex at the head of [DrainPending]. *)
Definition swap_pending (l : LoopRunner) : list Queued * LoopRunner :=
  (pending_ l, l <| pending_ := [] |>).

(** Well-formed timers: their ids are non-zero and have been handed out. *)
Definition loop_wf (l : LoopRunner) : Prop :=
  1 ≤ next_timer_id_ l ∧ ∀ id t, timers_ l !! id = Some t → 1 ≤ id < next_timer_id_ l.

(** ** Lemmas *)
Lemma newLoop_wf : loop_wf newLoop.
Proof. split; [done|]. intros id t. simpl. by rewrite lookup_empty. Qed.

Lemma Post_wf t l : loop_wf l → loop_wf (Post t l).
Proof. unfold Post. simpl. by destruct (running_ l). Qed.

Lemma CancelTimer_wf id l : loop_wf l → loop_wf (CancelTimer id l).
Proof.
  intros [Hn Ht]. unfold CancelTimer. destruct (timers_ l !! id); [|done].
  split; simpl; [done|]. intros id' t' Hl. apply lookup_delete_Some in Hl as [_ Hl]. by eapply Ht.
Qed.

Lemma SetTimer_wf ms t l :
  loop_wf l → next_timer_id_ l < 2 ^ 64 - 1 → loop_wf (SetTimer ms t l).2.
Proof.
  intros [Hn Ht] Hlt. unfold SetTimer. destruct (running_ l); simpl; [|done].
  split; simpl; rewrite u64_small by lia; [lia|].
  intros id' t' Hl. apply lookup_insert_Some in Hl as [[<- _]|[_ Hl]]; [lia|].
  apply Ht in Hl. lia.
Qed.

Lemma CancelTimer_lookup id id' l :
  timers_ (CancelTimer id l) !! id' = if decide (id = id') then None else timers_ l !! id'.
Proof.
  unfold CancelTimer. destruct (timers_ l !! id) eqn:Hl; simpl.
  - by rewrite lookup_delete.
  - case_decide; [by subst|done].
Qed.
End Loop.

Arguments Queued : clear implicits.
Arguments TimerCtx : clear implicits.
Arguments LoopRunner : clear implicits.
#[export] Hint Resolve newLoop_wf Post_wf CancelTimer_wf : urpc.

(** ** Hosts *)

(** A host owns a loop and says what running one of its tasks does. *)
Class LoopHost (Task W : Type) := {
  get_loop : W → LoopRunner Task;
  set_loop : LoopRunner Task → W → W;
  run_task : Task → W → W;
  get_set_loop l w : get_loop (set_loop l w) = l
}.

Section Host.
Context {Task W : Type} `{!LoopHost Task W}.

Definition run_queued (q : Queued Task) (w : W) : W :=
  match q with
  | Posted t => run_task t w
  | QuitTask => set_loop (CloseAllHandlesOnLoop (get_loop w)) w
  end.

(** The wake-up callback: the tasks queued so far, in order; what they post in
    turn waits for the next wake-up. *)
Definition DrainPending (w : W) : W :=
  let '(ready, l) := swap_pending (get_loop w) in
  fold_left (λ w q, run_queued q w) ready (set_loop l w).

(** [OnTimerTramp]: the timer is cancelled first, so it fires once. *)
Definition OnTimer (id : Z) (w : W) : W :=
  match timers_ (get_loop w) !! id with
  | None => w
  | Some ctx => run_task (task ctx) (set_loop (CancelTimer id (get_loop w)) w)
  end.

(** ** Properties *)

Definition post_all (ts : list Task) (w : W) : W :=
  fold_left (λ w t, set_loop (Post t (get_loop w)) w) ts w.

Lemma post_all_pending ts w :
  pending_ (get_loop (post_all ts w)) = pending_ (get_loop w) ++ map Posted ts ∧
  running_ (get_loop (post_all ts w)) = running_ (get_loop w).
Proof.
  unfold post_all. revert w. induction ts as [|t ts IH]; intros w; simpl; [by rewrite app_nil_r|].
  destruct (IH (set_loop (Post t (get_loop w)) w)) as [-> ->]. rewrite get_set_loop.
  unfold Post. simpl. destruct (running_ (get_loop w)) eqn:Hr; simpl;
    by rewrite <-(assoc_L (++)).
Qed.

Lemma fold_run_posted ts w :
  fold_left (λ w q, run_queued q w) (map Posted ts) w = fold_left (λ w t, run_task t w) ts w.
Proof. revert w. induction ts as [|t ts IH]; intros w; simpl; [done|]. apply IH. Qed.

(** Posted tasks run once each, in the order they were posted.  On a loop
    with an empty queue, whatever tasks are posted before the wake-up is
    delivered are what it runs, first to last; the queue is empty when the
    first of them starts, so a task that posts does not extend the pass. *)
Theorem posted_tasks_in_order ts w :
  pending_ (get_loop w) = [] →
  let w' := post_all ts w in
  let w0 := set_loop ((get_loop w') <| pending_ := [] |>) w' in
  DrainPending w' = fold_left (λ w t, run_task t w) ts w0 ∧ pending_ (get_loop w0) = [].
Proof.
  intros Hp w' w0. unfold DrainPending, swap_pending.
  destruct (post_all_pending ts w) as [Hq _]. rewrite Hp in Hq. simpl in Hq.
  fold w' in Hq. rewrite Hq, fold_run_posted. split; [done|].
  unfold w0. by rewrite get_set_loop.
Qed.

(** [Stop] discards what was posted.  When a running loop is stopped, the
    wake-up that follows closes the loop's timers and runs none of the tasks
    that were waiting. *)
Theorem stop_discards_tasks w :
  running_ (get_loop w) = true →
  ∃ l w0, DrainPending (set_loop (Stop (get_loop w)) w) = set_loop l w0 ∧
    timers_ l = ∅ ∧ pending_ l = [] ∧ running_ l = false ∧ wake_closed l = true ∧
    w0 = set_loop ((Stop (get_loop w)) <| pending_ := [] |>) (set_loop (Stop (get_loop w)) w).
Proof.
  intros Hr. unfold DrainPending, swap_pending. rewrite !get_set_loop.
  assert (pending_ (Stop (get_loop w)) = [QuitTask] ∧ running_ (Stop (get_loop w)) = false) as [Hq Hr'].
  { unfold Stop. rewrite Hr. simpl. by destruct (wake_closed (get_loop w)). }
  rewrite Hq. simpl. rewrite get_set_loop. do 2 eexists. split; [reflexivity|]. done.
Qed.

(** A timer fires once.  The id that [SetTimer] returns is not zero and not
    in use; when it expires its task runs on a loop that no longer has the
    timer and has all the others, so a second report of it does nothing. *)
Theorem timer_fires_once ms t w :
  loop_wf (get_loop w) → running_ (get_loop w) = true → next_timer_id_ (get_loop w) < 2 ^ 64 - 1 →
  let '(id, l) := SetTimer ms t (get_loop w) in
  id ≠ 0 ∧ timers_ (get_loop w) !! id = None ∧
  OnTimer id (set_loop l w) = run_task t (set_loop (CancelTimer id l) (set_loop l w)) ∧
  timers_ (CancelTimer id l) = timers_ (get_loop w).
Proof.
  intros [Hn Ht] Hr Hlt. unfold SetTimer. rewrite Hr. simpl.
  assert (timers_ (get_loop w) !! next_timer_id_ (get_loop w) = None) as Hnone.
  { destruct (timers_ (get_loop w) !! _) eqn:E; [|done]. apply Ht in E. lia. }
  split_and!; [lia|done| |].
  - unfold OnTimer. rewrite get_set_loop. simpl. by rewrite lookup_insert_eq.
  - unfold CancelTimer. simpl. rewrite lookup_insert_eq. simpl. by apply delete_insert_id.
Qed.
End Host.

(** ** A host to try the loop with: its tasks are recorded. *)
#[local] Program Instance log_host : LoopHost nat (LoopRunner nat * list nat) := {|
  get_loop := fst;
  set_loop l w := (l, w.2);
  run_task t w := (w.1, w.2 ++ [t])
|}.
Next Obligation. done. Qed.

Definition log_world : LoopRunner nat * list nat := ((Start newLoop).2, []).

Lemma posted_tasks_in_order_witness :
  (DrainPending (post_all [3; 1; 2]%nat log_world)).2 = [3; 1; 2]%nat.
Proof.
  destruct (posted_tasks_in_order [3; 1; 2]%nat log_world) as [E _]; [reflexivity|].
  rewrite E. reflexivity.
Defined.

Lemma stop_discards_tasks_witness :
  let w := post_all [3; 1; 2]%nat log_world in
  ∃ l w0, DrainPending (set_loop (Stop (get_loop w)) w) = set_loop l w0 ∧
    timers_ l = ∅ ∧ pending_ l = [] ∧ running_ l = false ∧ wake_closed l = true ∧
    w0 = set_loop ((Stop (get_loop w)) <| pending_ := [] |>) (set_loop (Stop (get_loop w)) w).
Proof. intros w. apply (stop_discards_tasks w). reflexivity. Defined.

Lemma timer_fires_once_witness :
  let '(id, l) := SetTimer 100 7%nat (get_loop log_world) in
  id ≠ 0 ∧ timers_ (get_loop log_world) !! id = None ∧
  OnTimer id (set_loop l log_world) =
    run_task 7%nat (set_loop (CancelTimer id l) (set_loop l log_world)) ∧
  timers_ (CancelTimer id l) = timers_ (get_loop log_world).
Proof.
  apply (timer_fires_once 100 7%nat log_world); [apply newLoop_wf|reflexivity|].
  vm_compute. reflexivity.
Defined.
