(* ===== verification/LoopThread.v ===== *)
(** * The threads of a loop (core/include/urpc/core/loop.h, core/source/urpc_loop.cpp)

    Loop.v has the loop as its owner sees it.  Here are the threads: the one that
    runs [RunLoop], those that call [Post], and the one in [Stop], interleaved at
    the atomics, the mutex and libuv's wake-up.  A rule of [step] is one such
    action of one thread; a state is reachable by any interleaving of them.

    libuv guarantees that a wake-up that was sent is delivered to a loop that
    waits, and that [uv_run] returns when a callback was run or when no handle is
    open.  The code's bounded wait is [rounds] sleeps. *)
From S2P Require Import Prelude Loop.

(** ** State *)

(** Where the loop's thread is: not there, before it has recorded its identity,
    at the test of [running_], in [uv_run], in a callback with the tasks that
    [DrainPending] has taken and not run, past the loop. *)
Inductive LoopPc {Task : Type} :=
  | LNone
  | LBegin
  | LTest
  | LWait
  | LRun (ready : list (Queued Task))
  | LExit.
Arguments LoopPc : clear implicits.

(** Where a thread is in [Stop], past the exchange. *)
Inductive StopPc :=
  | SQuit                                  (* quit_requested_.store *)
  | SClear                                 (* the critical section *)
  | SSend                                  (* uv_async_send *)
  | SWait (left : nat)                     (* the bounded wait *)
  | SJoin
  | SClose.

(** The handle [wake_]: never initialized, open, or given to [uv_close]. *)
Inductive WakeState := WakeUnset | WakeOpen | WakeClosing.

Section Threads.
Context {Task : Type}.

(** The exchange lets one thread at a time into [Stop]; [stopper] says whether
    it is the loop's. *)
Record World := mkWorld {
  running_ : bool;
  quit_requested_ : bool;
  loop_exited_ : bool;
  pending_ : list (Queued Task);
  wake_ : WakeState;
  sent : bool;                             (* a wake-up is on its way *)
  thread_id_ : bool;                       (* the loop thread's, or empty *)
  joinable : bool;
  pc : LoopPc Task;
  stopper : option (bool * StopPc);
  posters : nat;                           (* threads in Post, past the mutex *)
  senders : nat;                           (* threads in Post, past the test *)
  posted : list Task;                      (* ghost: what Post was given *)
  ran : list (Queued Task);                (* ghost: what the loop has run *)
  discarded : list (Queued Task);          (* ghost: what Stop has cleared *)
  joined : bool;                           (* ghost: Stop has joined the thread *)
  late_send : bool;                        (* a wake-up was sent to a closed handle *)
  loop_leaked : bool;                      (* uv_loop_close found an open handle *)
  closed_alive : bool                      (* or a thread that still runs the loop *)
}.
#[export] Instance eta_ThreadsWorld : EtaRecord World := λ w,
  mkWorld (running_ w) (quit_requested_ w) (loop_exited_ w) (pending_ w) (wake_ w) (sent w)
    (thread_id_ w) (joinable w) (pc w) (stopper w) (posters w) (senders w) (posted w) (ran w)
    (discarded w) (joined w) (late_send w) (loop_leaked w) (closed_alive w).

Definition new_runner : World :=
  mkWorld false false false [] WakeUnset false false false LNone None 0 0 [] [] [] false false false false.

(** ** Start *)

(** Up to the creation of the thread, when libuv initializes; [Start] returns
    when an identity is recorded. *)
Definition Start (w : World) : World :=
  w <| wake_ := WakeOpen |> <| sent := false |> <| running_ := true |> <| quit_requested_ := false |>
    <| loop_exited_ := false |> <| joinable := true |> <| joined := false |> <| pc := LBegin |>.
Definition Start_returns (w : World) : bool := thread_id_ w.
Definition OnLoopThread (on_loop : bool) (w : World) : bool := on_loop && thread_id_ w.

(** ** Post *)

(** The critical section, the test, and the wake-up. *)
Definition Post_push (x : Task) (w : World) : World :=
  w <| pending_ ::= λ q, q ++ [Posted x] |> <| posters ::= S |> <| posted ::= λ l, l ++ [x] |>.
Definition Post_test (w : World) : World :=
  let w := w <| posters ::= pred |> in
  if running_ w then w <| senders ::= S |> else w.
Definition uv_async_send (w : World) : World :=
  match wake_ w with WakeOpen => w <| sent := true |> | _ => w <| late_send := true |> end.
Definition Post_send (w : World) : World := uv_async_send (w <| senders ::= pred |>).

(** ** Stop *)
Definition rounds : nat := 1000.

Definition Stop_enter (on_loop : bool) (w : World) : World :=
  if negb (running_ w) then w
  else w <| running_ := false |> <| stopper := Some (on_loop, SQuit) |>.

Definition uv_loop_close (w : World) : World :=
  let w := match wake_ w with WakeOpen => w <| loop_leaked := true |> | _ => w end in
  match pc w with LNone => w | _ => w <| closed_alive := true |> end.

(** The next action of the thread in [Stop]. *)
Definition Stop_step (w : World) : World :=
  match stopper w with
  | None => w
  | Some (on_loop, p) =>
      let go p w := w <| stopper := Some (on_loop, p) |> in
      match p with
      | SQuit => go SClear (w <| quit_requested_ := true |>)
      | SClear =>
          go SSend (w <| discarded ::= λ l, l ++ pending_ w |> <| pending_ := [QuitTask] |>)
      | SSend =>
          go (SWait rounds) match wake_ w with WakeOpen => uv_async_send w | _ => w end
      | SWait O => go SJoin w
      | SWait (S n) => go (if loop_exited_ w then SJoin else SWait n) w
      | SJoin =>
          go SClose
            (if negb (joinable w) then w
             else
               let w := w <| joinable := false |> in
               if OnLoopThread on_loop w then w            (* detach *)
               else if loop_exited_ w then w <| joined := true |>
               else w)                                     (* detach *)
      | SClose =>
          (if OnLoopThread on_loop w then w else (uv_loop_close w) <| thread_id_ := false |>)
            <| stopper := None |>
      end
  end.

(** ** The loop's thread *)

Definition run_queued (x : Queued Task) (w : World) : World :=
  let w := w <| ran ::= λ l, l ++ [x] |> in
  match x with
  | Posted _ => w
  | QuitTask => w <| wake_ := WakeClosing |> <| sent := false |>      (* CloseAllHandlesOnLoop *)
  end.

(** Its next action, if it is not blocked: [RunLoop], and [DrainPending] under it. *)
Definition RunLoop_step (w : World) : option World :=
  match pc w with
  | LNone => None
  | LBegin => Some (w <| thread_id_ := true |> <| pc := LTest |>)
  | LTest => Some (w <| pc := if running_ w then LWait else LExit |>)
  | LWait =>
      match wake_ w with
      | WakeOpen =>
          if sent w
          then Some (w <| sent := false |> <| pc := LRun (pending_ w) |> <| pending_ := [] |>)
          else None
      | _ => Some (w <| pc := LTest |>)                   (* no handle is open *)
      end
  | LRun [] => Some (w <| pc := LTest |>)
  | LRun (x :: q) => Some (run_queued x (w <| pc := LRun q |>))
  | LExit => Some (w <| loop_exited_ := true |> <| pc := LNone |>)
  end.

(** ** Interleavings *)
Inductive Act :=
  | AStart
  | APush (x : Task)
  | ATest
  | ASend
  | AStop (on_loop : bool)
  | AStopStep
  | ALoop
  | ACallback.                             (* of another handle *)

(** The owner starts a loop that is not there, when nobody is in [Stop].  The
    loop's own thread gets into [Stop] from a callback, and comes back to it. *)
Inductive step (w : World) : Act → World → Prop :=
  | st_start : running_ w = false → stopper w = None → pc w = LNone → joinable w = false →
      step w AStart (Start w)
  | st_push x : step w (APush x) (Post_push x w)
  | st_test : (0 < posters w)%nat → step w ATest (Post_test w)
  | st_send : (0 < senders w)%nat → step w ASend (Post_send w)
  | st_stop : step w (AStop false) (Stop_enter false w)
  | st_stop_loop q : pc w = LRun q → fst <$> stopper w ≠ Some true → step w (AStop true) (Stop_enter true w)
  | st_stop_step : is_Some (stopper w) → step w AStopStep (Stop_step w)
  | st_loop w' : fst <$> stopper w ≠ Some true → RunLoop_step w = Some w' → step w ALoop w'
  | st_callback : pc w = LWait → step w ACallback (w <| pc := LRun [] |>).

Inductive steps : World → list Act → World → Prop :=
  | steps_nil w : steps w [] w
  | steps_cons w a w' l w'' : step w a w' → steps w' l w'' → steps w (a :: l) w''.

Definition reachable (w : World) : Prop := ∃ l, steps new_runner l w.

Lemma steps_snoc w l w' a w'' : steps w l w' → step w' a w'' → steps w (l ++ [a]) w''.
Proof. induction 1; intros Hs; simpl; eauto using steps. Qed.

(** What every step keeps, every execution keeps. *)
Lemma steps_keep (P : World → Prop) (Q : Act → Prop) w l w' :
  (∀ w a w', Q a → step w a w' → P w → P w') → Forall Q l → steps w l w' → P w → P w'.
Proof.
  intros HP HQ H. revert HQ. induction H as [|w a w1 l w' Hs H IH]; intros HQ HPw; [done|].
  apply Forall_cons in HQ as [Ha HQ]. apply IH; [done|]. by eapply HP.
Qed.

(** ** The invariant *)
Definition task_of (x : Queued Task) : option Task :=
  match x with Posted x => Some x | QuitTask => None end.
Definition ready (p : LoopPc Task) : list (Queued Task) :=
  match p with LRun q => q | _ => [] end.
(** What has been run, and what may still be, in this order. *)
Definition in_line (w : World) : list (Queued Task) := ran w ++ ready (pc w) ++ pending_ w.

(** A stop that has yet to wake the loop. *)
Definition will_send (w : World) : Prop :=
  ∃ b p, stopper w = Some (b, p) ∧ (p = SQuit ∨ p = SClear ∨ p = SSend).

Record Inv (w : World) : Prop := {
  inv_order : omap task_of (in_line w) `sublist_of` posted w;
  inv_place : posted w ≡ₚ omap task_of (in_line w) ++ omap task_of (discarded w);
  inv_stop : is_Some (stopper w) → running_ w = false;
  inv_exited : loop_exited_ w = true → pc w = LNone ∧ running_ w = false;
  inv_joined : joined w = true → pc w = LNone ∧ running_ w = false;
  inv_alive : running_ w = true → pc w ≠ LNone ∧ pc w ≠ LExit;
  inv_wake : running_ w = false → pc w = LWait → wake_ w = WakeOpen → sent w = true ∨ will_send w;
  inv_tid : running_ w = true → pc w ≠ LBegin → thread_id_ w = true;
  inv_on_loop p : stopper w = Some (true, p) → thread_id_ w = true ∧ ∃ q, pc w = LRun q
}.

Lemma new_runner_Inv : Inv new_runner.
Proof. by split. Qed.

(** The queues as they are. *)
Lemma same_line w w' :
  in_line w' = in_line w → posted w' = posted w → discarded w' = discarded w → Inv w →
  omap task_of (in_line w') `sublist_of` posted w' ∧
  posted w' ≡ₚ omap task_of (in_line w') ++ omap task_of (discarded w').
Proof. intros -> -> -> HI. split; apply HI. Qed.

Lemma Start_Inv w :
  running_ w = false → stopper w = None → pc w = LNone → Inv w → Inv (Start w).
Proof.
  intros Hr Hs Hp HI. destruct (same_line w (Start w)) as [H1 H2]; try done.
  { unfold in_line. by rewrite Hp. }
  split; simpl; try done; by rewrite Hs.
Qed.

Lemma Post_push_Inv x w : Inv w → Inv (Post_push x w).
Proof.
  intros HI. assert (E : omap task_of (in_line (Post_push x w)) = omap task_of (in_line w) ++ [x]).
  { unfold in_line. simpl. rewrite !omap_app. simpl. by rewrite !(assoc_L (++)). }
  split; try apply HI; rewrite E; simpl.
  - apply sublist_app; [apply HI|done].
  - rewrite (inv_place _ HI) at 1. rewrite <-!(assoc_L (++)). apply Permutation_app_head, Permutation_app_comm.
Qed.

Lemma Post_test_Inv w : Inv w → Inv (Post_test w).
Proof. intros []. unfold Post_test. simpl. destruct (running_ w); by split. Qed.

Lemma uv_async_send_Inv w : Inv w → Inv (uv_async_send w).
Proof.
  intros []. unfold uv_async_send. destruct (wake_ w) eqn:Hw; split; try done; simpl; try congruence.
  all: intros; by left.
Qed.
Lemma Post_send_Inv w : Inv w → Inv (Post_send w).
Proof. intros HI. apply uv_async_send_Inv. by destruct HI. Qed.

Lemma Stop_enter_Inv on_loop w :
  (on_loop = true → ∃ q, pc w = LRun q) → Inv w → Inv (Stop_enter on_loop w).
Proof.
  intros Hl HI. unfold Stop_enter. destruct (running_ w) eqn:Hr; [|exact HI].
  destruct HI. simpl. split; try done; simpl.
  - intros He. by destruct (inv_exited0 He).
  - intros Hj. by destruct (inv_joined0 Hj).
  - intros _ _ _. right. do 2 eexists. split; [done|by left].
  - intros p [= -> <-]. destruct (Hl eq_refl) as [q Hq]. split; [|by eexists].
    apply inv_tid0; [done|]. by rewrite Hq.
Qed.

(** [Stop] clears the queue: the tasks that waited are discarded. *)
Lemma clear_line w w' :
  ran w' = ran w → pc w' = pc w → pending_ w' = [QuitTask] → discarded w' = discarded w ++ pending_ w →
  posted w' = posted w → Inv w →
  omap task_of (in_line w') `sublist_of` posted w' ∧
  posted w' ≡ₚ omap task_of (in_line w') ++ omap task_of (discarded w').
Proof.
  intros E1 E2 E3 E4 E5 HI. pose proof (inv_order _ HI) as Ho. pose proof (inv_place _ HI) as Hp.
  unfold in_line in *. rewrite E1, E2, E3, E4, E5. rewrite !omap_app in *. simpl. rewrite app_nil_r. split.
  - etrans; [|exact Ho]. by apply sublist_app, sublist_inserts_r.
  - rewrite Hp. solve_Permutation.
Qed.

(** The stop goes on. *)
Definition early (p : StopPc) : Prop := p = SQuit ∨ p = SClear ∨ p = SSend.

Lemma go_Inv b p p' w :
  stopper w = Some (b, p) → (early p → early p' ∨ (wake_ w = WakeOpen → sent w = true)) →
  Inv w → Inv (w <| stopper := Some (b, p') |>).
Proof.
  intros Hs Hp []. assert (Hr : running_ w = false) by (apply inv_stop0; by rewrite Hs).
  split; try done; simpl.
  - intros _ Hl Hw. destruct (inv_wake0 Hr Hl Hw) as [?|(b' & q & Hq & He)]; [by left|].
    rewrite Hs in Hq. simplify_eq. destruct (Hp He) as [He'|H]; [|left; auto].
    right. by exists b', p'.
  - intros q [= -> _]. by eapply inv_on_loop0.
Qed.

Lemma clear_Inv w :
  Inv w → Inv (w <| discarded ::= λ l, l ++ pending_ w |> <| pending_ := [QuitTask] |>).
Proof.
  intros HI. destruct (clear_line w (w <| discarded ::= λ l, l ++ pending_ w |> <| pending_ := [QuitTask] |>))
    as [H1 H2]; try done. destruct HI. by split.
Qed.

Lemma uv_loop_close_Inv w : Inv w → Inv (uv_loop_close w).
Proof.
  intros HI. unfold uv_loop_close.
  set (w1 := match wake_ w with WakeOpen => _ | _ => _ end). assert (H1 : Inv w1).
  { subst w1. destruct HI. destruct (wake_ w) eqn:E; split; try done; simpl; by rewrite ?E. }
  clearbody w1. destruct H1. destruct (pc w1) eqn:E; split; try done; simpl; by rewrite ?E.
Qed.

(** The stop ends, and may forget the thread's identity. *)
Lemma end_stop_Inv b w :
  running_ w = false → ¬ will_send w → Inv w →
  Inv (w <| stopper := None |>) ∧ Inv (w <| thread_id_ := b |> <| stopper := None |>).
Proof.
  intros Hr Hn []. split; split; try done; simpl; try congruence; try (by intros [? ?]).
  all: intros _ Hl Hw; by destruct (inv_wake0 Hr Hl Hw); [left|].
Qed.

Lemma Stop_step_Inv w : Inv w → Inv (Stop_step w).
Proof.
  intros HI. unfold Stop_step. destruct (stopper w) as [[b p]|] eqn:Hs; [|done].
  assert (Hr : running_ w = false) by (apply inv_stop; [done|by rewrite Hs]).
  destruct p as [| | |[|n]| |]; cbv beta iota zeta.
  - apply (go_Inv b SQuit); [done|by left; right; left|]. by destruct HI.
  - apply (go_Inv b SClear); [done|by left; right; right|]. by apply clear_Inv.
  - assert (Hsend : sent (uv_async_send w) = true ∨ wake_ w ≠ WakeOpen)
      by (unfold uv_async_send; destruct (wake_ w); auto).
    destruct (wake_ w) eqn:Hw.
    2: apply (go_Inv b SSend); [by unfold uv_async_send; rewrite Hw| |by apply uv_async_send_Inv];
       intros _; right; by destruct Hsend.
    all: apply (go_Inv b SSend); [done| |done]; intros _; right; by rewrite Hw.
  - apply (go_Inv b (SWait 0)); [done| |done]. intros [|[]]; done.
  - apply (go_Inv b (SWait (S n))); [done| |done]. intros [|[]]; done.
  - apply (go_Inv b SJoin); [by repeat case_match|by intros [|[]]|].
    destruct (joinable w); [|done]. cbn [negb].
    destruct (OnLoopThread _ _); [by destruct HI|]. simpl.
    destruct (loop_exited_ w) eqn:He; [|by destruct HI]. pose proof (inv_exited _ HI He). by destruct HI.
  - assert (Hn : ¬ will_send w) by (intros (? & ? & E & H); rewrite Hs in E; simplify_eq; by destruct H as [|[]]).
    destruct (OnLoopThread b w); [exact (proj1 (end_stop_Inv false w Hr Hn HI))|].
    refine (proj2 (end_stop_Inv false (uv_loop_close w) _ _ (uv_loop_close_Inv w HI)));
      unfold uv_loop_close, will_send; by repeat case_match.
Qed.

(** The loop's thread moves on with the same tasks in hand. *)
Lemma move_Inv p w :
  ready p = ready (pc w) → pc w ≠ LNone → p ≠ LNone → (running_ w = true → thread_id_ w = true) →
  (p = LWait → running_ w = true) → (p = LExit → running_ w = false) →
  fst <$> stopper w ≠ Some true → Inv w → Inv (w <| pc := p |>).
Proof.
  intros Hq Hn Hp Ht Hw He Hs HI. destruct (same_line w (w <| pc := p |>)) as [H1 H2]; try done.
  { unfold in_line. simpl. by rewrite Hq. }
  destruct HI. split; try done; simpl.
  - intros Hx. by destruct (inv_exited0 Hx).
  - intros Hj. by destruct (inv_joined0 Hj).
  - intros Hr. split; [done|]. intros E. specialize (He E). congruence.
  - intros Hr E. specialize (Hw E). congruence.
  - intros Hr _. by apply Ht.
  - intros q E. by rewrite E in Hs.
Qed.

Lemma RunLoop_step_Inv w w' :
  fst <$> stopper w ≠ Some true → RunLoop_step w = Some w' → Inv w → Inv w'.
Proof.
  intros Hs E HI. unfold RunLoop_step in E.
  destruct (pc w) as [| | | |[|x q]|] eqn:Hp; simplify_eq.
  - apply (move_Inv LTest (w <| thread_id_ := true |>)); try done; simpl; [by rewrite Hp|by rewrite Hp|].
    destruct HI; split; try done; simpl. intros q Hq. by rewrite Hq in Hs.
  - apply move_Inv; try done; rewrite ?Hp; try done; destruct (running_ w) eqn:Hr; try done.
    intros _. apply (inv_tid _ HI Hr). by rewrite Hp.
  - assert (Ht : running_ w = true → thread_id_ w = true) by (intros Hr; apply (inv_tid _ HI Hr); by rewrite Hp).
    destruct (wake_ w) eqn:Hw; simplify_eq; [by apply move_Inv; rewrite ?Hp| |by apply move_Inv; rewrite ?Hp].
    destruct (sent w) eqn:Hsent; simplify_eq.
    match goal with |- Inv ?x => destruct (same_line w x) as [H1 H2]; try done end.
    { unfold in_line. simpl. by rewrite Hp, app_nil_r. }
    destruct HI. split; try done; simpl.
    + intros Hx. destruct (inv_exited0 Hx). congruence.
    + intros Hj. destruct (inv_joined0 Hj). congruence.
    + intros Hr _. by apply Ht.
    + intros q E. by rewrite E in Hs.
  - apply move_Inv; rewrite ?Hp; try done. intros Hr. apply (inv_tid _ HI Hr). by rewrite Hp.
  - destruct (same_line w (run_queued x (w <| pc := LRun q |>))) as [H1 H2]; try done.
    { unfold in_line. rewrite Hp. destruct x; simpl; by rewrite <-(assoc_L (++)). }
    { by destruct x. }
    { by destruct x. }
    assert (Ht : running_ w = true → thread_id_ w = true) by (intros Hr; apply (inv_tid _ HI Hr); by rewrite Hp).
    destruct HI. destruct x; split; try done; simpl; rewrite Hp in *; try done.
    all: try (intros Hx; by destruct (inv_exited0 Hx)).
    all: try (intros Hx; by destruct (inv_joined0 Hx)).
    all: try (by intros Hr _; apply Ht).
    all: intros p E; by rewrite E in Hs.
  - assert (Hr : running_ w = false).
    { destruct (running_ w) eqn:Hr; [|done]. by destruct (inv_alive _ HI Hr). }
    destruct (same_line w (w <| loop_exited_ := true |> <| pc := LNone |>)) as [H1 H2]; try done.
    { unfold in_line. by rewrite Hp. }
    destruct HI. split; try done; simpl; try congruence. intros p E. by rewrite E in Hs.
Qed.

Lemma threads_step_Inv w a w' : step w a w' → Inv w → Inv w'.
Proof.
  intros Hs HI. destruct Hs as [Hr Hst Hp _|x|_|_| |q Hp _|_|w' Hl Hstep|Hp].
  - by apply Start_Inv.
  - by apply Post_push_Inv.
  - by apply Post_test_Inv.
  - by apply Post_send_Inv.
  - by apply Stop_enter_Inv.
  - apply Stop_enter_Inv; [|done]. intros _. by exists q.
  - by apply Stop_step_Inv.
  - by eapply RunLoop_step_Inv.
  - assert (Hns : fst <$> stopper w ≠ Some true).
    { intros E. destruct (stopper w) as [[b p]|] eqn:Es; simplify_eq/=.
      destruct (inv_on_loop _ HI p Es) as (_ & q & Hq). congruence. }
    apply move_Inv; rewrite ?Hp; try done. intros Hr. apply (inv_tid _ HI Hr). by rewrite Hp.
Qed.

Lemma reachable_threads_Inv w : reachable w → Inv w.
Proof.
  intros [l H]. apply (steps_keep Inv (λ _, True) new_runner l); [|by apply Forall_true|done|apply new_runner_Inv].
  intros w1 a w2 _. apply threads_step_Inv.
Qed.

(** ** Posted tasks *)

(** C27: No posted task is lost or run twice, and none overtakes another.  In
    every interleaving each task given to [Post] is in exactly one place: it has
    been run, is in the hands of the loop, waits in the queue, or was discarded
    by [Stop]; and those run, in hand and waiting are in the order in which they
    were posted. *)
Theorem posted_tasks_accounted w :
  reachable w →
  posted w ≡ₚ omap task_of (ran w ++ ready (pc w) ++ pending_ w) ++ omap task_of (discarded w) ∧
  omap task_of (ran w ++ ready (pc w) ++ pending_ w) `sublist_of` posted w.
Proof. intros HI%reachable_threads_Inv. split; apply HI. Qed.

(** ** Stop *)

(** The calls of other threads leave the loop's thread alone. *)
Definition aside (w w' : World) : Prop := pc w' = pc w ∧ ran w' = ran w ∧ wake_ w' = wake_ w.
Lemma Post_test_aside w : aside w (Post_test w).
Proof. unfold Post_test. simpl. by destruct (running_ w). Qed.
Lemma Post_send_aside w : aside w (Post_send w).
Proof. unfold Post_send, uv_async_send. simpl. unfold aside. destruct (wake_ w) eqn:E; simpl; by rewrite ?E. Qed.
Lemma Stop_enter_aside b w : aside w (Stop_enter b w).
Proof. unfold Stop_enter. by destruct (running_ w). Qed.

(** What a thread in [Stop] has before it. *)
Definition stop_left (p : StopPc) : nat :=
  match p with
  | SQuit => rounds + 6
  | SClear => rounds + 5
  | SSend => rounds + 4
  | SWait n => n + 3
  | SJoin => 2
  | SClose => 1
  end.

Definition is_stop_step (a : Act) : bool := match a with AStopStep => true | _ => false end.
Definition stop_steps (l : list Act) : nat := length (filter (λ a, is_stop_step a = true) l).

Lemma Stop_step_next b p w :
  stopper w = Some (b, p) →
  stopper (Stop_step w) = None ∨
  ∃ p', stopper (Stop_step w) = Some (b, p') ∧ (stop_left p' < stop_left p)%nat.
Proof.
  intros Hs. unfold Stop_step. rewrite Hs. destruct p as [| | |[|n]| |]; cbv beta iota zeta.
  all: try by left.
  all: right; eexists; (split; [reflexivity|]); unfold stop_left; repeat case_match; simplify_eq; lia.
Qed.

(** The other threads leave the one in [Stop] where it is. *)
Lemma step_stopper w a w' s :
  Inv w → stopper w = Some s → is_stop_step a = false → step w a w' → stopper w' = Some s.
Proof.
  intros HI Hs Ha Hstep. assert (Hr : running_ w = false) by (apply inv_stop; [done|by rewrite Hs]).
  destruct Hstep as [_ Hst _ _|x|_|_| |q _ _|_|w' _ E|_]; try done.
  - unfold Post_test. by case_match.
  - unfold Post_send, uv_async_send. by case_match.
  - unfold Stop_enter. by rewrite Hr.
  - unfold Stop_enter. by rewrite Hr.
  - unfold RunLoop_step in E. repeat case_match; simplify_eq; try done.
    all: unfold run_queued; by repeat case_match.
Qed.

Lemma stop_steps_cons a l :
  stop_steps (a :: l) = ((if is_stop_step a then 1 else 0) + stop_steps l)%nat.
Proof. unfold stop_steps. rewrite filter_cons. by destruct (is_stop_step a); case_decide. Qed.

(** C29: [Stop] returns.  A thread in [Stop] is never blocked, whatever the loop's
    thread does, and its call is over after a bounded number of its own steps:
    the bounded wait is what makes it so. *)
Theorem stop_returns w b p l w' :
  reachable w → stopper w = Some (b, p) →
  step w AStopStep (Stop_step w) ∧
  (steps w l w' → (stop_left p ≤ stop_steps l)%nat →
   ∃ l1 l2 w1, l = l1 ++ l2 ∧ steps w l1 w1 ∧ stopper w1 = None).
Proof.
  intros HI%reachable_threads_Inv Hs. split; [constructor; by rewrite Hs|].
  intros H. revert p HI Hs. induction H as [w|w a w1 l w' Hstep H IH]; intros p HI Hs Hl.
  - unfold stop_steps in Hl. destruct p; simpl in Hl; lia.
  - pose proof (threads_step_Inv _ _ _ Hstep HI) as HI1. rewrite stop_steps_cons in Hl.
    assert (Hnext : stopper w1 = None ∨ ∃ p', stopper w1 = Some (b, p') ∧
      (stop_left p' ≤ stop_steps l)%nat).
    { destruct (is_stop_step a) eqn:Ha.
      - destruct a; try done. inversion Hstep; subst.
        destruct (Stop_step_next b p w Hs) as [?|(p' & ? & ?)]; [by left|right]. exists p'. split; [done|lia].
      - right. exists p. split; [exact (step_stopper _ _ _ _ HI Hs Ha Hstep)|lia]. }
    destruct Hnext as [Hn|(p' & Hs' & Hl')].
    + exists [a], l, w1. split_and!; [done|exact (steps_cons _ _ _ _ _ Hstep (steps_nil _))|done].
    + destruct (IH p' HI1 Hs' Hl') as (l1 & l2 & w2 & -> & H1 & H2).
      exists (a :: l1), l2, w2. split_and!; [done|exact (steps_cons _ _ _ _ _ Hstep H1)|done].
Qed.

(** [Stop] moves neither the loop's thread nor what it has run. *)
Lemma Stop_step_frame w :
  pc (Stop_step w) = pc w ∧ running_ (Stop_step w) = running_ w ∧ ran (Stop_step w) = ran w ∧
  (wake_ w ≠ WakeOpen → wake_ (Stop_step w) ≠ WakeOpen).
Proof.
  unfold Stop_step. destruct (stopper w) as [[b p]|]; [|done]. destruct p as [| | |[|n]| |]; try done; simpl.
  - destruct (wake_ w) eqn:E; rewrite ?E; try done. unfold uv_async_send. by rewrite E.
  - destruct (joinable w); simpl; [|done]. destruct (OnLoopThread b _); simpl; [done|].
    by destruct (loop_exited_ w).
  - destruct (OnLoopThread b w); [done|]. unfold uv_loop_close. destruct (wake_ w) eqn:E, (pc w) eqn:E'; simpl;
      by rewrite ?E, ?E'.
Qed.

(** A loop that [Stop] has joined is gone: nothing is run any more unless the
    owner starts the loop again. *)
Theorem joined_means_gone w l w' :
  reachable w → joined w = true → steps w l w' → AStart ∉ l →
  pc w' = LNone ∧ running_ w' = false ∧ ran w' = ran w.
Proof.
  intros HI%reachable_threads_Inv Hj H Hl. destruct (inv_joined _ HI Hj) as [Hp Hr]. clear HI Hj.
  apply (steps_keep (λ w1, pc w1 = LNone ∧ running_ w1 = false ∧ ran w1 = ran w) (λ a, a ≠ AStart) w l);
    [|by apply Forall_forall; intros a Ha ->|done|done].
  intros w1 a w2 Ha Hs (Hp1 & Hr1 & <-). destruct Hs; try done; try congruence.
  - unfold Post_test. simpl. by rewrite Hr1.
  - unfold Post_send, uv_async_send. by case_match.
  - unfold Stop_enter. by rewrite Hr1.
  - destruct (Stop_step_frame w1) as (-> & -> & -> & _). done.
  - unfold RunLoop_step in *. by rewrite Hp1 in *.
Qed.

(** ** The loop's thread ends *)

(** The tasks that the thread will still run when it is told to stop. *)
Definition last_tasks (w : World) : list (Queued Task) :=
  match pc w with LWait => match wake_ w with WakeOpen => pending_ w | _ => [] end | p => ready p end.
Definition loop_left (w : World) : nat :=
  match pc w with
  | LNone => 0
  | LExit => 1
  | LTest => 2
  | LRun q => length q + 3
  | LBegin => 3
  | LWait => match wake_ w with WakeOpen => length (pending_ w) + 4 | _ => 3 end
  end.

(** It can move, towards its end, and runs what it has. *)
Lemma stopping_progress w :
  Inv w → running_ w = false → ¬ will_send w → pc w ≠ LNone →
  ∃ w', RunLoop_step w = Some w' ∧ (loop_left w' < loop_left w)%nat ∧
    running_ w' = false ∧ stopper w' = stopper w ∧ ran w' ++ last_tasks w' = ran w ++ last_tasks w ∧
    (pc w' = LNone → loop_exited_ w' = true ∧ last_tasks w' = []).
Proof.
  intros HI Hr Hws Hp. unfold RunLoop_step, loop_left, last_tasks.
  destruct (pc w) as [| | | |[|x q]|] eqn:E; try done.
  - eexists. split; [done|]. simpl. by split_and!; [lia|..].
  - rewrite Hr. eexists. split; [done|]. simpl. by split_and!; [lia|..].
  - destruct (wake_ w) eqn:Hw.
    + eexists. split; [done|]. simpl. by split_and!; [lia|..].
    + destruct (inv_wake _ HI Hr E Hw) as [Hs|?]; [|done]. rewrite Hs.
      eexists. split; [done|]. simpl. by split_and!; [lia|..].
    + eexists. split; [done|]. simpl. by split_and!; [lia|..].
  - eexists. split; [done|]. simpl. by split_and!; [lia|..].
  - eexists. split; [done|]. destruct x; simpl; (split_and!; [lia|done|done|by rewrite <-(assoc_L (++))|done]).
  - eexists. split; [done|]. simpl. by split_and!; [lia|..].
Qed.

(** C28: No wake-up is lost.  Once [Stop] is past its wake-up, the loop's thread,
    unless it is in [Stop] itself, runs what it has in hand or, if it was
    waiting, what it finds in the queue, and ends: it is never stuck in libuv. *)
Theorem stopped_loop_exits w :
  reachable w → running_ w = false → ¬ will_send w → fst <$> stopper w ≠ Some true → pc w ≠ LNone →
  ∃ n w', (n ≤ loop_left w)%nat ∧ steps w (replicate n ALoop) w' ∧ pc w' = LNone ∧
    loop_exited_ w' = true ∧ ran w' = ran w ++ last_tasks w.
Proof.
  intros HI%reachable_threads_Inv. remember (loop_left w) as k eqn:Hk.
  assert (Hle : (loop_left w ≤ k)%nat) by lia. clear Hk. revert w HI Hle.
  induction k as [|k IH]; intros w HI Hle Hr Hws Hon Hp.
  { unfold loop_left in Hle. destruct (pc w); try case_match; simpl in Hle; try lia. done. }
  destruct (stopping_progress w HI Hr Hws Hp) as (w1 & Hs & Hlt & Hr1 & Hst & Hran & Hend).
  assert (Hstep : step w ALoop w1) by by constructor.
  pose proof (threads_step_Inv _ _ _ Hstep HI) as HI1.
  destruct (decide (loop_left w1 = 0%nat)) as [H0|H0].
  - assert (Hp1 : pc w1 = LNone) by (unfold loop_left in H0; destruct (pc w1); try case_match; simpl in *; try lia; done).
    destruct (Hend Hp1) as [He Hl]. exists 1%nat, w1. split_and!; try done; [lia| |].
    + exact (steps_cons _ _ _ _ _ Hstep (steps_nil _)).
    + by rewrite <-Hran, Hl, app_nil_r.
  - destruct (IH w1 HI1) as (n & w2 & Hn & Hs2 & H1 & H2 & H3); try done; [lia| |by rewrite Hst| |].
    + unfold will_send. by rewrite Hst.
    + intros Hp1. unfold loop_left in H0. by rewrite Hp1 in H0.
    + exists (S n), w2. split_and!; try done; [lia| |].
      * exact (steps_cons _ _ _ _ _ Hstep Hs2).
      * by rewrite H3, Hran.
Qed.

(** ** Where it goes wrong *)

(** [Stop] on the loop's own thread takes the whole bounded wait: the flag it
    waits for is set by the thread that waits.  As long as it has taken [k] of
    the rounds, it has the others before it. *)
Theorem stop_on_loop_waits_out w n l w' :
  reachable w → stopper w = Some (true, SWait n) → steps w l w' → (stop_steps l ≤ n)%nat →
  stopper w' = Some (true, SWait (n - stop_steps l)) ∧ ran w' = ran w.
Proof.
  intros HI%reachable_threads_Inv Hs H. revert n HI Hs.
  induction H as [w|w a w1 l w' Hstep H IH]; intros n HI Hs Hl.
  { split; [|done]. unfold stop_steps. simpl. by rewrite Nat.sub_0_r. }
  pose proof (threads_step_Inv _ _ _ Hstep HI) as HI1. rewrite stop_steps_cons in *.
  destruct (inv_on_loop _ HI _ Hs) as (_ & q & Hq).
  assert (He : loop_exited_ w = false).
  { destruct (loop_exited_ w) eqn:He; [|done]. destruct (inv_exited _ HI He). congruence. }
  assert (Hran : ran w1 = ran w).
  { destruct Hstep; try done; try congruence.
    - apply Post_test_aside.
    - apply Post_send_aside.
    - apply Stop_enter_aside.
    - apply Stop_enter_aside.
    - apply Stop_step_frame.
    - by rewrite Hs in *. }
  destruct (is_stop_step a) eqn:Ha.
  - destruct a; try done. inversion Hstep; subst. destruct n as [|n]; [simpl in Hl; lia|].
    assert (Hs1 : stopper (Stop_step w) = Some (true, SWait n)) by (unfold Stop_step; by rewrite Hs, He).
    destruct (IH n HI1 Hs1) as [-> ->]; [simpl in Hl; lia|]. done.
  - destruct (IH n HI1 (step_stopper _ _ _ _ HI Hs Ha Hstep)) as [-> ->]; [done|]. done.
Qed.

(** A loop whose [wake_] is closed runs no posted task any more. *)
Definition deaf (w : World) : Prop := wake_ w ≠ WakeOpen ∧ ready (pc w) = [].

Lemma deaf_runs_nothing w l w' : deaf w → steps w l w' → AStart ∉ l → ran w' = ran w.
Proof.
  intros Hd H Hl.
  apply (steps_keep (λ w1, deaf w1 ∧ ran w1 = ran w) (λ a, a ≠ AStart) w l);
    [|by apply Forall_forall; intros a Ha ->|done|done].
  clear. intros w1 a w2 Ha Hs ([Hw Hq] & <-). unfold deaf. destruct Hs as [_ _ _ _|x|_|_| |q _ _|_|w2 _ E|Hp]; try done.
  - destruct (Post_test_aside w1) as (-> & -> & ->). done.
  - destruct (Post_send_aside w1) as (-> & -> & ->). done.
  - destruct (Stop_enter_aside false w1) as (-> & -> & ->). done.
  - destruct (Stop_enter_aside true w1) as (-> & -> & ->). done.
  - destruct (Stop_step_frame w1) as (-> & _ & -> & H). auto.
  - unfold RunLoop_step in E. destruct (pc w1) as [| | | |[|x q]|] eqn:Hp; simplify_eq/=; try done.
    + by destruct (running_ w1).
    + destruct (wake_ w1) eqn:Hw'; simplify_eq/=; try done; by rewrite Hw'.
Qed.

(** The executable form of [step]. *)
Definition exec (a : Act) (w : World) : option World :=
  match a with
  | AStart =>
      match stopper w, pc w with
      | None, LNone => if running_ w || joinable w then None else Some (Start w)
      | _, _ => None
      end
  | APush x => Some (Post_push x w)
  | ATest => if (0 <? posters w)%nat then Some (Post_test w) else None
  | ASend => if (0 <? senders w)%nat then Some (Post_send w) else None
  | AStop false => Some (Stop_enter false w)
  | AStop true =>
      match pc w, stopper w with
      | LRun _, None => Some (Stop_enter true w)
      | _, _ => None
      end
  | AStopStep => match stopper w with Some _ => Some (Stop_step w) | None => None end
  | ALoop => match stopper w with Some (true, _) => None | _ => RunLoop_step w end
  | ACallback => match pc w with LWait => Some (w <| pc := LRun [] |>) | _ => None end
  end.
Fixpoint exec_all (l : list Act) (w : World) : option World :=
  match l with [] => Some w | a :: l => exec a w ≫= exec_all l end.

Lemma exec_sound a w w' : exec a w = Some w' → step w a w'.
Proof.
  destruct a as [|x| | |[]| | |]; simpl; intros E.
  - destruct (stopper w) eqn:Hs, (pc w) eqn:Hp; try done.
    destruct (running_ w) eqn:Hr, (joinable w) eqn:Hj; simplify_eq/=. by constructor.
  - simplify_eq. constructor.
  - destruct (Nat.ltb_spec 0 (posters w)); simplify_eq. by constructor.
  - destruct (Nat.ltb_spec 0 (senders w)); simplify_eq. by constructor.
  - destruct (pc w) eqn:Hp; try done. destruct (stopper w) eqn:Hs; simplify_eq.
    eapply st_stop_loop; [done|]. by rewrite Hs.
  - simplify_eq. constructor.
  - destruct (stopper w) eqn:Hs; simplify_eq. constructor. by rewrite Hs.
  - constructor; [|by destruct (stopper w) as [[[] ?]|]]. by destruct (stopper w) as [[[] ?]|].
  - destruct (pc w) eqn:Hp; simplify_eq. by constructor.
Qed.
Lemma exec_all_sound l w w' : exec_all l w = Some w' → steps w l w'.
Proof.
  revert w. induction l as [|a l IH]; intros w E; simpl in E; [simplify_eq; constructor|].
  destruct (exec a w) as [w1|] eqn:E1; simpl in E; [|done].
  eapply steps_cons; [by apply exec_sound|by apply IH].
Qed.
End Threads.

(** ** Runs that go wrong *)
Section Races.
Context {Task : Type}.

(** The loop's thread is at the test of [running_] when [Stop] is called: it ends
    without another look at the queue. *)
Definition missed_quit : list (Act (Task := Task)) :=
  [AStart; ALoop; AStop false; AStopStep; AStopStep; AStopStep; ALoop; ALoop; AStopStep; AStopStep;
   AStopStep].

(** A stop can leave its quit task in the queue, and the next start is then
    useless.  [Stop] joins the thread, the task that closes the handles has not
    run, and [wake_] is open when the loop is closed.  Started again, the loop
    finds the old task behind its first wake-up, closes its own [wake_], and
    runs nothing that is posted later, although it is running. *)
Theorem restart_is_deaf (x y : Task) :
  ∃ w1 l w2, steps new_runner missed_quit w1 ∧ joined w1 = true ∧ stopper w1 = None ∧
    pending_ w1 = [QuitTask] ∧ loop_leaked w1 = true ∧
    steps w1 l w2 ∧ running_ w2 = true ∧ posted w2 = [x; y] ∧ ran w2 = [QuitTask; Posted x] ∧
    ∀ l' w', steps w2 l' w' → AStart ∉ l' → ran w' = [QuitTask; Posted x].
Proof.
  destruct (exec_all missed_quit new_runner) as [w1|] eqn:E1; [|by vm_compute in E1].
  pose proof (exec_all_sound _ _ _ E1) as H1. vm_compute in E1. simplify_eq.
  set (l := [AStart; ALoop; ALoop; APush x; ATest; ASend; ALoop; ALoop; ALoop; ALoop; APush y; ATest; ASend]).
  match type of H1 with steps _ _ ?w => destruct (exec_all l w) as [w2|] eqn:E2; [|by vm_compute in E2] end.
  pose proof (exec_all_sound _ _ _ E2) as H2. vm_compute in E2. simplify_eq.
  do 3 eexists. split; [exact H1|]. split_and!; try done.
  intros l' w' H Hl. match type of H with steps ?w _ _ => assert (Hd : deaf w) by by split end.
  exact (deaf_runs_nothing _ _ _ Hd H Hl).
Qed.

(** [Stop] gives up on a loop that is busy for as long as the bounded wait: it
    closes the loop that a thread still runs. *)
Lemma stop_closes_busy_loop (x : Task) :
  ∃ l w, steps new_runner l w ∧ stopper w = None ∧ closed_alive w = true ∧ pc w = LRun [Posted x].
Proof.
  set (l := [AStart; ALoop; ALoop; APush x; ATest; ASend; ALoop; AStop false] ++ replicate 1006 AStopStep).
  destruct (exec_all l new_runner) as [w|] eqn:E; [|by vm_compute in E].
  pose proof (exec_all_sound _ _ _ E) as H. vm_compute in E. simplify_eq.
  do 2 eexists. by split_and!; [exact H|..].
Qed.

(** [Post] may send its wake-up to a handle that has been closed meanwhile. *)
Lemma post_wakes_closed_handle (x : Task) :
  ∃ l w, steps (Task := Task) new_runner l w ∧ late_send w = true.
Proof.
  set (l := [AStart; ALoop; ALoop; APush x; ATest; AStop false; AStopStep; AStopStep; AStopStep; ALoop; ALoop;
             ASend] : list (Act (Task := Task))).
  destruct (exec_all l new_runner) as [w|] eqn:E; [|by vm_compute in E].
  pose proof (exec_all_sound _ _ _ E) as H. vm_compute in E. simplify_eq.
  do 2 eexists. by split; [exact H|].
Qed.
End Races.

(** ** Witnesses *)
Module ThreadsDemo.
(** Task 7 waits behind a wake-up when [Stop] has sent its own. *)
Definition begin : list (Act (Task := nat)) :=
  [AStart; ALoop; ALoop; APush 7%nat; ATest; ASend; AStop false; AStopStep; AStopStep; AStopStep].
(** The loop's thread is in a callback and stops its loop. *)
Definition self_stop : list (Act (Task := nat)) :=
  [AStart; ALoop; ALoop; ACallback; AStop true; AStopStep; AStopStep; AStopStep].
Definition at_ (l : list (Act (Task := nat))) : World := default new_runner (exec_all l new_runner).
Lemma at_reachable l : is_Some (exec_all l new_runner) → reachable (at_ l).
Proof.
  intros [w E]. exists l. apply exec_all_sound. unfold at_. by rewrite E.
Qed.
End ThreadsDemo.

Lemma posted_tasks_accounted_witness :
  posted (ThreadsDemo.at_ ThreadsDemo.begin) ≡ₚ [7%nat] ∧ discarded (ThreadsDemo.at_ ThreadsDemo.begin) = [Posted 7%nat].
Proof.
  split; [|by vm_compute].
  exact (proj1 (posted_tasks_accounted (ThreadsDemo.at_ ThreadsDemo.begin)
    (ThreadsDemo.at_reachable ThreadsDemo.begin ltac:(vm_compute; eauto)))).
Defined.

Lemma stop_returns_witness :
  step (ThreadsDemo.at_ ThreadsDemo.begin) AStopStep (Stop_step (ThreadsDemo.at_ ThreadsDemo.begin)).
Proof.
  apply (stop_returns (ThreadsDemo.at_ ThreadsDemo.begin) false (SWait rounds) [] new_runner).
  - apply ThreadsDemo.at_reachable. vm_compute. eauto.
  - by vm_compute.
Defined.

Lemma joined_means_gone_witness :
  ran (Post_push 8%nat (ThreadsDemo.at_ missed_quit)) = [].
Proof.
  destruct (joined_means_gone (ThreadsDemo.at_ missed_quit) [APush 8%nat]
    (Post_push 8%nat (ThreadsDemo.at_ missed_quit))) as (_ & _ & H).
  - apply ThreadsDemo.at_reachable. vm_compute. eauto.
  - by vm_compute.
  - eapply steps_cons; constructor.
  - intros H%list_elem_of_singleton. done.
  - exact H.
Defined.

Lemma stopped_loop_exits_witness :
  ∃ n w', (n ≤ 5)%nat ∧ steps (ThreadsDemo.at_ ThreadsDemo.begin) (replicate n ALoop) w' ∧ pc w' = LNone ∧
    loop_exited_ w' = true ∧ ran w' = [QuitTask].
Proof.
  apply (stopped_loop_exits (ThreadsDemo.at_ ThreadsDemo.begin)).
  - apply ThreadsDemo.at_reachable. vm_compute. eauto.
  - by vm_compute.
  - intros (b & p & E & H). vm_compute in E. simplify_eq. by destruct H as [|[]].
  - by vm_compute.
  - by vm_compute.
Defined.

Lemma stop_on_loop_waits_out_witness :
  stopper (Stop_step (ThreadsDemo.at_ ThreadsDemo.self_stop)) = Some (true, SWait 999).
Proof.
  refine (proj1 (stop_on_loop_waits_out (ThreadsDemo.at_ ThreadsDemo.self_stop) 1000 [AStopStep] _ _ _ _ _)).
  - apply ThreadsDemo.at_reachable. vm_compute. eauto.
  - by vm_compute.
  - eapply steps_cons; [constructor; by vm_compute; eauto|constructor].
  - by vm_compute; lia.
Defined.
