(* ===== verification/SessionSpec.v ===== *)
(** * What an HTTP/2 session promises to its owner

    The contract between the session and the two connections that own one: which
    of the bodies given to it it may still report as consumed.  H2Promise.v shows
    that the session of H2Session.v keeps it; the environments of Channel.v and
    ServerConn.v are built from its operations. *)
From S2P Require Import Prelude.

Section Spec.
(** What the owner attaches to a body. *)
Context {A : Type}.

(** The [n]th outstanding body of a stream, and the others. *)
Fixpoint take_body (sid : Z) (n : nat) (b : list (Z * A)) : option (A * list (Z * A)) :=
  match b with
  | [] => None
  | (s, a) :: b =>
      let skip n := match take_body sid n b with
                    | Some (a', b') => Some (a', (s, a) :: b')
                    | None => None
                    end in
      if decide (s = sid) then
        match n with O => Some (a, b) | S n => skip n end
      else skip n
  end.

(** The bodies of a stream that closes go, but for those that the session has
    read to the end: their reports are on the way.  [keep] says which. *)
Fixpoint drop_bodies (sid : Z) (keep : list bool) (b : list (Z * A)) : list (Z * A) :=
  match b with
  | [] => []
  | (s, a) :: b =>
      if decide (s = sid) then
        match keep with
        | true :: keep => (s, a) :: drop_bodies sid keep b
        | _ :: keep => drop_bodies sid keep b
        | [] => drop_bodies sid [] b
        end
      else (s, a) :: drop_bodies sid keep b
  end.

(** The open streams, and the bodies that may be reported. *)
Record Below := mkBelow { streams : gset Z; outstanding : list (Z * A) }.

(** A stream opens, the owner gives a body, a body is reported, a stream closes. *)
Inductive Label :=
  | LOpen (sid : Z)
  | LGive (sid : Z) (a : A)
  | LConsumed (a : A)
  | LClose (sid : Z).

(** A body for a stream that is not there is never reported. *)
Definition give_body (sid : Z) (a : A) (s : gset Z) (b : list (Z * A)) : list (Z * A) :=
  if decide (sid ∈ s) then b ++ [(sid, a)] else b.

Inductive promise : Below → Label → Below → Prop :=
  | promise_open sid s b : promise (mkBelow s b) (LOpen sid) (mkBelow ({[sid]} ∪ s) b)
  | promise_give sid a s b :
      promise (mkBelow s b) (LGive sid a) (mkBelow s (give_body sid a s b))
  | promise_consumed sid n a s b b' :
      take_body sid n b = Some (a, b') →
      promise (mkBelow s b) (LConsumed a) (mkBelow s b')
  | promise_close sid keep s b :
      promise (mkBelow s b) (LClose sid) (mkBelow (s ∖ {[sid]}) (drop_bodies sid keep b)).

(** The runs of the contract. *)
Inductive promised : list Label → Below → Prop :=
  | promised_nil : promised [] (mkBelow ∅ [])
  | promised_snoc ls l b b' : promised ls b → promise b l b' → promised (ls ++ [l]) b'.

(** ** Taking and dropping *)
Lemma take_body_elem sid n b a b' :
  take_body sid n b = Some (a, b') → ∃ b1 b2, b = b1 ++ (sid, a) :: b2 ∧ b' = b1 ++ b2.
Proof.
  revert n b'. induction b as [|[s a0] b IH]; intros n b'; simpl; [done|].
  assert (Hskip : ∀ n, (match take_body sid n b with
      | Some (a', b1) => Some (a', (s, a0) :: b1) | None => None end) = Some (a, b') →
    ∃ b1 b2, (s, a0) :: b = b1 ++ (sid, a) :: b2 ∧ b' = b1 ++ b2).
  { intros m. destruct (take_body sid m b) as [[a' b1]|] eqn:E; [|done]. intros [= -> <-].
    destruct (IH _ _ E) as (c1 & c2 & -> & ->). by exists ((s, a0) :: c1), c2. }
  case_decide as Hs; [|apply Hskip]. destruct n; [|apply Hskip].
  intros [= -> ->]. subst s. by exists [], b'.
Qed.

(** Any of the bodies may be taken. *)
Lemma take_body_split sid a b1 b2 : ∃ n, take_body sid n (b1 ++ (sid, a) :: b2) = Some (a, b1 ++ b2).
Proof.
  induction b1 as [|[s a0] b1 [n IH]]; simpl.
  - exists 0%nat. by rewrite decide_True.
  - destruct (decide (s = sid)); [exists (S n)|exists n]; by rewrite IH.
Qed.

Lemma drop_bodies_sublist sid keep b : drop_bodies sid keep b `sublist_of` b.
Proof.
  revert keep. induction b as [|[s a] b IH]; intros keep; simpl; [done|].
  case_decide; [|by constructor]. destruct keep as [|[] keep]; by constructor.
Qed.

(** Any choice of them may be kept. *)
Lemma drop_bodies_filter (P : Z * A → Prop) `{!∀ x, Decision (P x)} sid b :
  (∀ x, x.1 ≠ sid → P x) → ∃ keep, drop_bodies sid keep b = filter P b.
Proof.
  intros HP. induction b as [|[s a] b [keep IH]]; [by exists []|].
  rewrite filter_cons. destruct (decide (s = sid)) as [->|Hs].
  - case_decide; [exists (true :: keep)|exists (false :: keep)]; simpl; rewrite decide_True by done;
      by rewrite IH.
  - exists keep. simpl. rewrite decide_False by done. rewrite decide_True by (by apply HP). by rewrite IH.
Qed.

Lemma promised_inv ls l b' :
  promised (ls ++ [l]) b' → ∃ b, promised ls b ∧ promise b l b'.
Proof.
  inversion 1 as [E|ls' l' b b'' H1 H2 E]; [by destruct ls|].
  apply app_inj_tail in E as [-> ->]. eauto.
Qed.
End Spec.
(** *** What the owner attaches is its own business *)
Section Map.
Context {A B : Type} (f : A → B).
Definition entry_map (x : Z * A) : Z * B := (x.1, f x.2).
Definition label_map (l : Label (A := A)) : Label (A := B) :=
  match l with
  | LOpen sid => LOpen sid
  | LGive sid a => LGive sid (f a)
  | LConsumed a => LConsumed (f a)
  | LClose sid => LClose sid
  end.
Definition below_map (b : Below (A := A)) : Below (A := B) :=
  mkBelow (streams b) (map entry_map (outstanding b)).

Lemma take_body_map sid n b :
  take_body sid n (map entry_map b) =
    match take_body sid n b with Some (a, b') => Some (f a, map entry_map b') | None => None end.
Proof.
  revert n. induction b as [|[s a] b IH]; intros n; simpl; [done|].
  case_decide; [destruct n|]; rewrite ?IH; try done; by destruct (take_body sid _ b) as [[]|].
Qed.
Lemma drop_bodies_map sid keep b :
  drop_bodies sid keep (map entry_map b) = map entry_map (drop_bodies sid keep b).
Proof.
  revert keep. induction b as [|[s a] b IH]; intros keep; simpl; [done|].
  case_decide; [destruct keep as [|[] keep]|]; simpl; by rewrite IH.
Qed.
Lemma give_body_map sid a s b :
  give_body sid (f a) s (map entry_map b) = map entry_map (give_body sid a s b).
Proof. unfold give_body. case_decide; [by rewrite map_app|done]. Qed.

Lemma promise_map b l b' : promise b l b' → promise (below_map b) (label_map l) (below_map b').
Proof.
  destruct 1 as [sid s b|sid a s b|sid n a s b b' H|sid keep s b]; unfold below_map; simpl.
  - constructor.
  - rewrite <-give_body_map. constructor.
  - econstructor. by rewrite take_body_map, H.
  - rewrite <-drop_bodies_map. constructor.
Qed.
Lemma promised_map ls b : promised ls b → promised (map label_map ls) (below_map b).
Proof.
  induction 1 as [|ls l b b' _ IH H]; [constructor|]. rewrite map_app.
  by eapply promised_snoc, promise_map.
Qed.
End Map.

Arguments Below : clear implicits.
Arguments Label : clear implicits.
