(* ===== verification/Platform.v ===== *)
(** * Sockets (core/include/urpc/core/platform.h, core/source/platform/urpc_platform.cpp)

    Address parsing, the outcome of a connect, and the listener's lifecycle.
    libuv's own functions are parameters: what they return, not what they do. *)
From S2P Require Import Prelude Status CxxString Wire.

(** ** [std::string] *)

(** [s.rfind(c)]: the last position of a character. *)
Fixpoint rfind_from (c : ascii) (s : string) (i : nat) (last : option nat) : option nat :=
  match s with
  | String a s => rfind_from c s (S i) (if Ascii.eqb a c then Some i else last)
  | EmptyString => last
  end.
Definition rfind (c : ascii) (s : string) : option nat := rfind_from c s 0 None.

(** [s.substr(n)] *)
Definition substr_from (n : nat) (s : string) : string :=
  String.substring n (String.length s - n) s.

Definition front (s : string) : ascii :=
  match s with String c _ => c | EmptyString => chr 0 end.

(** *** Lemmas *)

(** A character that does not occur. *)
Definition no_char (c : ascii) (s : string) : Prop := Forall (λ a, a ≠ c) (chars s).

Lemma rfind_from_none c s i last : no_char c s → rfind_from c s i last = last.
Proof.
  unfold no_char, chars. revert i last. induction s as [|a s IH]; intros i last H; simpl; [done|].
  simpl in H. apply Forall_cons in H as [Ha Hs]. rewrite IH by done.
  destruct (Ascii.eqb_spec a c); [done|done].
Qed.

Lemma rfind_last c h t : no_char c t → rfind c (h +:+ String c t) = Some (String.length h).
Proof.
  intros Ht. unfold rfind. cut (∀ i last, rfind_from c (h +:+ String c t) i last =
    Some (i + String.length h)%nat); [intros ->; done|].
  induction h as [|a h IH]; intros i last; simpl.
  - rewrite Ascii.eqb_refl, rfind_from_none by done. f_equal. lia.
  - rewrite IH. f_equal. lia.
Qed.

Lemma substring_app h t : String.substring 0 (String.length h) (h +:+ t) = h.
Proof. induction h as [|a h IH]; simpl; [by destruct t|]. by rewrite IH. Qed.

Lemma substring_all s : String.substring 0 (String.length s) s = s.
Proof. induction s as [|a s IH]; simpl; [done|]. by rewrite IH. Qed.

Lemma substr_from_app h t : substr_from (String.length h) (h +:+ t) = t.
Proof.
  unfold substr_from. rewrite string_length_app, Nat.add_comm, Nat.add_sub.
  induction h as [|a h IH]; simpl; [apply substring_all|exact IH].
Qed.

Lemma prefix_app p s : String.prefix p (p +:+ s) = true.
Proof.
  induction p as [|a p IH]; simpl; [by destruct s|].
  destruct (ascii_dec a a); [exact IH|done].
Qed.

Lemma string_app_assoc (a b c : string) : a +:+ (b +:+ c) = (a +:+ b) +:+ c.
Proof. induction a as [|x a IH]; simpl; [done|]. exact (f_equal (String x) IH). Qed.

Lemma digits_no_colon s : all_digits (chars s) → no_char ":" s.
Proof.
  unfold all_digits, no_char. intros H. eapply Forall_impl; [exact H|].
  intros a Ha ->. by vm_compute in Ha.
Qed.

Lemma pretty_nonneg (p : Z) : 0 ≤ p → pretty p = pretty (Z.to_N p).
Proof. intros Hp. destruct p; [done|done|lia]. Qed.

Definition proto : string := "tcp://".
Definition colon_char : ascii := ":".

Definition no_host_port : Status := mkStatus kInternal "address must be host:port".
Definition bad_port (port : string) : Status := mkStatus kInternal ("bad port: " +:+ port).
Definition port_range (port : string) : Status :=
  mkStatus kInternal ("port out of range: " +:+ port).

Section Platform.
(** [uv_ip4_addr], [uv_ip6_addr], [uv_strerror]: an address, or an error code
    and its text. *)
Context {sockaddr : Type}.
Context (uv_ip4_addr uv_ip6_addr : string → Z → sockaddr + Z) (uv_strerror : Z → string).

(** [host] without the brackets of an IPv6 literal. *)
Definition strip_brackets (host : string) : string :=
  if negb (String.eqb host "") && Ascii.eqb (front host) "[" && Ascii.eqb (back host) "]"
  then String.substring 1 (String.length host - 2) host else host.

Definition ParseAddress (address : string) : sockaddr + Status :=
  let a := if String.prefix proto address
           then substr_from (String.length proto) address else address in
  match rfind colon_char a with
  | None => inr no_host_port
  | Some colon =>
      if (colon =? 0)%nat || (String.length a <=? colon + 1)%nat then inr no_host_port
      else
        let host := String.substring 0 colon a in
        let port := substr_from (colon + 1) a in
        match stoi port with
        | None => inr (bad_port port)
        | Some port_no =>
            if (port_no <? 0) || (65535 <? port_no) then inr (port_range port)
            else
              let host := strip_brackets host in
              match (match rfind colon_char host with
                     | Some _ => uv_ip6_addr host port_no
                     | None => uv_ip4_addr host port_no
                     end) with
              | inl addr => inl addr
              | inr rc => inr (mkStatus kInternal
                  ("bad address '" +:+ address +:+ "': " +:+ uv_strerror rc))
              end
        end
  end.

(** ** Connecting *)

(** What [TcpConnect] has done with its callback when it returns: called it with
    an error, kept it for [OnConnect], or called it after moving it away, which
    throws [std::bad_function_call]. *)
Inductive connect_outcome :=
  | CalledBack (st : Status)
  | Connecting (addr : sockaddr)
  | CalledMoved (st : Status).

(** [uv_tcp_connect addr] is the code that libuv's call returns. *)
Context (uv_tcp_connect : sockaddr → Z).

Definition TcpConnect (address : string) : connect_outcome :=
  match ParseAddress address with
  | inr st => CalledBack st
  | inl addr =>
      let rc := uv_tcp_connect addr in
      if rc =? 0 then Connecting addr
      else CalledMoved (mkStatus kUnavailable (uv_strerror rc))
  end.

(** [OnConnect]: the status the callback gets, unless it was done before. *)
Definition OnConnect (done : bool) (status : Z) : option Status * bool :=
  if done then (None, true)
  else if status <? 0 then (Some (mkStatus kUnavailable (uv_strerror status)), true)
  else (Some Ok, true).

(** ** Listening *)
Record TcpListener := mkListener {
  loop_set : bool;                  (* loop_ != nullptr *)
  closing : bool;                   (* uv_is_closing(handle_) *)
  on_accept_ : option nat;
  on_closed_ : option nat
}.
#[global] Instance eta_TcpListener : EtaRecord TcpListener := λ l,
  mkListener (loop_set l) (closing l) (on_accept_ l) (on_closed_ l).
Definition newListener : TcpListener := mkListener false false None None.

(** [uv_tcp_bind] and [uv_listen] as the codes they return. *)
Context (uv_tcp_bind : sockaddr → Z) (uv_listen : Z).

Definition BindAndListen (address : string) (on_accept : nat) (l : TcpListener)
    : Status * TcpListener :=
  match ParseAddress address with
  | inr st => (st, l)
  | inl addr =>
      let l := l <| loop_set := true |> <| on_accept_ := Some on_accept |> in
      let rc := uv_tcp_bind addr in
      if negb (rc =? 0) then (mkStatus kUnavailable (uv_strerror rc), l)
      else if negb (uv_listen =? 0) then (mkStatus kUnavailable (uv_strerror uv_listen), l)
      else (Ok, l)
  end.

(** [OnConnection]: the callback to run on the accepted stream, if any;
    [accept] is the code of [uv_accept]. *)
Definition OnConnection (status accept : Z) (l : TcpListener) : option nat :=
  match on_accept_ l with
  | Some cb => if (status <? 0) || negb (accept =? 0) then None else Some cb
  | None => None
  end.

(** The callbacks that run at once, and the listener. *)
Definition OnClosedTramp (l : TcpListener) : list nat * TcpListener :=
  match on_closed_ l with
  | Some cb => ([cb], l <| on_closed_ := None |>)
  | None => ([], l)
  end.

Definition Close (on_closed : option nat) (l : TcpListener) : list nat * TcpListener :=
  if negb (loop_set l) then (option_list on_closed, l)
  else
    let l := l <| on_closed_ := on_closed |> in
    let l := if closing l then l else l <| closing := true |> in
    ([], l <| loop_set := false |>).

(** [sockaddr_storage], as far as a port is read from it: the family and the two
    bytes of [sin_port] and of [sin6_port], in the order of the network. *)
Record sockaddr_storage := mkStorage {
  is_inet6 : bool;                  (* ss_family == AF_INET6 *)
  sin_port : ascii * ascii;
  sin6_port : ascii * ascii
}.
Definition ntohs (p : ascii * ascii) : Z := ord p.1 * 256 + ord p.2.

(** [name] is what [uv_tcp_getsockname] fills in, if it succeeds. *)
Definition bound_port (name : option sockaddr_storage) : Z :=
  match name with
  | None => 0
  | Some ss => if is_inet6 ss then ntohs (sin6_port ss) else ntohs (sin_port ss)
  end.

(** ** Properties *)

(** The port a listener is bound to is read back from either family: a port
    number, whose two bytes the address has, and 0 without an address. *)
Theorem bound_port_read_back (six : bool) port other :
  0 ≤ port ≤ 65535 →
  let bytes := (chr (port / 256), chr port) in
  bound_port (Some (if six then mkStorage true other bytes else mkStorage false bytes other)) = port ∧
  (∀ name, 0 ≤ bound_port name ≤ 65535).
Proof.
  intros Hp bytes. split.
  - assert (Hn : ntohs bytes = port).
    { unfold ntohs, bytes. simpl. rewrite !ord_chr. unfold u8. rewrite (Z.mod_small (port / 256)).
      - pose proof (Z.div_mod port 256 ltac:(lia)). change (2 ^ 8) with 256. lia.
      - split; [apply Z.div_pos; lia|]. change (2 ^ 8) with 256. apply Z.div_lt_upper_bound; lia. }
    by destruct six.
  - intros [[[] [a b] [c d]]|]; simpl; [| |lia]; unfold ntohs; simpl.
    + pose proof (ord_range c). pose proof (ord_range d). lia.
    + pose proof (ord_range a). pose proof (ord_range b). lia.
Qed.

(** What libuv makes of a host and a port. *)
Definition resolve (address host : string) (port : Z) : sockaddr + Status :=
  match (match rfind colon_char host with
         | Some _ => uv_ip6_addr host port
         | None => uv_ip4_addr host port
         end) with
  | inl addr => inl addr
  | inr rc => inr (mkStatus kInternal
      ("bad address '" +:+ address +:+ "': " +:+ uv_strerror rc))
  end.

Lemma parse_endpoint address h ds port :
  (if String.prefix proto address then substr_from (String.length proto) address else address) =
    h +:+ ":" +:+ ds →
  h ≠ "" → ds ≠ "" → no_char ":" ds → stoi ds = Some port → 0 ≤ port ≤ 65535 →
  ParseAddress address = resolve address (strip_brackets h) port.
Proof.
  intros Ha Hh Hds Hnc Hst Hp. unfold ParseAddress. rewrite Ha.
  change (h +:+ ":" +:+ ds) with (h +:+ String ":" ds). unfold colon_char at 1. rewrite rfind_last by done.
  assert (Hlen : String.length (h +:+ String ":" ds) = (String.length h + S (String.length ds))%nat)
    by apply string_length_app.
  rewrite Hlen. assert (String.length h ≠ 0%nat) by (destruct h; simpl; [done|lia]).
  assert (String.length ds ≠ 0%nat) by (destruct ds; simpl; [done|lia]).
  destruct (Nat.eqb_spec (String.length h) 0); [lia|].
  destruct (Nat.leb_spec (String.length h + S (String.length ds)) (String.length h + 1)); [lia|].
  simpl orb. cbn match.
  assert (substr_from (String.length h + 1) (h +:+ String ":" ds) = ds) as ->.
  { change (String ":" ds) with (":" +:+ ds). rewrite string_app_assoc.
    assert (String.length h + 1 = String.length (h +:+ ":"))%nat as ->
      by (rewrite string_length_app; done).
    apply substr_from_app. }
  rewrite substring_app, Hst.
  destruct (Z.ltb_spec port 0); [lia|]. destruct (Z.ltb_spec 65535 port); [lia|]. done.
Qed.

(** An endpoint is taken apart as it was written.  For any host and any port
    number, "host:port" and "tcp://host:port" parse to what libuv makes of the
    host, without IPv6 brackets, and that port; a host with a colon goes to the
    IPv6 parser, any other to the IPv4 one. *)
Theorem parse_address_endpoint h port :
  h ≠ "" → 0 ≤ port ≤ 65535 →
  let ep := h +:+ ":" +:+ pretty port in
  ParseAddress (proto +:+ ep) = resolve (proto +:+ ep) (strip_brackets h) port ∧
  (String.prefix proto ep = false → ParseAddress ep = resolve ep (strip_brackets h) port).
Proof.
  intros Hh Hp ep. destruct (pretty_N_chars (Z.to_N port)) as (Hne & Hd & _).
  rewrite <-(pretty_nonneg port) in Hne, Hd by lia.
  assert (stoi (pretty port) = Some port) by (apply stoi_pretty; lia).
  split.
  - apply (parse_endpoint _ h (pretty port)); try done.
    + rewrite prefix_app. apply substr_from_app.
    + by apply digits_no_colon.
  - intros Hpre. apply (parse_endpoint _ h (pretty port)); try done.
    + by rewrite Hpre.
    + by apply digits_no_colon.
Qed.

(** An accepted address is a resolved one.  Whenever [ParseAddress] succeeds,
    the address is what libuv returned for some host and a port within 0 to
    65535, and whatever else is refused with INTERNAL. *)
Theorem parse_address_sound address :
  match ParseAddress address with
  | inl addr => ∃ host port, 0 ≤ port ≤ 65535 ∧
      (uv_ip4_addr host port = inl addr ∨ uv_ip6_addr host port = inl addr)
  | inr st => code st = kInternal
  end.
Proof.
  unfold ParseAddress. destruct (rfind colon_char _) as [colon|]; [|done].
  destruct (_ || _); [done|]. destruct (stoi _) as [port|]; [|done].
  destruct ((port <? 0) || (65535 <? port)) eqn:Hr; [done|]. bool_cond.
  destruct (rfind colon_char (strip_brackets _)).
  - destruct (uv_ip6_addr _ _) as [a|rc] eqn:E; [|done]. do 2 eexists. split; [|by right]. lia.
  - destruct (uv_ip4_addr _ _) as [a|rc] eqn:E; [|done]. do 2 eexists. split; [|by left]. lia.
Qed.

(** A connect that libuv refuses at once throws.  [TcpConnect] has moved its
    callback into the request by then, so the error is given to an empty
    function: exactly the addresses that parse and whose connect is refused
    end that way, every other one calls its callback or waits for libuv. *)
Theorem refused_connect_throws address st :
  TcpConnect address = CalledMoved st ↔
  ∃ addr, ParseAddress address = inl addr ∧ uv_tcp_connect addr ≠ 0 ∧
    st = mkStatus kUnavailable (uv_strerror (uv_tcp_connect addr)).
Proof.
  unfold TcpConnect. destruct (ParseAddress address) as [addr|st'].
  - destruct (Z.eqb_spec (uv_tcp_connect addr) 0) as [E|E]; split.
    + done.
    + intros (? & [= <-] & ? & _). done.
    + intros [= <-]. by exists addr.
    + by intros (? & [= <-] & ? & ->).
  - split; [done|]. by intros (? & [=] & _).
Qed.

(** A second [Close] does not wait.  Closing a listener runs its callback when
    libuv reports the handle closed, and not before; closing it again before
    that report runs the second callback at once, although the handle is not
    closed yet. *)
Theorem close_and_close_again l cb1 cb2 :
  loop_set l = true →
  let '(now1, l1) := Close (Some cb1) l in
  let '(now2, l2) := Close (Some cb2) l1 in
  now1 = [] ∧ closing l1 = true ∧ now2 = [cb2] ∧ l2 = l1 ∧
  (OnClosedTramp l1).1 = [cb1] ∧ (OnClosedTramp (OnClosedTramp l1).2).1 = [].
Proof. intros Hl. unfold Close. rewrite Hl. simpl. by destruct (closing l) eqn:E; simpl; rewrite ?E. Qed.
End Platform.

Lemma bound_port_read_back_witness :
  bound_port (Some (mkStorage true (chr 0, chr 0) (chr (50051 / 256), chr 50051))) = 50051.
Proof. apply (bound_port_read_back true 50051 (chr 0, chr 0)). lia. Defined.

(** libuv as far as the witnesses need it: an address is its host and port. *)
Lemma parse_address_endpoint_witness :
  ParseAddress (λ h p, inl (h, p)) (λ h p, inl (h, p)) (λ _, EmptyString) "tcp://[::1]:80" =
    inl ("::1", 80).
Proof.
  apply (proj1 (parse_address_endpoint (λ h p, inl (h, p)) (λ h p, inl (h, p)) (λ _, EmptyString)
    "[::1]" 80 ltac:(discriminate) ltac:(lia))).
Defined.
