(* ===== verification/SocketIo.v ===== *)
(** * Reading and writing sockets (core/source/urpc_server.cc, core/source/urpc_channel.cc)

    The handler's [OnWrite], libuv's callbacks [UvAlloc], [UvWriteCb] and
    [OnRead], and the arrays and requests that they allocate: the server's
    connection and the channel have one copy each of the same code.  libuv is
    the environment: it accepts a write or refuses it, ends the accepted ones in
    order, written or failed, and hands over what it read.  What the session
    writes while it consumes is the environment, too. *)
From S2P Require Import Prelude CxxString.

(** Who owns the socket: [Server::Impl::Conn] or [Channel::Impl]. *)
Inductive Side := ServerSide | ClientSide.

Record World := mkWorld {
  socket : bool;                 (* socket != nullptr *)
  closed : bool;                 (* [Conn::closed] *)
  arrays : gmap nat bytes;       (* what new char[] gave and is alive *)
  reqs : gmap nat nat;           (* each uv_write_t that is alive, with its data *)
  next : nat;
  queue : list nat;              (* the requests that libuv has accepted *)
  wire : bytes;
  consumed : list bytes;         (* given to the session *)
  fault : bool;                  (* something was deleted twice *)
  accepted : bytes;              (* ghost: the bytes of accepted writes *)
  refused : nat                  (* ghost: the writes that libuv refused *)
}.
#[export] Instance eta_SocketWorld : EtaRecord World := λ w,
  mkWorld (socket w) (closed w) (arrays w) (reqs w) (next w) (queue w) (wire w) (consumed w)
    (fault w) (accepted w) (refused w).
Definition connected : World := mkWorld true false ∅ ∅ 0 [] [] [] false [] 0.

(** ** The code *)
Definition new_array (d : bytes) (w : World) : nat * World :=
  (next w, w <| next ::= S |> <| arrays ::= <[next w := d]> |>).
Definition delete_array (p : nat) (w : World) : World :=
  match arrays w !! p with
  | Some _ => w <| arrays ::= delete p |>
  | None => w <| fault := true |>
  end.

Definition UvWriteCb (req : nat) (w : World) : World :=
  match reqs w !! req with
  | Some p => (delete_array p w) <| reqs ::= delete req |>
  | None => w <| fault := true |>
  end.

(** The guard of each side. *)
Definition writable (side : Side) (w : World) : bool :=
  match side with ServerSide => socket w && negb (closed w) | ClientSide => socket w end.

(** [uv_write]'s result is not looked at; [taken] says whether it was 0. *)
Definition OnWrite (side : Side) (taken : bool) (d : bytes) (w : World) : World :=
  if negb (writable side w) then w
  else
    let req := next w in
    let '(copy, w) := new_array d (w <| next ::= S |>) in
    let w := w <| reqs ::= <[req := copy]> |> in
    if taken then w <| queue ::= λ q, q ++ [req] |> <| accepted ::= λ b, b ++ d |>
    else w <| refused ::= S |>.

(** [OnConnectionLost] of the channel, the server's [closed = true]. *)
Definition OnLost (side : Side) (w : World) : World :=
  match side with ServerSide => w <| closed := true |> | ClientSide => w <| socket := false |> end.

(** What [read] brought: bytes, nothing, or an error. *)
Inductive ReadResult := ReadBytes (d : bytes) | ReadNothing | ReadError.

(** [UvAlloc], then [OnRead] on the array; [writes] are what the session
    writes in [Consume]. *)
Definition UvAlloc (w : World) : nat * World := new_array [] w.
Definition OnRead (side : Side) (r : ReadResult) (writes : list (bool * bytes)) (w : World) : World :=
  let '(base, w) := UvAlloc w in
  let w := match r with
           | ReadBytes d =>
               fold_left (λ w x, OnWrite side x.1 x.2 w) writes (w <| consumed ::= λ l, l ++ [d] |>)
           | ReadNothing => w
           | ReadError => OnLost side w
           end in
  delete_array base w.

(** The end of the oldest write: its bytes are on the wire unless it failed. *)
Definition finish_write (ok : bool) (w : World) : World :=
  match queue w with
  | [] => w
  | req :: q =>
      let d := default [] (reqs w !! req ≫= (arrays w !!.)) in
      UvWriteCb req (w <| queue := q |> <| wire ::= λ b, if ok then b ++ d else b |>)
  end.

Inductive Event :=
  | EvWrite (taken : bool) (d : bytes)
  | EvWritten (ok : bool)
  | EvRead (r : ReadResult) (writes : list (bool * bytes))
  | EvClose.                                   (* uv_close(socket), socket = nullptr *)

Definition step (side : Side) (w : World) (e : Event) : World :=
  match e with
  | EvWrite taken d => OnWrite side taken d w
  | EvWritten ok => finish_write ok w
  | EvRead r writes => OnRead side r writes w
  | EvClose => w <| socket := false |>
  end.
Definition run (side : Side) (es : list Event) : World := fold_left (step side) es connected.

(** ** The invariant *)

(** The bytes of a request. *)
Definition content (w : World) (req : nat) : bytes := default [] (reqs w !! req ≫= (arrays w !!.)).
Definition unwritten (w : World) : bytes := concat (map (content w) (queue w)).

(** Every request has an array of its own; the arrays [held] are of a read. *)
Record Inv (held : gset nat) (w : World) : Prop := {
  inv_new p : p ∈ dom (arrays w) ∪ dom (reqs w) → (p < next w)%nat;
  inv_req r p : reqs w !! r = Some p → p ∈ dom (arrays w) ∖ held;
  inv_inj r r' p : reqs w !! r = Some p → reqs w !! r' = Some p → r = r';
  inv_queue : NoDup (queue w) ∧ ∀ r, r ∈ queue w → r ∈ dom (reqs w);
  inv_held : held ⊆ dom (arrays w);
  inv_arrays : size (arrays w) = (size (reqs w) + size held)%nat;
  inv_reqs : size (reqs w) = (length (queue w) + refused w)%nat;
  inv_fault : fault w = false
}.

Lemma new_array_Inv held d w :
  Inv held w → let '(p, w') := new_array d w in Inv ({[p]} ∪ held) w'.
Proof.
  intros []. unfold new_array.
  assert (Hn : next w ∉ dom (arrays w)) by (intros H; specialize (inv_new0 (next w)); set_solver by lia).
  split; simpl; try done.
  - intros p. rewrite dom_insert. intros [[->%elem_of_singleton|Hp]%elem_of_union|Hp]%elem_of_union;
      [lia| |]; (specialize (inv_new0 p); set_solver by lia).
  - intros r p Hr. specialize (inv_req0 r p Hr). rewrite dom_insert. set_solver.
  - rewrite dom_insert. set_solver.
  - rewrite map_size_insert_None by by apply not_elem_of_dom.
    rewrite size_union by set_solver. rewrite size_singleton. lia.
Qed.

Lemma OnWrite_Inv held side taken d w : Inv held w → Inv held (OnWrite side taken d w).
Proof.
  intros HI. unfold OnWrite. destruct (writable side w); [|done]. cbn [negb].
  assert (HI0 : Inv held (w <| next ::= S |>)).
  { destruct HI. split; try done. intros p Hp%inv_new0. simpl. lia. }
  pose proof (new_array_Inv held d _ HI0) as H. unfold new_array in *. simpl in *.
  destruct HI, H. simpl in *.
  assert (Hn : next w ∉ dom (reqs w)) by (intros H; specialize (inv_new0 (next w)); set_solver by lia).
  assert (Ha : S (next w) ∉ dom (arrays w)) by (intros H; specialize (inv_new0 (S (next w))); set_solver by lia).
  assert (Hh : S (next w) ∉ held) by set_solver.
  assert (Hnew : ∀ p, p ∈ dom (<[S (next w) := d]> (arrays w)) ∪ dom (<[next w := S (next w)]> (reqs w)) →
    (p < S (S (next w)))%nat).
  { intros p. rewrite !dom_insert. intros Hp. specialize (inv_new0 p).
    assert (p = S (next w) ∨ p = next w ∨ p ∈ dom (arrays w) ∪ dom (reqs w)) by set_solver. 
    destruct H as [->|[->|H]]; [lia|lia|]. specialize (inv_new0 H). lia. }
  assert (Hreq : ∀ r p, <[next w := S (next w)]> (reqs w) !! r = Some p →
    p ∈ dom (<[S (next w) := d]> (arrays w)) ∖ held).
  { intros r p. rewrite lookup_insert_Some, dom_insert. intros [[<- <-]|[_ Hr%inv_req0]]; set_solver. }
  assert (Hinj : ∀ r r' p, <[next w := S (next w)]> (reqs w) !! r = Some p →
    <[next w := S (next w)]> (reqs w) !! r' = Some p → r = r').
  { intros r r' p. rewrite !lookup_insert_Some. intros [[<- <-]|[Hne Hr]] [[<- Hp]|[Hne' Hr']]; try done.
    - apply inv_req0 in Hr'. set_solver.
    - subst p. apply inv_req0 in Hr. set_solver.
    - by eapply inv_inj0. }
  destruct inv_queue0 as [Hnd Hq].
  assert (Hsz : size (<[next w := S (next w)]> (reqs w)) = S (size (reqs w)))
    by (by apply map_size_insert_None, not_elem_of_dom).
  assert (Hsa : size (<[S (next w) := d]> (arrays w)) = S (size (arrays w)))
    by (by apply map_size_insert_None, not_elem_of_dom).
  assert (Hhd : held ⊆ dom (<[S (next w) := d]> (arrays w))) by (rewrite dom_insert; set_solver).
  destruct taken; split; simpl; try done; rewrite ?Hsz, ?Hsa; try lia.
  - split.
    + apply NoDup_app. split_and!; [done| |apply NoDup_singleton].
      intros r Hr%Hq Hr'. apply list_elem_of_singleton in Hr'. by subst.
    + intros r [Hr%Hq|Hr]%elem_of_app; rewrite dom_insert; set_solver.
  - rewrite length_app. simpl. lia.
  - split; [done|]. intros r Hr%Hq. rewrite dom_insert. set_solver.
Qed.

Lemma writes_Inv held side writes w :
  Inv held w → Inv held (fold_left (λ w x, OnWrite side x.1 x.2 w) writes w).
Proof.
  revert w. induction writes as [|[t d] writes IH]; intros w H; simpl; [done|].
  apply IH. by apply OnWrite_Inv.
Qed.

Lemma delete_array_Inv p held w : Inv ({[p]} ∪ held) w → p ∉ held → Inv held (delete_array p w).
Proof.
  intros [] Hp. unfold delete_array.
  assert (Ha : p ∈ dom (arrays w)) by set_solver.
  apply elem_of_dom in Ha as [d Hd]. rewrite Hd. split; simpl; try done.
  - intros x. rewrite dom_delete. intros Hx. apply inv_new0. set_solver.
  - intros r x Hr%inv_req0. rewrite dom_delete. set_solver.
  - rewrite dom_delete. set_solver.
  - rewrite map_size_delete_Some by by eexists. rewrite inv_arrays0, size_union by set_solver.
    rewrite size_singleton. lia.
Qed.

Lemma UvWriteCb_Inv req q w :
  Inv ∅ w → queue w = req :: q → ∀ w', w' = w <| queue := q |> <| wire := wire w' |> → Inv ∅ (UvWriteCb req w').
Proof.
  intros [] Eq w' ->. unfold UvWriteCb, delete_array. simpl. destruct inv_queue0 as [Hnd Hq]. rewrite Eq in *.
  assert (Hr : req ∈ dom (reqs w)) by (apply Hq; set_solver).
  apply elem_of_dom in Hr as [p Hr]. rewrite Hr.
  assert (Ha : p ∈ dom (arrays w)) by (specialize (inv_req0 _ _ Hr); set_solver).
  apply elem_of_dom in Ha as [d Hd]. rewrite Hd. apply NoDup_cons in Hnd as [Hn Hnd].
  split; simpl; try done.
  - intros x. rewrite !dom_delete. intros Hx. apply inv_new0. set_solver.
  - intros r x. rewrite lookup_delete_Some, dom_delete. intros [Hne Hx].
    assert (x ≠ p) by (intros ->; by apply Hne; eapply inv_inj0).
    specialize (inv_req0 _ _ Hx). set_solver.
  - intros r r' x. rewrite !lookup_delete_Some. intros [_ H1] [_ H2]. by eapply inv_inj0.
  - split; [done|]. intros r Hx. rewrite dom_delete. assert (r ≠ req) by (by intros ->). 
    specialize (Hq r). set_solver.
  - rewrite !map_size_delete_Some by by eexists. change (size ∅) with 0%nat in inv_arrays0.
    change (set_size _) with 0%nat. simpl in *. lia.
  - rewrite map_size_delete_Some by by eexists. simpl in *. lia.
Qed.

(** The flags and what was consumed do not matter. *)
Lemma same_memory_Inv held w w' :
  arrays w' = arrays w → reqs w' = reqs w → next w' = next w → queue w' = queue w →
  refused w' = refused w → fault w' = fault w → Inv held w → Inv held w'.
Proof. intros E1 E2 E3 E4 E5 E6 []. split; rewrite ?E1, ?E2, ?E3, ?E4, ?E5, ?E6; done. Qed.

Lemma socket_step_Inv side w e : Inv ∅ w → Inv ∅ (step side w e).
Proof.
  intros HI. destruct e as [taken d|ok|r writes|]; simpl.
  - by apply OnWrite_Inv.
  - unfold finish_write. destruct (queue w) as [|req q] eqn:Eq; [done|].
    by eapply UvWriteCb_Inv.
  - unfold OnRead, UvAlloc. pose proof (new_array_Inv ∅ [] w HI) as H.
    destruct (new_array [] w) as [base w1]. apply delete_array_Inv; [|set_solver].
    destruct r as [d| |]; [|done|].
    + apply writes_Inv. by eapply same_memory_Inv, H.
    + by destruct side; eapply same_memory_Inv, H.
  - by eapply same_memory_Inv, HI.
Qed.

Lemma socket_run_Inv side es : Inv ∅ (run side es).
Proof.
  unfold run. assert (H : Inv ∅ connected).
  { split; simpl; try done; try set_solver. split; [constructor|set_solver]. }
  revert H. generalize connected. induction es as [|e es IH]; intros w H; simpl; [done|].
  apply IH. by apply socket_step_Inv.
Qed.

(** ** Properties *)

(** What a socket allocates is freed once, unless libuv refuses a write.  On
    every run nothing is deleted twice; the arrays and requests alive are those
    of the writes that libuv holds and of those that it refused, one each; so
    when it has ended all writes and has refused none, nothing is left. *)
Theorem io_memory_accounted side es :
  let w := run side es in
  fault w = false ∧
  size (arrays w) = (length (queue w) + refused w)%nat ∧
  size (reqs w) = (length (queue w) + refused w)%nat ∧
  (queue w = [] → refused w = 0%nat → arrays w = ∅ ∧ reqs w = ∅).
Proof.
  intros w. destruct (socket_run_Inv side es) as [_ _ _ _ _ Ha Hr Hf]. fold w in Ha, Hr, Hf.
  rewrite size_empty, Nat.add_0_r in Ha. split_and!; [done|congruence|done|].
  intros Hq H0. rewrite Hq, H0 in Hr. rewrite Hr in Ha.
  split; by apply map_size_empty_inv.
Qed.

(** Nothing accepted is lost or out of order. *)
Definition in_order (w : World) : Prop := accepted w = wire w ++ unwritten w.

Lemma unwritten_same w w' :
  queue w' = queue w → (∀ r, r ∈ queue w → content w' r = content w r) → unwritten w' = unwritten w.
Proof.
  intros E H. unfold unwritten. rewrite E. f_equal. apply list_fmap_ext.
  intros i r Hr. apply H. by eapply list_elem_of_lookup_2.
Qed.

Lemma queued_req held w r :
  Inv held w → r ∈ queue w →
  ∃ p, reqs w !! r = Some p ∧ (p ∉ held) ∧ (p < next w)%nat ∧ (r < next w)%nat.
Proof.
  intros [] Hr. destruct inv_queue0 as [_ Hq]. apply Hq, elem_of_dom in Hr as Hp. destruct Hp as [p Hp].
  exists p. specialize (inv_req0 _ _ Hp). split_and!; [done|set_solver| |]; apply inv_new0.
  - set_solver.
  - apply elem_of_union_r, elem_of_dom. by exists p.
Qed.

Lemma OnWrite_in_order held side taken d w :
  Inv held w → in_order w → in_order (OnWrite side taken d w).
Proof.
  intros HI Ho. unfold OnWrite. destruct (writable side w); [|done]. cbn [negb]. unfold new_array.
  set (w1 := field_update reqs _ _).
  assert (Hc : ∀ r, r ∈ queue w → content w1 r = content w r).
  { intros r Hr. destruct (queued_req held w r HI Hr) as (p & Hp & _ & Hlt & Hlr).
    unfold content, w1. simpl. rewrite lookup_insert_ne, Hp by lia. simpl.
    by rewrite lookup_insert_ne by lia. }
  assert (Hn : content w1 (next w) = d).
  { unfold content, w1. simpl. rewrite lookup_insert_eq. simpl. by rewrite lookup_insert_eq. }
  assert (Hu : unwritten w1 = unwritten w) by by apply unwritten_same.
  unfold in_order in *. destruct taken.
  - assert (E : unwritten (w1 <| queue ::= λ q, q ++ [next w] |> <| accepted ::= λ b, b ++ d |>) =
      unwritten w1 ++ d).
    { assert (Hcat : ∀ f (l : list nat) r, concat (map f (l ++ [r])) = concat (map f l) ++ (f r : bytes))
        by (intros; rewrite map_app, concat_app; simpl; by rewrite app_nil_r).
      etrans; [apply (Hcat (content w1))|]. by rewrite Hn. }
    rewrite Hu in E. transitivity (wire w ++ unwritten w ++ d); [|f_equal; symmetry; exact E].
    simpl. by rewrite Ho, <-(assoc_L (++)).
  - etrans; [exact Ho|]. f_equal. symmetry. exact Hu.
Qed.

Lemma delete_array_in_order p held w :
  Inv ({[p]} ∪ held) w → in_order w → in_order (delete_array p w).
Proof.
  intros HI Ho. unfold delete_array. destruct (arrays w !! p) as [d|]; [|done].
  unfold in_order. simpl. rewrite Ho. f_equal. symmetry. apply unwritten_same; [done|].
  intros r Hr. destruct (queued_req _ w r HI Hr) as (x & Hx & Hne & _).
  unfold content. simpl. rewrite Hx. simpl. by rewrite lookup_delete_ne by set_solver.
Qed.

Lemma finish_write_in_order w : Inv ∅ w → in_order w → in_order (finish_write true w).
Proof.
  intros HI Ho. unfold finish_write. destruct (queue w) as [|req q] eqn:Eq; [done|].
  pose proof HI as []. destruct inv_queue0 as [Hnd _]. rewrite Eq in Hnd. apply NoDup_cons in Hnd as [Hn _].
  destruct (queued_req ∅ w req HI) as (p & Hp & _); [rewrite Eq; by left|].
  unfold in_order, unwritten in Ho. rewrite Eq in Ho. simpl map in Ho. simpl concat in Ho.
  unfold content at 1 in Ho. unfold UvWriteCb, delete_array. simpl. rewrite Hp in *. simpl in *.
  assert (is_Some (arrays w !! p)) as [d Hd].
  { apply elem_of_dom. specialize (inv_req0 _ _ Hp). set_solver. }
  rewrite Hd in *. unfold in_order. simpl. rewrite Ho, <-(assoc_L (++)). do 2 f_equal.
  symmetry. unfold unwritten. simpl queue. f_equal. apply list_fmap_ext.
  intros i r Hr%list_elem_of_lookup_2. assert (r ≠ req) by (by intros ->).
  destruct (queued_req ∅ w r HI) as (x & Hx & _); [rewrite Eq; by right|].
  unfold content. simpl. rewrite lookup_delete_ne, Hx by done. simpl.
  rewrite lookup_delete_ne; [done|]. intros <-. by apply H, (inv_inj0 _ _ p).
Qed.

Lemma writes_in_order held side writes w :
  Inv held w → in_order w → in_order (fold_left (λ w x, OnWrite side x.1 x.2 w) writes w).
Proof.
  revert w. induction writes as [|[t d] writes IH]; intros w HI Ho; simpl; [done|].
  apply IH; [by apply OnWrite_Inv|by eapply OnWrite_in_order].
Qed.

Lemma step_in_order side e w :
  Inv ∅ w → e ≠ EvWritten false → in_order w → in_order (step side w e).
Proof.
  intros HI He Ho. destruct e as [taken d|[]|r writes|]; simpl; try done.
  - by eapply OnWrite_in_order.
  - by apply finish_write_in_order.
  - unfold OnRead, UvAlloc. pose proof (new_array_Inv ∅ [] w HI) as H.
    assert (Ho1 : in_order (new_array [] w).2).
    { unfold in_order. simpl. rewrite Ho. f_equal. symmetry. apply unwritten_same; [done|].
      intros r' Hr. destruct (queued_req _ w r' HI Hr) as (x & Hx & _ & Hlt & _).
      unfold content. simpl. rewrite Hx. simpl. by rewrite lookup_insert_ne by lia. }
    destruct (new_array [] w) as [base w1]. simpl in Ho1. apply (delete_array_in_order _ ∅).
    + destruct r; [apply writes_Inv| |destruct side]; by eapply same_memory_Inv, H.
    + destruct r; [|done|by destruct side].
      apply (writes_in_order ({[base]} ∪ ∅)); [by eapply same_memory_Inv, H|done].
Qed.

(** C33: The wire gets what the session wrote, in order.  On every run in which no
    write that libuv accepted fails, the bytes of the accepted writes are, in
    the order of the writes, those on the wire followed by those that libuv
    still holds. *)
Theorem accepted_writes_in_order side es :
  EvWritten false ∉ es → accepted (run side es) = wire (run side es) ++ unwritten (run side es).
Proof.
  intros Hn. change (in_order (run side es)). induction es as [|e es IH] using rev_ind; [done|].
  unfold run. rewrite fold_left_app. simpl. apply step_in_order.
  - apply socket_run_Inv.
  - intros ->. set_solver.
  - apply IH. set_solver.
Qed.

(** A write that libuv refuses is lost silently: [OnWrite] does not look at the
    result, so the bytes are dropped and their array and request stay. *)
Theorem refused_write_leaks side d w :
  writable side w = true →
  let w' := OnWrite side false d w in
  queue w' = queue w ∧ wire w' = wire w ∧ accepted w' = accepted w ∧
  arrays w' !! S (next w) = Some d ∧ reqs w' !! next w = Some (S (next w)).
Proof. intros Hw. unfold OnWrite. rewrite Hw. simpl. by rewrite !lookup_insert_eq. Qed.

(** Once the connection is lost or closed nothing is written. *)
Theorem lost_socket_is_silent side taken d r w :
  (r = ReadError ∨ socket w = false) →
  let w' := OnRead side r [] w in OnWrite side taken d w' = w'.
Proof.
  intros H w'. unfold OnWrite. assert (writable side w' = false) as ->; [|done].
  unfold w', OnRead, UvAlloc, new_array, delete_array. simpl.
  destruct side, r, H as [H|Hs]; try done; simpl; rewrite ?lookup_insert_eq; simpl;
    rewrite ?andb_false_r, ?Hs; done.
Qed.

(** ** A run *)
Lemma accepted_writes_in_order_witness :
  accepted (run ServerSide [EvWrite true (chars "ab"); EvRead (ReadBytes (chars "x")) [(true, chars "c")];
    EvWritten true]) = chars "ab" ++ chars "c".
Proof.
  rewrite (accepted_writes_in_order ServerSide [EvWrite true (chars "ab");
    EvRead (ReadBytes (chars "x")) [(true, chars "c")]; EvWritten true]) by set_solver.
  vm_compute. reflexivity.
Defined.

Lemma refused_write_leaks_witness :
  arrays (OnWrite ClientSide false (chars "a") connected) !! 1%nat = Some (chars "a").
Proof. apply (refused_write_leaks ClientSide (chars "a") connected). reflexivity. Defined.

Lemma lost_socket_is_silent_witness :
  let w := OnRead ServerSide ReadError [] connected in OnWrite ServerSide true (chars "a") w = w.
Proof. apply (lost_socket_is_silent ServerSide true (chars "a") ReadError connected). by left. Defined.
