(* ===== verification/H2Session.v ===== *)
(** * The HTTP/2 session (core/include/urpc/core/h2_session.h, core/source/urpc_h2_session.cc)

    [H2Session] wraps an nghttp2 session: it keeps the bodies that nghttp2 reads,
    collects header fields into blocks, buffers the bytes to write and tells the
    owner of a body when it has been consumed.  nghttp2 is the environment: [ng]
    says which callbacks it makes during a call, in order, and [rc] what the call
    returns.  The handler is user code, which may call the session again. *)
From S2P Require Import Prelude CxxString.

Abbreviation closure := nat (only parsing).
Definition header_fields : Type := list (string * string).
Definition HeaderMap : Type := gmap string string.

(** ** State *)

(** A body, kept by a [shared_ptr]; nghttp2 has the bare pointer. *)
Record PendingBody := mkBody {
  data : bytes;
  offset : nat;
  on_consumed : option closure
}.
#[export] Instance eta_PendingBody : EtaRecord PendingBody := λ b,
  mkBody (data b) (offset b) (on_consumed b).

(** The calls of nghttp2; a body is passed as its pointer. *)
Inductive NgCall :=
  | SessionSend
  | MemRecv (data : bytes)
  | SubmitRequest2 (fields : header_fields) (source : option nat)
  | SubmitHeaders (end_stream : bool) (sid : Z) (fields : header_fields)
  | SubmitData2 (end_stream : bool) (sid : Z) (source : nat)
  | SubmitTrailer (sid : Z) (fields : header_fields)
  | SubmitRst (sid : Z) (code : Z).

(** The types of frames that the callbacks tell apart. *)
Inductive FrameType := NGHTTP2_HEADERS | NGHTTP2_DATA | OtherFrame.
#[export] Instance FrameType_eq_dec : EqDecision FrameType.
Proof. solve_decision. Defined.

(** The callbacks that nghttp2 makes. *)
Inductive NgEvent :=
  | NgSend (data : bytes)
  | NgHeader (type : FrameType) (sid : Z) (name value : string)
  | NgFrameRecv (type : FrameType) (sid : Z) (end_stream : bool)
  | NgDataChunk (sid : Z) (data : bytes)
  | NgStreamClose (sid : Z) (error_code : Z)
  | NgRead (source : nat) (length : nat).

(** What the session does that others see: the handler's events, the
    notifications of consumed bodies, and what it gives to nghttp2. *)
Inductive Out :=
  | OnHeadersComplete (sid : Z) (headers : HeaderMap) (end_stream : bool)
  | OnData (sid : Z) (data : option bytes) (end_stream : bool)
  | OnStreamClose (sid : Z) (error_code : Z)
  | OnWrite (data : bytes)
  | Consumed (source : nat) (cb : closure)
  | Ng (call : NgCall)
  | Sent (data : bytes)                            (* bytes that SendCb2 took *)
  | Read (source : nat) (chunk : bytes) (eof : bool)
  | ReadFreed (source : nat)                       (* of a body that has been freed *)
  (* ghost: a stream that this side opens, and a body that goes with a stream *)
  | Opened (sid : Z)
  | Given (sid : Z) (source : nat) (cb : option closure).

Record World := mkWorld {
  out : bytes;
  pending_headers : gmap Z HeaderMap;
  pending_bodies : gmap Z (list nat);
  heap : gmap nat PendingBody;                     (* the bodies that are alive *)
  locals : gset nat;                               (* held by a call that has not returned *)
  next_body : nat;
  consumed_notifications : list (nat * closure);
  flush_depth_ : nat;
  trace : list Out;
  bodies_given : gmap nat (bytes * option closure); (* ghost: what every body was made of *)
  hung : bool;                                     (* the loop ran out of fuel *)
  too_deep : bool;                                 (* the calls nest deeper than is run *)
  ub : bool                                        (* a body was read after it was freed *)
}.
#[export] Instance eta_World : EtaRecord World := λ w,
  mkWorld (out w) (pending_headers w) (pending_bodies w) (heap w) (locals w) (next_body w)
    (consumed_notifications w) (flush_depth_ w) (trace w) (bodies_given w) (hung w) (too_deep w) (ub w).

Definition new_world : World := mkWorld [] ∅ ∅ ∅ ∅ 0 [] 0 [] ∅ false false false.

Definition record_out (o : Out) (w : World) : World := w <| trace ::= λ t, t ++ [o] |>.

(** What the owner of a session calls. *)
Inductive SessionOp :=
  | OpConsume (data : bytes)
  | OpFlush
  | OpSubmitRequest (headers : header_fields) (body : bytes)
  | OpSubmitRequestOpen (headers : header_fields)
  | OpSendHeaders (sid : Z) (fields : header_fields) (end_stream : bool)
  | OpSendData (sid : Z) (data : bytes) (end_stream : bool) (on_consumed : option closure)
  | OpSendTrailers (sid : Z) (trailers : header_fields)
  | OpResetStream (sid : Z) (error_code : Z).

Section Session.
Context (ng : NgCall → World → list NgEvent) (rc : NgCall → World → Z).
(** What the handler and the notified owners do before they return. *)
Context (reenter : Out → World → World).
(** The rounds of the loop of [FlushOut] that are run. *)
Context (spin : nat).

Definition call_handler (o : Out) (w : World) : World := reenter o (record_out o w).

(** ** The callbacks *)
Definition SendCb2 (d : bytes) (w : World) : World :=
  record_out (Sent d) (w <| out ::= λ o, o ++ d |>).

Definition OnHeaderCb (type : FrameType) (sid : Z) (name value : string) (w : World) : World :=
  if decide (type ≠ NGHTTP2_HEADERS) then w
  else w <| pending_headers ::= λ m, <[sid := <[name := value]> (default ∅ (m !! sid))]> m |>.

Definition OnFrameRecvCb (type : FrameType) (sid : Z) (end_stream : bool) (w : World) : World :=
  match type with
  | NGHTTP2_HEADERS =>
      match pending_headers w !! sid with
      | Some headers =>
          call_handler (OnHeadersComplete sid headers end_stream)
            (w <| pending_headers ::= delete sid |>)
      | None => w
      end
  | NGHTTP2_DATA => call_handler (OnData sid None end_stream) w
  | OtherFrame => w
  end.

Definition OnDataChunkCb (sid : Z) (d : bytes) (w : World) : World :=
  call_handler (OnData sid (Some d) false) w.

(** Erasing a stream's bodies frees those that no running call holds. *)
Definition free_bodies (sid : Z) (w : World) : World :=
  w <| heap ::= λ h, foldr delete h
         (filter (.∉ locals w) (default [] (pending_bodies w !! sid))) |>
    <| pending_bodies ::= delete sid |>.

Definition OnStreamCloseCb (sid error_code : Z) (w : World) : World :=
  call_handler (OnStreamClose sid error_code)
    (free_bodies sid (w <| pending_headers ::= delete sid |>)).

(** [if (body->on_consumed)]: queue it, once. *)
Definition notify_consumed (p : nat) (b : PendingBody) (w : World) : World :=
  match on_consumed b with
  | Some cb =>
      w <| consumed_notifications ::= λ q, q ++ [(p, cb)] |>
        <| heap ::= <[p := b <| on_consumed := None |>]> |>
  | None => w <| heap ::= <[p := b]> |>
  end.

Definition BodyRead2 (p length : nat) (w : World) : World :=
  match heap w !! p with
  | None => record_out (ReadFreed p) (w <| ub := true |>)
  | Some body =>
      let remaining := (List.length (data body) - offset body)%nat in
      if (remaining =? 0)%nat then record_out (Read p [] true) (notify_consumed p body w)
      else
        let chunk := if (remaining <? length)%nat then remaining else length in
        let buf := take chunk (drop (offset body) (data body)) in
        let body := body <| offset ::= λ o, (o + chunk)%nat |> in
        if (offset body =? List.length (data body))%nat
        then record_out (Read p buf true) (notify_consumed p body w)
        else record_out (Read p buf false) (w <| heap ::= <[p := body]> |>)
  end.

Definition run_event (e : NgEvent) (w : World) : World :=
  match e with
  | NgSend d => SendCb2 d w
  | NgHeader type sid name value => OnHeaderCb type sid name value w
  | NgFrameRecv type sid es => OnFrameRecvCb type sid es w
  | NgDataChunk sid d => OnDataChunkCb sid d w
  | NgStreamClose sid code => OnStreamCloseCb sid code w
  | NgRead p length => BodyRead2 p length w
  end.

(** A call of nghttp2, with the callbacks it makes. *)
Definition call_ng (c : NgCall) (w : World) : World :=
  let w := record_out (Ng c) w in fold_left (λ w e, run_event e w) (ng c w) w.

(** ** Flushing *)

(** The notes of one round, each [if (note) note()]. *)
Definition run_notes (notes : list (nat * closure)) (w : World) : World :=
  fold_left (λ w n, call_handler (Consumed n.1 n.2) w) notes w.

(** [for (;;)]: until no notification is left. *)
Fixpoint drain_notifications (n : nat) (w : World) : World :=
  match consumed_notifications w with
  | [] => w
  | notes =>
      match n with
      | O => w <| hung := true |>
      | S n =>
          drain_notifications n
            (call_ng SessionSend (run_notes notes (w <| consumed_notifications := [] |>)))
      end
  end.

(** Only the outermost [FlushOut] drains. *)
Definition drain_outermost (w : World) : World :=
  if (flush_depth_ w =? 0)%nat then
    (drain_notifications spin (w <| flush_depth_ ::= S |>)) <| flush_depth_ ::= pred |>
  else w.

Definition write_out (w : World) : World :=
  match out w with
  | [] => w
  | d => (call_handler (OnWrite d) w) <| out := [] |>
  end.

Definition FlushOut (w : World) : World :=
  write_out (drain_outermost (call_ng SessionSend w)).

(** ** The operations *)

(** [std::make_shared<PendingBody>()] into a local variable. *)
Definition new_body (d : bytes) (cb : option closure) (w : World) : nat * World :=
  let p := next_body w in
  (p, w <| next_body ::= S |> <| heap ::= <[p := mkBody d 0 cb]> |>
        <| locals ::= λ l, {[p]} ∪ l |> <| bodies_given ::= <[p := (d, cb)]> |>).

Definition push_body (sid : Z) (p : nat) (w : World) : World :=
  w <| pending_bodies ::= λ m, <[sid := default [] (m !! sid) ++ [p]]> m |>.

(** The local variable goes: the body dies unless a stream still has it. *)
Definition drop_local (p : nat) (w : World) : World :=
  let w := w <| locals ::= λ l, l ∖ {[p]} |> in
  if decide (map_Exists (λ _ l, p ∈ l) (pending_bodies w)) then w
  else w <| heap ::= delete p |>.

Definition Consume (d : bytes) (w : World) : World := FlushOut (call_ng (MemRecv d) w).
Definition Flush (w : World) : World := FlushOut w.

Definition SubmitRequest (headers : header_fields) (body : bytes) (w : World) : Z * World :=
  let '(p, w) := new_body body None w in
  let c := SubmitRequest2 headers (match body with [] => None | _ => Some p end) in
  let sid := rc c w in
  let w := call_ng c w in
  if sid <? 0 then (-1, drop_local p w)
  else
    let w := record_out (Opened sid) w in
    let w := match body with [] => w | _ => record_out (Given sid p None) (push_body sid p w) end in
    (sid, drop_local p (FlushOut w)).

Definition SubmitRequestOpen (headers : header_fields) (w : World) : Z * World :=
  let c := SubmitHeaders false (-1) headers in
  let sid := rc c w in
  let w := call_ng c w in
  if sid <? 0 then (-1, w) else (sid, FlushOut (record_out (Opened sid) w)).

Definition SendHeaders (sid : Z) (fields : header_fields) (end_stream : bool) (w : World) : World :=
  FlushOut (call_ng (SubmitHeaders end_stream sid fields) w).

Definition SendData (sid : Z) (d : bytes) (end_stream : bool) (cb : option closure) (w : World)
    : World :=
  let '(p, w) := new_body d cb w in
  let w := record_out (Given sid p cb) (push_body sid p w) in
  drop_local p (FlushOut (call_ng (SubmitData2 end_stream sid p) w)).

Definition SendTrailers (sid : Z) (trailers : header_fields) (w : World) : World :=
  FlushOut (call_ng (SubmitTrailer sid trailers) w).

Definition ResetStream (sid error_code : Z) (w : World) : World :=
  FlushOut (call_ng (SubmitRst sid error_code) w).

Definition do_op (op : SessionOp) (w : World) : World :=
  match op with
  | OpConsume d => Consume d w
  | OpFlush => Flush w
  | OpSubmitRequest hs body => (SubmitRequest hs body w).2
  | OpSubmitRequestOpen hs => (SubmitRequestOpen hs w).2
  | OpSendHeaders sid fields es => SendHeaders sid fields es w
  | OpSendData sid d es cb => SendData sid d es cb w
  | OpSendTrailers sid trailers => SendTrailers sid trailers w
  | OpResetStream sid code => ResetStream sid code w
  end.
End Session.
