(* ===== verification/H2Run.v ===== *)
(** * Runs of an HTTP/2 session

    The invariant of every session: how much of each body nghttp2 has taken, and
    where the notification of its owner is.  Then the properties of every run:
    a body is read whole and in order, and its owner is told once, after that. *)
From S2P Require Import Prelude CxxString H2Session.

(** ** What nghttp2 took of a body, and its notifications *)
Definition chunk_of (p : nat) (o : Out) : bytes :=
  match o with Read q chunk _ => if decide (q = p) then chunk else [] | _ => [] end.
Definition taken (p : nat) (tr : list Out) : bytes := concat (map (chunk_of p) tr).

Definition out_body (o : Out) : option nat :=
  match o with Consumed p _ => Some p | _ => None end.
Definition note_body (n : nat * closure) : option nat := Some n.1.

(** A notification is queued, held by the code that runs it, or done. *)
Definition notified (k : list (nat * closure)) (p : nat) (w : World) : nat :=
  (count_by note_body p (consumed_notifications w) + count_by note_body p k +
   count_by out_body p (trace w))%nat.
Definition owed (p : nat) (w : World) : nat :=
  match heap w !! p with
  | Some b => match on_consumed b with Some _ => 1 | None => 0 end
  | None => 0
  end.

(** What a step must satisfy, given what was there before it. *)
Definition out_ok (given : gmap nat (bytes * option closure)) (before : list Out) (o : Out) : Prop :=
  match o with
  | Read p chunk eof =>
      ∃ d cb, given !! p = Some (d, cb) ∧ (taken p before ++ chunk) `prefix_of` d ∧
        (eof = true ↔ taken p before ++ chunk = d)
  | Consumed p cb => given !! p = Some (taken p before, Some cb)
  | _ => True
  end.

(** The code holds the notifications [k]. *)
Record Inv (k : list (nat * closure)) (w : World) : Prop := {
  inv_next p : (next_body w ≤ p)%nat → bodies_given w !! p = None;
  inv_given p : bodies_given w !! p = None →
    heap w !! p = None ∧ notified k p w = 0%nat ∧ taken p (trace w) = [];
  inv_heap p b : heap w !! p = Some b →
    ∃ cb, bodies_given w !! p = Some (data b, cb) ∧ (on_consumed b = None ∨ on_consumed b = cb) ∧
      (offset b ≤ length (data b))%nat ∧ taken p (trace w) = take (offset b) (data b);
  inv_once p : (notified k p w + owed p w ≤ 1)%nat;
  inv_notes p cb : (p, cb) ∈ consumed_notifications w ++ k →
    bodies_given w !! p = Some (taken p (trace w), Some cb);
  inv_trace l1 o l2 : trace w = l1 ++ o :: l2 → out_ok (bodies_given w) l1 o
}.

(** ** Lemmas *)
Lemma taken_snoc p tr o : taken p (tr ++ [o]) = taken p tr ++ chunk_of p o.
Proof. unfold taken. rewrite map_app, concat_app. simpl. by rewrite app_nil_r. Qed.

Lemma notified_record k p o w :
  notified k p (record_out o w) =
    (notified k p w + if decide (out_body o = Some p) then 1 else 0)%nat.
Proof.
  unfold notified, record_out. simpl. rewrite count_by_app, count_by_cons, count_by_nil.
  case_decide; lia.
Qed.

(** Worlds that differ in what the invariant does not look at. *)
Definition h2_same_core (w w' : World) : Prop :=
  heap w' = heap w ∧ next_body w' = next_body w ∧
  consumed_notifications w' = consumed_notifications w ∧ trace w' = trace w ∧
  bodies_given w' = bodies_given w.

Lemma h2_same_core_Inv k w w' : h2_same_core w w' → Inv k w → Inv k w'.
Proof.
  intros (E1 & E2 & E3 & E4 & E5) [H1 H2 H3 H4 H5 H6].
  split; unfold notified, owed in *; rewrite ?E1, ?E2, ?E3, ?E4, ?E5; done.
Qed.

(** A trace with one more step. *)
Lemma snoc_split {A} (l l1 l2 : list A) o x :
  l ++ [o] = l1 ++ x :: l2 →
  (l = l1 ∧ o = x ∧ l2 = []) ∨ ∃ l2', l2 = l2' ++ [o] ∧ l = l1 ++ x :: l2'.
Proof.
  destruct (exists_last (l := x :: l2)) as [l3 [y E]]; [done|]. rewrite E, app_assoc.
  intros [-> ->]%app_inj_tail. destruct l3 as [|x' l3]; simplify_eq/=.
  - left. by rewrite app_nil_r.
  - right. by exists l3.
Qed.

Definition h2_silent (o : Out) : Prop :=
  match o with Read _ _ _ | Consumed _ _ => False | _ => True end.

Lemma h2_record_Inv k o w : h2_silent o → Inv k w → Inv k (record_out o w).
Proof.
  intros Ho [H1 H2 H3 H4 H5 H6].
  assert (Et : ∀ p, taken p (trace (record_out o w)) = taken p (trace w))
    by (intros p; simpl; rewrite taken_snoc; destruct o; simpl in *; by rewrite ?app_nil_r).
  assert (En : ∀ p, notified k p (record_out o w) = notified k p w)
    by (intros p; rewrite notified_record; destruct o; simpl in *; try done; lia).
  split.
  - exact H1.
  - intros p. rewrite En, Et. apply H2.
  - intros p b. rewrite Et. apply H3.
  - intros p. rewrite En. exact (H4 p).
  - intros p cb Hp. rewrite Et. by apply H5.
  - simpl. intros l1 x l2 [(<- & <- & ->)|(l2' & -> & E)]%snoc_split; [|by eapply H6].
    by destruct o.
Qed.

(** Freeing a body. *)
Lemma h2_free_Inv k p w : Inv k w → Inv k (w <| heap ::= delete p |>).
Proof.
  intros [H1 H2 H3 H4 H5 H6].
  split; simpl; try done.
  - intros q Hq. destruct (H2 q Hq) as (E & ? & ?). split_and!; try done.
    rewrite lookup_delete. by case_decide.
  - intros q b [_ Hq]%lookup_delete_Some. by apply H3.
  - intros q. pose proof (H4 q) as Hle. unfold owed, notified in *. simpl.
    rewrite lookup_delete. case_decide; [lia|done].
Qed.

Lemma free_bodies_Inv k sid w : Inv k w → Inv k (free_bodies sid w).
Proof.
  intros HI. unfold free_bodies.
  generalize (filter (.∉ locals w) (default [] (pending_bodies w !! sid))). intros l.
  assert (Inv k (w <| heap := foldr delete (heap w) l |>)) as H.
  { induction l as [|p l IH]; [by destruct w|]. exact (h2_free_Inv k p _ IH). }
  revert H. by apply h2_same_core_Inv.
Qed.

Lemma drop_local_Inv k p w : Inv k w → Inv k (drop_local p w).
Proof.
  intros HI. unfold drop_local. cbv zeta. case_decide; [|apply h2_free_Inv];
    revert HI; by apply h2_same_core_Inv.
Qed.

Lemma new_body_Inv k d cb w : Inv k w → Inv k (new_body d cb w).2.
Proof.
  intros [H1 H2 H3 H4 H5 H6]. unfold new_body. simpl.
  destruct (H2 (next_body w) (H1 _ (le_n _))) as (Eh & En & Et).
  assert (Hsub : ∀ q x, bodies_given w !! q = Some x →
            <[next_body w := (d, cb)]> (bodies_given w) !! q = Some x).
  { intros q x Hq. rewrite lookup_insert_ne; [done|]. intros <-.
    by rewrite (H1 _ (le_n _)) in Hq. }
  split; simpl.
  - intros p Hp. rewrite lookup_insert_ne by lia. apply H1. lia.
  - intros p [Hg Hne]%lookup_insert_None. destruct (H2 p Hg) as (? & ? & ?).
    by rewrite lookup_insert_ne.
  - intros p b [[<- <-]|[Hne Hb]]%lookup_insert_Some; simpl.
    + exists cb. rewrite lookup_insert_eq, Et. split_and!; [done|by right|lia|done].
    + rewrite lookup_insert_ne by done. by apply H3.
  - intros p. pose proof (H4 p). unfold owed, notified in *. simpl. rewrite lookup_insert.
    case_decide; [|done]. subst. destruct cb; simpl; lia.
  - intros p cb' Hp. by apply Hsub, H5.
  - intros l1 o l2 E. specialize (H6 l1 o l2 E). destruct o; try done; simpl in *; [by auto|].
    destruct H6 as (d' & cb' & Hg & Hr). exists d', cb'. by auto.
Qed.

(** ** Reading a body *)
Definition body_read (n : nat) (b : PendingBody) : PendingBody :=
  b <| offset ::= λ o, (o + n)%nat |>.
Definition read_out (p n : nat) (b : PendingBody) : Out :=
  Read p (take n (drop (offset b) (data b))) (bool_decide (offset b + n = length (data b))%nat).

(** Both branches of [BodyRead2], at once. *)
Lemma BodyRead2_spec p len w b :
  heap w !! p = Some b → (offset b ≤ length (data b))%nat →
  let n := Nat.min (length (data b) - offset b) len in
  BodyRead2 p len w =
    if decide (offset b + n = length (data b))%nat
    then notify_consumed p (body_read n b) (record_out (read_out p n b) w)
    else record_out (read_out p n b) w <| heap ::= <[p := body_read n b]> |>.
Proof.
  intros Hp Ho n. unfold BodyRead2. rewrite Hp.
  assert (En : (if (length (data b) - offset b <? len)%nat then length (data b) - offset b else len)%nat = n)
    by (subst n; destruct (Nat.ltb_spec (length (data b) - offset b) len); lia).
  rewrite En. assert (Hn : (n ≤ length (data b) - offset b)%nat) by (subst n; lia).
  clearbody n. clear En. unfold read_out. destruct (Nat.eqb_spec (length (data b) - offset b) 0) as [E0|E0].
  - assert (n = 0%nat) as -> by lia. rewrite decide_True by lia. rewrite bool_decide_true by lia.
    unfold body_read, notify_consumed. destruct b as [dd oo cc]. cbn in *. rewrite Nat.add_0_r.
    destruct cc; reflexivity.
  - cbn [offset data body_read]. unfold notify_consumed.
    destruct b as [dd oo cc]. cbn in *.
    destruct (Nat.eqb_spec (oo + n) (length dd)) as [E|E].
    + rewrite decide_True, bool_decide_true by done. destruct cc; reflexivity.
    + by rewrite decide_False, bool_decide_false by done.
Qed.

(** The chunk is taken. *)
Lemma read_out_Inv k p n b w :
  heap w !! p = Some b → (offset b + n ≤ length (data b))%nat →
  Inv k w → Inv k (record_out (read_out p n b) w <| heap ::= <[p := body_read n b]> |>).
Proof.
  intros Hp Hn [H1 H2 H3 H4 H5 H6].
  destruct (H3 p b Hp) as (cb & Hg & Hc & Ho & Ht).
  assert (Htk : taken p (trace w) ++ take n (drop (offset b) (data b)) = take (offset b + n) (data b))
    by (rewrite Ht; apply take_take_drop).
  assert (Hne : ∀ q, q ≠ p → chunk_of q (read_out p n b) = [])
    by (intros q Hq; simpl; by rewrite decide_False).
  assert (En : ∀ q, notified k q (record_out (read_out p n b) w) = notified k q w)
    by (intros q; rewrite notified_record; simpl; lia).
  split; simpl.
  - exact H1.
  - intros q Hq. destruct (H2 q Hq) as (E & E' & E''). assert (q ≠ p) by congruence.
    rewrite lookup_insert_ne, taken_snoc, Hne, E'' by done. split_and!; try done. by rewrite <- (En q) in E'.
  - intros q bq [[<- <-]|[Hq Hb]]%lookup_insert_Some; rewrite taken_snoc.
    + exists cb. simpl. rewrite decide_True by done. split_and!; try done.
    + rewrite Hne, app_nil_r by done. by apply H3.
  - intros q. pose proof (H4 q) as H. rewrite <- (En q) in H. unfold owed in *. simpl.
    rewrite lookup_insert. unfold notified in *. case_decide; [subst; rewrite Hp in H|]; exact H.
  - intros q cbq Hq. rewrite taken_snoc, (H5 q cbq Hq).
    destruct (decide (q = p)) as [->|]; [|by rewrite Hne, app_nil_r].
    rewrite (H5 p cbq Hq) in Hg. injection Hg as E <-. simpl. rewrite decide_True by done.
    rewrite Htk, E. f_equal. f_equal. symmetry. apply take_ge.
    rewrite Ht in E. apply (f_equal length) in E. rewrite length_take in E. lia.
  - intros l1 x l2 [(<- & <- & ->)|(l2' & -> & E)]%snoc_split; [|by eapply H6].
    simpl. exists (data b), cb. rewrite Htk. split_and!; [done|apply prefix_take|].
    rewrite bool_decide_eq_true. split.
    + intros E. apply take_ge. lia.
    + intros E. apply (f_equal length) in E. rewrite length_take in E. lia.
Qed.

(** The whole of the body was taken: its owner will be told. *)
Lemma queue_note_Inv k p cb b w :
  heap w !! p = Some b → offset b = length (data b) → on_consumed b = Some cb →
  Inv k w →
  Inv k (w <| consumed_notifications ::= λ q, q ++ [(p, cb)] |>
           <| heap ::= <[p := b <| on_consumed := None |>]> |>).
Proof.
  intros Hp Ho Hcb [H1 H2 H3 H4 H5 H6].
  destruct (H3 p b Hp) as (cbg & Hg & Hc & _ & Ht).
  assert (cbg = Some cb) as -> by (destruct Hc; congruence).
  rewrite Ho, firstn_all in Ht.
  assert (En : ∀ q, count_by note_body q (consumed_notifications w ++ [(p, cb)]) =
     (count_by note_body q (consumed_notifications w) + if decide (p = q) then 1 else 0)%nat).
  { intros q. rewrite count_by_app, count_by_cons, count_by_nil.
    repeat case_decide; unfold note_body in *; simplify_eq/=; lia. }
  split; simpl.
  - exact H1.
  - intros q Hq. destruct (H2 q Hq) as (E & E' & E''). assert (q ≠ p) by congruence.
    rewrite lookup_insert_ne by done. split_and!; try done.
    unfold notified in *. simpl. rewrite En, decide_False by done. lia.
  - intros q bq [[<- <-]|[Hq Hb]]%lookup_insert_Some; [|by apply H3].
    exists (Some cb). simpl. rewrite Ho, firstn_all. by auto.
  - intros q. pose proof (H4 q) as H. unfold owed, notified in *. simpl. rewrite En, lookup_insert.
    case_decide as E; [subst; rewrite Hp, Hcb in H; simpl; lia|lia].
  - intros q cbq. rewrite !elem_of_app, list_elem_of_singleton.
    intros [[Hq|[= -> ->]]|Hq].
    + apply H5, elem_of_app. by left.
    + by rewrite Hg, Ht.
    + apply H5, elem_of_app. by right.
  - exact H6.
Qed.

Lemma BodyRead2_Inv k p len w : Inv k w → Inv k (BodyRead2 p len w).
Proof.
  intros HI. destruct (heap w !! p) as [b|] eqn:Hp.
  - destruct (inv_heap k w HI p b Hp) as (cb & _ & _ & Ho & _).
    rewrite (BodyRead2_spec p len w b) by done. cbv zeta.
    set (n := Nat.min _ _). assert (offset b + n ≤ length (data b))%nat by lia.
    pose proof (read_out_Inv k p n b w Hp ltac:(done) HI) as HI'.
    case_decide as E; [|exact HI'].
    unfold notify_consumed. destruct (on_consumed (body_read n b)) as [c|] eqn:Ec; [|exact HI'].
    pose proof (queue_note_Inv k p c (body_read n b) _ (lookup_insert_eq _ p _) E Ec HI') as HI2.
    simpl in HI2. rewrite insert_insert_eq in HI2. exact HI2.
  - unfold BodyRead2. rewrite Hp. apply h2_record_Inv; [done|]. revert HI. by apply h2_same_core_Inv.
Qed.

(** ** The operations *)
Lemma consumed_Inv k p cb w : Inv ((p, cb) :: k) w → Inv k (record_out (Consumed p cb) w).
Proof.
  intros [H1 H2 H3 H4 H5 H6].
  assert (Et : ∀ q, taken q (trace (record_out (Consumed p cb) w)) = taken q (trace w))
    by (intros q; simpl; by rewrite taken_snoc, app_nil_r).
  assert (En : ∀ q, notified k q (record_out (Consumed p cb) w) = notified ((p, cb) :: k) q w).
  { intros q. rewrite notified_record. unfold notified. rewrite count_by_cons.
    unfold note_body, out_body. simpl. repeat case_decide; done || lia. }
  split.
  - exact H1.
  - intros q. rewrite En, Et. apply H2.
  - intros q b. rewrite Et. apply H3.
  - intros q. rewrite En. exact (H4 q).
  - intros q c Hq. rewrite Et. apply H5. simpl in Hq.
    apply elem_of_app in Hq as [|]; apply elem_of_app; [by left|right; by right].
  - simpl. intros l1 x l2 [(<- & <- & ->)|(l2' & -> & E)]%snoc_split; [|by eapply H6].
    simpl. apply H5, elem_of_app. right. left.
Qed.

(** The queue is moved into a local variable. *)
Lemma take_notes_Inv k w :
  Inv k w → Inv (consumed_notifications w ++ k) (w <| consumed_notifications := [] |>).
Proof.
  intros [H1 H2 H3 H4 H5 H6].
  assert (En : ∀ q, notified (consumed_notifications w ++ k) q (w <| consumed_notifications := [] |>)
                    = notified k q w).
  { intros q. unfold notified. simpl. rewrite count_by_app. lia. }
  split; simpl; try done.
  - intros q. rewrite En. apply H2.
  - intros q. rewrite En. exact (H4 q).
Qed.

Section Preserved.
#[local] Set Default Proof Using "Type*".
Context (ng : NgCall → World → list NgEvent) (rc : NgCall → World → Z).
Context (reenter : Out → World → World) (spin : nat).
Hypothesis reenter_Inv : ∀ k o w, Inv k w → Inv k (reenter o w).

Lemma h2_call_handler_Inv k o w : h2_silent o → Inv k w → Inv k (call_handler reenter o w).
Proof. intros Ho HI. by apply reenter_Inv, h2_record_Inv. Qed.

Lemma run_event_Inv k e w : Inv k w → Inv k (run_event reenter e w).
Proof.
  intros HI. destruct e as [d|type sid n v|type sid es|sid d|sid c|p len]; simpl.
  - apply h2_record_Inv; [done|]. revert HI. by apply h2_same_core_Inv.
  - unfold OnHeaderCb. case_decide; [done|]. revert HI. by apply h2_same_core_Inv.
  - unfold OnFrameRecvCb. destruct type; [destruct (pending_headers w !! sid)| |]; try done;
      (apply h2_call_handler_Inv; [done|]); revert HI; by apply h2_same_core_Inv.
  - by apply h2_call_handler_Inv.
  - apply h2_call_handler_Inv; [done|]. apply free_bodies_Inv. revert HI. by apply h2_same_core_Inv.
  - by apply BodyRead2_Inv.
Qed.

Lemma call_ng_Inv k c w : Inv k w → Inv k (call_ng ng reenter c w).
Proof.
  intros HI. unfold call_ng. generalize (ng c (record_out (Ng c) w)).
  intros l. assert (H : Inv k (record_out (Ng c) w)) by by apply h2_record_Inv.
  revert H. generalize (record_out (Ng c) w).
  induction l as [|e l IH]; intros w' H; simpl; [done|]. by apply IH, run_event_Inv.
Qed.

Lemma run_notes_Inv k notes w : Inv (notes ++ k) w → Inv k (run_notes reenter notes w).
Proof.
  revert w. induction notes as [|[p cb] notes IH]; intros w HI; simpl; [done|].
  apply IH, reenter_Inv. by apply consumed_Inv.
Qed.

Lemma drain_Inv k n w : Inv k w → Inv k (drain_notifications ng reenter n w).
Proof.
  revert w. induction n as [|n IH]; intros w HI; cbn [drain_notifications];
    destruct (consumed_notifications w) eqn:E; try done.
  - revert HI. by apply h2_same_core_Inv.
  - rewrite <- E. by apply IH, call_ng_Inv, run_notes_Inv, take_notes_Inv.
Qed.

Lemma FlushOut_Inv k w : Inv k w → Inv k (FlushOut ng reenter spin w).
Proof.
  intros HI. unfold FlushOut, write_out. apply (call_ng_Inv k SessionSend) in HI.
  assert (HI2 : Inv k (drain_outermost ng reenter spin (call_ng ng reenter SessionSend w))).
  { unfold drain_outermost. destruct (_ =? _)%nat; [|exact HI].
    revert HI. generalize (call_ng ng reenter SessionSend w). intros w1 HI.
    eapply h2_same_core_Inv, (drain_Inv k spin (w1 <| flush_depth_ ::= S |>));
      [by repeat split|revert HI; by apply h2_same_core_Inv]. }
  destruct (out _) as [|x d]; [exact HI2|].
  eapply h2_same_core_Inv, (h2_call_handler_Inv k (OnWrite (x :: d)) _ I HI2). by repeat split.
Qed.

Lemma push_body_Inv k sid p w : Inv k w → Inv k (push_body sid p w).
Proof. by apply h2_same_core_Inv. Qed.

Lemma do_op_Inv k op w : Inv k w → Inv k (do_op ng rc reenter spin op w).
Proof.
  intros HI. destruct op as [d| |hs body|hs|sid fs es|sid d es cb|sid ts|sid code]; simpl;
    unfold Consume, Flush, SubmitRequest, SubmitRequestOpen, SendHeaders, SendData, SendTrailers,
      ResetStream; cbv zeta;
    try by repeat (apply FlushOut_Inv || apply call_ng_Inv).
  - pose proof (new_body_Inv k body None w HI) as HN.
    destruct (new_body body None w) as [p w1]. simpl in HN.
    destruct (_ <? 0); simpl; apply drop_local_Inv; [by apply call_ng_Inv|].
    apply FlushOut_Inv. destruct body; [|apply h2_record_Inv, push_body_Inv; [done|]];
      by apply h2_record_Inv, call_ng_Inv.
  - destruct (_ <? 0); simpl; [|apply FlushOut_Inv, h2_record_Inv; [done|]]; by apply call_ng_Inv.
  - pose proof (new_body_Inv k d cb w HI) as HN.
    destruct (new_body d cb w) as [p w1]. simpl in HN.
    by apply drop_local_Inv, FlushOut_Inv, call_ng_Inv, h2_record_Inv, push_body_Inv.
Qed.
End Preserved.


(** ** What every step keeps *)

(** Nothing recorded is taken back, and a flush leaves the depth as it was. *)
Record extends (w w' : World) : Prop := {
  ext_trace : trace w `prefix_of` trace w';
  ext_next : (next_body w ≤ next_body w')%nat;
  ext_depth : flush_depth_ w' = flush_depth_ w
}.
#[export] Instance extends_preorder : PreOrder extends.
Proof.
  split; [by split|]. intros w1 w2 w3 [T1 N1 D1] [T2 N2 D2].
  split; [by etrans|lia|congruence].
Qed.

Definition same_progress (w w' : World) : Prop :=
  trace w' = trace w ∧ next_body w' = next_body w ∧ flush_depth_ w' = flush_depth_ w.
Lemma same_progress_extends w w' : same_progress w w' → extends w w'.
Proof. intros (E1 & E2 & E3). split; [by rewrite E1|lia|done]. Qed.

Lemma record_out_extends o w : extends w (record_out o w).
Proof. split; [by apply prefix_app_r|done|done]. Qed.

(** [w1] may be left out: it differs from [w] in nothing that counts. *)
Lemma same_then w w1 w2 : same_progress w w1 → extends w1 w2 → extends w w2.
Proof. intros ?%same_progress_extends ?. by etrans. Qed.
Lemma then_same w w1 w2 : extends w w1 → same_progress w1 w2 → extends w w2.
Proof. intros ? ?%same_progress_extends. by etrans. Qed.

Section Extends.
#[local] Set Default Proof Using "Type*".
Context (ng : NgCall → World → list NgEvent) (rc : NgCall → World → Z).
Context (reenter : Out → World → World) (spin : nat).
Hypothesis reenter_extends : ∀ o w, extends w (reenter o w).

Lemma call_handler_extends o w : extends w (call_handler reenter o w).
Proof. etrans; [apply record_out_extends|apply reenter_extends]. Qed.

Lemma run_event_extends e w : extends w (run_event reenter e w).
Proof.
  destruct e as [d|type sid n v|type sid es|sid d|sid c|p len]; simpl.
  - eapply same_then, record_out_extends. done.
  - unfold OnHeaderCb. case_decide; by apply same_progress_extends.
  - unfold OnFrameRecvCb. destruct type; [destruct (pending_headers w !! sid)| |]; try done;
      (eapply same_then, call_handler_extends; done).
  - apply call_handler_extends.
  - eapply same_then, call_handler_extends. done.
  - unfold BodyRead2, notify_consumed.
    destruct (heap w !! p) as [b|]; [|eapply same_then, record_out_extends; done].
    repeat (destruct (_ =? _)%nat || destruct (on_consumed _));
      (split; simpl; [by apply prefix_app_r|done|done]).
Qed.

Lemma call_ng_extends c w : extends w (call_ng ng reenter c w).
Proof.
  unfold call_ng. etrans; [apply (record_out_extends (Ng c))|].
  generalize (ng c (record_out (Ng c) w)). intros l. generalize (record_out (Ng c) w).
  induction l as [|e l IH]; intros w'; simpl; [done|]. etrans; [apply run_event_extends|apply IH].
Qed.

Lemma run_notes_extends notes w : extends w (run_notes reenter notes w).
Proof.
  revert w. induction notes as [|x notes IH]; intros w; simpl; [done|].
  etrans; [apply (call_handler_extends (Consumed x.1 x.2))|apply IH].
Qed.

Lemma drain_extends n w : extends w (drain_notifications ng reenter n w).
Proof.
  revert w. induction n as [|n IH]; intros w; cbn [drain_notifications];
    destruct (consumed_notifications w) as [|x notes] eqn:E; try done.
  eapply same_then; [|etrans; [apply (run_notes_extends (x :: notes))|]; etrans;
    [apply call_ng_extends|apply IH]]. done.
Qed.

Lemma drain_outermost_extends w : extends w (drain_outermost ng reenter spin w).
Proof.
  unfold drain_outermost. destruct (Nat.eqb_spec (flush_depth_ w) 0) as [E|]; [|done].
  destruct (drain_extends spin (w <| flush_depth_ ::= S |>)) as [T N D].
  split; simpl in *; [done|done|]. by rewrite D.
Qed.

Lemma write_out_extends w : extends w (write_out reenter w).
Proof.
  unfold write_out. destruct (out w) as [|x d]; [done|].
  eapply then_same; [apply call_handler_extends|]. done.
Qed.

Lemma FlushOut_extends w : extends w (FlushOut ng reenter spin w).
Proof.
  unfold FlushOut. etrans; [apply call_ng_extends|].
  etrans; [apply drain_outermost_extends|apply write_out_extends].
Qed.

Lemma drop_local_extends p w : extends w (drop_local p w).
Proof. unfold drop_local. cbv zeta. by case_decide; apply same_progress_extends. Qed.
Lemma new_body_extends d cb w : extends w (new_body d cb w).2.
Proof. split; simpl; [done|lia|done]. Qed.

Lemma do_op_extends op w : extends w (do_op ng rc reenter spin op w).
Proof.
  assert (HF : ∀ c w, extends w (FlushOut ng reenter spin (call_ng ng reenter c w)))
    by (intros c w'; etrans; [apply call_ng_extends|apply FlushOut_extends]).
  destruct op as [d| |hs body|hs|sid fs es|sid d es cb|sid ts|sid code]; simpl;
    unfold Consume, SendHeaders, SendTrailers, ResetStream, Flush; try apply HF.
  - apply FlushOut_extends.
  - unfold SubmitRequest. pose proof (new_body_extends body None w) as HN.
    destruct (new_body body None w) as [p w1]. simpl in HN. cbv zeta.
    etrans; [exact HN|]. etrans; [apply call_ng_extends|]. destruct (_ <? 0); simpl.
    + apply drop_local_extends.
    + etrans; [|apply drop_local_extends]. etrans; [|apply FlushOut_extends].
      etrans; [apply (record_out_extends (Opened (rc (SubmitRequest2 hs
        match body with [] => None | _ => Some p end) w1)))|].
      destruct body; [done|]. eapply same_then, record_out_extends. done.
  - unfold SubmitRequestOpen. cbv zeta. etrans; [apply call_ng_extends|].
    destruct (_ <? 0); simpl; [done|]. etrans; [|apply FlushOut_extends]. apply record_out_extends.
  - unfold SendData. pose proof (new_body_extends d cb w) as HN.
    destruct (new_body d cb w) as [p w1]. simpl in HN. etrans; [exact HN|].
    etrans; [|apply drop_local_extends]. etrans; [|apply HF]. eapply same_then, record_out_extends. done.
Qed.
End Extends.

(** ** The loop of [FlushOut] ends *)
Lemma count_by_omap {A K} `{!EqDecision K} (f : A → option K) p l :
  count_by f p l = count_by Some p (omap f l).
Proof.
  induction l as [|x l IH]; [done|]. rewrite count_by_cons, IH. simpl.
  destruct (f x) as [q|]; [by rewrite count_by_cons|]. by case_decide.
Qed.

Lemma count_by_NoDup {K} `{!EqDecision K} (l : list K) :
  (∀ p, count_by Some p l ≤ 1)%nat → NoDup l.
Proof.
  induction l as [|x l IH]; intros H; [constructor|].
  constructor.
  - intros (l1 & l2 & ->)%list_elem_of_split. specialize (H x).
    rewrite count_by_cons, count_by_app, count_by_cons in H. repeat case_decide; lia || done.
  - apply IH. intros p. specialize (H p). rewrite count_by_cons in H. lia.
Qed.

Lemma count_by_pos {K} `{!EqDecision K} (p : K) l : p ∈ l → (0 < count_by Some p l)%nat.
Proof.
  intros (l1 & l2 & ->)%list_elem_of_split. rewrite count_by_app, count_by_cons.
  case_decide; lia || done.
Qed.

(** How many notifications have been given. *)
Definition told (w : World) : nat := length (omap out_body (trace w)).

Lemma told_bound k w :
  Inv k w → (told w + length (consumed_notifications w) ≤ next_body w)%nat.
Proof.
  intros HI.
  set (ps := omap out_body (trace w) ++ omap note_body (consumed_notifications w)).
  assert (Hps : ∀ p, (count_by Some p ps ≤ notified k p w)%nat)
    by (intros p; unfold ps, notified; rewrite count_by_app, <- !count_by_omap; lia).
  assert (Hl : length (omap note_body (consumed_notifications w)) = length (consumed_notifications w))
    by (generalize (consumed_notifications w); intros l; induction l; simpl; auto).
  assert (length ps ≤ next_body w)%nat as H.
  { rewrite <- (length_seq (next_body w) 0). apply NoDup_incl_length.
    - apply NoDup_ListNoDup, count_by_NoDup. intros p. pose proof (Hps p). pose proof (inv_once k w HI p). lia.
    - intros p Hp%list_elem_of_In%count_by_pos. apply in_seq.
      destruct (decide (next_body w ≤ p)%nat) as [Hle|]; [|lia].
      destruct (inv_given k w HI p (inv_next k w HI p Hle)) as (_ & E & _). pose proof (Hps p). lia. }
  unfold ps in H. rewrite length_app, Hl in H. exact H.
Qed.

Lemma extends_told w w' : extends w w' → (told w ≤ told w')%nat.
Proof. intros [[t E] _ _]. unfold told. rewrite E, omap_app, length_app. lia. Qed.

Section Fuel.
#[local] Set Default Proof Using "Type*".
Context (ng : NgCall → World → list NgEvent) (rc : NgCall → World → Z).
Context (reenter : Out → World → World) (spin : nat).
Hypothesis reenter_Inv : ∀ k o w, Inv k w → Inv k (reenter o w).
Hypothesis reenter_extends : ∀ o w, extends w (reenter o w).

(** A loop that ran out of fuel gave [spin] notifications. *)
Definition fuel_ok (w : World) : Prop := hung w = true → (spin < next_body w)%nat.
Hypothesis reenter_fuel : ∀ k o w, Inv k w → fuel_ok w → fuel_ok (reenter o w).

Lemma run_notes_told notes w :
  (told w + length notes ≤ told (run_notes reenter notes w))%nat.
Proof.
  revert w. induction notes as [|x notes IH]; intros w; simpl; [lia|].
  etrans; [|apply IH].
  pose proof (extends_told _ _ (reenter_extends (Consumed x.1 x.2) (record_out (Consumed x.1 x.2) w))) as H.
  assert (told (record_out (Consumed x.1 x.2) w) = S (told w))
    by (unfold told; simpl; rewrite omap_app, length_app; simpl; lia).
  unfold call_handler. lia.
Qed.

Lemma fuel_same w w' : hung w' = hung w → (next_body w ≤ next_body w')%nat → fuel_ok w → fuel_ok w'.
Proof. unfold fuel_ok. intros -> ? H ?. specialize (H ltac:(done)). lia. Qed.

Lemma call_handler_fuel k o w :
  h2_silent o → Inv k w → fuel_ok w → fuel_ok (call_handler reenter o w).
Proof. intros Ho HI HF. apply (reenter_fuel k); [by apply h2_record_Inv|exact HF]. Qed.

Lemma run_event_fuel k e w : Inv k w → fuel_ok w → fuel_ok (run_event reenter e w).
Proof.
  intros HI HF. destruct e as [d|type sid n v|type sid es|sid d|sid c|p len]; simpl.
  - exact HF.
  - unfold OnHeaderCb. by case_decide.
  - unfold OnFrameRecvCb. destruct type; [destruct (pending_headers w !! sid)| |]; try done;
      (apply (call_handler_fuel k); [done| |exact HF]); revert HI; by apply h2_same_core_Inv.
  - by apply (call_handler_fuel k).
  - apply (call_handler_fuel k); [done| |exact HF]. apply free_bodies_Inv. revert HI. by apply h2_same_core_Inv.
  - unfold BodyRead2, notify_consumed. destruct (heap w !! p) as [b|]; [|exact HF].
    repeat (destruct (_ =? _)%nat || destruct (on_consumed _)); exact HF.
Qed.

Lemma call_ng_fuel k c w : Inv k w → fuel_ok w → fuel_ok (call_ng ng reenter c w).
Proof.
  intros HI HF. unfold call_ng. generalize (ng c (record_out (Ng c) w)). intros l.
  assert (H : Inv k (record_out (Ng c) w)) by by apply h2_record_Inv.
  assert (H' : fuel_ok (record_out (Ng c) w)) by exact HF.
  revert H H'. generalize (record_out (Ng c) w).
  induction l as [|e l IH]; intros w' H H'; simpl; [done|].
  apply IH; [by apply run_event_Inv|by apply (run_event_fuel k)].
Qed.

Lemma run_notes_fuel k notes w :
  Inv (notes ++ k) w → fuel_ok w → fuel_ok (run_notes reenter notes w).
Proof.
  revert w. induction notes as [|[p cb] notes IH]; intros w HI HF; simpl; [done|].
  pose proof (consumed_Inv (notes ++ k) p cb w HI) as HC.
  apply IH; [by apply reenter_Inv|]. by apply (reenter_fuel (notes ++ k)).
Qed.

(** Every round gives a notification more. *)
Lemma drain_fuel k n w :
  Inv k w → fuel_ok w → (spin ≤ told w + n)%nat →
  fuel_ok (drain_notifications ng reenter n w).
Proof.
  revert w. induction n as [|n IH]; intros w HI HF Hn; cbn [drain_notifications];
    destruct (consumed_notifications w) as [|x notes] eqn:E; try done.
  - intros _. pose proof (told_bound k w HI) as H. rewrite E in H. simpl in *. lia.
  - pose proof (take_notes_Inv k w HI) as HT. rewrite E in HT.
    pose proof (run_notes_Inv reenter reenter_Inv k (x :: notes) _ HT) as HR.
    apply IH.
    + by apply call_ng_Inv.
    + apply (call_ng_fuel k); [done|]. by apply (run_notes_fuel k).
    + pose proof (run_notes_told (x :: notes) (w <| consumed_notifications := [] |>)) as H.
      pose proof (extends_told _ _ (call_ng_extends ng reenter reenter_extends SessionSend
        (run_notes reenter (x :: notes) (w <| consumed_notifications := [] |>)))).
      change (told (w <| consumed_notifications := [] |>)) with (told w) in H. simpl length in H. lia.
Qed.

Lemma FlushOut_fuel k w : Inv k w → fuel_ok w → fuel_ok (FlushOut ng reenter spin w).
Proof.
  intros HI HF. unfold FlushOut.
  pose proof (call_ng_Inv ng reenter reenter_Inv k SessionSend w HI) as HI1.
  pose proof (call_ng_fuel k SessionSend w HI HF) as HF1.
  revert HI1 HF1. generalize (call_ng ng reenter SessionSend w). clear w HI HF. intros w HI HF.
  assert (HI' : Inv k (drain_outermost ng reenter spin w) ∧ fuel_ok (drain_outermost ng reenter spin w)).
  { unfold drain_outermost. destruct (_ =? _)%nat; [|done].
    assert (HI' : Inv k (w <| flush_depth_ ::= S |>)) by (revert HI; by apply h2_same_core_Inv). split.
    - eapply h2_same_core_Inv, (drain_Inv ng reenter reenter_Inv k spin _ HI'). by repeat split.
    - pose proof (drain_fuel k spin _ HI' HF) as H.
      exact (H (Nat.le_add_l _ _)). }
  destruct HI' as [HI' HF']. unfold write_out.
  destruct (out (drain_outermost ng reenter spin w)) as [|x d]; [exact HF'|].
  exact (call_handler_fuel k (OnWrite (x :: d)) _ I HI' HF').
Qed.

Lemma do_op_fuel k op w : Inv k w → fuel_ok w → fuel_ok (do_op ng rc reenter spin op w).
Proof.
  intros HI HF.
  assert (HC : ∀ c w, Inv k w → fuel_ok w → fuel_ok (FlushOut ng reenter spin (call_ng ng reenter c w)))
    by (intros; apply (FlushOut_fuel k); [by apply call_ng_Inv|by apply (call_ng_fuel k)]).
  assert (HD : ∀ p w, fuel_ok w → fuel_ok (drop_local p w))
    by (intros p w'; unfold drop_local; cbv zeta; by case_decide).
  destruct op as [d| |hs body|hs|sid fs es|sid d es cb|sid ts|sid code]; simpl;
    unfold Consume, SendHeaders, SendTrailers, ResetStream, Flush; try by apply HC.
  - by apply (FlushOut_fuel k).
  - unfold SubmitRequest. pose proof (new_body_Inv k body None w HI) as HN.
    pose proof (fuel_same w (new_body body None w).2 eq_refl ltac:(simpl; lia) HF) as HFN.
    destruct (new_body body None w) as [p w1]. simpl in HN, HFN. cbv zeta.
    set (c := SubmitRequest2 _ _). pose proof (call_ng_Inv ng reenter reenter_Inv k c w1 HN).
    pose proof (call_ng_fuel k c w1 HN HFN).
    destruct (_ <? 0); simpl; apply HD; [done|].
    destruct body; apply (FlushOut_fuel k); try done; [|apply h2_record_Inv, push_body_Inv; [done|]];
      by apply h2_record_Inv.
  - unfold SubmitRequestOpen. cbv zeta. destruct (_ <? 0); simpl; [by apply (call_ng_fuel k)|].
    apply (FlushOut_fuel k); [apply h2_record_Inv; [done|]; by apply call_ng_Inv|by apply (call_ng_fuel k)].
  - unfold SendData. pose proof (new_body_Inv k d cb w HI) as HN.
    pose proof (fuel_same w (new_body d cb w).2 eq_refl ltac:(simpl; lia) HF) as HFN.
    destruct (new_body d cb w) as [p w1]. simpl in HN, HFN.
    apply HD, HC; [by apply h2_record_Inv, push_body_Inv|exact HFN].
Qed.
End Fuel.

(** ** The bytes to write *)
Definition sent_bytes (o : Out) : bytes := match o with Sent d => d | _ => [] end.
Definition written_bytes (o : Out) : bytes := match o with OnWrite d => d | _ => [] end.
(** What nghttp2 sent is written, or still in [out]. *)
Definition flow (w : World) : Prop :=
  concat (map sent_bytes (trace w)) = concat (map written_bytes (trace w)) ++ out w.

Lemma bytes_snoc (f : Out → bytes) tr o : concat (map f (tr ++ [o])) = concat (map f tr) ++ f o.
Proof. rewrite map_app, concat_app. simpl. by rewrite app_nil_r. Qed.

Lemma flow_same w w' : out w' = out w → trace w' = trace w → flow w → flow w'.
Proof. unfold flow. by intros -> ->. Qed.

Lemma record_flow o w : sent_bytes o = [] → written_bytes o = [] → flow w → flow (record_out o w).
Proof. unfold flow. intros Hs Hw HF. simpl. by rewrite !bytes_snoc, Hs, Hw, !app_nil_r. Qed.

Section Flow.
#[local] Set Default Proof Using "Type*".
Context (ng : NgCall → World → list NgEvent) (rc : NgCall → World → Z).
Context (reenter : Out → World → World) (spin : nat).
Hypothesis reenter_flow : ∀ o w, flow w → flow (reenter o w).
Hypothesis reenter_write : ∀ d w, reenter (OnWrite d) w = w.

Lemma call_handler_flow o w :
  sent_bytes o = [] → written_bytes o = [] → flow w → flow (call_handler reenter o w).
Proof. intros. by apply reenter_flow, record_flow. Qed.

Lemma run_event_flow e w : flow w → flow (run_event reenter e w).
Proof.
  intros HF. destruct e as [d|type sid n v|type sid es|sid d|sid c|p len]; simpl.
  - unfold flow in *. simpl. rewrite !bytes_snoc, HF. simpl. by rewrite app_nil_r, app_assoc.
  - unfold OnHeaderCb. by case_decide.
  - unfold OnFrameRecvCb. destruct type; [destruct (pending_headers w !! sid)| |]; try done;
      by apply call_handler_flow.
  - by apply call_handler_flow.
  - by apply call_handler_flow.
  - unfold BodyRead2, notify_consumed. destruct (heap w !! p) as [b|].
    2:{ apply record_flow; [done|done|exact HF]. }
    repeat (destruct (_ =? _)%nat || destruct (on_consumed _));
      (apply record_flow; [done|done|exact HF]).
Qed.

Lemma call_ng_flow c w : flow w → flow (call_ng ng reenter c w).
Proof.
  intros HF. unfold call_ng. generalize (ng c (record_out (Ng c) w)). intros l.
  assert (H : flow (record_out (Ng c) w)) by by apply record_flow.
  revert H. generalize (record_out (Ng c) w).
  induction l as [|e l IH]; intros w' H; simpl; [done|]. by apply IH, run_event_flow.
Qed.

Lemma run_notes_flow notes w : flow w → flow (run_notes reenter notes w).
Proof.
  revert w. induction notes as [|x notes IH]; intros w HF; simpl; [done|].
  by apply IH, call_handler_flow.
Qed.

Lemma drain_flow n w : flow w → flow (drain_notifications ng reenter n w).
Proof.
  revert w. induction n as [|n IH]; intros w HF; cbn [drain_notifications];
    destruct (consumed_notifications w) as [|x notes]; try done.
  apply IH, call_ng_flow, run_notes_flow. exact HF.
Qed.

Lemma FlushOut_flow w : flow w → flow (FlushOut ng reenter spin w).
Proof.
  intros HF. unfold FlushOut. apply (call_ng_flow SessionSend) in HF. revert HF.
  generalize (call_ng ng reenter SessionSend w). clear w. intros w HF.
  assert (HF' : flow (drain_outermost ng reenter spin w)).
  { unfold drain_outermost. destruct (_ =? _)%nat; [|done].
    apply (flow_same (drain_notifications ng reenter spin (w <| flush_depth_ ::= S |>)));
      [done|done|by apply drain_flow]. }
  unfold write_out, call_handler. revert HF'. generalize (drain_outermost ng reenter spin w).
  intros w' HF'. destruct (out w') as [|x d] eqn:E; [exact HF'|]. rewrite reenter_write.
  unfold flow in *. simpl. rewrite !bytes_snoc, HF', E. simpl. by rewrite !app_nil_r.
Qed.

(** Nothing is left to write. *)
Lemma FlushOut_out w : out (FlushOut ng reenter spin w) = [].
Proof using Type.
  unfold FlushOut, write_out, call_handler.
  destruct (out (drain_outermost _ _ _ _)) as [|x d] eqn:E; [exact E|]. done.
Qed.

Lemma drop_local_out p w : out (drop_local p w) = out w ∧ trace (drop_local p w) = trace w.
Proof. unfold drop_local. cbv zeta. by case_decide. Qed.
Lemma drop_local_flow p w : flow w → flow (drop_local p w).
Proof. destruct (drop_local_out p w). by apply flow_same. Qed.

Lemma do_op_flow op w : flow w → flow (do_op ng rc reenter spin op w).
Proof.
  intros HF. destruct op as [d| |hs body|hs|sid fs es|sid d es cb|sid ts|sid code]; simpl;
    try by apply FlushOut_flow, call_ng_flow.
  - by apply FlushOut_flow.
  - unfold SubmitRequest, new_body. cbv zeta.
    destruct (_ <? 0); simpl; apply drop_local_flow; [by apply call_ng_flow|].
    apply FlushOut_flow. destruct body; repeat (apply record_flow; [done|done|]); by apply call_ng_flow.
  - unfold SubmitRequestOpen. cbv zeta. destruct (_ <? 0); simpl; [by apply call_ng_flow|]. by apply FlushOut_flow, record_flow, call_ng_flow.
  - unfold SendData, new_body. by apply drop_local_flow, FlushOut_flow, call_ng_flow, record_flow.
Qed.

(** After a drain the queue is empty, or the loop ran out of fuel. *)
Lemma drain_empty n w :
  consumed_notifications (drain_notifications ng reenter n w) = [] ∨
  hung (drain_notifications ng reenter n w) = true.
Proof using Type.
  revert w. induction n as [|n IH]; intros w; cbn [drain_notifications];
    destruct (consumed_notifications w) as [|x notes] eqn:E; auto.
Qed.

Lemma FlushOut_drains w :
  (∀ o w, extends w (reenter o w)) → flush_depth_ w = 0%nat →
  hung (FlushOut ng reenter spin w) = false →
  consumed_notifications (FlushOut ng reenter spin w) = [].
Proof using reenter_write.
  intros Hext Hd. unfold FlushOut.
  assert (Hd' : flush_depth_ (call_ng ng reenter SessionSend w) = 0%nat)
    by (by rewrite (ext_depth _ _ (call_ng_extends ng reenter Hext SessionSend w))).
  revert Hd'. generalize (call_ng ng reenter SessionSend w). clear w Hd. intros w Hd.
  unfold write_out, drain_outermost, call_handler. rewrite Hd. cbn [Nat.eqb].
  pose proof (drain_empty spin (w <| flush_depth_ ::= S |>)) as H.
  destruct (out _); [|rewrite reenter_write]; simpl in *; intros Hh;
    destruct H as [H|H]; congruence.
Qed.
End Flow.

(** ** Runs *)
Section Runs.
Context (ng : NgCall → World → list NgEvent) (rc : NgCall → World → Z).
(** What the handler and the owners call when they are told [o]. *)
Context (user : Out → World → list SessionOp).
(** How deep the handler's calls may nest, and the rounds of [FlushOut]. *)
Context (depth spin : nat).

Fixpoint react (n : nat) (o : Out) (w : World) : World :=
  match user o w, n with
  | [], _ => w
  | _, O => w <| too_deep := true |>
  | ops, S n => fold_left (λ w op, do_op ng rc (react n) spin op w) ops w
  end.

Definition session_op : SessionOp → World → World := do_op ng rc (react depth) spin.
Definition session_run (ops : list SessionOp) : World :=
  fold_left (λ w op, session_op op w) ops new_world.

Lemma fold_ops_Inv k re ops w :
  (∀ k o w, Inv k w → Inv k (re o w)) → Inv k w →
  Inv k (fold_left (λ w op, do_op ng rc re spin op w) ops w).
Proof.
  intros Hre. revert w. induction ops as [|op ops IH]; intros w HI; simpl; [done|].
  apply IH. by apply do_op_Inv.
Qed.

Lemma session_run_snoc ops op : session_run (ops ++ [op]) = session_op op (session_run ops).
Proof. unfold session_run. by rewrite fold_left_app. Qed.

Lemma react_Inv n k o w : Inv k w → Inv k (react n o w).
Proof.
  revert k o w. induction n as [|n IH]; intros k o w HI; cbn [react];
    destruct (user o w) as [|op ops]; try done.
  - revert HI. by apply h2_same_core_Inv.
  - by apply fold_ops_Inv.
Qed.

Lemma fold_ops_extends re ops w :
  (∀ o w, extends w (re o w)) → extends w (fold_left (λ w op, do_op ng rc re spin op w) ops w).
Proof.
  intros Hre. revert w. induction ops as [|op ops IH]; intros w; simpl; [done|].
  etrans; [by apply (do_op_extends ng rc re spin Hre op)|apply IH].
Qed.

Lemma react_extends n o w : extends w (react n o w).
Proof.
  revert o w. induction n as [|n IH]; intros o w; cbn [react]; destruct (user o w); try done.
  by apply fold_ops_extends.
Qed.

Lemma fold_ops_fuel k re ops w :
  (∀ k o w, Inv k w → Inv k (re o w)) → (∀ o w, extends w (re o w)) →
  (∀ k o w, Inv k w → fuel_ok spin w → fuel_ok spin (re o w)) →
  Inv k w → fuel_ok spin w → fuel_ok spin (fold_left (λ w op, do_op ng rc re spin op w) ops w).
Proof.
  intros H1 H2 H3. revert w. induction ops as [|op ops IH]; intros w HI HF; simpl; [done|].
  apply IH; [by apply do_op_Inv|by apply (do_op_fuel _ _ _ _ H1 H2 H3 k)].
Qed.

Lemma react_fuel n k o w : Inv k w → fuel_ok spin w → fuel_ok spin (react n o w).
Proof.
  revert k o w. induction n as [|n IH]; intros k o w HI HF; cbn [react]; destruct (user o w); try done.
  apply (fold_ops_fuel k); eauto using react_Inv, react_extends.
Qed.

Lemma h2_new_world_Inv : Inv [] new_world.
Proof.
  split; simpl.
  - done.
  - done.
  - intros p b. by rewrite lookup_empty.
  - intros p. unfold owed, notified. simpl. rewrite lookup_empty. lia.
  - intros p cb Hp. by inversion Hp.
  - by intros [] ? ?.
Qed.

Lemma session_run_Inv ops : Inv [] (session_run ops).
Proof. apply fold_ops_Inv; [intros; by apply react_Inv|apply h2_new_world_Inv]. Qed.

Lemma session_run_extends ops : extends new_world (session_run ops).
Proof. apply fold_ops_extends, react_extends. Qed.

Lemma session_run_fuel ops : fuel_ok spin (session_run ops).
Proof.
  apply (fold_ops_fuel []); eauto using react_Inv, react_extends, react_fuel, h2_new_world_Inv.
  done.
Qed.

(** The handler's [OnWrite] only writes: it does not call the session. *)
Definition quiet_writes : Prop := ∀ d w, user (OnWrite d) w = [].

Lemma react_write n d w : quiet_writes → react n (OnWrite d) w = w.
Proof. intros Hu. destruct n; simpl; by rewrite Hu. Qed.

Lemma react_flow n o w : quiet_writes → flow w → flow (react n o w).
Proof.
  intros Hu. revert o w. induction n as [|n IH]; intros o w HF; cbn [react];
    destruct (user o w) as [|op ops]; try done.
  revert w HF. generalize (op :: ops). clear op ops. intros ops.
  induction ops as [|op ops IHo]; intros w HF; simpl; [done|].
  apply IHo, do_op_flow; [exact IH|intros; by apply react_write|done].
Qed.

Lemma session_run_flow ops : quiet_writes → flow (session_run ops).
Proof.
  intros Hu. unfold session_run. assert (HF : flow new_world) by done. revert HF.
  generalize new_world. induction ops as [|op ops IH]; intros w HF; simpl; [done|].
  apply IH, do_op_flow; [intros; by apply react_flow|intros; by apply react_write|done].
Qed.
End Runs.

(** ** The properties of every run *)

(** The operations that always end in [FlushOut]. *)
Definition flushes (op : SessionOp) : bool :=
  match op with OpSubmitRequest _ _ | OpSubmitRequestOpen _ => false | _ => true end.

Lemma flushes_spec ng rc reenter spin op w :
  flushes op = true →
  ∃ w1 w2, do_op ng rc reenter spin op w = w2 ∧
    out w2 = out (FlushOut ng reenter spin w1) ∧ hung w2 = hung (FlushOut ng reenter spin w1) ∧
    consumed_notifications w2 = consumed_notifications (FlushOut ng reenter spin w1) ∧
    ((∀ o w, extends w (reenter o w)) → flush_depth_ w1 = flush_depth_ w).
Proof.
  intros Hf.
  assert (HE : ∀ c w, (∀ o w, extends w (reenter o w)) →
            flush_depth_ (call_ng ng reenter c w) = flush_depth_ w)
    by (intros c w' He; apply (ext_depth _ _ (call_ng_extends ng reenter He c w'))).
  destruct op as [d| |hs body|hs|sid fs es|sid d es cb|sid ts|sid code]; try done;
    simpl; unfold Consume, SendHeaders, SendTrailers, ResetStream, Flush, SendData;
    do 2 eexists; (split; [reflexivity|]);
    try (split_and!; [reflexivity..|intros He; first [by apply HE|done]]).
  split_and!; [eapply (proj1 (drop_local_out _ _))|..]; cbv iota beta delta [new_body fst snd];
    unfold drop_local; cbv zeta; [case_decide; reflexivity..|].
  intros He. by rewrite HE.
Qed.

Section Theorems.
Context (ng : NgCall → World → list NgEvent) (rc : NgCall → World → Z).
Context (user : Out → World → list SessionOp) (depth spin : nat).
Let run := session_run ng rc user depth spin.

(** C32: The owner of a body is told at most once, and only after nghttp2 took
    every byte of it, whatever nghttp2 does, whatever the handler and the owners
    call, and however the calls nest; the one who is told is the one who gave
    the body. *)
Theorem consumed_once_after_whole_body ops :
  (∀ p, (count_by out_body p (trace (run ops)) ≤ 1)%nat) ∧
  (∀ l1 p cb l2, trace (run ops) = l1 ++ Consumed p cb :: l2 →
    bodies_given (run ops) !! p = Some (taken p l1, Some cb)).
Proof.
  pose proof (session_run_Inv ng rc user depth spin ops) as HI. split.
  - intros p. pose proof (inv_once _ _ HI p) as H. unfold notified in H.
    change (session_run ng rc user depth spin ops) with (run ops) in H. lia.
  - intros l1 p cb l2 E. exact (inv_trace _ _ HI l1 (Consumed p cb) l2 E).
Qed.

(** Nghttp2 reads the bytes of a body in order and without a gap, and it is
    told that the body ends with exactly the read that takes its last byte. *)
Theorem body_read_in_order ops l1 p chunk eof l2 :
  trace (run ops) = l1 ++ Read p chunk eof :: l2 →
  ∃ d cb, bodies_given (run ops) !! p = Some (d, cb) ∧
    (taken p l1 ++ chunk) `prefix_of` d ∧ (eof = true ↔ taken p l1 ++ chunk = d).
Proof.
  intros E. pose proof (session_run_Inv ng rc user depth spin ops) as HI.
  exact (inv_trace _ _ HI l1 (Read p chunk eof) l2 E).
Qed.

(** The handler is given the bytes that nghttp2 sends, all of them and in
    order: none is left in the buffer after an operation that flushes. *)
Theorem writes_are_what_was_sent ops op :
  quiet_writes user →
  let w := run (ops ++ [op]) in
  concat (map sent_bytes (trace w)) = concat (map written_bytes (trace w)) ++ out w ∧
  (flushes op = true → out w = []).
Proof.
  intros Hu w. split; [by apply session_run_flow|].
  intros Hf. subst w run. rewrite session_run_snoc. unfold session_op.
  destruct (flushes_spec ng rc (react ng rc user spin depth) spin op
    (session_run ng rc user depth spin ops) Hf) as (w1 & w2 & -> & -> & _).
  apply FlushOut_out.
Qed.

(** The loop of [FlushOut] ends: rounds as many as there are bodies are
    enough for it.  No notification is left after an operation that flushes, and
    the depth is back at zero. *)
Theorem notifications_drained ops op :
  quiet_writes user →
  let w := run (ops ++ [op]) in
  (next_body w ≤ spin)%nat →
  hung w = false ∧ flush_depth_ w = 0%nat ∧ (flushes op = true → consumed_notifications w = []).
Proof.
  intros Hu w Hspin.
  assert (Hh : hung w = false).
  { pose proof (session_run_fuel ng rc user depth spin (ops ++ [op])) as HF. unfold fuel_ok in HF.
    change (session_run ng rc user depth spin (ops ++ [op])) with w in HF.
    destruct (hung w); [|done]. specialize (HF eq_refl). lia. }
  split_and!; [done| |].
  - apply (ext_depth _ _ (session_run_extends ng rc user depth spin (ops ++ [op]))).
  - intros Hf. revert Hh. clear Hspin. subst w run. rewrite session_run_snoc. unfold session_op.
    pose proof (ext_depth _ _ (session_run_extends ng rc user depth spin ops)) as Hd.
    pose proof (react_extends ng rc user spin depth) as He.
    destruct (flushes_spec ng rc (react ng rc user spin depth) spin op
      (session_run ng rc user depth spin ops) Hf) as (w1 & w2 & -> & _ & -> & -> & Hd1).
    specialize (Hd1 He). apply FlushOut_drains; [intros; by apply react_write|done|].
    by rewrite Hd1, Hd.
Qed.
End Theorems.

(** ** Reading a body, and receiving a block of headers *)

(** All of a body of [d] bytes has been read, in [i] reads of [len]. *)
Definition read_up (d : bytes) (len i : nat) : bool := bool_decide (0 < i ∧ length d ≤ i * len)%nat.

Lemma take_min {A} (n : nat) (l : list A) : take (Nat.min n (length l)) l = take n l.
Proof.
  destruct (Nat.min_spec n (length l)) as [[? ->]|[? ->]]; [done|]. by rewrite firstn_all, take_ge.
Qed.

Lemma reads_so_far p d cb len i w :
  heap w !! p = Some (mkBody d 0 (Some cb)) →
  let w' := Nat.iter i (BodyRead2 p len) w in
  taken p (trace w') = taken p (trace w) ++ take (i * len) d ∧
  heap w' !! p =
    Some (mkBody d (Nat.min (i * len) (length d)) (if read_up d len i then None else Some cb)) ∧
  consumed_notifications w' =
    consumed_notifications w ++ (if read_up d len i then [(p, cb)] else []).
Proof.
  intros Hp. induction i as [|i (IH1 & IH2 & IH3)]; simpl in *; [by rewrite !app_nil_r|].
  revert IH1 IH2 IH3. generalize (Nat.iter i (BodyRead2 p len) w). intros w1 IH1 IH2 IH3.
  set (o := Nat.min (i * len) (length d)) in *.
  rewrite (BodyRead2_spec p len w1 _ IH2) by (simpl; lia). cbv zeta. cbn [data offset].
  set (m := Nat.min (length d - o) len).
  assert (Hm : (o + m = Nat.min (len + i * len) (length d))%nat) by lia.
  assert (Htk : taken p (trace w1) ++ take m (drop o d) = taken p (trace w) ++ take (len + i * len) d).
  { rewrite IH1, <- app_assoc, <- (take_min (i * len)). fold o.
    by rewrite take_take_drop, Hm, take_min. }
  assert (Hd : read_up d len (S i) = bool_decide (o + m = length d)%nat)
    by (unfold read_up; apply bool_decide_ext; simpl; lia).
  rewrite Hd, <- Hm. case_decide as E.
  - rewrite bool_decide_true by done. unfold notify_consumed. simpl.
    destruct (read_up d len i) eqn:Ei; simpl; rewrite lookup_insert_eq, taken_snoc; simpl;
      rewrite decide_True by done; rewrite Htk, IH3, ?app_nil_r; done.
  - rewrite bool_decide_false by done. simpl. rewrite lookup_insert_eq, taken_snoc. simpl.
    rewrite decide_True by done. rewrite Htk, IH3.
    assert (read_up d len i = false) as -> by (unfold read_up; apply bool_decide_eq_false; lia). done.
Qed.

(** Reads of [len] bytes deliver a body from its start: once [n] of them
    cover it, nghttp2 has the whole of it and the notification of its owner is
    queued, once. *)
Theorem reads_deliver_body p d cb len n w :
  heap w !! p = Some (mkBody d 0 (Some cb)) → (0 < n)%nat → (length d ≤ n * len)%nat →
  let w' := Nat.iter n (BodyRead2 p len) w in
  taken p (trace w') = taken p (trace w) ++ d ∧
  heap w' !! p = Some (mkBody d (length d) None) ∧
  consumed_notifications w' = consumed_notifications w ++ [(p, cb)].
Proof.
  intros Hp Hn Hlen. destruct (reads_so_far p d cb len n w Hp) as (H1 & H2 & H3).
  unfold read_up in *. rewrite bool_decide_true in H2, H3 by done.
  rewrite take_ge in H1 by lia. rewrite Nat.min_r in H2 by lia. done.
Qed.

(** The map of the fields seen so far, and one more field. *)
Lemma header_field_added (n v : string) (l : list (string * string)) (m : gmap string string) :
  (list_to_map (reverse l) : gmap string string) ∪ <[n := v]> m = list_to_map (reverse ((n, v) :: l)) ∪ m.
Proof.
  rewrite reverse_cons. rewrite (list_to_map_app (M := gmap string) (reverse l) [(n, v)]),
    <- (assoc_L (∪)). f_equal.
  simpl. by rewrite insert_empty, insert_union_singleton_l.
Qed.

(** A block of header fields is given to the handler as one map, when its
    frame is complete, in which the last value of a name counts; nothing of it
    is kept for the next block. *)
Theorem header_block_delivered ng reenter fields sid end_stream c w :
  fields ≠ [] → pending_headers w !! sid = None →
  ng c (record_out (Ng c) w) =
    map (λ nv, NgHeader NGHTTP2_HEADERS sid nv.1 nv.2) fields ++
    [NgFrameRecv NGHTTP2_HEADERS sid end_stream] →
  call_ng ng reenter c w =
    call_handler reenter (OnHeadersComplete sid (list_to_map (reverse fields)) end_stream)
      (record_out (Ng c) w).
Proof.
  intros Hne Hp E. unfold call_ng. rewrite E, fold_left_app.
  assert (Hp' : pending_headers (record_out (Ng c) w) !! sid = None) by done.
  revert Hp'. generalize (record_out (Ng c) w). clear w Hp E. intros w Hp.
  assert (HI : ∀ l m w0, pending_headers w0 = <[sid := m]> (pending_headers w) →
    fold_left (λ w e, run_event reenter e w) (map (λ nv, NgHeader NGHTTP2_HEADERS sid nv.1 nv.2) l) w0 =
    w0 <| pending_headers := <[sid := list_to_map (reverse l) ∪ m]> (pending_headers w) |>).
  { induction l as [|[n v] l IH]; intros m w0 E; simpl.
    - rewrite (left_id_L ∅ (∪)), <- E. by destruct w0.
    - unfold OnHeaderCb. rewrite decide_False by congruence.
      rewrite (IH (<[n := v]> m)).
      + simpl. by rewrite header_field_added.
      + simpl. rewrite E, lookup_insert_eq. simpl. by rewrite insert_insert_eq. }
  destruct fields as [|[n v] l]; [done|]. cbn [map fold_left fst snd].
  assert (E0 : pending_headers (run_event reenter (NgHeader NGHTTP2_HEADERS sid n v) w) =
    <[sid := <[n := v]> ∅]> (pending_headers w)).
  { simpl. by rewrite Hp. }
  rewrite (HI l _ _ E0). unfold run_event at 1, OnFrameRecvCb. cbn [pending_headers].
  simpl. rewrite lookup_insert_eq, delete_insert_id by done.
  rewrite (header_field_added n v l ∅), (right_id_L ∅ (∪)). by destruct w.
Qed.

(** An answer inside a callback sends inside the receive.  A handler that answers
    a header block with headers before it returns has nghttp2_session_send
    called while nghttp2_session_mem_recv2 runs, since every operation flushes
    at once; and, being an outermost flush, that also runs the notifications of
    consumed bodies there. *)
Theorem send_inside_receive ng rc user spin n fields sid end_stream answer last d w :
  fields ≠ [] → pending_headers w !! sid = None →
  ng (MemRecv d) (record_out (Ng (MemRecv d)) w) =
    map (λ nv, NgHeader NGHTTP2_HEADERS sid nv.1 nv.2) fields ++
    [NgFrameRecv NGHTTP2_HEADERS sid end_stream] →
  (∀ w, user (OnHeadersComplete sid (list_to_map (reverse fields)) end_stream) w =
    [OpSendHeaders sid answer last]) →
  (∀ w, ng (SubmitHeaders last sid answer) w = []) →
  trace w ++ [Ng (MemRecv d); OnHeadersComplete sid (list_to_map (reverse fields)) end_stream;
      Ng (SubmitHeaders last sid answer); Ng SessionSend] `prefix_of`
    trace (call_ng ng (react ng rc user spin (S n)) (MemRecv d) w).
Proof.
  intros Hne Hp Hng Huser Hsub.
  rewrite (header_block_delivered ng _ fields sid end_stream) by done.
  unfold call_handler. cbn [react]. rewrite Huser. cbn [fold_left do_op].
  unfold SendHeaders, call_ng at 1. rewrite Hsub. cbn [fold_left].
  unfold FlushOut. set (re := react ng rc user spin n).
  assert (Hre : ∀ o w, extends w (re o w)) by apply react_extends.
  etrans; [|apply (ext_trace _ _ (write_out_extends re Hre _))].
  etrans; [|apply (ext_trace _ _ (drain_outermost_extends ng re spin Hre _))].
  unfold call_ng.
  match goal with |- _ `prefix_of` trace (fold_left _ _ ?x) =>
    etrans; [|apply (ext_trace x), fold_left_keeps; [apply _|intros; by apply run_event_extends]] end.
  simpl. by rewrite <-!(assoc_L (++)).
Qed.

(** ** A run *)
Module H2Demo.
(** nghttp2 reads the bodies two bytes at a time, and sends what it read. *)
Definition ng (c : NgCall) (w : World) : list NgEvent :=
  match c with
  | SessionSend =>
      concat (map (λ pb : nat * PendingBody,
        if (offset pb.2 <? length (data pb.2))%nat
        then [NgRead pb.1 2; NgSend (take 2 (drop (offset pb.2) (data pb.2)))] else [])
        (map_to_list (heap w)))
  | MemRecv _ =>
      [NgHeader NGHTTP2_HEADERS 1 "te" "a"; NgHeader NGHTTP2_HEADERS 1 "te" "b";
       NgFrameRecv NGHTTP2_HEADERS 1 false]
  | _ => []
  end.
Definition rc (_ : NgCall) (_ : World) : Z := 1.
(** The owner sends another message when the first was consumed. *)
Definition user (o : Out) (_ : World) : list SessionOp :=
  match o with
  | Consumed _ 7%nat => [OpSendData 1 (chars "d") true (Some 8%nat)]
  | _ => []
  end.
Definition ops : list SessionOp := [OpSendData 1 (chars "abc") false (Some 7%nat); OpFlush].
Definition run : World := session_run ng rc user 3 9 ops.
End H2Demo.

Lemma consumed_once_after_whole_body_witness :
  bodies_given H2Demo.run !! 0%nat =
    Some (taken 0 (take 9 (trace H2Demo.run)), Some 7%nat).
Proof.
  apply (proj2 (consumed_once_after_whole_body H2Demo.ng H2Demo.rc H2Demo.user 3 9 H2Demo.ops)
    (take 9 (trace H2Demo.run)) 0%nat 7%nat (drop 10 (trace H2Demo.run))).
  vm_compute. reflexivity.
Defined.

Lemma body_read_in_order_witness :
  ∃ d cb, bodies_given H2Demo.run !! 0%nat = Some (d, cb) ∧
    (taken 0 (take 7 (trace H2Demo.run)) ++ chars "c") `prefix_of` d ∧
    (true = true ↔ taken 0 (take 7 (trace H2Demo.run)) ++ chars "c" = d).
Proof.
  apply (body_read_in_order H2Demo.ng H2Demo.rc H2Demo.user 3 9 H2Demo.ops
    (take 7 (trace H2Demo.run)) 0%nat (chars "c") true (drop 8 (trace H2Demo.run))).
  vm_compute. reflexivity.
Defined.

Lemma writes_are_what_was_sent_witness :
  concat (map sent_bytes (trace H2Demo.run)) =
    concat (map written_bytes (trace H2Demo.run)) ++ out H2Demo.run ∧ out H2Demo.run = [].
Proof.
  destruct (writes_are_what_was_sent H2Demo.ng H2Demo.rc H2Demo.user 3 9
    [OpSendData 1 (chars "abc") false (Some 7%nat)] OpFlush) as [H1 H2]; [done|].
  split; [exact H1|exact (H2 eq_refl)].
Defined.

Lemma notifications_drained_witness :
  hung H2Demo.run = false ∧ consumed_notifications H2Demo.run = [].
Proof.
  destruct (notifications_drained H2Demo.ng H2Demo.rc H2Demo.user 3 9
    [OpSendData 1 (chars "abc") false (Some 7%nat)] OpFlush) as (H1 & _ & H2).
  - done.
  - change ((next_body H2Demo.run ≤ 9)%nat). vm_compute. lia.
  - split; [exact H1|exact (H2 eq_refl)].
Defined.

Lemma reads_deliver_body_witness :
  let w := (new_body (chars "hello") (Some 5%nat) new_world).2 in
  taken 0 (trace (Nat.iter 3 (BodyRead2 0 2) w)) = chars "hello".
Proof.
  apply (reads_deliver_body 0 (chars "hello") 5 2 3
    (new_body (chars "hello") (Some 5%nat) new_world).2); [reflexivity|lia|simpl; lia].
Defined.

Lemma header_block_delivered_witness :
  call_ng H2Demo.ng (λ _ w, w) (MemRecv []) new_world =
    record_out (OnHeadersComplete 1 {["te" := "b"]} false) (record_out (Ng (MemRecv [])) new_world).
Proof.
  rewrite (header_block_delivered H2Demo.ng (λ _ w, w) [("te", "a"); ("te", "b")] 1 false
    (MemRecv []) new_world); reflexivity || done.
Defined.

Lemma send_inside_receive_witness :
  let user o (_ : World) := match o with
    | OnHeadersComplete _ _ _ => [OpSendHeaders 1 [(":status", "200")] false] | _ => [] end in
  trace new_world ++ [Ng (MemRecv []); OnHeadersComplete 1 {["te" := "b"]} false;
      Ng (SubmitHeaders false 1 [(":status", "200")]); Ng SessionSend] `prefix_of`
    trace (call_ng H2Demo.ng (react H2Demo.ng H2Demo.rc user 9 1) (MemRecv []) new_world).
Proof.
  intros user.
  apply (send_inside_receive H2Demo.ng H2Demo.rc user 9 0 [("te", "a"); ("te", "b")] 1 false
    [(":status", "200")] false [] new_world); reflexivity || done.
Defined.
