(* ===== verification/H2Promise.v ===== *)
(** * The session keeps its promise

    Under what nghttp2 documents, every run of the session of H2Session.v is a
    run of the contract of SessionSpec.v, and no body is read after it was freed. *)
From S2P Require Import Prelude CxxString SessionSpec H2Session H2Run.

(** ** What the trace says *)

(** The labels of the contract; the owner's data of a body are its pointer and
    the callback given with it. *)
Definition label_of (o : Out) : option (Label (nat * closure)) :=
  match o with
  | Opened sid | OnHeadersComplete sid _ _ => Some (LOpen sid)
  | Given sid p (Some cb) => Some (LGive sid (p, cb))
  | Consumed p cb => Some (LConsumed (p, cb))
  | OnStreamClose sid _ => Some (LClose sid)
  | _ => None
  end.
Definition labels (tr : list Out) : list (Label (nat * closure)) := omap label_of tr.

Definition open_step (s : gset Z) (o : Out) : gset Z :=
  match o with
  | Opened sid | OnHeadersComplete sid _ _ => {[sid]} ∪ s
  | OnStreamClose sid _ => s ∖ {[sid]}
  | _ => s
  end.
Definition open_streams (tr : list Out) : gset Z := fold_left open_step tr ∅.

(** The body [p] was given to the stream [sid] when it was open, and the stream
    has not been closed since. *)
Definition given_live (sid : Z) (p : nat) (cb : option closure) (tr : list Out) : Prop :=
  ∃ l1 l2, tr = l1 ++ Given sid p cb :: l2 ∧ sid ∈ open_streams l1 ∧
    ∀ code, OnStreamClose sid code ∉ l2.

Definition read_of (o : Out) : option nat :=
  match o with Read p _ _ | ReadFreed p => Some p | _ => None end.

(** What nghttp2 documents of data providers: the read callback of a body is
    called for an open stream to which the body was submitted, and never after
    the stream's close callback. *)
Definition nghttp2_reads (tr : list Out) : Prop :=
  ∀ l1 o p l2, tr = l1 ++ o :: l2 → read_of o = Some p → ∃ sid cb, given_live sid p cb l1.

Lemma labels_snoc tr o : labels (tr ++ [o]) = labels tr ++ option_list (label_of o).
Proof. unfold labels. rewrite omap_app. simpl. by destruct (label_of o). Qed.

Lemma open_streams_snoc tr o : open_streams (tr ++ [o]) = open_step (open_streams tr) o.
Proof. unfold open_streams. by rewrite fold_left_app. Qed.

Lemma given_live_snoc sid p cb tr o :
  given_live sid p cb (tr ++ [o]) ↔
    (o = Given sid p cb ∧ sid ∈ open_streams tr) ∨
    (given_live sid p cb tr ∧ ∀ code, o ≠ OnStreamClose sid code).
Proof.
  split.
  - intros (l1 & l2 & [(-> & -> & ->)|(l2' & -> & ->)]%snoc_split & Ho & Hc); [by left|right].
    split.
    + exists l1, l2'. split_and!; try done. intros code Hin. apply (Hc code), elem_of_app. by left.
    + intros code ->. apply (Hc code), elem_of_app. right. by constructor.
  - intros [[-> Ho]|[(l1 & l2 & -> & Ho & Hc) Hne]].
    + exists tr, []. split_and!; try done. intros code H. by apply elem_of_nil in H.
    + exists l1, (l2 ++ [o]). split_and!; [by rewrite app_comm_cons, assoc_L by apply _|done|].
      intros code [H|H%list_elem_of_singleton]%elem_of_app; [by eapply Hc|by eapply Hne].
Qed.

Lemma given_live_in sid p cb tr : given_live sid p cb tr → Given sid p cb ∈ tr.
Proof. intros (l1 & l2 & -> & _). apply elem_of_app. right. by constructor. Qed.

Lemma nghttp2_reads_prefix tr tr' : tr `prefix_of` tr' → nghttp2_reads tr' → nghttp2_reads tr.
Proof.
  intros [t ->] H l1 o p l2 -> Ho. apply (H l1 o p (l2 ++ t)); [|done].
  by rewrite <-(assoc_L (++)).
Qed.
Lemma nghttp2_reads_snoc tr o : nghttp2_reads (tr ++ [o]) → nghttp2_reads tr.
Proof. apply nghttp2_reads_prefix. by exists [o]. Qed.

(** ** What stays while a call is running

    A body in a local variable is not freed by what happens meanwhile, and nobody
    else submits it. *)
Definition stream_bodies (sid : Z) (w : World) : list nat := default [] (pending_bodies w !! sid).

Record stable (w w' : World) : Prop := {
  st_next : (next_body w ≤ next_body w')%nat;
  st_local p : p ∈ locals w → (p < next_body w)%nat → is_Some (heap w !! p) →
    p ∈ locals w' ∧ is_Some (heap w' !! p);
  st_lists p sid : (p < next_body w)%nat → p ∈ stream_bodies sid w' → p ∈ stream_bodies sid w;
  st_given p : (p < next_body w)%nat → bodies_given w' !! p = bodies_given w !! p
}.
#[export] Instance stable_preorder : PreOrder stable.
Proof.
  split; [by split|]. intros w1 w2 w3 [N1 L1 S1 G1] [N2 L2 S2 G2]. split; [lia| | |].
  - intros p H1 H2 H3. destruct (L1 p H1 H2 H3). apply L2; [done|lia|done].
  - intros p sid Hp H. apply S1; [done|]. apply S2; [lia|done].
  - intros p Hp. rewrite G2 by lia. by apply G1.
Qed.

(** Worlds that agree on the bodies. *)
Definition same_bodies (w w' : World) : Prop :=
  next_body w' = next_body w ∧ locals w' = locals w ∧ heap w' = heap w ∧
  pending_bodies w' = pending_bodies w ∧ bodies_given w' = bodies_given w.
Lemma same_bodies_stable w w' : same_bodies w w' → stable w w'.
Proof.
  intros (E1 & E2 & E3 & E4 & E5).
  split; unfold stream_bodies; rewrite ?E1, ?E2, ?E3, ?E4, ?E5; done.
Qed.

Lemma free_heap l (h : gmap nat PendingBody) p :
  foldr delete h l !! p = if decide (p ∈ l) then None else h !! p.
Proof.
  induction l as [|q l IH]; simpl; [done|]. rewrite lookup_delete, IH.
  repeat case_decide; set_solver.
Qed.

Lemma free_bodies_stable sid w : stable w (free_bodies sid w).
Proof.
  split; simpl; [done| | |done].
  - intros p Hl _ Hp. split; [done|]. rewrite free_heap. rewrite decide_False; [done|].
    intros [? _]%list_elem_of_filter. done.
  - intros p sid' _. unfold stream_bodies. simpl. rewrite lookup_delete. case_decide; [by intros ?%elem_of_nil|done].
Qed.

Lemma BodyRead2_stable p len w : stable w (BodyRead2 p len w).
Proof.
  unfold BodyRead2, notify_consumed. destruct (heap w !! p) as [b|] eqn:Hp; [|by apply same_bodies_stable].
  assert (Hin : ∀ b', stable w (w <| heap ::= <[p := b']> |>)).
  { intros b'. split; simpl; [done| |done|done]. intros q Hl _ Hq. split; [done|].
    rewrite lookup_insert. by case_decide. }
  repeat (destruct (_ =? _)%nat || destruct (on_consumed _));
    (etrans; [apply Hin|by apply same_bodies_stable]).
Qed.

(** A body of a call that began later goes. *)
Lemma drop_local_stable p w w' : (next_body w ≤ p)%nat → stable w w' → stable w (drop_local p w').
Proof.
  intros Hp [N L S G]. unfold drop_local. cbv zeta. case_decide; (split; simpl; [done| |exact S|exact G]);
    intros q Hq1 Hq2 Hq3; destruct (L q Hq1 Hq2 Hq3); assert (q ≠ p) by lia;
    rewrite ?lookup_delete_ne by done; (split; [set_solver|done]).
Qed.

Lemma push_body_stable sid p w w' : (next_body w ≤ p)%nat → stable w w' → stable w (push_body sid p w').
Proof.
  intros Hp [N L S G]. split; [done|done| |done]. intros q sid' Hq. unfold stream_bodies, push_body. simpl.
  rewrite lookup_insert. case_decide as E; [subst sid'; simpl|by apply S].
  intros [H|H%list_elem_of_singleton]%elem_of_app; [by apply S|lia].
Qed.

Lemma new_body_stable d cb w : stable w (new_body d cb w).2.
Proof.
  split; simpl; [lia| |done|].
  - intros q Hq1 Hq2 Hq3. split; [set_solver|]. rewrite lookup_insert. by case_decide.
  - intros q Hq. by rewrite lookup_insert_ne by lia.
Qed.

Lemma record_out_stable o w w' : stable w w' → stable w (record_out o w').
Proof. intros H. etrans; [exact H|]. by apply same_bodies_stable. Qed.

Section Stable.
#[local] Set Default Proof Using "Type*".
Context (ng : NgCall → World → list NgEvent) (rc : NgCall → World → Z).
Context (reenter : Out → World → World) (spin : nat).
Hypothesis reenter_stable : ∀ o w, stable w (reenter o w).

Lemma call_handler_stable o w : stable w (call_handler reenter o w).
Proof. etrans; [|apply reenter_stable]. by apply same_bodies_stable. Qed.

Lemma run_event_stable e w : stable w (run_event reenter e w).
Proof.
  destruct e as [d|type sid n v|type sid es|sid d|sid c|p len]; simpl.
  - by apply same_bodies_stable.
  - unfold OnHeaderCb. case_decide; by apply same_bodies_stable.
  - unfold OnFrameRecvCb. destruct type; [destruct (pending_headers w !! sid)| |]; try done;
      (etrans; [|apply call_handler_stable]); by apply same_bodies_stable.
  - apply call_handler_stable.
  - etrans; [|apply call_handler_stable]. etrans; [|apply free_bodies_stable].
    by apply same_bodies_stable.
  - apply BodyRead2_stable.
Qed.

Lemma call_ng_stable c w : stable w (call_ng ng reenter c w).
Proof.
  unfold call_ng. etrans; [by apply (same_bodies_stable w (record_out (Ng c) w))|].
  apply (fold_left_keeps stable). intros. apply run_event_stable.
Qed.

Lemma run_notes_stable notes w : stable w (run_notes reenter notes w).
Proof. unfold run_notes. apply (fold_left_keeps stable). intros. apply call_handler_stable. Qed.

Lemma drain_stable n w : stable w (drain_notifications ng reenter n w).
Proof.
  revert w. induction n as [|n IH]; intros w; cbn [drain_notifications];
    destruct (consumed_notifications w) as [|x notes]; try done.
  etrans; [|apply IH]. etrans; [|apply call_ng_stable]. etrans; [|apply run_notes_stable].
  by apply same_bodies_stable.
Qed.

Lemma FlushOut_stable w : stable w (FlushOut ng reenter spin w).
Proof.
  unfold FlushOut, write_out, drain_outermost. etrans; [apply (call_ng_stable SessionSend)|].
  set (w1 := call_ng _ _ _ _).
  set (w2 := if (flush_depth_ w1 =? 0)%nat then _ else w1).
  assert (H2 : stable w1 w2).
  { subst w2. destruct (_ =? _)%nat; [|done].
    etrans; [|by apply (same_bodies_stable (drain_notifications ng reenter spin (w1 <| flush_depth_ ::= S |>)))].
    etrans; [|apply drain_stable]. by apply same_bodies_stable. }
  clearbody w2. destruct (out w2) as [|x d]; [done|]. etrans; [exact H2|].
  etrans; [apply (call_handler_stable (OnWrite (x :: d)))|]. by apply same_bodies_stable.
Qed.

Lemma submit_stable c w w' : stable w w' → stable w (FlushOut ng reenter spin (call_ng ng reenter c w')).
Proof. intros H. etrans; [exact H|]. etrans; [apply call_ng_stable|apply FlushOut_stable]. Qed.

Lemma do_op_stable op w : stable w (do_op ng rc reenter spin op w).
Proof.
  destruct op as [d| |hs body|hs|sid fs es|sid d es cb|sid ts|sid code]; simpl;
    try by apply submit_stable.
  - apply FlushOut_stable.
  - unfold SubmitRequest. pose proof (new_body_stable body None w) as HN.
    destruct (new_body body None w) as [p w1] eqn:E. injection E as <- _. simpl in HN. cbv zeta.
    set (c := SubmitRequest2 _ _). assert (H2 : stable w (call_ng ng reenter c w1))
      by (etrans; [exact HN|apply call_ng_stable]).
    destruct (_ <? 0); simpl; apply drop_local_stable; try lia; [done|].
    etrans; [|apply FlushOut_stable].
    destruct body; [by apply record_out_stable|].
    apply record_out_stable, push_body_stable; [lia|by apply record_out_stable].
  - unfold SubmitRequestOpen. cbv zeta. destruct (_ <? 0); simpl; [apply call_ng_stable|].
    etrans; [|apply FlushOut_stable]. apply record_out_stable, call_ng_stable.
  - unfold SendData. pose proof (new_body_stable d cb w) as HN.
    destruct (new_body d cb w) as [p w1] eqn:E. injection E as <- _. simpl in HN.
    apply drop_local_stable; [lia|]. apply submit_stable, record_out_stable, push_body_stable; [lia|done].
Qed.
End Stable.

(** ** The invariant *)
Record Mem (w : World) : Prop := {
  m_list sid p : p ∈ stream_bodies sid w → (p < next_body w)%nat ∧ is_Some (heap w !! p);
  m_uniq sid sid' p : p ∈ stream_bodies sid w → p ∈ stream_bodies sid' w → sid = sid';
  m_given sid p cb : given_live sid p cb (trace w) → p ∈ stream_bodies sid w;
  m_cb sid p cb : Given sid p cb ∈ trace w →
    (p < next_body w)%nat ∧ ∃ d, bodies_given w !! p = Some (d, cb);
  m_ub : nghttp2_reads (trace w) → ub w = false
}.

(** The contract has every body whose report is to come. *)
Definition Promise (k : list (nat * closure)) (w : World) : Prop :=
  ∃ b, promised (labels (trace w)) (mkBelow (open_streams (trace w)) b) ∧
    (∀ p cb, (p, cb) ∈ k ++ consumed_notifications w → ∃ sid, (sid, (p, cb)) ∈ b) ∧
    (∀ sid p cb, given_live sid p (Some cb) (trace w) → (∀ cb', Consumed p cb' ∉ trace w) →
      (sid, (p, cb)) ∈ b).

Record SInv (k : list (nat * closure)) (w : World) : Prop := {
  s_inv : Inv k w;
  s_mem : Mem w;
  s_promise : nghttp2_reads (trace w) → Promise k w
}.

(** Worlds that differ in what neither invariant looks at. *)
Definition same_state (w w' : World) : Prop :=
  h2_same_core w w' ∧ pending_bodies w' = pending_bodies w ∧ ub w' = ub w.

Lemma same_state_SInv k w w' : same_state w w' → SInv k w → SInv k w'.
Proof.
  intros (Hs & Hp & Hu) [HI [M1 M2 M3 M4 M5] HP]. pose proof Hs as (E1 & E2 & E3 & E4 & E5).
  split; [by eapply h2_same_core_Inv| |].
  - split; unfold stream_bodies in *; rewrite ?E1, ?E2, ?E4, ?E5, ?Hp, ?Hu; done.
  - unfold Promise in *. by rewrite E3, E4.
Qed.

(** Records that give nothing, report nothing and close nothing. *)
Definition plain (o : Out) : Prop :=
  match o with Given _ _ _ | Consumed _ _ | OnStreamClose _ _ => False | _ => True end.

(** The contract makes the step of such a record. *)
Lemma promised_plain o tr b :
  plain o → promised (labels tr) (mkBelow (open_streams tr) b) →
  promised (labels (tr ++ [o])) (mkBelow (open_streams (tr ++ [o])) b).
Proof.
  intros Ho Hb. rewrite labels_snoc, open_streams_snoc.
  destruct o; try done; simpl; rewrite ?app_nil_r; try done; (eapply promised_snoc; [exact Hb|constructor]).
Qed.

Lemma given_live_plain sid p cb tr o : plain o → given_live sid p cb (tr ++ [o]) ↔ given_live sid p cb tr.
Proof.
  intros Ho. rewrite given_live_snoc. split.
  - intros [[-> _]|[H _]]; done.
  - intros H. right. split; [done|]. by intros code ->.
Qed.

Lemma record_Promise k o w : plain o → Promise k w → Promise k (record_out o w).
Proof.
  intros Ho (b & Hb & H1 & H2). exists b. split_and!.
  - by apply promised_plain.
  - done.
  - intros sid p cb Hl%given_live_plain Hc; [|done]. apply H2; [done|].
    intros cb' Hin. apply (Hc cb'), elem_of_app. by left.
Qed.

Lemma record_Mem o w : (∀ sid p cb, o ≠ Given sid p cb) → Mem w → Mem (record_out o w).
Proof.
  intros Hg [M1 M2 M3 M4 M5]. split; try done; simpl.
  - intros sid p cb [[-> _]|[H _]]%given_live_snoc; [by destruct (Hg sid p cb)|by eapply M3].
  - intros sid p cb [H|H%list_elem_of_singleton]%elem_of_app; [by eapply M4|by destruct (Hg sid p cb)].
  - by intros H%nghttp2_reads_snoc%M5.
Qed.

Lemma record_plain_SInv k o w : plain o → h2_silent o → SInv k w → SInv k (record_out o w).
Proof.
  intros Ho Hs [HI HM HP]. split.
  - by apply h2_record_Inv.
  - apply record_Mem; [|done]. by intros sid p cb ->.
  - intros H%nghttp2_reads_snoc. by apply record_Promise, HP.
Qed.

(** A body that its stream has is given. *)
Lemma record_given_SInv k sid p cb d w :
  p ∈ stream_bodies sid w → bodies_given w !! p = Some (d, cb) →
  SInv k w → SInv k (record_out (Given sid p cb) w).
Proof.
  intros Hp Hd [HI HM HP]. split.
  - by apply h2_record_Inv.
  - destruct HM as [M1 M2 M3 M4 M5]. split; try done; simpl.
    + intros sid' p' cb' [[[= -> -> ->] _]|[H _]]%given_live_snoc; [done|by eapply M3].
    + intros sid' p' cb' [H|H%list_elem_of_singleton]%elem_of_app; [by eapply M4|].
      injection H as -> -> ->. split; [by eapply M1|by eexists].
    + by intros H%nghttp2_reads_snoc%M5.
  - simpl. intros (b & Hb & H1 & H2)%nghttp2_reads_snoc%HP. unfold Promise. simpl.
    rewrite labels_snoc, open_streams_snoc. simpl.
    assert (Hold : ∀ sid' p' cb', given_live sid' p' (Some cb') (trace w) →
      (∀ cb0, Consumed p' cb0 ∉ trace w ++ [Given sid p cb]) → (sid', (p', cb')) ∈ b).
    { intros sid' p' cb' Hl Hc. apply H2; [done|]. intros cb0 Hin. apply (Hc cb0), elem_of_app. by left. }
    destruct cb as [cb|]; simpl.
    + exists (give_body sid (p, cb) (open_streams (trace w)) b). split_and!.
      * eapply promised_snoc; [exact Hb|constructor].
      * intros p' cb' Hin. destruct (H1 _ _ Hin) as [sid' Hb']. exists sid'.
        unfold give_body. case_decide; [apply elem_of_app; by left|done].
      * intros sid' p' cb' [[[= -> -> ->] Ho]|[Hl _]]%given_live_snoc Hc; unfold give_body.
        -- rewrite decide_True by done. apply elem_of_app. right. by constructor.
        -- specialize (Hold _ _ _ Hl Hc). case_decide; [apply elem_of_app; by left|done].
    + exists b. rewrite app_nil_r. split_and!; [done..|].
      intros sid' p' cb' [[[=] _]|[Hl _]]%given_live_snoc Hc. by apply Hold.
Qed.

(** A stream closes. *)
Lemma close_SInv k sid code w :
  SInv k w → SInv k (record_out (OnStreamClose sid code) (free_bodies sid w)).
Proof.
  intros [HI HM HP]. split.
  - by apply h2_record_Inv, free_bodies_Inv.
  - destruct HM as [M1 M2 M3 M4 M5].
    assert (Hlist : ∀ sid' p, p ∈ stream_bodies sid' (free_bodies sid w) ↔
      sid' ≠ sid ∧ p ∈ stream_bodies sid' w).
    { intros sid' p. unfold stream_bodies. simpl. rewrite lookup_delete.
      case_decide; [rewrite elem_of_nil|]; naive_solver. }
    split; simpl.
    + intros sid' p [Hne Hp]%Hlist. destruct (M1 _ _ Hp). split; [done|].
      rewrite free_heap, decide_False; [done|]. intros [_ Hin]%list_elem_of_filter.
      apply Hne. by eapply M2.
    + intros s1 s2 p [_ H1]%Hlist [_ H2]%Hlist. by eapply M2.
    + intros sid' p cb [[[=] _]|[H Hne]]%given_live_snoc. apply Hlist. split; [|by eapply M3].
      intros ->. by destruct (Hne code).
    + intros sid' p cb [H|H%list_elem_of_singleton]%elem_of_app; [by eapply M4|done].
    + by intros H%nghttp2_reads_snoc%M5.
  - simpl. intros (b & Hb & H1 & H2)%nghttp2_reads_snoc%HP. unfold Promise. simpl.
    rewrite labels_snoc, open_streams_snoc. simpl.
    destruct (drop_bodies_filter (λ x, x.1 ≠ sid ∨ x.2 ∈ k ++ consumed_notifications w) sid b) as [keep Hk];
      [by left|].
    exists (drop_bodies sid keep b). split_and!.
    + eapply promised_snoc; [exact Hb|constructor].
    + intros p cb Hin. destruct (H1 _ _ Hin) as [sid' Hb']. exists sid'. rewrite Hk.
      apply list_elem_of_filter. split; [by right|done].
    + intros sid' p cb [[[=] _]|[Hl Hne]]%given_live_snoc Hc. rewrite Hk. apply list_elem_of_filter.
      split; [left; simpl; intros ->; by destruct (Hne code)|]. apply H2; [done|].
      intros cb' Hin. apply (Hc cb'), elem_of_app. by left.
Qed.

(** One notification more than was recorded would be too many. *)
Lemma note_fresh k p cb w : Inv ((p, cb) :: k) w → ∀ cb', (p, cb') ∉ k ++ consumed_notifications w.
Proof.
  intros HI cb' Hin. pose proof (inv_once _ _ HI p) as Hle. unfold notified in Hle.
  rewrite count_by_cons, decide_True in Hle by done.
  assert (Hc : ∀ l, (p, cb') ∈ l → (0 < count_by note_body p l)%nat).
  { intros l (l1 & l2 & ->)%list_elem_of_split. rewrite count_by_app, count_by_cons.
    rewrite decide_True by done. lia. }
  apply elem_of_app in Hin as [Hin%Hc|Hin%Hc]; lia.
Qed.

(** A report is made. *)
Lemma consumed_SInv k p cb w : SInv ((p, cb) :: k) w → SInv k (record_out (Consumed p cb) w).
Proof.
  intros [HI HM HP]. split.
  - by apply consumed_Inv.
  - by apply record_Mem.
  - simpl. intros (b & Hb & H1 & H2)%nghttp2_reads_snoc%HP. unfold Promise. simpl.
    rewrite labels_snoc, open_streams_snoc. simpl.
    destruct (H1 p cb) as [sid Hin]; [by constructor|].
    apply list_elem_of_split in Hin as (b1 & b2 & ->).
    destruct (take_body_split sid (p, cb) b1 b2) as [n Hn].
    assert (Hkeep : ∀ x, x.2.1 ≠ p → x ∈ b1 ++ (sid, (p, cb)) :: b2 → x ∈ b1 ++ b2).
    { intros x Hx. rewrite !elem_of_app, elem_of_cons. intros [?|[->|?]]; auto. by simpl in Hx. }
    exists (b1 ++ b2). split_and!.
    + eapply promised_snoc; [exact Hb|]. by econstructor.
    + intros p' cb' Hin. destruct (H1 p' cb') as [sid' H]; [by constructor|].
      exists sid'. apply Hkeep; [|done]. simpl. intros ->. by eapply (note_fresh k p cb w).
    + intros sid' p' cb' [[[=] _]|[Hl _]]%given_live_snoc Hc. apply Hkeep.
      * simpl. intros ->. apply (Hc cb), elem_of_app. right. by constructor.
      * apply H2; [done|]. intros cb0 Hin. apply (Hc cb0), elem_of_app. by left.
Qed.

Lemma take_notes_SInv k w :
  SInv k w → SInv (consumed_notifications w ++ k) (w <| consumed_notifications := [] |>).
Proof.
  intros [HI [M1 M2 M3 M4 M5] HP]. split; [by apply take_notes_Inv|by split|].
  simpl. intros (b & Hb & H1 & H2)%HP. exists b. split_and!; try done. simpl.
  intros p cb Hin. apply H1. rewrite app_nil_r, elem_of_app in Hin. apply elem_of_app. tauto.
Qed.

(** *** Reading a body *)
Lemma heap_Mem p b w : is_Some (heap w !! p) → Mem w → Mem (w <| heap ::= <[p := b]> |>).
Proof.
  intros Hp [M1 M2 M3 M4 M5]. split; try done. intros sid q Hq. destruct (M1 _ _ Hq).
  split; [done|]. simpl. rewrite lookup_insert. by case_decide.
Qed.

Lemma read_SInv k p n b w :
  heap w !! p = Some b → (offset b + n ≤ length (data b))%nat →
  SInv k w → SInv k (record_out (read_out p n b) w <| heap ::= <[p := body_read n b]> |>).
Proof.
  intros Hp Hn [HI HM HP]. split; [by apply read_out_Inv| |].
  - apply record_Mem; [done|]. by apply heap_Mem; [eexists|].
  - intros H%nghttp2_reads_snoc. apply record_Promise; [done|]. exact (HP H).
Qed.

(** The report of a body that was read to its end is to come. *)
Lemma queue_note_SInv k p cb b w :
  heap w !! p = Some b → offset b = length (data b) → on_consumed b = Some cb →
  (nghttp2_reads (trace w) → ∃ sid cb, given_live sid p cb (trace w)) →
  SInv k w →
  SInv k (w <| consumed_notifications ::= λ q, q ++ [(p, cb)] |>
            <| heap ::= <[p := b <| on_consumed := None |>]> |>).
Proof.
  intros Hp Ho Hcb Hl [HI HM HP]. split; [by apply queue_note_Inv| |].
  - apply (heap_Mem p (b <| on_consumed := None |>)
      (w <| consumed_notifications ::= λ q, q ++ [(p, cb)] |>)); [by eexists|].
    by destruct HM.
  - intros H. destruct (HP H) as (b0 & Hb & H1 & H2). exists b0. split_and!; try done. simpl.
    intros p' cb' Hin. rewrite (assoc_L (++)), elem_of_app, list_elem_of_singleton in Hin.
    destruct Hin as [Hin|[= -> ->]]; [by apply H1|].
    destruct (Hl H) as (sid & cb0 & Hl'). exists sid.
    destruct (m_cb _ HM sid p cb0) as (_ & d & Hd); [by apply given_live_in|].
    destruct (inv_heap _ _ HI _ _ Hp) as (cb1 & Hd1 & Hc & _).
    assert (cb0 = Some cb) as -> by (destruct Hc; congruence).
    apply H2; [done|]. intros cb2 Hin. pose proof (inv_once _ _ HI p) as Hle.
    unfold owed, notified in Hle. rewrite Hp, Hcb in Hle.
    apply list_elem_of_split in Hin as (l1 & l2 & E). rewrite E, !count_by_app, count_by_cons in Hle.
    simpl in Hle. rewrite decide_True in Hle by done. lia.
Qed.

Lemma BodyRead2_SInv k p len w : SInv k w → SInv k (BodyRead2 p len w).
Proof.
  intros HS. pose proof HS as [HI HM HP]. destruct (heap w !! p) as [b|] eqn:Hp.
  - destruct (inv_heap k w HI p b Hp) as (cb & _ & _ & Ho & _).
    rewrite (BodyRead2_spec p len w b) by done. cbv zeta.
    set (n := Nat.min _ _). assert (offset b + n ≤ length (data b))%nat by lia.
    pose proof (read_SInv k p n b w Hp ltac:(done) HS) as HS'.
    case_decide as E; [|exact HS'].
    unfold notify_consumed. destruct (on_consumed (body_read n b)) as [c|] eqn:Ec; [|exact HS'].
    assert (Hl : nghttp2_reads (trace w ++ [read_out p n b]) →
      ∃ sid cb, given_live sid p cb (trace w ++ [read_out p n b])).
    { intros Hr. destruct (Hr (trace w) (read_out p n b) p [] eq_refl eq_refl) as (sid & cb' & H').
      exists sid, cb'. by apply given_live_plain. }
    revert Hl HS'. set (w1 := record_out _ _). intros Hl HS'.
    pose proof (queue_note_SInv k p c (body_read n b) w1 (lookup_insert_eq _ p _) E Ec Hl HS') as HS2.
    simpl in HS2. rewrite insert_insert_eq in HS2. exact HS2.
  - unfold BodyRead2. rewrite Hp.
    assert (Hno : ¬ nghttp2_reads (trace w ++ [ReadFreed p])).
    { intros H. destruct (H (trace w) (ReadFreed p) p [] eq_refl eq_refl) as (sid & cb & H').
      destruct (m_list _ HM _ _ (m_given _ HM _ _ _ H')) as [_ [? Hh]]. congruence. }
    split.
    + apply h2_record_Inv; [done|]. revert HI. by apply h2_same_core_Inv.
    + destruct (record_Mem (ReadFreed p) w ltac:(done) HM) as [M1 M2 M3 M4 _]. by split.
    + by intros H%Hno.
Qed.

(** *** Making and dropping a body *)
Lemma new_body_SInv k d cb w :
  SInv k w →
  let p := next_body w in let w1 := (new_body d cb w).2 in
  SInv k w1 ∧ p ∈ locals w1 ∧ (p < next_body w1)%nat ∧ is_Some (heap w1 !! p) ∧
  bodies_given w1 !! p = Some (d, cb) ∧ ∀ sid, p ∉ stream_bodies sid w1.
Proof.
  intros [HI HM HP] p w1. split_and!.
  - split; [by apply new_body_Inv| |done]. destruct HM as [M1 M2 M3 M4 M5]. split; try done; simpl.
    + intros sid q Hq. destruct (M1 _ _ Hq). split; [lia|]. rewrite lookup_insert. by case_decide.
    + intros sid q cb' Hq. destruct (M4 _ _ _ Hq) as [Hlt Hd]. split; [lia|].
      by rewrite lookup_insert_ne by lia.
  - simpl. set_solver.
  - simpl. lia.
  - simpl. by rewrite lookup_insert_eq.
  - simpl. by rewrite lookup_insert_eq.
  - intros sid Hin. destruct (m_list _ HM sid p Hin). subst p. lia.
Qed.

Lemma push_body_SInv k sid p w :
  (p < next_body w)%nat → is_Some (heap w !! p) → (∀ sid, p ∉ stream_bodies sid w) →
  SInv k w → SInv k (push_body sid p w).
Proof.
  intros Hlt Hh Hno [HI HM HP]. split; [by apply push_body_Inv| |done].
  destruct HM as [M1 M2 M3 M4 M5].
  assert (Hl : ∀ sid' q, q ∈ stream_bodies sid' (push_body sid p w) ↔
    q ∈ stream_bodies sid' w ∨ (q = p ∧ sid' = sid)).
  { intros sid' q. unfold stream_bodies, push_body. simpl. rewrite lookup_insert.
    case_decide as E; [subst sid'; simpl; rewrite elem_of_app, list_elem_of_singleton|]; naive_solver. }
  split; try done.
  - intros sid' q [Hq|[-> ->]]%Hl; [by eapply M1|done].
  - intros s1 s2 q [H1|[-> ->]]%Hl [H2|[H2 ->]]%Hl; simplify_eq.
    + by eapply M2.
    + by destruct (Hno s1).
    + by destruct (Hno s2).
    + done.
  - intros sid' q cb Hg. apply Hl. left. by eapply M3.
Qed.

Lemma drop_local_SInv k p w : SInv k w → SInv k (drop_local p w).
Proof.
  intros [HI HM HP].
  assert (Hcase : drop_local p w = w <| locals ::= λ l, l ∖ {[p]} |> ∨
    ((∀ sid, p ∉ stream_bodies sid w) ∧
     drop_local p w = w <| locals ::= λ l, l ∖ {[p]} |> <| heap ::= delete p |>)).
  { unfold drop_local. cbv zeta. case_decide as E; [by left|right]. split; [|done].
    intros sid Hin. apply E. unfold stream_bodies in Hin.
    destruct (pending_bodies w !! sid) as [l|] eqn:El; [|by apply elem_of_nil in Hin].
    by exists sid, l. }
  split; [by apply drop_local_Inv| |].
  - destruct HM as [M1 M2 M3 M4 M5]. destruct Hcase as [->|[Hno ->]]; [by split|]. split; try done.
    intros sid q Hq. destruct (M1 _ _ Hq). split; [done|]. simpl.
    rewrite lookup_delete_ne; [done|]. intros ->. by destruct (Hno sid).
  - destruct Hcase as [->|[Hno ->]]; exact HP.
Qed.

(** ** The operations *)
Section Kept.
#[local] Set Default Proof Using "Type*".
Context (ng : NgCall → World → list NgEvent) (rc : NgCall → World → Z).
Context (reenter : Out → World → World) (spin : nat).
Hypothesis reenter_stable : ∀ o w, stable w (reenter o w).
Hypothesis reenter_SInv : ∀ k o w, SInv k w → SInv k (reenter o w).

Lemma call_handler_SInv k o w : plain o → h2_silent o → SInv k w → SInv k (call_handler reenter o w).
Proof. intros Hp Ho HI. by apply reenter_SInv, record_plain_SInv. Qed.

Lemma run_event_SInv k e w : SInv k w → SInv k (run_event reenter e w).
Proof.
  intros HI. destruct e as [d|type sid n v|type sid es|sid d|sid c|p len]; simpl.
  - apply record_plain_SInv; [done..|]. revert HI. by apply same_state_SInv.
  - unfold OnHeaderCb. case_decide; [done|]. revert HI. by apply same_state_SInv.
  - unfold OnFrameRecvCb. destruct type; [destruct (pending_headers w !! sid)| |]; try done;
      (apply call_handler_SInv; [done..|]); revert HI; by apply same_state_SInv.
  - by apply call_handler_SInv.
  - apply reenter_SInv, close_SInv. revert HI. by apply same_state_SInv.
  - by apply BodyRead2_SInv.
Qed.

Lemma call_ng_SInv k c w : SInv k w → SInv k (call_ng ng reenter c w).
Proof.
  intros HI. unfold call_ng. generalize (ng c (record_out (Ng c) w)). intros l.
  assert (H : SInv k (record_out (Ng c) w)) by by apply record_plain_SInv.
  revert H. generalize (record_out (Ng c) w).
  induction l as [|e l IH]; intros w' H; simpl; [done|]. by apply IH, run_event_SInv.
Qed.

Lemma run_notes_SInv k notes w : SInv (notes ++ k) w → SInv k (run_notes reenter notes w).
Proof.
  revert w. induction notes as [|[p cb] notes IH]; intros w HI; simpl; [done|].
  apply IH, reenter_SInv. by apply consumed_SInv.
Qed.

Lemma drain_SInv k n w : SInv k w → SInv k (drain_notifications ng reenter n w).
Proof.
  revert w. induction n as [|n IH]; intros w HI; cbn [drain_notifications];
    destruct (consumed_notifications w) eqn:E; try done.
  - revert HI. by apply same_state_SInv.
  - rewrite <- E. by apply IH, call_ng_SInv, run_notes_SInv, take_notes_SInv.
Qed.

Lemma FlushOut_SInv k w : SInv k w → SInv k (FlushOut ng reenter spin w).
Proof.
  intros HI. unfold FlushOut, write_out. apply (call_ng_SInv k SessionSend) in HI.
  revert HI. generalize (call_ng ng reenter SessionSend w). clear w. intros w HI.
  assert (HI2 : SInv k (drain_outermost ng reenter spin w)).
  { unfold drain_outermost. destruct (_ =? _)%nat; [|exact HI].
    eapply same_state_SInv, (drain_SInv k spin (w <| flush_depth_ ::= S |>));
      [by repeat split|revert HI; by apply same_state_SInv]. }
  destruct (out _) as [|x d]; [exact HI2|].
  eapply same_state_SInv, (call_handler_SInv k (OnWrite (x :: d)) _ I I HI2). by repeat split.
Qed.

Lemma submit_SInv k c w : SInv k w → SInv k (FlushOut ng reenter spin (call_ng ng reenter c w)).
Proof. intros HI. by apply FlushOut_SInv, call_ng_SInv. Qed.

(** A body of this call is given to its stream. *)
Lemma give_SInv k sid p cb d w0 w :
  stable w0 w → p ∈ locals w0 → (p < next_body w0)%nat → is_Some (heap w0 !! p) →
  bodies_given w0 !! p = Some (d, cb) → (∀ sid, p ∉ stream_bodies sid w0) →
  SInv k w → SInv k (record_out (Given sid p cb) (push_body sid p w)).
Proof using Type.
  intros [N L S G] Hl Hlt Hh Hg Hno HI. destruct (L p Hl Hlt Hh) as [_ Hh'].
  apply (record_given_SInv k sid p cb d).
  - unfold stream_bodies, push_body. simpl. rewrite lookup_insert_eq. simpl. apply elem_of_app.
    right. by constructor.
  - simpl. by rewrite G.
  - apply push_body_SInv; [lia|done| |done]. intros sid' Hin%S; [|done]. by apply (Hno sid').
Qed.

Lemma do_op_SInv k op w : SInv k w → SInv k (do_op ng rc reenter spin op w).
Proof.
  intros HI. destruct op as [d| |hs body|hs|sid fs es|sid d es cb|sid ts|sid code]; simpl;
    try by apply submit_SInv.
  - by apply FlushOut_SInv.
  - unfold SubmitRequest. destruct (new_body_SInv k body None w HI) as (HN & Hl & Hlt & Hh & Hg & Hno).
    destruct (new_body body None w) as [p w1] eqn:E. injection E as <- _. simpl in *. cbv zeta.
    set (c := SubmitRequest2 _ _). pose proof (call_ng_SInv k c w1 HN) as HC.
    pose proof (call_ng_stable ng reenter reenter_stable c w1) as HT.
    destruct (_ <? 0); simpl; apply drop_local_SInv; [done|]. apply FlushOut_SInv.
    assert (HO : SInv k (record_out (Opened (rc c w1)) (call_ng ng reenter c w1)))
      by by apply record_plain_SInv.
    destruct body as [|x body]; [done|].
    apply (give_SInv k _ _ _ (x :: body) w1); try done. by apply record_out_stable.
  - unfold SubmitRequestOpen. cbv zeta. pose proof (call_ng_SInv k (SubmitHeaders false (-1) hs) w HI).
    destruct (_ <? 0); simpl; [done|]. by apply FlushOut_SInv, record_plain_SInv.
  - unfold SendData. destruct (new_body_SInv k d cb w HI) as (HN & Hl & Hlt & Hh & Hg & Hno).
    destruct (new_body d cb w) as [p w1] eqn:E. injection E as <- _. simpl in *.
    apply drop_local_SInv, submit_SInv. by apply (give_SInv k _ _ _ d w1).
Qed.
End Kept.

(** ** The promises of every run *)
Lemma h2_new_world_SInv : SInv [] new_world.
Proof.
  split; [apply h2_new_world_Inv| |].
  - split; simpl; try done.
    + intros sid p Hp. unfold stream_bodies in Hp. simpl in Hp. rewrite lookup_empty in Hp.
      by apply elem_of_nil in Hp.
    + intros sid sid' p Hp. unfold stream_bodies in Hp. simpl in Hp. rewrite lookup_empty in Hp.
      by apply elem_of_nil in Hp.
    + intros sid p cb (l1 & l2 & E & _). by destruct l1.
    + intros sid p cb Hin. by apply elem_of_nil in Hin.
  - intros _. exists []. split_and!; [constructor| |].
    + intros p cb Hin. by apply elem_of_nil in Hin.
    + intros sid p cb (l1 & l2 & E & _). by destruct l1.
Qed.

Section Runs.
Context (ng : NgCall → World → list NgEvent) (rc : NgCall → World → Z).
Context (user : Out → World → list SessionOp) (depth spin : nat).
Let run := session_run ng rc user depth spin.
#[local] Abbreviation re := (react ng rc user spin).

Lemma react_stable n o w : stable w (re n o w).
Proof.
  revert o w. induction n as [|n IH]; intros o w; cbn [react]; destruct (user o w) as [|op ops]; try done.
  apply (fold_left_keeps stable). intros w' op'. by apply do_op_stable.
Qed.

Lemma fold_ops_SInv k n ops w :
  (∀ k o w, SInv k w → SInv k (re n o w)) → SInv k w →
  SInv k (fold_left (λ w op, do_op ng rc (re n) spin op w) ops w).
Proof.
  intros Hre. revert w. induction ops as [|op ops IH]; intros w HI; simpl; [done|].
  apply IH, do_op_SInv; [apply react_stable|done|done].
Qed.

Lemma react_SInv n k o w : SInv k w → SInv k (re n o w).
Proof.
  revert k o w. induction n as [|n IH]; intros k o w HI; cbn [react];
    destruct (user o w) as [|op ops]; try done.
  - revert HI. by apply same_state_SInv.
  - by apply fold_ops_SInv.
Qed.

Lemma session_run_SInv ops : SInv [] (run ops).
Proof. apply fold_ops_SInv; [intros; by apply react_SInv|apply h2_new_world_SInv]. Qed.

(** C10: The session refines its contract.  On every run of it in which nghttp2 reads
    bodies as it documents, the streams that open and close, the bodies given
    and the reports of consumed ones are a run of the contract, whatever the
    owner keeps with a body: a report is of a body that was given to an open
    stream, was read to its end before the stream closed, and has not been
    reported before. *)
Theorem session_refines_contract {A} (f : nat * closure → A) ops :
  nghttp2_reads (trace (run ops)) →
  ∃ b, promised (map (label_map f) (labels (trace (run ops))))
         (mkBelow (open_streams (trace (run ops))) b).
Proof.
  intros H. destruct (s_promise _ _ (session_run_SInv ops) H) as (b & Hb & _).
  eexists. exact (promised_map f _ _ Hb).
Qed.

(** C11: No body is read after it was freed, on every run in which nghttp2 reads
    bodies as it documents: those of open streams are alive, and so are those
    that a call of the session has not let go. *)
Theorem bodies_outlive_reads ops :
  nghttp2_reads (trace (run ops)) → ub (run ops) = false.
Proof. apply (m_ub _ (s_mem _ _ (session_run_SInv ops))). Qed.
End Runs.

(** ** A run *)

(** Whether nghttp2 reads as it documents can be computed. *)
Definition live_step (s : gset Z * list (Z * nat * option closure)) (o : Out) :=
  (open_step s.1 o,
   match o with
   | Given sid p cb => if decide (sid ∈ s.1) then s.2 ++ [(sid, p, cb)] else s.2
   | OnStreamClose sid _ => filter (λ x : Z * nat * option nat, x.1.1 ≠ sid) s.2
   | _ => s.2
   end).
Fixpoint reads_ok (s : gset Z * list (Z * nat * option closure)) (tr : list Out) : bool :=
  match tr with
  | [] => true
  | o :: tr =>
      match read_of o with
      | Some p => existsb (λ x : Z * nat * option nat, (x.1.2 =? p)%nat) s.2
      | None => true
      end && reads_ok (live_step s o) tr
  end.

Lemma live_step_sound tr s o :
  s.1 = open_streams tr → (∀ sid p cb, (sid, p, cb) ∈ s.2 → given_live sid p cb tr) →
  ∀ sid p cb, (sid, p, cb) ∈ (live_step s o).2 → given_live sid p cb (tr ++ [o]).
Proof.
  intros E Hs sid p cb. rewrite given_live_snoc. destruct o; simpl; try (intros H; right; by auto).
  - intros [Hne H]%list_elem_of_filter. right. split; [by apply Hs|]. intros code [= -> _]. by simpl in Hne.
  - case_decide as Ho; [|intros H; right; by auto].
    intros [H|[= -> -> ->]%list_elem_of_singleton]%elem_of_app; [right; by auto|left].
    by rewrite <-E.
Qed.

Lemma reads_ok_sound tr : reads_ok (∅, []) tr = true → nghttp2_reads tr.
Proof.
  assert (H : ∀ tr' tr0 s, s.1 = open_streams tr0 →
    (∀ sid p cb, (sid, p, cb) ∈ s.2 → given_live sid p cb tr0) → reads_ok s tr' = true →
    ∀ l1 o p l2, tr' = l1 ++ o :: l2 → read_of o = Some p → ∃ sid cb, given_live sid p cb (tr0 ++ l1)).
  { induction tr' as [|o' tr' IH]; intros tr0 s E Hs; simpl; [by intros _ [] ? ? ?|].
    intros [H1 H2]%andb_true_iff l1 o p l2 El Ho. destruct l1 as [|x l1]; simplify_eq/=.
    - rewrite Ho in H1. apply existsb_exists in H1 as ([[sid q] cb] & Hin & Hq).
      apply Nat.eqb_eq in Hq. simpl in Hq. subst q. exists sid, cb. rewrite app_nil_r.
      apply Hs. by apply list_elem_of_In.
    - destruct (IH (tr0 ++ [x]) (live_step s x)) with (l1 := l1) (o := o) (p := p) (l2 := l2)
        as (sid & cb & Hl); try done.
      + by rewrite open_streams_snoc, <-E.
      + by apply live_step_sound.
      + exists sid, cb. by rewrite <-(assoc_L (++)) in Hl. }
  intros Hok l1 o p l2 E Ho. eapply (H tr [] (∅, [])); try done. intros sid q cb Hin. by apply elem_of_nil in Hin.
Qed.

(** The peer opens a stream, and the owner sends two messages on it. *)
Module PromiseDemo.
Definition ops : list SessionOp := 
  [OpConsume []; OpSendData 1 (chars "abc") false (Some 7%nat); OpFlush; OpFlush].
Definition run : World := session_run H2Demo.ng H2Demo.rc H2Demo.user 3 9 ops.
End PromiseDemo.

Lemma session_refines_contract_witness :
  labels (trace PromiseDemo.run) =
    [LOpen 1; LGive 1 (0%nat, 7%nat); LConsumed (0%nat, 7%nat); LGive 1 (1%nat, 8%nat);
     LConsumed (1%nat, 8%nat)] ∧
  ∃ b, promised (map (label_map snd) (labels (trace PromiseDemo.run)))
         (mkBelow (open_streams (trace PromiseDemo.run)) b).
Proof.
  split; [by vm_compute|].
  apply (session_refines_contract H2Demo.ng H2Demo.rc H2Demo.user 3 9 snd PromiseDemo.ops).
  apply reads_ok_sound. by vm_compute.
Defined.

Lemma bodies_outlive_reads_witness : ub PromiseDemo.run = false.
Proof.
  apply (bodies_outlive_reads H2Demo.ng H2Demo.rc H2Demo.user 3 9 PromiseDemo.ops).
  apply reads_ok_sound. by vm_compute.
Defined.
