(* ===== verification/Channel.v ===== *)
(** * The client channel (core/include/urpc/core/channel.h, core/source/urpc_channel.cc)

    One connection of a client: its unary calls, its streams, and what waits
    for the connection.  The public methods post a task to the loop; the tasks,
    the session's events and the timers do the work.

    User code runs in callbacks, and all it can do to the channel there is call
    the public methods, which post: [user] says what it calls.  A call of the
    session may report a consumed body or a closed stream before it returns:
    [wire] says which.  [submit] is the stream id that the session gives a
    request, negative when it refuses it. *)
From S2P Require Import Prelude Status CxxString Wire Codec Loop SessionSpec Platform.

Definition kContentType : string := "application/grpc".
Definition kH2Cancel : Z := 8.

Abbreviation closure := nat (only parsing).
Definition header_fields : Type := list (string * string).

(** ** State *)
Inductive State := kIdle | kConnecting | kReady | kBroken.
#[export] Instance State_eq_dec : EqDecision State.
Proof. solve_decision. Defined.

Record Call := mkCall {
  call_id : Z;
  sid : Z;
  timeout_timer : Z;
  decoder : FrameDecoder;
  done : option closure;
  completed : bool
}.
#[export] Instance eta_Call : EtaRecord Call := λ c,
  mkCall (call_id c) (sid c) (timeout_timer c) (decoder c) (done c) (completed c).

Record PendingCall := mkPendingCall { pc_path : string; pc_framed : bytes; pc_call : Call }.

Record OutMsg := mkOutMsg { framed : bytes; close : bool; cb : option closure }.
#[export] Instance eta_OutMsg : EtaRecord OutMsg := λ m, mkOutMsg (framed m) (close m) (cb m).

Record StreamEvents := mkEvents { on_message : option closure; on_complete : option closure }.

Record Stream := mkStream {
  stream_id : Z;
  st_sid : Z;
  st_timeout_timer : Z;
  st_decoder : FrameDecoder;
  events : StreamEvents;
  st_completed : bool;
  send_closed : bool;
  rst_pending : bool;
  out_queue : list OutMsg;
  out_inflight : bool
}.
#[export] Instance eta_Stream : EtaRecord Stream := λ s,
  mkStream (stream_id s) (st_sid s) (st_timeout_timer s) (st_decoder s) (events s)
    (st_completed s) (send_closed s) (rst_pending s) (out_queue s) (out_inflight s).

Record PendingStream := mkPendingStream {
  ps_id : Z;
  ps_path : string;
  ps_events : StreamEvents;
  ps_timeout_ms : Z;
  ps_out_queue : list OutMsg
}.
#[export] Instance eta_PendingStream : EtaRecord PendingStream := λ p,
  mkPendingStream (ps_id p) (ps_path p) (ps_events p) (ps_timeout_ms p) (ps_out_queue p).

(** What the channel asks of the session and of user code.  The end of a call is
    recorded when its callback is null, too. *)
Inductive Out :=
  | SubmitRequest (headers : header_fields) (body : bytes)
  | SubmitRequestOpen (headers : header_fields)
  | SendData (sid : Z) (data : bytes) (end_stream : bool)
  | ResetStream (sid : Z) (code : Z)
  | Connect (address : string)
  | UserDone (id : Z) (cb : option closure) (st : Status) (payload : bytes)
  | UserFlushed (cb : closure) (st : Status)
  | UserMessage (id : Z) (cb : closure) (st : Status) (msg : bytes)
  | UserComplete (id : Z) (cb : closure) (st : Status).

(** The tasks that the channel posts, and its timers. *)
Inductive CTask :=
  | TCall (id : Z) (path : string) (framed : bytes) (timeout_ms : Z) (done : option closure)
      (max_receive_size : Z)
  | TCallTimeout (id : Z)
  | TCancel (id : Z)
  | TOpenStream (id : Z) (path : string) (ev : StreamEvents) (timeout_ms : Z)
  | TStreamTimeout (id : Z)
  | TStreamSend (id : Z) (framed : bytes) (on_flushed : option closure) (close : bool)
  | TStreamCloseSend (id : Z)
  | TPump (id : Z).

Record World := mkWorld {
  state : State;
  session : bool;                            (* session != nullptr *)
  calls : gmap Z Call;
  by_stream : gmap Z Z;
  pending : list PendingCall;
  next_call_id : Z;
  streams : gmap Z Stream;
  stream_by_sid : gmap Z Z;
  pending_streams : list PendingStream;
  max_receive_size : Z;                      (* options.max_receive_size *)
  loop : LoopRunner CTask;
  bodies : list (Z * (Z * option closure));  (* the session's, with their callbacks *)
  trace : list Out;
  issued : gset Z;                           (* ghost: ids given to calls and streams *)
  wrapped : bool;                            (* ghost: next_call_id has overflowed *)
  ub : bool
}.
#[export] Instance eta_World : EtaRecord World := λ w,
  mkWorld (state w) (session w) (calls w) (by_stream w) (pending w) (next_call_id w)
    (streams w) (stream_by_sid w) (pending_streams w) (max_receive_size w) (loop w)
    (bodies w) (trace w) (issued w) (wrapped w) (ub w).

Definition new_world : World :=
  mkWorld kIdle false ∅ ∅ [] 1 ∅ ∅ [] (4 * 1024 * 1024) (Start newLoop).2 [] [] ∅ false false.

Definition record_out (o : Out) (w : World) : World := w <| trace ::= λ t, t ++ [o] |>.
Definition post (t : CTask) (w : World) : World := w <| loop ::= Post t |>.
Definition cancel_timer (id : Z) (w : World) : World :=
  if id =? 0 then w else w <| loop ::= CancelTimer id |>.
Definition on_stream (id : Z) (f : Stream → Stream) (w : World) : World :=
  w <| streams ::= alter f id |>.

Definition unavailable (msg : string) : Status := mkStatus kUnavailable msg.
Definition deadline_status : Status := mkStatus kDeadlineExceeded "deadline exceeded".

(** ** The public methods: what they post *)
Inductive UOp :=
  | ApiCall (path : string) (framed : bytes) (timeout_ms : Z) (done : option closure)
  | ApiCancel (id : Z)
  | ApiOpenStream (path : string) (ev : StreamEvents) (timeout_ms : Z)
  | ApiStreamSend (id : Z) (framed : bytes) (on_flushed : option closure) (close : bool)
  | ApiStreamCloseSend (id : Z)
  | ApiSetMaxReceiveSize (n : Z).

(** [next_call_id.fetch_add(1)], a 64-bit counter. *)
Definition fetch_id (w : World) : Z * World :=
  (next_call_id w,
   w <| next_call_id := u64 (next_call_id w + 1) |>
     <| wrapped ::= orb (next_call_id w =? 2 ^ 64 - 1) |>).

(** [Channel::Call]; the decoder is made by the caller, with the limit then. *)
Definition ChannelCall (path : string) (framed : bytes) (timeout_ms : Z) (done : option closure)
    (w : World) : Z * World :=
  let '(id, w) := fetch_id w in
  (id, post (TCall id path framed timeout_ms done (max_receive_size w))
         (w <| issued ::= λ s, {[id]} ∪ s |>)).

Definition OpenStream (path : string) (ev : StreamEvents) (timeout_ms : Z) (w : World) : Z * World :=
  let '(id, w) := fetch_id w in
  (id, post (TOpenStream id path ev timeout_ms)
         (match on_complete ev with
          | Some _ => w <| issued ::= λ s, {[id]} ∪ s |>
          | None => w
          end)).

Definition do_uop (op : UOp) (w : World) : World :=
  match op with
  | ApiCall path framed timeout_ms done => (ChannelCall path framed timeout_ms done w).2
  | ApiCancel id => post (TCancel id) w
  | ApiOpenStream path ev timeout_ms => (OpenStream path ev timeout_ms w).2
  | ApiStreamSend id framed on_flushed close => post (TStreamSend id framed on_flushed close) w
  | ApiStreamCloseSend id => post (TStreamCloseSend id) w
  | ApiSetMaxReceiveSize n => w <| max_receive_size := n |>
  end.

(** Every header block of a request has these fields. *)
Definition request_headers (address path : string) : header_fields :=
  [(":method", "POST"); (":scheme", "http"); (":path", path); (":authority", address);
   ("content-type", kContentType); ("te", "trailers")].

(** What the session reports while it is being called. *)
Inductive SOp :=
  | SConsumed (sid : Z) (n : nat)
  | SStreamClose (sid : Z) (keep : list bool).

(** The entries of a [std::map], in key order. *)
Definition key_le {A} (x y : Z * A) : Prop := x.1 ≤ y.1.
#[export] Instance key_le_dec {A} (x y : Z * A) : Decision (key_le x y).
Proof. unfold key_le. apply _. Defined.
Definition map_entries {A} (m : gmap Z A) : list (Z * A) := merge_sort key_le (map_to_list m).

Section Channel.
Context (user : Out → World → list UOp) (wire : Out → World → list SOp).
Context (submit : Out → World → Z).
(** [options.address], and what [TcpConnect] does with it. *)
Context (address : string) (tcp_connect : @connect_outcome unit).

(** A callback of the user. *)
Definition call_user (o : Out) (w : World) : World :=
  let w := record_out o w in fold_left (λ w op, do_uop op w) (user o w) w.
Definition call_opt (cb : option closure) (o : closure → Out) (w : World) : World :=
  match cb with Some cb => call_user (o cb) w | None => w end.

(** The end of a call: [if (done) done(st, payload)]. *)
Definition call_done (id : Z) (cb : option closure) (st : Status) (payload : bytes) (w : World)
    : World :=
  match cb with
  | Some _ => call_user (UserDone id cb st payload) w
  | None => record_out (UserDone id None st payload) w
  end.

(** ** Ends *)

(** [Complete]; its argument is an entry of [calls] or a call that is not in it. *)
Definition Complete (c : Call) (st : Status) (payload : bytes) (w : World) : World :=
  if completed c then w
  else
    let w := cancel_timer (timeout_timer c) w in
    let w := if sid c =? 0 then w else w <| by_stream ::= delete (sid c) |> in
    let w := w <| calls ::= delete (call_id c) |> in
    call_done (call_id c) (done c) st payload w.

(** The callbacks of messages that will not be sent. *)
Definition answer_queue (q : list OutMsg) (st : Status) (w : World) : World :=
  fold_left (λ w m, call_opt (cb m) (λ cb, UserFlushed cb st) w) q w.

(** [Stream::Fail] of a stream that is not in [streams]. *)
Definition Fail (id : Z) (ev : StreamEvents) (q : list OutMsg) (st : Status) (w : World) : World :=
  let w := answer_queue q st w in
  call_opt (on_complete ev) (λ cb, UserComplete id cb st) w.

(** [CompleteStream] of the entry of [id]. *)
Definition CompleteStream (id : Z) (st : Status) (w : World) : World :=
  match streams w !! id with
  | None => w
  | Some s =>
      if st_completed s then w
      else
        let w := cancel_timer (st_timeout_timer s) w in
        let w := if st_sid s =? 0 then w else w <| stream_by_sid ::= delete (st_sid s) |> in
        let w := on_stream id (λ s, s <| st_completed := true |> <| st_timeout_timer := 0 |>
                                      <| out_queue := [] |>) w in
        Fail id (events s) (out_queue s) st w
  end.

(** ** The session's events *)

(** The lambda given to [SendData]. *)
Definition OnConsumed (id : Z) (cb : option closure) (w : World) : World :=
  let w :=
    match streams w !! id with
    | Some _ => post (TPump id) (on_stream id (λ s, s <| out_inflight := false |>) w)
    | None => w
    end in
  call_opt cb (λ cb, UserFlushed cb Ok) w.

(** [stream_by_sid.erase(it)] and [by_stream.erase(it)] with an iterator that was
    found before the entry may have been erased. *)
Definition erase_stream_it (sid : Z) (w : World) : World :=
  match stream_by_sid w !! sid with
  | Some _ => w <| stream_by_sid ::= delete sid |>
  | None => w <| ub := true |>
  end.
Definition erase_call_it (sid : Z) (w : World) : World :=
  match by_stream w !! sid with
  | Some _ => w <| by_stream ::= delete sid |>
  | None => w <| ub := true |>
  end.

Definition OnStreamClose (sid : Z) (w : World) : World :=
  let w :=
    match stream_by_sid w !! sid with
    | None => w
    | Some id =>
        let w :=
          match streams w !! id with
          | Some s =>
              if negb (st_completed s) && negb (rst_pending s)
              then CompleteStream id (unavailable "stream closed") w else w
          | None => w
          end in
        erase_stream_it sid w
    end in
  match by_stream w !! sid with
  | None => w
  | Some id =>
      let w :=
        match calls w !! id with
        | Some c => if completed c then w else Complete c (unavailable "stream closed") [] w
        | None => w
        end in
      erase_call_it sid w
  end.

Definition do_sop (op : SOp) (w : World) : World :=
  match op with
  | SConsumed sid n =>
      match take_body sid n (bodies w) with
      | Some ((id, cb), b) => OnConsumed id cb (w <| bodies := b |>)
      | None => w
      end
  | SStreamClose sid keep => OnStreamClose sid (w <| bodies ::= drop_bodies sid keep |>)
  end.

(** A call of the session. *)
Definition call_session (o : Out) (w : World) : World :=
  let w := record_out o w in fold_left (λ w op, do_sop op w) (wire o w) w.

(** [grpc-message] of a header block. *)
Definition grpc_message (headers : gmap string string) : string :=
  default "" (headers !! "grpc-message").

(** [true] when the block is no terminal and [:status] is not 200. *)
Definition bad_http_status (headers : gmap string string) : bool :=
  match headers !! ":status" with
  | Some v => negb (bool_decide (v = "200"))
  | None => true
  end.

Definition http_status : Status := unavailable "unexpected http status".

Definition OnHeadersComplete (sid : Z) (headers : gmap string string) (w : World) : World :=
  match stream_by_sid w !! sid with
  | Some id =>
      match streams w !! id with
      | None => w
      | Some s =>
          if st_completed s then w
          else match headers !! "grpc-status" with
          | Some gs =>
              CompleteStream id (mkStatus (GrpcStatusFromInt gs kInternal) (grpc_message headers)) w
          | None => if bad_http_status headers then CompleteStream id http_status w else w
          end
      end
  | None =>
      match by_stream w !! sid with
      | None => w
      | Some id =>
          match calls w !! id with
          | None => w
          | Some c =>
              match headers !! "grpc-status" with
              | Some gs =>
                  let payload := match TakeMessage (decoder c) with
                                 | Some (m, _) => m
                                 | None => []
                                 end in
                  Complete c (mkStatus (GrpcStatusFromInt gs kInternal) (grpc_message headers))
                    payload w
              | None => if bad_http_status headers then Complete c http_status [] w else w
              end
          end
      end
  end.

(** [OnData]'s loop over the decoded messages: only [OnData] touches the decoder. *)
Fixpoint deliver_messages (n : nat) (id : Z) (w : World) : World :=
  match n with
  | O => w
  | S n =>
      match streams w !! id with
      | None => w
      | Some s =>
          match TakeMessage (st_decoder s) with
          | None => w
          | Some (m, d) =>
              let w := on_stream id (λ s, s <| st_decoder := d |>) w in
              deliver_messages n id
                (call_opt (on_message (events s)) (λ cb, UserMessage id cb Ok m) w)
          end
      end
  end.

(** [data] is [None] for the null pointer of an end-of-stream report. *)
Definition OnData (sid : Z) (data : option bytes) (w : World) : World :=
  match stream_by_sid w !! sid with
  | Some id =>
      match streams w !! id with
      | None => w
      | Some s =>
          if st_completed s then w
          else match data with
          | Some ((_ :: _) as data) =>
              let '(st, d) := Consume data (st_decoder s) in
              let w := on_stream id (λ s, s <| st_decoder := d |>) w in
              if negb (ok st) then CompleteStream id st w
              else deliver_messages (length (messages_ d)) id w
          | _ => w
          end
      end
  | None =>
      match by_stream w !! sid with
      | None => w
      | Some id =>
          match calls w !! id with
          | None => w
          | Some c =>
              if completed c then w
              else match data with
              | Some ((_ :: _) as data) =>
                  let '(st, d) := Consume data (decoder c) in
                  let w := w <| calls ::= <[id := c <| decoder := d |>]> |> in
                  if negb (ok st) then Complete (c <| decoder := d |>) st [] w else w
              | _ => w
              end
          end
      end
  end.

(** ** Sending *)
Definition PumpStream (id : Z) (w : World) : World :=
  match streams w !! id with
  | None => w
  | Some s =>
      match out_queue s with
      | [] => w
      | out :: rest =>
          if st_completed s || out_inflight s then w
          else if (st_sid s =? 0) || negb (session w) then w
          else
            let w := on_stream id (λ s,
              let s := s <| out_queue := rest |> <| out_inflight := true |> in
              if close out then s <| send_closed := true |> else s) w in
            call_session (SendData (st_sid s) (framed out) (close out))
              (w <| bodies ::= λ b, b ++ [(st_sid s, (id, cb out))] |>)
      end
  end.

(** Setting [close] on the last message of a queue. *)
Fixpoint close_last (q : list OutMsg) : list OutMsg :=
  match q with
  | [] => []
  | [m] => [m <| close := true |>]
  | m :: q => m :: close_last q
  end.

Definition OpenStreamNow (ps : PendingStream) (w : World) : World :=
  let id := ps_id ps in
  let seed_closed := existsb close (ps_out_queue ps) in
  let st := mkStream id 0 0 (newFrameDecoder (max_receive_size w)) (ps_events ps)
              false false false (ps_out_queue ps) false in
  let o := SubmitRequestOpen (request_headers address (ps_path ps)) in
  let new_sid := submit o w in
  if new_sid <? 0 then
    Fail id (events st) (out_queue st) (unavailable "submit failed") (record_out o w)
  else
    let w := call_session o w in
    let q := if seed_closed then close_last (out_queue st) else out_queue st in
    let w := w <| stream_by_sid ::= <[new_sid := id]> |>
               <| streams ::= <[id := st <| st_sid := new_sid |> <| out_queue := q |>]> |> in
    let w :=
      if 0 <? ps_timeout_ms ps then
        let '(timer, l) := SetTimer (ps_timeout_ms ps) (TStreamTimeout id) (loop w) in
        on_stream id (λ s, s <| st_timeout_timer := timer |>) (w <| loop := l |>)
      else w in
    PumpStream id w.

Definition CallNow (path : string) (body : bytes) (c : Call) (w : World) : World :=
  let o := SubmitRequest (request_headers address path) body in
  let new_sid := submit o w in
  if new_sid <? 0 then Complete c (unavailable "submit failed") [] (record_out o w)
  else
    let w := call_session o w in
    w <| by_stream ::= <[new_sid := call_id c]> |>
      <| calls ::= <[call_id c := c <| sid := new_sid |>]> |>.

(** ** The connection *)

(** The loops over [pending] and [pending_streams]: what runs in them adds
    nothing to either, since the public methods only post. *)
Fixpoint fail_pending (n : nat) (st : Status) (w : World) : World :=
  match n, pending w with
  | S n, pc :: rest => fail_pending n st (Complete (pc_call pc) st [] (w <| pending := rest |>))
  | _, _ => w
  end.
Definition FailPending (st : Status) (w : World) : World :=
  fail_pending (length (pending w)) st w.

Fixpoint start_pending (n : nat) (w : World) : World :=
  match n, pending w with
  | S n, pc :: rest =>
      start_pending n (CallNow (pc_path pc) (pc_framed pc) (pc_call pc) (w <| pending := rest |>))
  | _, _ => w
  end.
Definition StartPending (w : World) : World := start_pending (length (pending w)) w.

Fixpoint start_pending_streams (n : nat) (w : World) : World :=
  match n, pending_streams w with
  | S n, ps :: rest => start_pending_streams n (OpenStreamNow ps (w <| pending_streams := rest |>))
  | _, _ => w
  end.
Definition StartPendingStreams (w : World) : World :=
  start_pending_streams (length (pending_streams w)) w.

(** The callback of [TcpConnect]. *)
Definition OnConnected (st : Status) (w : World) : World :=
  if negb (ok st) then FailPending st (w <| state := kBroken |>)
  else StartPendingStreams (StartPending (w <| session := true |> <| state := kReady |>)).

Definition ConnectNow (w : World) : World :=
  let w := record_out (Connect address) (w <| state := kConnecting |>) in
  match tcp_connect with
  | CalledBack st => OnConnected st w
  | Connecting _ => w
  | CalledMoved _ => w <| ub := true |>      (* std::bad_function_call *)
  end.

Definition connection_lost : Status := unavailable "connection lost".


Definition fail_streams (l : list (Z * Stream)) (st : Status) (w : World) : World :=
  fold_left (λ w x,
    if st_completed x.2 then w else Fail x.1 (events x.2) (out_queue x.2) st w) l w.

Fixpoint fail_pending_streams (n : nat) (st : Status) (w : World) : World :=
  match n, pending_streams w with
  | S n, ps :: rest =>
      fail_pending_streams n st
        (Fail (ps_id ps) (ps_events ps) [] st (w <| pending_streams := rest |>))
  | _, _ => w
  end.

Definition fail_calls (l : list (Z * Call)) (st : Status) (w : World) : World :=
  fold_left (λ w x,
    if completed x.2 then w
    else call_done x.1 (done x.2) st [] (cancel_timer (timeout_timer x.2) w)) l w.

Definition OnConnectionLost (w : World) : World :=
  if decide (state w = kBroken) then w
  else
    let snapshot := map_entries (calls w) in
    let lost_streams := map_entries (streams w) in
    let w := w <| state := kBroken |> <| session := false |> <| bodies := [] |>
               <| calls := ∅ |> <| by_stream := ∅ |> <| streams := ∅ |> <| stream_by_sid := ∅ |> in
    let w := fail_streams lost_streams connection_lost w in
    let w := fail_pending_streams (length (pending_streams w)) connection_lost w in
    let w := fail_calls snapshot connection_lost w in
    FailPending connection_lost w.

(** ** The tasks *)

(** What [Call] posts. *)
Definition run_call (id : Z) (path : string) (body : bytes) (timeout_ms : Z)
    (dn : option closure) (mrs : Z) (w : World) : World :=
  let c := mkCall id 0 0 (newFrameDecoder mrs) dn false in
  let '(c, w) :=
    if 0 <? timeout_ms then
      let '(timer, l) := SetTimer timeout_ms (TCallTimeout id) (loop w) in
      (c <| timeout_timer := timer |>, w <| loop := l |>)
    else (c, w) in
  match state w with
  | kReady => CallNow path body c w
  | kBroken => Complete c (unavailable "channel broken") [] w
  | kIdle => ConnectNow (w <| pending ::= λ q, q ++ [mkPendingCall path body c] |>)
  | kConnecting => w <| pending ::= λ q, q ++ [mkPendingCall path body c] |>
  end.

(** Ending a call from this side: the reset, if it has a stream, then its end. *)
Definition reset_call (c : Call) (w : World) : World :=
  if negb (sid c =? 0) && session w then
    (call_session (ResetStream (sid c) kH2Cancel)
      (w <| calls ::= alter (λ c, c <| completed := true |>) (call_id c) |>))
      <| by_stream ::= delete (sid c) |>
  else w.
Definition abandon_call (c : Call) (st : Status) (w : World) : World :=
  let w := reset_call c w in
  let w := w <| calls ::= delete (call_id c) |> in
  call_done (call_id c) (done c) st [] w.

Definition run_call_timeout (id : Z) (w : World) : World :=
  match calls w !! id with
  | None => w
  | Some c => if completed c then w else abandon_call c deadline_status w
  end.

Definition run_cancel (id : Z) (w : World) : World :=
  match calls w !! id with
  | None => w
  | Some c =>
      if completed c then w
      else abandon_call c (unavailable "cancelled") (cancel_timer (timeout_timer c) w)
  end.

Definition run_open_stream (id : Z) (path : string) (ev : StreamEvents) (timeout_ms : Z)
    (w : World) : World :=
  match on_complete ev with
  | None => w
  | Some on_cb =>
      let ps := mkPendingStream id path ev timeout_ms [] in
      match state w with
      | kReady => OpenStreamNow ps w
      | kBroken => call_user (UserComplete id on_cb (unavailable "channel broken")) w
      | kIdle => ConnectNow (w <| pending_streams ::= λ q, q ++ [ps] |>)
      | kConnecting => w <| pending_streams ::= λ q, q ++ [ps] |>
      end
  end.

Definition run_stream_timeout (id : Z) (w : World) : World :=
  match streams w !! id with
  | None => w
  | Some s =>
      if st_completed s then w
      else
        let w := on_stream id (λ s, s <| rst_pending := true |>) w in
        let w :=
          if negb (st_sid s =? 0) && session w then
            (call_session (ResetStream (st_sid s) kH2Cancel) w)
              <| stream_by_sid ::= delete (st_sid s) |>
          else w in
        (CompleteStream id deadline_status w) <| streams ::= delete id |>
  end.

Definition kQueueBound : nat := 64.
Definition queue_full : Status := mkStatus kResourceExhausted "send queue full".
Definition already_closed : Status := mkStatus kInternal "already closed".

(** The first pending stream of an id. *)
Fixpoint park (id : Z) (f : PendingStream → PendingStream) (l : list PendingStream)
    : option (PendingStream * list PendingStream) :=
  match l with
  | [] => None
  | ps :: l =>
      if ps_id ps =? id then Some (ps, f ps :: l)
      else match park id f l with
           | Some (ps', l') => Some (ps', ps :: l')
           | None => None
           end
  end.

Definition live_stream (id : Z) (w : World) : option Stream :=
  match streams w !! id with
  | Some s => if st_completed s then None else Some s
  | None => None
  end.

Definition run_stream_send (id : Z) (body : bytes) (on_flushed : option closure) (cl : bool)
    (w : World) : World :=
  match live_stream id w with
  | None =>
      match park id (λ ps, ps <| ps_out_queue ::= λ q, q ++ [mkOutMsg body cl on_flushed] |>)
              (pending_streams w) with
      | Some (ps, l) =>
          if (kQueueBound <=? length (ps_out_queue ps))%nat
          then call_opt on_flushed (λ cb, UserFlushed cb queue_full) w
          else w <| pending_streams := l |>
      | None => call_opt on_flushed (λ cb, UserFlushed cb (unavailable "stream closed")) w
      end
  | Some s =>
      if send_closed s then call_opt on_flushed (λ cb, UserFlushed cb already_closed) w
      else if (kQueueBound <=? length (out_queue s))%nat
      then call_opt on_flushed (λ cb, UserFlushed cb queue_full) w
      else PumpStream id
        (on_stream id (λ s, s <| out_queue ::= λ q, q ++ [mkOutMsg body cl on_flushed] |>) w)
  end.

Definition run_stream_close_send (id : Z) (w : World) : World :=
  match live_stream id w with
  | None =>
      match park id (λ ps, ps <| ps_out_queue ::= λ q,
                match q with [] => [mkOutMsg [] true None] | _ => close_last q end |>)
              (pending_streams w) with
      | Some (_, l) => w <| pending_streams := l |>
      | None => w
      end
  | Some s =>
      if send_closed s then w
      else
        match out_queue s with
        | [] =>
            let w := on_stream id (λ s, s <| send_closed := true |>) w in
            if negb (st_sid s =? 0) && session w then call_session (SendData (st_sid s) [] true) w
            else w
        | _ => on_stream id (λ s, s <| out_queue ::= close_last |>) w
        end
  end.

Definition run_ctask (t : CTask) (w : World) : World :=
  match t with
  | TCall id path body timeout_ms dn mrs => run_call id path body timeout_ms dn mrs w
  | TCallTimeout id => run_call_timeout id w
  | TCancel id => run_cancel id w
  | TOpenStream id path ev timeout_ms => run_open_stream id path ev timeout_ms w
  | TStreamTimeout id => run_stream_timeout id w
  | TStreamSend id body on_flushed cl => run_stream_send id body on_flushed cl w
  | TStreamCloseSend id => run_stream_close_send id w
  | TPump id => PumpStream id w
  end.
End Channel.
