(* ===== verification/ChannelInv.v ===== *)
(** * Every call and stream of a channel ends once

    The ids of calls and streams as tickets: each id that was given out is, at
    any moment, in exactly one place: posted, waiting for the connection, live,
    in the hands of the code that is ending it, or ended.  Every operation of
    the channel moves tickets and loses none. *)
From S2P Require Import Prelude Status CxxString Wire Codec Loop SessionSpec Platform Channel.

(** ** Tickets *)

(** The ticket that a thing carries. *)
Definition task_ticket (q : Queued CTask) : option Z :=
  match q with
  | Posted (TCall id _ _ _ _ _) => Some id
  | Posted (TOpenStream id _ ev _) => match on_complete ev with Some _ => Some id | None => None end
  | _ => None
  end.
Definition out_ticket (o : Out) : option Z :=
  match o with UserDone id _ _ _ | UserComplete id _ _ => Some id | _ => None end.
Definition stream_live (id : Z) (w : World) : nat :=
  match streams w !! id with Some s => if st_completed s then 0 else 1 | None => 0 end.
Definition call_live (id : Z) (w : World) : nat :=
  match calls w !! id with Some _ => 1 | None => 0 end.

Definition waiting (id : Z) (w : World) : nat :=
  (count_by task_ticket id (pending_ (loop w)) +
   count_by (λ pc, Some (call_id (pc_call pc))) id (pending w) +
   count_by (λ ps, Some (ps_id ps)) id (pending_streams w))%nat.
Definition ended (id : Z) (w : World) : nat := count_by out_ticket id (trace w).
Definition tickets (id : Z) (w : World) : nat :=
  (waiting id w + call_live id w + stream_live id w + ended id w)%nat.

(** ** The invariant *)

(** The code holds the tickets [h], and is ending the call [k]. *)
Record Inv (k : option Z) (h : list Z) (w : World) : Prop := {
  inv_calls id c : calls w !! id = Some c → call_id c = id ∧ (completed c = true → k = Some id);
  inv_streams id s : streams w !! id = Some s → is_Some (on_complete (events s));
  inv_pending_streams : Forall (λ ps, is_Some (on_complete (ps_events ps))) (pending_streams w);
  inv_pending : Forall (λ pc, completed (pc_call pc) = false) (pending w);
  inv_next : wrapped w = false → 1 ≤ next_call_id w < 2 ^ 64;
  inv_issued : wrapped w = false → ∀ id, id ∈ issued w → 1 ≤ id < next_call_id w;
  inv_timers id t : timers_ (loop w) !! id = Some t → task_ticket (Posted (task t)) = None;
  inv_tickets : wrapped w = false → ∀ id,
    (tickets id w + count_by Some id h)%nat = if decide (id ∈ issued w) then 1%nat else 0%nat
}.

(** The parts of the world that the invariant looks at, one by one. *)
Definition same_core (w w' : World) : Prop :=
  calls w' = calls w ∧ streams w' = streams w ∧ pending w' = pending w ∧
  pending_streams w' = pending_streams w ∧ next_call_id w' = next_call_id w ∧
  issued w' = issued w ∧ wrapped w' = wrapped w ∧
  (∀ id, count_by task_ticket id (pending_ (loop w')) =
         count_by task_ticket id (pending_ (loop w))) ∧
  timers_ (loop w') ⊆ timers_ (loop w) ∧
  ∀ id, ended id w' = ended id w.

Lemma same_core_Inv k h w w' : same_core w w' → Inv k h w → Inv k h w'.
Proof.
  intros (E1 & E2 & E3 & E4 & E5 & E6 & E7 & E8 & E8' & E9) [H1 H2 H3 H4 H5 H6 Ht H7].
  split; rewrite ?E1, ?E2, ?E3, ?E4, ?E5, ?E6, ?E7; try done.
  { intros id t Hl. eapply Ht. by eapply lookup_weaken. }
  intros Hw id. etrans; [|exact (H7 Hw id)].
  unfold tickets, waiting, call_live, stream_live. by rewrite E1, E2, E3, E4, E8, E9.
Qed.

(** ** Outputs and posted tasks *)
Lemma record_out_Inv k h o w : out_ticket o = None → Inv k h w → Inv k h (record_out o w).
Proof.
  intros Ho. apply same_core_Inv. split_and!; try done. intros id. unfold ended. simpl.
  rewrite count_by_app, count_by_cons, Ho. simpl. rewrite count_by_nil. lia.
Qed.

Lemma record_end_Inv k h id o w : out_ticket o = Some id → Inv k (id :: h) w → Inv k h (record_out o w).
Proof.
  intros Ho [H1 H2 H3 H4 H5 H6 Ht H7]. split; try done. intros Hw id'. etrans; [|exact (H7 Hw id')].
  unfold tickets, ended. simpl. rewrite count_by_app, !count_by_cons, Ho, count_by_nil.
  change (waiting id' (record_out o w)) with (waiting id' w).
  change (call_live id' (record_out o w)) with (call_live id' w).
  change (stream_live id' (record_out o w)) with (stream_live id' w). lia.
Qed.

Lemma pending_Post {T} (t : T) l : pending_ (Post t l) = pending_ l ++ [Posted t].
Proof. unfold Post. simpl. by destruct (running_ l). Qed.

Lemma timers_Post {T} (t : T) l : timers_ (Post t l) = timers_ l.
Proof. unfold Post. simpl. by destruct (running_ l). Qed.

Lemma post_Inv k h t w : task_ticket (Posted t) = None → Inv k h w → Inv k h (post t w).
Proof.
  intros Ht. apply same_core_Inv. split_and!; try done.
  - intros id. unfold post. change (loop (w <| loop ::= Post t |>)) with (Post t (loop w)).
    rewrite pending_Post, count_by_app, count_by_cons, Ht, count_by_nil. simpl. lia.
  - change (loop (post t w)) with (Post t (loop w)). by rewrite timers_Post.
Qed.

Lemma pending_CancelTimer {T} id (l : LoopRunner T) : pending_ (CancelTimer id l) = pending_ l.
Proof. unfold CancelTimer. by destruct (timers_ l !! id). Qed.

Lemma cancel_timer_Inv k h id w : Inv k h w → Inv k h (cancel_timer id w).
Proof.
  unfold cancel_timer. destruct (id =? 0); [done|]. apply same_core_Inv. split_and!; try done.
  - intros id'. simpl. by rewrite pending_CancelTimer.
  - simpl. unfold CancelTimer. destruct (timers_ (loop w) !! id); [|done]. apply delete_subseteq.
Qed.

(** A fresh ticket: the task that carries it is posted. *)
Lemma fetch_post_Inv k h w t :
  let id := next_call_id w in
  task_ticket (Posted t) = Some id → Inv k h w →
  Inv k h (post t ((fetch_id w).2 <| issued ::= λ s, {[id]} ∪ s |>)).
Proof.
  intros id Ht [H1 H2 H3 H4 H5 H6 Htm H7].
  assert (Hpost : ∀ w' id', waiting id' (post t w') =
    (waiting id' w' + if decide (id = id') then 1 else 0)%nat).
  { intros w' id'. unfold waiting, post.
    change (loop (w' <| loop ::= Post t |>)) with (Post t (loop w')).
    change (pending (w' <| loop ::= Post t |>)) with (pending w').
    change (pending_streams (w' <| loop ::= Post t |>)) with (pending_streams w').
    rewrite pending_Post, count_by_app, count_by_cons, Ht, count_by_nil.
    repeat case_decide; simplify_eq; lia. }
  split; try done.
  - simpl. intros Hw. apply orb_false_iff in Hw as [Hn Hw]. bool_cond. specialize (H5 Hw).
    rewrite u64_small; lia.
  - simpl. intros Hw. apply orb_false_iff in Hw as [Hn Hw]. bool_cond. specialize (H5 Hw).
    rewrite u64_small by lia. intros id'. rewrite elem_of_union, elem_of_singleton.
    intros [->|Hin]; [unfold id; lia|]. specialize (H6 Hw _ Hin). lia.
  - intros i tm. match goal with |- context [loop (post t ?x)] =>
      change (loop (post t x)) with (Post t (loop w)) end.
    rewrite timers_Post. apply Htm.
  - intros Hw. simpl in Hw. apply orb_false_iff in Hw as [_ Hw]. intros id'.
    specialize (H7 Hw id'). unfold tickets in *. rewrite Hpost.
    match goal with |- context [call_live id' ?x] =>
      change (call_live id' x) with (call_live id' w);
      change (stream_live id' x) with (stream_live id' w);
      change (ended id' x) with (ended id' w);
      change (issued x) with ({[id]} ∪ issued w) end.
    match goal with |- context [waiting id' ?x] => change (waiting id' x) with (waiting id' w) end.
    assert (id ∉ issued w) as Hid.
    { intros Hin. specialize (H6 Hw _ Hin). unfold id in *. lia. }
    assert (id' ∈ {[id]} ∪ issued w ↔ id = id' ∨ id' ∈ issued w) as Hin
      by (rewrite elem_of_union, elem_of_singleton; intuition congruence).
    destruct (decide (id = id')) as [<-|Hne].
    + rewrite decide_False in H7 by done. rewrite decide_True by (apply Hin; by left). lia.
    + rewrite (decide_ext _ _ _ _ Hin). destruct (decide (id' ∈ issued w));
        [rewrite decide_True by auto|rewrite decide_False by tauto]; lia.
Qed.

Lemma fetch_Inv k h w : Inv k h w → Inv k h (fetch_id w).2.
Proof.
  intros [H1 H2 H3 H4 H5 H6 Ht H7]. split; try done.
  - simpl. intros Hw. apply orb_false_iff in Hw as [Hn Hw]. bool_cond. specialize (H5 Hw).
    rewrite u64_small; lia.
  - simpl. intros Hw id Hin. apply orb_false_iff in Hw as [Hn Hw]. bool_cond. specialize (H5 Hw).
    rewrite u64_small by lia. specialize (H6 Hw _ Hin). lia.
  - simpl. intros Hw. apply orb_false_iff in Hw as [_ Hw]. exact (H7 Hw).
Qed.

Lemma do_uop_Inv k h op w : Inv k h w → Inv k h (do_uop op w).
Proof.
  intros HI. destruct op as [path b t d|id|path ev t|id b cb cl|id|n]; simpl.
  - by apply (fetch_post_Inv k h w (TCall (next_call_id w) path b t d (max_receive_size w))).
  - by apply post_Inv.
  - destruct (on_complete ev) eqn:He.
    + apply (fetch_post_Inv k h w (TOpenStream (next_call_id w) path ev t)); [|done].
      simpl. by rewrite He.
    + apply (post_Inv k h (TOpenStream (next_call_id w) path ev t) (fetch_id w).2).
      * simpl. by rewrite He.
      * by apply fetch_Inv.
  - by apply post_Inv.
  - by apply post_Inv.
  - by apply (same_core_Inv k h w).
Qed.

(** ** Updates of the maps *)
Lemma on_stream_Inv k h id f w :
  (∀ s, streams w !! id = Some s →
    st_completed (f s) = st_completed s ∧ on_complete (events (f s)) = on_complete (events s)) →
  Inv k h w → Inv k h (on_stream id f w).
Proof.
  intros Hf [H1 H2 H3 H4 H5 H6 Ht H7]. split; try done.
  - intros id' s'. simpl. rewrite lookup_alter_Some. intros [(-> & s & Hs & ->)|[? Hs]].
    + destruct (Hf s Hs) as [_ ->]. by eapply H2.
    + by eapply H2.
  - intros Hw id'. etrans; [|exact (H7 Hw id')]. unfold tickets.
    change (waiting id' (on_stream id f w)) with (waiting id' w).
    change (call_live id' (on_stream id f w)) with (call_live id' w).
    change (ended id' (on_stream id f w)) with (ended id' w).
    assert (stream_live id' (on_stream id f w) = stream_live id' w) as ->; [|lia].
    unfold stream_live. simpl. destruct (decide (id = id')) as [<-|Hne].
    + rewrite lookup_alter_eq. destruct (streams w !! id) as [s|] eqn:Hs; [|done]. simpl.
      by destruct (Hf s eq_refl) as [-> _].
    + by rewrite lookup_alter_ne.
Qed.

(** A live stream is taken in hand. *)
Lemma complete_stream_Inv k h id f w s :
  streams w !! id = Some s → st_completed s = false →
  st_completed (f s) = true → on_complete (events (f s)) = on_complete (events s) →
  Inv k h w → Inv k (id :: h) (on_stream id f w).
Proof.
  intros Hs Hc Hf1 Hf2 [H1 H2 H3 H4 H5 H6 Ht H7]. split; try done.
  - intros id' s'. simpl. rewrite lookup_alter_Some. intros [(-> & s0 & Hs0 & ->)|[? Hs0]].
    + simplify_eq. rewrite Hf2. by eapply H2.
    + by eapply H2.
  - intros Hw id'. etrans; [|exact (H7 Hw id')]. rewrite count_by_cons. unfold tickets.
    change (waiting id' (on_stream id f w)) with (waiting id' w).
    change (call_live id' (on_stream id f w)) with (call_live id' w).
    change (ended id' (on_stream id f w)) with (ended id' w).
    unfold stream_live. simpl. destruct (decide (id = id')) as [<-|Hne].
    + rewrite lookup_alter_eq, Hs, Hc. simpl. rewrite Hf1, decide_True by done. lia.
    + rewrite lookup_alter_ne by done. rewrite decide_False by congruence. lia.
Qed.

Lemma take_call_Inv k h id w c :
  calls w !! id = Some c → Inv k h w → Inv k (id :: h) (w <| calls ::= delete id |>).
Proof.
  intros Hc [H1 H2 H3 H4 H5 H6 Ht H7]. split; try done.
  - intros id' c'. simpl. rewrite lookup_delete_Some. intros [_ ?]. by apply H1.
  - intros Hw id'. etrans; [|exact (H7 Hw id')]. rewrite count_by_cons. unfold tickets.
    change (waiting id' (w <| calls ::= delete id |>)) with (waiting id' w).
    change (stream_live id' (w <| calls ::= delete id |>)) with (stream_live id' w).
    change (ended id' (w <| calls ::= delete id |>)) with (ended id' w).
    unfold call_live. simpl. destruct (decide (id = id')) as [<-|Hne].
    + rewrite lookup_delete_eq, Hc, decide_True by done. lia.
    + rewrite lookup_delete_ne by done. rewrite decide_False by congruence. lia.
Qed.

(** A ticket in hand is nowhere else. *)
Lemma in_hand k h id w :
  wrapped w = false → Inv k (id :: h) w →
  calls w !! id = None ∧ stream_live id w = 0%nat ∧ id ∈ issued w.
Proof.
  intros Hw HI. pose proof (inv_tickets _ _ _ HI Hw id) as Ht.
  rewrite count_by_cons, decide_True in Ht by done. unfold tickets, call_live in Ht.
  destruct (decide (id ∈ issued w)); [|lia]. split_and!; [|lia|done].
  destruct (calls w !! id); [lia|done].
Qed.

Lemma put_call_Inv k h id c w :
  call_id c = id → completed c = false →
  Inv k (id :: h) w → Inv k h (w <| calls ::= <[id := c]> |>).
Proof.
  intros Hid Hd HI. pose proof HI as [H1 H2 H3 H4 H5 H6 Ht H7]. split; try done.
  - intros id' c'. simpl. rewrite lookup_insert_Some. intros [[<- <-]|[_ ?]]; [by rewrite Hd|by apply H1].
  - intros Hw id'. change (wrapped w = false) in Hw. destruct (in_hand _ _ _ _ Hw HI) as (Hn & _).
    etrans; [|exact (H7 Hw id')]. rewrite count_by_cons. unfold tickets.
    change (waiting id' (w <| calls ::= <[id := c]> |>)) with (waiting id' w).
    change (stream_live id' (w <| calls ::= <[id := c]> |>)) with (stream_live id' w).
    change (ended id' (w <| calls ::= <[id := c]> |>)) with (ended id' w).
    unfold call_live. simpl. destruct (decide (id = id')) as [<-|Hne].
    + rewrite lookup_insert_eq, Hn, decide_True by done. lia.
    + rewrite lookup_insert_ne by done. rewrite decide_False by congruence. lia.
Qed.

Lemma put_stream_Inv k h id s w :
  st_completed s = false → is_Some (on_complete (events s)) →
  Inv k (id :: h) w → Inv k h (w <| streams ::= <[id := s]> |>).
Proof.
  intros Hc He HI. pose proof HI as [H1 H2 H3 H4 H5 H6 Ht H7]. split; try done.
  - intros id' s'. simpl. rewrite lookup_insert_Some. intros [[<- <-]|[_ ?]]; [done|by eapply H2].
  - intros Hw id'. change (wrapped w = false) in Hw. destruct (in_hand _ _ _ _ Hw HI) as (_ & Hn & _).
    etrans; [|exact (H7 Hw id')]. rewrite count_by_cons. unfold tickets.
    change (waiting id' (w <| streams ::= <[id := s]> |>)) with (waiting id' w).
    change (call_live id' (w <| streams ::= <[id := s]> |>)) with (call_live id' w).
    change (ended id' (w <| streams ::= <[id := s]> |>)) with (ended id' w).
    unfold stream_live in *. simpl. destruct (decide (id = id')) as [<-|Hne].
    + rewrite lookup_insert_eq, Hn, Hc, decide_True by done. lia.
    + rewrite lookup_insert_ne by done. rewrite decide_False by congruence. lia.
Qed.

(** A call in hand that is removed from [calls], where it is not. *)
Lemma drop_call_Inv k h id w :
  Inv k (id :: h) w → Inv k (id :: h) (w <| calls ::= delete id |>).
Proof.
  intros HI. pose proof HI as [H1 H2 H3 H4 H5 H6 Ht H7]. split; try done.
  - intros id' c'. simpl. rewrite lookup_delete_Some. intros [_ ?]. by apply H1.
  - intros Hw id'. change (wrapped w = false) in Hw. destruct (in_hand _ _ _ _ Hw HI) as (Hn & _).
    etrans; [|exact (H7 Hw id')]. unfold tickets.
    change (waiting id' (w <| calls ::= delete id |>)) with (waiting id' w).
    change (stream_live id' (w <| calls ::= delete id |>)) with (stream_live id' w).
    change (ended id' (w <| calls ::= delete id |>)) with (ended id' w).
    unfold call_live. simpl. destruct (decide (id = id')) as [<-|Hne].
    + by rewrite lookup_delete_eq, Hn.
    + by rewrite lookup_delete_ne.
Qed.

Lemma set_call_Inv k h id c c' w :
  calls w !! id = Some c → call_id c' = call_id c →
  (completed c' = true → completed c = true ∨ k = Some id) →
  Inv k h w → Inv k h (w <| calls ::= <[id := c']> |>).
Proof.
  intros Hc Hid Hd [H1 H2 H3 H4 H5 H6 Ht H7]. split; try done.
  - intros id' c''. simpl. rewrite lookup_insert_Some.
    intros [[<- <-]|[_ ?]]; [|by apply H1]. destruct (H1 _ _ Hc) as [? ?]. split; [congruence|].
    intros Htrue. destruct (Hd Htrue); auto.
  - intros Hw id'. etrans; [|exact (H7 Hw id')]. unfold tickets.
    change (waiting id' (w <| calls ::= <[id := c']> |>)) with (waiting id' w).
    change (stream_live id' (w <| calls ::= <[id := c']> |>)) with (stream_live id' w).
    change (ended id' (w <| calls ::= <[id := c']> |>)) with (ended id' w).
    unfold call_live. simpl. destruct (decide (id = id')) as [<-|Hne].
    + by rewrite lookup_insert_eq, Hc.
    + by rewrite lookup_insert_ne.
Qed.

(** ** The operations *)
Section Ops.
Context (user : Out → World → list UOp) (wire : Out → World → list SOp).
Context (submit : Out → World → Z) (address : string) (tcp_connect : @connect_outcome unit).

Lemma do_uops_Inv k h ops w : Inv k h w → Inv k h (fold_left (λ w op, do_uop op w) ops w).
Proof. revert w. induction ops as [|op ops IH]; intros w HI; simpl; [done|]. by apply IH, do_uop_Inv. Qed.

Lemma call_user_Inv k h o w : out_ticket o = None → Inv k h w → Inv k h (call_user user o w).
Proof. intros. by apply do_uops_Inv, record_out_Inv. Qed.

Lemma call_opt_Inv k h cb o w :
  (∀ cb, out_ticket (o cb) = None) → Inv k h w → Inv k h (call_opt user cb o w).
Proof. intros. destruct cb; simpl; [|done]. by apply call_user_Inv. Qed.

Lemma call_done_Inv k h id cb st p w : Inv k (id :: h) w → Inv k h (call_done user id cb st p w).
Proof.
  intros HI. unfold call_done. destruct cb as [cb|].
  - by apply do_uops_Inv, (record_end_Inv k h id).
  - by apply (record_end_Inv k h id).
Qed.

(** What user code leaves alone. *)
Definition user_frame (w w' : World) : Prop :=
  calls w' = calls w ∧ by_stream w' = by_stream w ∧ streams w' = streams w ∧
  stream_by_sid w' = stream_by_sid w ∧ pending w' = pending w ∧
  pending_streams w' = pending_streams w ∧ state w' = state w ∧ session w' = session w ∧
  bodies w' = bodies w ∧ ub w' = ub w.

Lemma user_frame_refl w : user_frame w w.
Proof. by split_and!. Qed.
Lemma user_frame_trans w1 w2 w3 : user_frame w1 w2 → user_frame w2 w3 → user_frame w1 w3.
Proof. unfold user_frame. intros. destruct_and?. split_and!; congruence. Qed.

Lemma do_uops_frame ops w : user_frame w (fold_left (λ w op, do_uop op w) ops w).
Proof.
  revert w. induction ops as [|op ops IH]; intros w; simpl; [apply user_frame_refl|].
  eapply user_frame_trans; [|apply IH]. destruct op as [| |path ev t| | |]; simpl; try done.
  by destruct (on_complete ev).
Qed.

Lemma do_uops_trace ops w : trace (fold_left (λ w op, do_uop op w) ops w) = trace w.
Proof.
  revert w. induction ops as [|op ops IH]; intros w; simpl; [done|]. rewrite IH.
  destruct op as [| |path ev t| | |]; simpl; try done. by destruct (on_complete ev).
Qed.

Lemma call_user_frame o w : user_frame w (call_user user o w).
Proof. apply (user_frame_trans _ (record_out o w)); [done|]. apply do_uops_frame. Qed.
Lemma call_opt_frame cb o w : user_frame w (call_opt user cb o w).
Proof. destruct cb; [apply call_user_frame|apply user_frame_refl]. Qed.
Lemma call_done_frame id cb st p w : user_frame w (call_done user id cb st p w).
Proof. destruct cb; [apply call_user_frame|done]. Qed.
Lemma answer_queue_frame q st w : user_frame w (answer_queue user q st w).
Proof.
  revert w. induction q as [|m q IH]; intros w; simpl; [apply user_frame_refl|].
  eapply user_frame_trans; [apply call_opt_frame|apply IH].
Qed.
Lemma Fail_frame id ev q st w : user_frame w (Fail user id ev q st w).
Proof. eapply user_frame_trans; [apply answer_queue_frame|apply call_opt_frame]. Qed.

(** *** Ends *)
Lemma by_stream_Inv k h f w : Inv k h w → Inv k h (w <| by_stream ::= f |>).
Proof. by apply same_core_Inv. Qed.
Lemma stream_by_sid_Inv k h f w : Inv k h w → Inv k h (w <| stream_by_sid ::= f |>).
Proof. by apply same_core_Inv. Qed.
Lemma set_ub_Inv k h w : Inv k h w → Inv k h (w <| ub := true |>).
Proof. by apply same_core_Inv. Qed.

Lemma Complete_prefix_Inv k h c w :
  Inv k h w → Inv k h (let w := cancel_timer (timeout_timer c) w in
    if sid c =? 0 then w else w <| by_stream ::= delete (sid c) |>).
Proof.
  intros HI. cbv zeta. destruct (sid c =? 0); [by apply cancel_timer_Inv|].
  by apply by_stream_Inv, cancel_timer_Inv.
Qed.

Lemma calls_Complete_prefix c w :
  calls (let w := cancel_timer (timeout_timer c) w in
    if sid c =? 0 then w else w <| by_stream ::= delete (sid c) |>) = calls w.
Proof. cbv zeta. unfold cancel_timer. destruct (sid c =? 0), (timeout_timer c =? 0); done. Qed.

(** A call that is in [calls]. *)
Lemma Complete_entry_Inv k h id c st p w :
  calls w !! id = Some c → completed c = false → Inv k h w → Inv k h (Complete user c st p w).
Proof.
  intros Hc Hd HI. unfold Complete. rewrite Hd.
  destruct (inv_calls _ _ _ HI _ _ Hc) as [Hid _]. apply call_done_Inv.
  apply (take_call_Inv k h (call_id c) _ c).
  - rewrite Hid. rewrite (f_equal (lookup id) (calls_Complete_prefix c w)). done.
  - by apply Complete_prefix_Inv.
Qed.

(** A call that the code holds. *)
Lemma Complete_local_Inv k h c st p w :
  completed c = false → Inv k (call_id c :: h) w → Inv k h (Complete user c st p w).
Proof.
  intros Hd HI. unfold Complete. rewrite Hd. apply call_done_Inv, drop_call_Inv.
  by apply Complete_prefix_Inv.
Qed.

Lemma answer_queue_Inv k h q st w : Inv k h w → Inv k h (answer_queue user q st w).
Proof.
  revert w. induction q as [|m q IH]; intros w HI; simpl; [done|]. by apply IH, call_opt_Inv.
Qed.

Lemma Fail_Inv k h id ev q st w :
  is_Some (on_complete ev) → Inv k (id :: h) w → Inv k h (Fail user id ev q st w).
Proof.
  intros [cb Hcb] HI. unfold Fail. rewrite Hcb. simpl.
  by apply do_uops_Inv, (record_end_Inv k h id), answer_queue_Inv.
Qed.

Lemma CompleteStream_Inv k h id st w : Inv k h w → Inv k h (CompleteStream user id st w).
Proof.
  intros HI. unfold CompleteStream. destruct (streams w !! id) as [s|] eqn:Hs; [|done].
  destruct (st_completed s) eqn:Hc; [done|].
  apply Fail_Inv; [by eapply inv_streams|].
  eapply (complete_stream_Inv k h id _ _ s); try done.
  - unfold cancel_timer. by destruct (st_sid s =? 0), (st_timeout_timer s =? 0).
  - destruct (st_sid s =? 0); [by apply cancel_timer_Inv|].
    by apply stream_by_sid_Inv, cancel_timer_Inv.
Qed.

(** *** The session's events *)
Lemma OnConsumed_Inv k h id cb w : Inv k h w → Inv k h (OnConsumed user id cb w).
Proof.
  intros HI. unfold OnConsumed. apply call_opt_Inv; [done|].
  destruct (streams w !! id); [|done]. apply post_Inv; [done|]. by apply on_stream_Inv.
Qed.

Lemma erase_stream_it_Inv k h sid w : Inv k h w → Inv k h (erase_stream_it sid w).
Proof.
  intros. unfold erase_stream_it. destruct (_ !! _); [by apply stream_by_sid_Inv|by apply set_ub_Inv].
Qed.
Lemma erase_call_it_Inv k h sid w : Inv k h w → Inv k h (erase_call_it sid w).
Proof.
  intros. unfold erase_call_it. destruct (_ !! _); [by apply by_stream_Inv|by apply set_ub_Inv].
Qed.

Lemma OnStreamClose_Inv k h sid w : Inv k h w → Inv k h (OnStreamClose user sid w).
Proof.
  intros HI. unfold OnStreamClose.
  set (w1 := match stream_by_sid w !! sid with Some _ => _ | None => _ end).
  assert (HI1 : Inv k h w1).
  { unfold w1. destruct (stream_by_sid w !! sid) as [id|]; [|done]. apply erase_stream_it_Inv.
    destruct (streams w !! id) as [s|]; [|done].
    destruct (_ && _); [|done]. by apply CompleteStream_Inv. }
  clearbody w1. destruct (by_stream w1 !! sid) as [id|]; [|done]. apply erase_call_it_Inv.
  destruct (calls w1 !! id) as [c|] eqn:Hc; [|done].
  destruct (completed c) eqn:Hd; [done|]. by eapply Complete_entry_Inv.
Qed.

Lemma do_sop_Inv k h op w : Inv k h w → Inv k h (do_sop user op w).
Proof.
  intros HI. destruct op as [sid|sid read]; simpl.
  - destruct (take_body sid n (bodies w)) as [[[id cb] b]|]; [|done].
    apply OnConsumed_Inv. by apply (same_core_Inv k h w).
  - apply OnStreamClose_Inv. by apply (same_core_Inv k h w).
Qed.

Lemma call_session_Inv k h o w : out_ticket o = None → Inv k h w → Inv k h (call_session user wire o w).
Proof.
  intros Ho HI. unfold call_session. pose proof (record_out_Inv k h o w Ho HI) as HI'.
  revert HI'. generalize (wire o (record_out o w)) as ops. generalize (record_out o w).
  intros w1 ops. revert w1. induction ops as [|op ops IH]; intros w' HI'; simpl; [done|]. by apply IH, do_sop_Inv.
Qed.

(** A call whose end has been claimed stays in [calls] whatever the session
    reports meanwhile. *)
Definition claimed (c : Call) (w : World) : Prop :=
  calls w !! call_id c = Some c ∧ completed c = true.

Lemma Complete_claimed k h c c' id st p w :
  Inv k h w → claimed c w → calls w !! id = Some c' → completed c' = false →
  claimed c (Complete user c' st p w).
Proof.
  intros HI [Hc Hd] Hc' Hd'. unfold Complete. rewrite Hd'. split; [|done].
  destruct (inv_calls _ _ _ HI _ _ Hc') as [Hid _].
  pose proof (calls_Complete_prefix c' w) as E. cbv zeta in E.
  match goal with |- context [call_done _ ?a ?b ?st ?p ?x] =>
    destruct (call_done_frame a b st p x) as (-> & _) end.
  change (calls (?x <| calls ::= delete (call_id c') |>)) with (delete (call_id c') (calls x)).
  rewrite E, lookup_delete_ne by congruence. done.
Qed.

Lemma CompleteStream_calls id st w : calls (CompleteStream user id st w) = calls w.
Proof.
  unfold CompleteStream. destruct (streams w !! id) as [s|]; [|done].
  destruct (st_completed s); [done|].
  match goal with |- calls (Fail _ _ _ _ _ ?x) = _ => destruct (Fail_frame id (events s) (out_queue s) st x) as (-> & _) end.
  simpl. unfold cancel_timer. by destruct (st_sid s =? 0), (st_timeout_timer s =? 0).
Qed.

Lemma OnStreamClose_claimed k h c sid w :
  Inv k h w → claimed c w → claimed c (OnStreamClose user sid w).
Proof.
  intros HI Hcl. unfold OnStreamClose.
  set (w1 := match stream_by_sid w !! sid with Some _ => _ | None => _ end).
  assert (HI1 : Inv k h w1 ∧ claimed c w1).
  { unfold w1. destruct (stream_by_sid w !! sid) as [id|]; [|done].
    set (w2 := match streams w !! id with Some _ => _ | None => _ end).
    assert (HI2 : Inv k h w2 ∧ claimed c w2).
    { unfold w2. destruct (streams w !! id) as [s|]; [|done]. destruct (_ && _); [|done].
      split; [by apply CompleteStream_Inv|]. unfold claimed. by rewrite CompleteStream_calls. }
    destruct HI2. clearbody w2. split; [by apply erase_stream_it_Inv|].
    unfold erase_stream_it. by destruct (stream_by_sid w2 !! sid). }
  destruct HI1 as [HI1 Hcl1]. clearbody w1.
  destruct (by_stream w1 !! sid) as [id|]; [|done].
  assert (∀ w, claimed c w → claimed c (erase_call_it sid w)) as He.
  { intros w' H. unfold erase_call_it. by destruct (by_stream w' !! sid). }
  apply He. destruct (calls w1 !! id) as [c'|] eqn:Hc'; [|done].
  destruct (completed c') eqn:Hd'; [done|]. by eapply Complete_claimed.
Qed.

Lemma do_sop_claimed k h c op w : Inv k h w → claimed c w → claimed c (do_sop user op w).
Proof.
  intros HI Hcl. destruct op as [sid|sid read]; simpl.
  - destruct (take_body sid n (bodies w)) as [[[id cb] b]|]; [|done]. unfold OnConsumed.
    match goal with |- claimed c (call_opt _ _ _ ?x) =>
      destruct (call_opt_frame cb (λ cb, UserFlushed cb Ok) x) as (E & _) end.
    unfold claimed in *. rewrite E. simpl. by destruct (streams w !! id).
  - apply (OnStreamClose_claimed k h); [|done]. by apply (same_core_Inv k h w).
Qed.

Lemma call_session_claimed k h c o w :
  out_ticket o = None → Inv k h w → claimed c w → claimed c (call_session user wire o w).
Proof.
  intros Ho HI Hcl. unfold call_session. pose proof (record_out_Inv k h o w Ho HI) as HI'.
  assert (Hcl' : claimed c (record_out o w)) by done. clear HI Hcl.
  revert HI' Hcl'. generalize (wire o (record_out o w)) as ops. generalize (record_out o w).
  intros w1 ops. revert w1. induction ops as [|op ops IH]; intros w' HI' Hcl'; simpl; [done|].
  apply IH; [by apply do_sop_Inv|by eapply do_sop_claimed].
Qed.

(** While a call is being ended, it may be marked completed in [calls]. *)
Lemma start_claim_Inv k h id w : k = None → Inv k h w → Inv (Some id) h w.
Proof.
  intros -> [H1 H2 H3 H4 H5 H6 Ht H7]. split; try done. intros id' c Hc.
  destruct (H1 _ _ Hc) as [? Hd]. split; [done|]. intros Htr. by specialize (Hd Htr).
Qed.
Lemma end_claim_Inv h id w : calls w !! id = None → Inv (Some id) h w → Inv None h w.
Proof.
  intros Hn [H1 H2 H3 H4 H5 H6 Ht H7]. split; try done. intros id' c Hc.
  destruct (H1 _ _ Hc) as [? Hd]. split; [done|]. intros Htr. specialize (Hd Htr). congruence.
Qed.

Lemma abandon_call_Inv h id c st w :
  calls w !! id = Some c → completed c = false → Inv None h w →
  Inv None h (abandon_call user wire c st w).
Proof.
  intros Hc Hd HI. destruct (inv_calls _ _ _ HI _ _ Hc) as [Hid _]. subst id.
  unfold abandon_call. apply call_done_Inv, (end_claim_Inv _ (call_id c)).
  { simpl. by rewrite lookup_delete_eq. }
  assert (HI0 : Inv (Some (call_id c)) h w) by by eapply start_claim_Inv.
  assert (∃ c', calls (reset_call user wire c w) !! call_id c = Some c' ∧
    Inv (Some (call_id c)) h (reset_call user wire c w)) as (c' & Hc' & HI').
  { unfold reset_call. destruct (_ && _); [|by eauto].
    set (c1 := c <| completed := true |>).
    set (w1 := w <| calls ::= alter (λ c, c <| completed := true |>) (call_id c) |>).
    assert (w1 = w <| calls ::= <[call_id c := c1]> |>) as Hw1.
    { unfold w1. simpl. f_equal. apply map_eq. intros i.
      destruct (decide (call_id c = i)) as [<-|].
      - by rewrite lookup_alter_eq, lookup_insert_eq, Hc.
      - by rewrite lookup_alter_ne, lookup_insert_ne. }
    assert (HI1 : Inv (Some (call_id c)) h w1).
    { rewrite Hw1. apply (set_call_Inv _ h _ c); auto. }
    assert (Hcl : claimed c1 w1).
    { split; [|done]. rewrite Hw1. simpl. by rewrite lookup_insert_eq. }
    exists c1. split; [|by apply by_stream_Inv, call_session_Inv].
    simpl. by eapply (call_session_claimed _ h c1). }
  by apply (take_call_Inv _ h (call_id c) _ c').
Qed.

(** *** Frames of the session *)
Lemma OnHeadersComplete_Inv h sid hs w :
  Inv None h w → Inv None h (OnHeadersComplete user sid hs w).
Proof.
  intros HI. unfold OnHeadersComplete. destruct (stream_by_sid w !! sid) as [id|].
  - destruct (streams w !! id) as [s|]; [|done]. destruct (st_completed s); [done|].
    destruct (hs !! "grpc-status"); [by apply CompleteStream_Inv|].
    destruct (bad_http_status hs); [by apply CompleteStream_Inv|done].
  - destruct (by_stream w !! sid) as [id|]; [|done].
    destruct (calls w !! id) as [c|] eqn:Hc; [|done].
    destruct (completed c) eqn:Hd.
    { destruct (inv_calls _ _ _ HI _ _ Hc) as [_ Hk]. by specialize (Hk Hd). }
    destruct (hs !! "grpc-status"); [by eapply Complete_entry_Inv|].
    destruct (bad_http_status hs); [by eapply Complete_entry_Inv|done].
Qed.

Lemma channel_deliver_messages_Inv k h n id w : Inv k h w → Inv k h (deliver_messages user n id w).
Proof.
  revert w. induction n as [|n IH]; intros w HI; simpl; [done|].
  destruct (streams w !! id) as [s|]; [|done]. destruct (TakeMessage (st_decoder s)) as [[m d]|]; [|done].
  apply IH, call_opt_Inv; [done|]. by apply on_stream_Inv.
Qed.

Lemma channel_OnData_Inv h sid data w : Inv None h w → Inv None h (OnData user sid data w).
Proof.
  intros HI. unfold OnData. destruct (stream_by_sid w !! sid) as [id|].
  - destruct (streams w !! id) as [s|]; [|done]. destruct (st_completed s); [done|].
    destruct data as [[|b data]|]; try done. destruct (Consume _ _) as [st d].
    set (w1 := on_stream id (λ s, s <| st_decoder := d |>) w).
    assert (HI1 : Inv None h w1) by by apply on_stream_Inv.
    destruct (negb (ok st)); [by apply CompleteStream_Inv|by apply channel_deliver_messages_Inv].
  - destruct (by_stream w !! sid) as [id|]; [|done].
    destruct (calls w !! id) as [c|] eqn:Hc; [|done]. destruct (completed c) eqn:Hd; [done|].
    destruct data as [[|b data]|]; try done. destruct (Consume _ _) as [st d].
    set (c1 := c <| decoder := d |>). set (w1 := w <| calls ::= <[id := c1]> |>).
    assert (HI1 : Inv None h w1).
    { apply (set_call_Inv _ h id c); try done. auto. }
    destruct (negb (ok st)); [|done]. apply (Complete_entry_Inv _ h id); try done.
    simpl. by rewrite lookup_insert_eq.
Qed.

(** *** Sending *)
Lemma bodies_Inv k h f w : Inv k h w → Inv k h (w <| bodies ::= f |>).
Proof. by apply same_core_Inv. Qed.

Lemma PumpStream_Inv k h id w : Inv k h w → Inv k h (PumpStream user wire id w).
Proof.
  intros HI. unfold PumpStream. destruct (streams w !! id) as [s|]; [|done].
  destruct (out_queue s) as [|out rest]; [done|].
  destruct (st_completed s || out_inflight s); [done|].
  destruct ((st_sid s =? 0) || negb (session w)); [done|].
  apply call_session_Inv; [done|]. apply bodies_Inv, on_stream_Inv; [|done].
  intros s' _. by destruct (close out).
Qed.

Lemma pending_SetTimer ms t (l : LoopRunner CTask) : pending_ (SetTimer ms t l).2 = pending_ l.
Proof. unfold SetTimer. by destruct (negb (running_ l)). Qed.

Lemma set_timer_Inv k h ms t w :
  task_ticket (Posted t) = None →
  Inv k h w → Inv k h (w <| loop := (SetTimer ms t (loop w)).2 |>).
Proof.
  intros Hn [H1 H2 H3 H4 H5 H6 Ht H7]. split; try done.
  - intros id x. simpl. unfold SetTimer. destruct (negb (running_ (loop w))); [by apply Ht|].
    simpl. rewrite lookup_insert_Some. intros [[_ <-]|[_ Hx]]; [done|by eapply Ht].
  - intros Hw id. etrans; [|exact (H7 Hw id)].
    unfold tickets, waiting, call_live, stream_live. simpl. by rewrite pending_SetTimer.
Qed.

Lemma OpenStreamNow_Inv k h ps w :
  is_Some (on_complete (ps_events ps)) → Inv k (ps_id ps :: h) w →
  Inv k h (OpenStreamNow user wire submit address ps w).
Proof.
  intros He HI. unfold OpenStreamNow. destruct (submit _ w <? 0).
  { apply Fail_Inv; [done|]. by apply record_out_Inv. }
  apply PumpStream_Inv.
  match goal with |- context [<[ps_id ps := ?x]>] => set (st := x) end.
  set (w1 := call_session user wire _ w).
  assert (HI1 : Inv k (ps_id ps :: h) w1) by by apply call_session_Inv.
  assert (HI2 : Inv k h (w1 <| stream_by_sid ::= <[submit (SubmitRequestOpen
      (request_headers address (ps_path ps))) w := ps_id ps]> |> <| streams ::= <[ps_id ps := st]> |>)).
  { apply put_stream_Inv; [done|done|]. by apply stream_by_sid_Inv. }
  destruct (0 <? ps_timeout_ms ps); [|exact HI2].
  match type of HI2 with Inv k h ?x =>
    pose proof (set_timer_Inv k h (ps_timeout_ms ps) (TStreamTimeout (ps_id ps)) x
      eq_refl HI2) as HI3;
    destruct (SetTimer (ps_timeout_ms ps) (TStreamTimeout (ps_id ps)) (loop x)) as [timer l] end.
  by apply on_stream_Inv.
Qed.

Lemma CallNow_Inv k h path b c w :
  completed c = false → Inv k (call_id c :: h) w →
  Inv k h (CallNow user wire submit address path b c w).
Proof.
  intros Hd HI. unfold CallNow. destruct (submit _ w <? 0).
  { apply Complete_local_Inv; [done|]. by apply record_out_Inv. }
  apply put_call_Inv; [done|done|]. by apply by_stream_Inv, call_session_Inv.
Qed.

(** *** What waits for the connection *)
Lemma take_pending_Inv k h pc rest w :
  pending w = pc :: rest → Inv k h w →
  completed (pc_call pc) = false ∧ Inv k (call_id (pc_call pc) :: h) (w <| pending := rest |>).
Proof.
  intros Hp [H1 H2 H3 H4 H5 H6 Ht H7]. rewrite Hp in H4. apply Forall_cons in H4 as [Hc H4].
  split; [done|]. split; try done. intros Hw id. etrans; [|exact (H7 Hw id)].
  unfold tickets, waiting, call_live, stream_live, ended. simpl.
  rewrite Hp, !count_by_cons. repeat case_decide; simplify_eq; try congruence; lia.
Qed.

Lemma take_pending_stream_Inv k h ps rest w :
  pending_streams w = ps :: rest → Inv k h w →
  is_Some (on_complete (ps_events ps)) ∧ Inv k (ps_id ps :: h) (w <| pending_streams := rest |>).
Proof.
  intros Hp [H1 H2 H3 H4 H5 H6 Ht H7]. rewrite Hp in H3. apply Forall_cons in H3 as [Hc H3].
  split; [done|]. split; try done. intros Hw id. etrans; [|exact (H7 Hw id)].
  unfold tickets, waiting, call_live, stream_live, ended. simpl.
  rewrite Hp, !count_by_cons. repeat case_decide; simplify_eq; try congruence; lia.
Qed.

Lemma put_pending_Inv k h pc w :
  completed (pc_call pc) = false → Inv k (call_id (pc_call pc) :: h) w →
  Inv k h (w <| pending ::= λ q, q ++ [pc] |>).
Proof.
  intros Hc [H1 H2 H3 H4 H5 H6 Ht H7]. split; try done.
  - simpl. apply Forall_app. by rewrite Forall_singleton.
  - intros Hw id. etrans; [|exact (H7 Hw id)].
    unfold tickets, waiting, call_live, stream_live, ended. simpl.
    rewrite count_by_app, !count_by_cons, count_by_nil.
    repeat case_decide; simplify_eq; try congruence; lia.
Qed.

Lemma put_pending_stream_Inv k h ps w :
  is_Some (on_complete (ps_events ps)) → Inv k (ps_id ps :: h) w →
  Inv k h (w <| pending_streams ::= λ q, q ++ [ps] |>).
Proof.
  intros Hc [H1 H2 H3 H4 H5 H6 Ht H7]. split; try done.
  - simpl. apply Forall_app. by rewrite Forall_singleton.
  - intros Hw id. etrans; [|exact (H7 Hw id)].
    unfold tickets, waiting, call_live, stream_live, ended. simpl.
    rewrite count_by_app, !count_by_cons, count_by_nil.
    repeat case_decide; simplify_eq; try congruence; lia.
Qed.

Lemma fail_pending_Inv k h n st w : Inv k h w → Inv k h (fail_pending user n st w).
Proof.
  revert w. induction n as [|n IH]; intros w HI; simpl; [done|].
  destruct (pending w) as [|pc rest] eqn:Hp; [done|]. apply IH.
  destruct (take_pending_Inv _ _ _ _ _ Hp HI). by apply Complete_local_Inv.
Qed.

Lemma start_pending_Inv k h n w : Inv k h w → Inv k h (start_pending user wire submit address n w).
Proof.
  revert w. induction n as [|n IH]; intros w HI; simpl; [done|].
  destruct (pending w) as [|pc rest] eqn:Hp; [done|]. apply IH.
  destruct (take_pending_Inv _ _ _ _ _ Hp HI). by apply CallNow_Inv.
Qed.

Lemma start_pending_streams_Inv k h n w :
  Inv k h w → Inv k h (start_pending_streams user wire submit address n w).
Proof.
  revert w. induction n as [|n IH]; intros w HI; simpl; [done|].
  destruct (pending_streams w) as [|ps rest] eqn:Hp; [done|]. apply IH.
  destruct (take_pending_stream_Inv _ _ _ _ _ Hp HI). by apply OpenStreamNow_Inv.
Qed.

Lemma fail_pending_streams_Inv k h n st w : Inv k h w → Inv k h (fail_pending_streams user n st w).
Proof.
  revert w. induction n as [|n IH]; intros w HI; simpl; [done|].
  destruct (pending_streams w) as [|ps rest] eqn:Hp; [done|]. apply IH.
  destruct (take_pending_stream_Inv _ _ _ _ _ Hp HI). by apply Fail_Inv.
Qed.

(** *** The connection *)
Lemma OnConnected_Inv k h st w :
  Inv k h w → Inv k h (OnConnected user wire submit address st w).
Proof.
  intros HI. unfold OnConnected. destruct (negb (ok st)).
  - by apply fail_pending_Inv, (same_core_Inv k h w).
  - by apply start_pending_streams_Inv, start_pending_Inv, (same_core_Inv k h w).
Qed.

Lemma ConnectNow_Inv k h w :
  Inv k h w → Inv k h (ConnectNow user wire submit address tcp_connect w).
Proof.
  intros HI. unfold ConnectNow. set (w1 := record_out _ _).
  assert (HI1 : Inv k h w1) by by apply record_out_Inv, (same_core_Inv k h w).
  destruct tcp_connect; [by apply OnConnected_Inv|done|by apply set_ub_Inv].
Qed.

(** *** The loss of the connection *)

(** The tickets of a snapshot of [calls] and of the live part of [streams]. *)
Definition call_keys (l : list (Z * Call)) : list Z := map fst l.
Definition live_keys (l : list (Z * Stream)) : list Z :=
  map fst (filter (λ x : Z * Stream, st_completed x.2 = false) l).


Lemma map_entries_perm {A} (m : gmap Z A) : map_entries m ≡ₚ map_to_list m.
Proof. apply merge_sort_Permutation. Qed.

Lemma count_call_keys id (m : gmap Z Call) :
  count_by Some id (call_keys (map_entries m)) = match m !! id with Some _ => 1%nat | None => 0%nat end.
Proof.
  unfold call_keys. rewrite (map_entries_perm m).
  induction m as [|i x m Hi IH] using map_ind.
  - by rewrite map_to_list_empty, lookup_empty.
  - rewrite (map_to_list_insert m i x Hi).
    simpl. rewrite count_by_cons, IH. case_decide as Hd.
    + injection Hd as ->. by rewrite lookup_insert_eq, Hi.
    + by rewrite lookup_insert_ne by congruence.
Qed.

Lemma count_live_keys id (m : gmap Z Stream) :
  count_by Some id (live_keys (map_entries m)) =
    match m !! id with Some s => if st_completed s then 0%nat else 1%nat | None => 0%nat end.
Proof.
  unfold live_keys. rewrite (map_entries_perm m).
  induction m as [|i x m Hi IH] using map_ind.
  - by rewrite map_to_list_empty, lookup_empty.
  - rewrite (map_to_list_insert m i x Hi), filter_cons. simpl.
    case_decide as Hx; simpl; rewrite ?count_by_cons, IH.
    + case_decide as Hd; [injection Hd as ->|]; [by rewrite lookup_insert_eq, Hi, Hx|].
      by rewrite lookup_insert_ne by congruence.
    + destruct (decide (i = id)) as [->|]; [|by rewrite lookup_insert_ne].
      rewrite lookup_insert_eq, Hi. by destruct (st_completed x).
Qed.

Lemma map_entries_elem {A} (m : gmap Z A) i x : (i, x) ∈ map_entries m → m !! i = Some x.
Proof. rewrite (map_entries_perm m). apply elem_of_map_to_list. Qed.

Lemma fail_streams_Inv k h l st w :
  Forall (λ x, is_Some (on_complete (events x.2))) l →
  Inv k (live_keys l ++ h) w → Inv k h (fail_streams user l st w).
Proof.
  intros Hl. revert w. unfold fail_streams. induction Hl as [|[id s] l Hs Hl IH]; intros w HI; simpl; [done|].
  apply IH. unfold live_keys in HI. rewrite filter_cons in HI. simpl in *.
  destruct (st_completed s); simpl in HI; [done|]. by apply Fail_Inv.
Qed.

Lemma fail_calls_Inv k h l st w :
  Forall (λ x, completed x.2 = false) l →
  Inv k (call_keys l ++ h) w → Inv k h (fail_calls user l st w).
Proof.
  intros Hl. revert w. unfold fail_calls. induction Hl as [|[id c] l Hc Hl IH]; intros w HI; simpl; [done|].
  apply IH. simpl in *. rewrite Hc. by apply call_done_Inv, cancel_timer_Inv.
Qed.

Lemma take_all_Inv w :
  Inv None [] w →
  Inv None (live_keys (map_entries (streams w)) ++ call_keys (map_entries (calls w)))
    (w <| state := kBroken |> <| session := false |> <| bodies := [] |>
       <| calls := ∅ |> <| by_stream := ∅ |> <| streams := ∅ |> <| stream_by_sid := ∅ |>).
Proof.
  intros [H1 H2 H3 H4 H5 H6 Ht H7]. split; try done.
  intros Hw id. etrans; [|exact (H7 Hw id)]. rewrite count_by_app, count_call_keys, count_live_keys.
  unfold tickets, waiting, call_live, stream_live, ended. simpl. rewrite !lookup_empty.
  rewrite count_by_nil. lia.
Qed.

Lemma OnConnectionLost_Inv w : Inv None [] w → Inv None [] (OnConnectionLost user w).
Proof.
  intros HI. unfold OnConnectionLost. case_decide; [done|].
  apply fail_pending_Inv, fail_calls_Inv.
  { apply Forall_forall. intros [id c] Hin. apply map_entries_elem in Hin. simpl.
    destruct (inv_calls _ _ _ HI _ _ Hin) as [_ Hd]. destruct (completed c); [|done]. by specialize (Hd eq_refl). }
  rewrite app_nil_r. apply fail_pending_streams_Inv, fail_streams_Inv; [|by apply take_all_Inv].
  apply Forall_forall. intros [id s] Hin. apply map_entries_elem in Hin. by eapply inv_streams.
Qed.

(** *** The tasks *)

Lemma streams_CompleteStream id st w s :
  streams (CompleteStream user id st w) !! id = Some s → st_completed s = true.
Proof.
  unfold CompleteStream. destruct (streams w !! id) as [s0|] eqn:Hs0; [|congruence].
  destruct (st_completed s0) eqn:Hd; [congruence|].
  match goal with |- context [Fail user ?a ?b ?c ?d ?x] =>
    destruct (Fail_frame a b c d x) as (_ & _ & -> & _) end.
  simpl. rewrite lookup_alter_eq. intros Hs. apply fmap_Some in Hs as (s1 & _ & ->). done.
Qed.

Lemma delete_stream_Inv k h id w :
  stream_live id w = 0%nat → Inv k h w → Inv k h (w <| streams ::= delete id |>).
Proof.
  intros Hl [H1 H2 H3 H4 H5 H6 Ht H7]. split; try done.
  - intros id' s'. simpl. rewrite lookup_delete_Some. intros [_ ?]. by eapply H2.
  - intros Hw id'. etrans; [|exact (H7 Hw id')]. unfold tickets.
    change (waiting id' (w <| streams ::= delete id |>)) with (waiting id' w).
    change (call_live id' (w <| streams ::= delete id |>)) with (call_live id' w).
    change (ended id' (w <| streams ::= delete id |>)) with (ended id' w).
    unfold stream_live in *. simpl. destruct (decide (id = id')) as [<-|].
    + rewrite lookup_delete_eq. lia.
    + by rewrite lookup_delete_ne.
Qed.

Lemma park_spec id f l ps l' :
  park id f l = Some (ps, l') → (∀ ps, ps_id (f ps) = ps_id ps ∧ ps_events (f ps) = ps_events ps) →
  map ps_id l' = map ps_id l ∧ map ps_events l' = map ps_events l.
Proof.
  intros Hp Hf. revert ps l' Hp. induction l as [|p l IH]; intros ps l'; simpl; [done|].
  destruct (ps_id p =? id).
  - intros [= <- <-]. simpl. by destruct (Hf p) as [-> ->].
  - destruct (park id f l) as [[ps0 l0]|] eqn:E; [|done]. intros [= <- <-]. simpl.
    destruct (IH _ _ eq_refl) as [-> ->]. done.
Qed.

Lemma count_ps_ids id l : count_by (λ ps, Some (ps_id ps)) id l = count_by Some id (map ps_id l).
Proof.
  induction l as [|p l IH]; [done|]. simpl. by rewrite !count_by_cons, IH.
Qed.

Lemma Forall_ps_events l :
  Forall (λ ps, is_Some (on_complete (ps_events ps))) l ↔
  Forall (λ ev, is_Some (on_complete ev)) (map ps_events l).
Proof. by rewrite Forall_map. Qed.

Lemma park_Inv k h id f w ps l :
  park id f (pending_streams w) = Some (ps, l) →
  (∀ ps, ps_id (f ps) = ps_id ps ∧ ps_events (f ps) = ps_events ps) →
  Inv k h w → Inv k h (w <| pending_streams := l |>).
Proof.
  intros Hp Hf [H1 H2 H3 H4 H5 H6 Ht H7]. destruct (park_spec _ _ _ _ _ Hp Hf) as [E1 E2].
  split; try done.
  - simpl. rewrite Forall_ps_events, E2. by rewrite <-Forall_ps_events.
  - intros Hw id'. etrans; [|exact (H7 Hw id')].
    unfold tickets, waiting, call_live, stream_live, ended. simpl.
    by rewrite !count_ps_ids, E1.
Qed.

(** The ticket of a task is in hand when it runs. *)
Definition task_tickets (t : CTask) : list Z := option_list (task_ticket (Posted t)).

Lemma run_call_Inv h id path b tm dn mrs w :
  Inv None (id :: h) w →
  Inv None h (run_call user wire submit address tcp_connect id path b tm dn mrs w).
Proof.
  intros HI. unfold run_call. set (c0 := mkCall id 0 0 (newFrameDecoder mrs) dn false).
  set (cw := if 0 <? tm then _ else _).
  assert (∃ c w1, cw = (c, w1) ∧ call_id c = id ∧ completed c = false ∧
    Inv None (id :: h) w1) as (c & w1 & -> & Hid & Hd & HI1).
  { unfold cw. destruct (0 <? tm); [|by do 2 eexists].
    pose proof (set_timer_Inv None (id :: h) tm (TCallTimeout id) w eq_refl HI) as HI2.
    destruct (SetTimer tm (TCallTimeout id) (loop w)) as [timer l]. by do 2 eexists. }
  rewrite <-Hid in HI1. destruct (state w1).
  - by apply ConnectNow_Inv, put_pending_Inv.
  - by apply put_pending_Inv.
  - by apply CallNow_Inv.
  - by apply Complete_local_Inv.
Qed.

Lemma run_stream_timeout_Inv k h id w : Inv k h w → Inv k h (run_stream_timeout user wire id w).
Proof.
  intros HI. unfold run_stream_timeout. destruct (streams w !! id) as [s|] eqn:Hs; [|done].
  destruct (st_completed s) eqn:Hd; [done|].
  set (w0 := on_stream id (λ s, s <| rst_pending := true |>) w).
  assert (HI0 : Inv k h w0) by by apply on_stream_Inv.
  match goal with |- context [CompleteStream user id deadline_status ?x] => set (w1 := x) end.
  assert (HI1 : Inv k h w1).
  { unfold w1. destruct (_ && _); [|done]. by apply stream_by_sid_Inv, call_session_Inv. }
  apply delete_stream_Inv; [|by apply CompleteStream_Inv].
  unfold stream_live.
  destruct (streams (CompleteStream user id deadline_status w1) !! id) as [s1|] eqn:Hs1; [|done].
  by rewrite (streams_CompleteStream _ _ _ _ Hs1).
Qed.

Lemma run_stream_send_Inv k h id b cb cl w :
  Inv k h w → Inv k h (run_stream_send user wire id b cb cl w).
Proof.
  intros HI. unfold run_stream_send. destruct (live_stream id w) as [s|].
  - destruct (send_closed s); [by apply call_opt_Inv|].
    destruct (kQueueBound <=? length (out_queue s))%nat; [by apply call_opt_Inv|].
    apply PumpStream_Inv. by apply on_stream_Inv.
  - destruct (park _ _ _) as [[ps l]|] eqn:Hp; [|by apply call_opt_Inv].
    destruct (kQueueBound <=? length (ps_out_queue ps))%nat; [by apply call_opt_Inv|].
    by eapply park_Inv.
Qed.

Lemma run_stream_close_send_Inv k h id w :
  Inv k h w → Inv k h (run_stream_close_send user wire id w).
Proof.
  intros HI. unfold run_stream_close_send. destruct (live_stream id w) as [s|].
  - destruct (send_closed s); [done|]. destruct (out_queue s).
    + destruct (_ && _); [apply call_session_Inv; [done|]|]; by apply on_stream_Inv.
    + by apply on_stream_Inv.
  - destruct (park _ _ _) as [[ps l]|] eqn:Hp; [|done]. by eapply park_Inv.
Qed.

Lemma run_ctask_Inv h t w :
  Inv None (task_tickets t ++ h) w →
  Inv None h (run_ctask user wire submit address tcp_connect t w).
Proof.
  intros HI. destruct t as [id path b tm dn mrs|id|id|id path ev tm|id|id b cb cl|id|id];
    unfold run_ctask, task_tickets in *; simpl in HI.
  - by apply run_call_Inv.
  - unfold run_call_timeout. destruct (calls w !! id) as [c|] eqn:Hc; [|done].
    destruct (completed c) eqn:Hd; [done|]. by eapply abandon_call_Inv.
  - unfold run_cancel. destruct (calls w !! id) as [c|] eqn:Hc; [|done].
    destruct (completed c) eqn:Hd; [done|].
    apply (abandon_call_Inv _ id); [|done|by apply cancel_timer_Inv].
    unfold cancel_timer. by destruct (_ =? 0).
  - unfold run_open_stream. destruct (on_complete ev) as [cb|] eqn:He; simpl in HI; [|done].
    assert (is_Some (on_complete ev)) by by rewrite He.
    destruct (state w).
    + by apply ConnectNow_Inv, put_pending_stream_Inv.
    + by apply put_pending_stream_Inv.
    + by apply OpenStreamNow_Inv.
    + by apply do_uops_Inv, (record_end_Inv None h id).
  - by apply run_stream_timeout_Inv.
  - by apply run_stream_send_Inv.
  - by apply run_stream_close_send_Inv.
  - by apply PumpStream_Inv.
Qed.
End Ops.
