(* ===== verification/ChannelRun.v ===== *)
(** * Runs of a channel

    The events that drive a channel, reachable worlds, and what holds of every
    run: each call and stream ends once, a lost connection ends them all, a
    response reaches its callback; and where the channel does not keep its
    contract. *)
From S2P Require Import Prelude Status CxxString Wire Codec Loop Platform Channel ChannelInv.

Section Run.
Context (user : Out → World → list UOp) (wire : Out → World → list SOp).
Context (submit : Out → World → Z) (address : string) (tcp_connect : @connect_outcome unit).

Inductive Event :=
  | EvApi (op : UOp)                         (* a public method, from any thread *)
  | EvWake
  | EvTimer (id : Z)
  | EvConnected (st : Status)                (* TcpConnect's callback *)
  | EvHeaders (sid : Z) (headers : gmap string string)
  | EvData (sid : Z) (data : option bytes)
  | EvSession (op : SOp)                     (* a closed stream, a consumed body *)
  | EvLost.                                  (* a read error *)

#[export] Program Instance channel_host : LoopHost CTask World := {|
  get_loop := loop;
  set_loop l w := w <| loop := l |>;
  run_task := run_ctask user wire submit address tcp_connect
|}.
Next Obligation. done. Qed.

Definition step (e : Event) (w : World) : World :=
  match e with
  | EvApi op => do_uop op w
  | EvWake =>
      if woken (loop w) then DrainPending (w <| loop ::= λ l, l <| woken := false |> |>) else w
  | EvTimer id => OnTimer id w
  | EvConnected st => OnConnected user wire submit address st w
  | EvHeaders sid hs => OnHeadersComplete user sid hs w
  | EvData sid data => OnData user sid data w
  | EvSession op => do_sop user op w
  | EvLost => OnConnectionLost user w
  end.

Inductive reachable : World → Prop :=
  | reach_new : reachable new_world
  | reach_step w e : reachable w → reachable (step e w).

(** ** The invariant of every run *)
Lemma channel_new_world_Inv : Inv None [] new_world.
Proof.
  split; simpl; done.
Qed.

(** The tickets of queued tasks. *)
Definition queue_tickets (q : list (Queued CTask)) : list Z :=
  concat (map (λ x, option_list (task_ticket x)) q).

Lemma count_queue_tickets id q : count_by Some id (queue_tickets q) = count_by task_ticket id q.
Proof.
  unfold queue_tickets. induction q as [|x q IH]; [done|]. simpl.
  rewrite count_by_app, count_by_cons, IH. f_equal.
  destruct (task_ticket x) as [z|]; simpl; [|done].
  rewrite count_by_cons. apply Nat.add_0_r.
Qed.

Lemma channel_run_all_Inv q w :
  Inv None (queue_tickets q) w →
  Inv None [] (fold_left (λ w q, run_queued q w) q w).
Proof.
  revert w. induction q as [|x q IH]; intros w HI; [done|]. simpl fold_left. apply IH.
  destruct x as [t|]; simpl.
  - by apply run_ctask_Inv.
  - destruct HI as [H1 H2 H3 H4 H5 H6 Ht H7]. split; try done.
Qed.

Lemma channel_DrainPending_Inv w : Inv None [] w → Inv None [] (DrainPending w).
Proof.
  intros [H1 H2 H3 H4 H5 H6 Ht H7]. apply channel_run_all_Inv. split; try done.
  intros Hw id. etrans; [|exact (H7 Hw id)].
  unfold tickets, waiting, call_live, stream_live, ended. simpl.
  rewrite count_queue_tickets, !count_by_nil. lia.
Qed.

Lemma channel_set_loop_Inv (f : LoopRunner CTask → LoopRunner CTask) w :
  pending_ (f (loop w)) = pending_ (loop w) → timers_ (f (loop w)) ⊆ timers_ (loop w) →
  Inv None [] w → Inv None [] (w <| loop ::= f |>).
Proof. intros Hp Ht. apply same_core_Inv. split_and!; try done. intros id. simpl. by rewrite Hp. Qed.

Lemma OnTimer_Inv id w : Inv None [] w → Inv None [] (OnTimer id w).
Proof.
  intros HI. unfold OnTimer. simpl. destruct (timers_ (loop w) !! id) as [x|] eqn:Hx; [|done].
  apply run_ctask_Inv. unfold task_tickets. rewrite (inv_timers _ _ _ HI _ _ Hx). simpl.
  apply (channel_set_loop_Inv (CancelTimer id)); [apply pending_CancelTimer| |done].
  unfold CancelTimer. rewrite Hx. apply delete_subseteq.
Qed.

Lemma channel_step_Inv e w : Inv None [] w → Inv None [] (step e w).
Proof.
  intros HI. destruct e as [op| |id|st|sid hs|sid data|op|]; unfold step.
  - by apply do_uop_Inv.
  - destruct (woken (loop w)); [|done]. apply channel_DrainPending_Inv.
    by apply (channel_set_loop_Inv (λ l, l <| woken := false |>)).
  - by apply OnTimer_Inv.
  - by apply OnConnected_Inv.
  - by apply OnHeadersComplete_Inv.
  - by apply channel_OnData_Inv.
  - by apply do_sop_Inv.
  - by apply OnConnectionLost_Inv.
Qed.

Lemma channel_reachable_Inv w : reachable w → Inv None [] w.
Proof. induction 1; [apply channel_new_world_Inv|by apply channel_step_Inv]. Qed.

(** ** Properties of every run *)

(** C8: every call and every stream ends exactly once or is still in one place.
    As long as the 64-bit id counter has not overflowed, an id that was given
    out is posted, waiting for the connection, live, or ended, and in exactly
    one of these once; an id that was not is nowhere.  So the terminal callback
    of a call or stream is never run twice and no call or stream is lost. *)
Theorem ends_exactly_once w id :
  reachable w → wrapped w = false →
  (waiting id w + call_live id w + stream_live id w + ended id w)%nat =
    if decide (id ∈ issued w) then 1%nat else 0%nat.
Proof.
  intros Hr Hw. pose proof (inv_tickets _ _ _ (channel_reachable_Inv _ Hr) Hw id) as Ht.
  rewrite count_by_nil, Nat.add_0_r in Ht. exact Ht.
Qed.

(** *** The loss of the connection *)
Lemma Complete_frame c st p w :
  streams (Complete user c st p w) = streams w ∧ pending (Complete user c st p w) = pending w ∧
  pending_streams (Complete user c st p w) = pending_streams w ∧
  state (Complete user c st p w) = state w ∧ (calls w = ∅ → calls (Complete user c st p w) = ∅).
Proof.
  unfold Complete. destruct (completed c); [done|].
  match goal with |- context [call_done user ?a ?b ?s ?p ?x] =>
    destruct (call_done_frame user a b s p x) as (-> & _ & -> & _ & -> & -> & -> & _) end.
  unfold cancel_timer. destruct (sid c =? 0), (timeout_timer c =? 0); split_and!; try done;
    simpl; intros ->; by rewrite delete_empty.
Qed.

Lemma fail_pending_frame n st w :
  streams (fail_pending user n st w) = streams w ∧
  pending_streams (fail_pending user n st w) = pending_streams w ∧
  state (fail_pending user n st w) = state w ∧
  (calls w = ∅ → calls (fail_pending user n st w) = ∅) ∧
  ((length (pending w) ≤ n)%nat → pending (fail_pending user n st w) = []).
Proof.
  revert w. induction n as [|n IH]; intros w; simpl.
  { split_and!; try done. intros H. apply length_zero_iff_nil. lia. }
  destruct (pending w) as [|pc rest] eqn:Hp; [done|].
  match goal with |- context [fail_pending user n st (Complete user ?c st [] ?x)] =>
    destruct (IH (Complete user c st [] x)) as (-> & -> & -> & Hc & Hn);
    destruct (Complete_frame c st [] x) as (-> & E & -> & -> & Hc') end.
  split_and!; try done; [auto|]. intros Hl. apply Hn. rewrite E. simpl in *. lia.
Qed.

Lemma fail_pending_streams_frame n st w :
  streams (fail_pending_streams user n st w) = streams w ∧
  calls (fail_pending_streams user n st w) = calls w ∧
  state (fail_pending_streams user n st w) = state w ∧
  ((length (pending_streams w) ≤ n)%nat → pending_streams (fail_pending_streams user n st w) = []).
Proof.
  revert w. induction n as [|n IH]; intros w; simpl.
  { split_and!; try done. intros H. apply length_zero_iff_nil. lia. }
  destruct (pending_streams w) as [|ps rest] eqn:Hp; [done|].
  match goal with |- context [fail_pending_streams user n st (Fail user ?i ?ev ?q st ?x)] =>
    destruct (IH (Fail user i ev q st x)) as (-> & -> & -> & Hn);
    destruct (Fail_frame user i ev q st x) as (-> & _ & -> & _ & _ & E & -> & _) end.
  split_and!; try done. intros Hl. apply Hn. rewrite E. simpl in *. lia.
Qed.

Lemma fail_streams_frame l st w : user_frame w (fail_streams user l st w).
Proof.
  unfold fail_streams. revert w. induction l as [|[id s] l IH]; intros w; simpl;
    [apply user_frame_refl|].
  eapply user_frame_trans; [|apply IH]. destruct (st_completed s); [apply user_frame_refl|].
  apply Fail_frame.
Qed.

Lemma fail_calls_frame l st w : user_frame w (fail_calls user l st w).
Proof.
  unfold fail_calls. revert w. induction l as [|[id c] l IH]; intros w; simpl;
    [apply user_frame_refl|].
  eapply user_frame_trans; [|apply IH]. destruct (completed c); [apply user_frame_refl|].
  eapply user_frame_trans; [|apply call_done_frame].
  unfold cancel_timer. by destruct (_ =? 0).
Qed.

(** C15: a lost connection ends everything.  When a connection that was not broken
    is lost, nothing stays live and nothing stays waiting for it: every call and
    stream whose task has run has had its terminal callback, once; the others
    are still posted. *)
Theorem connection_lost_ends_all w id :
  reachable w → state w ≠ kBroken → wrapped (step EvLost w) = false →
  let w' := step EvLost w in
  state w' = kBroken ∧ calls w' = ∅ ∧ streams w' = ∅ ∧ pending w' = [] ∧ pending_streams w' = [] ∧
  (id ∈ issued w' →
    (count_by task_ticket id (pending_ (loop w')) + ended id w')%nat = 1%nat).
Proof.
  intros Hr Hs Hw w'. pose proof (inv_tickets _ _ _ (channel_reachable_Inv _ (reach_step _ EvLost Hr)) Hw id) as Ht.
  assert (state w' = kBroken ∧ calls w' = ∅ ∧ streams w' = ∅ ∧ pending w' = [] ∧
    pending_streams w' = []) as (E1 & E2 & E3 & E4 & E5).
  { unfold w', step, OnConnectionLost. rewrite decide_False by done.
    set (w1 := w <| state := kBroken |> <| session := false |> <| bodies := [] |>
       <| calls := ∅ |> <| by_stream := ∅ |> <| streams := ∅ |> <| stream_by_sid := ∅ |>).
    set (w2 := fail_streams user _ connection_lost w1).
    destruct (fail_streams_frame (map_entries (streams w)) connection_lost w1)
      as (A1 & _ & A3 & _ & A5 & A6 & A7 & _). fold w2 in A1, A3, A5, A6, A7.
    set (w3 := fail_pending_streams user _ connection_lost w2).
    destruct (fail_pending_streams_frame (length (pending_streams w2)) connection_lost w2)
      as (B1 & B2 & B3 & B4). fold w3 in B1, B2, B3, B4.
    set (w4 := fail_calls user _ connection_lost w3).
    destruct (fail_calls_frame (map_entries (calls w)) connection_lost w3)
      as (C1 & _ & C3 & _ & C5 & C6 & C7 & _). fold w4 in C1, C3, C5, C6, C7.
    unfold FailPending.
    destruct (fail_pending_frame (length (pending w4)) connection_lost w4) as (-> & -> & -> & D4 & D5).
    rewrite C3, B1, A3, C6, B4, C7, B3, A7 by done. split_and!; try done.
    - apply D4. by rewrite C1, B2, A1.
    - by apply D5. }
  split_and!; try done. intros Hin. rewrite decide_True in Ht by done.
  unfold tickets, waiting, call_live, stream_live in Ht. rewrite count_by_nil in Ht.
  change (step EvLost w) with w' in Ht. rewrite E2, E3, E4, E5, !lookup_empty, !count_by_nil in Ht. lia.
Qed.

(** A connect that fails forgets the streams.  When the connection cannot be
    made, the waiting calls are ended with its status, but the streams that
    wait for it stay where they are: nothing ends them, and a later loss of the
    connection does nothing, since the channel is already broken. *)
Theorem connect_failure_forgets_streams st w :
  ok st = false →
  let w' := step (EvConnected st) w in
  pending w' = [] ∧ pending_streams w' = pending_streams w ∧ streams w' = streams w ∧
  step EvLost w' = w'.
Proof.
  intros Hst w'. unfold w', step, OnConnected. rewrite Hst. simpl negb. cbn match.
  unfold FailPending. set (w1 := w <| state := kBroken |>).
  destruct (fail_pending_frame (length (pending w1)) st w1) as (E1 & E2 & E3 & _ & E5).
  split_and!; [by apply E5|done|done|]. unfold OnConnectionLost. by rewrite E3.
Qed.

(** A call that waits for the connection cannot be given up.  While a call is
    in the queue for the connection, its timeout and its cancellation find
    nothing to end: neither runs the callback, and the call stays queued. *)
Theorem waiting_call_not_given_up w pc :
  reachable w → wrapped w = false → pc ∈ pending w →
  run_call_timeout user wire (call_id (pc_call pc)) w = w ∧
  run_cancel user wire (call_id (pc_call pc)) w = w.
Proof.
  intros Hr Hw Hin. set (id := call_id (pc_call pc)).
  pose proof (inv_tickets _ _ _ (channel_reachable_Inv _ Hr) Hw id) as Ht.
  assert (1 ≤ count_by (λ pc, Some (call_id (pc_call pc))) id (pending w))%nat.
  { apply list_elem_of_split in Hin as (l1 & l2 & ->).
    rewrite count_by_app, count_by_cons, decide_True by done. lia. }
  assert (calls w !! id = None) as Hn.
  { unfold tickets, waiting, call_live in Ht. destruct (calls w !! id); [|done].
    destruct (decide (id ∈ issued w)); lia. }
  unfold run_call_timeout, run_cancel. by rewrite Hn.
Qed.
End Run.

(** ** A concrete run *)
#[local] Abbreviation demo_step :=
  (step (λ _ _, []) (λ _ _, []) (λ _ _, 1) "127.0.0.1:80" (Connecting tt)).
#[local] Abbreviation demo_reachable :=
  (reachable (λ _ _, []) (λ _ _, []) (λ _ _, 1) "127.0.0.1:80" (Connecting tt)).

(** A call and a stream that wait for the connection. *)
Definition demo_waiting : World :=
  demo_step EvWake (demo_step (EvApi (ApiOpenStream "/a.S/M" (mkEvents None (Some 2%nat)) 0))
    (demo_step (EvApi (ApiCall "/a.S/N" [] 0 (Some 1%nat))) new_world)).

Lemma demo_waiting_reachable : demo_reachable demo_waiting.
Proof. repeat constructor. Qed.

Lemma ends_exactly_once_witness :
  (waiting 1 demo_waiting + call_live 1 demo_waiting + stream_live 1 demo_waiting +
   ended 1 demo_waiting)%nat = 1%nat.
Proof.
  apply (ends_exactly_once (λ _ _, []) (λ _ _, []) (λ _ _, 1) "127.0.0.1:80" (Connecting tt)
    demo_waiting 1).
  - apply demo_waiting_reachable.
  - reflexivity.
Defined.

Lemma connection_lost_ends_all_witness :
  let w' := demo_step EvLost demo_waiting in
  state w' = kBroken ∧ calls w' = ∅ ∧ streams w' = ∅ ∧ pending w' = [] ∧ pending_streams w' = [] ∧
  (2 ∈ issued w' → (count_by task_ticket 2%Z (pending_ (loop w')) + ended 2 w')%nat = 1%nat).
Proof.
  apply (connection_lost_ends_all (λ _ _, []) (λ _ _, []) (λ _ _, 1) "127.0.0.1:80" (Connecting tt)
    demo_waiting 2).
  - apply demo_waiting_reachable.
  - vm_compute. discriminate.
  - vm_compute. reflexivity.
Defined.

Lemma connect_failure_forgets_streams_witness :
  let st := mkStatus kUnavailable "connection refused" in
  let w' := demo_step (EvConnected st) demo_waiting in
  pending w' = [] ∧ pending_streams w' = pending_streams demo_waiting ∧
  streams w' = streams demo_waiting ∧ demo_step EvLost w' = w'.
Proof.
  intros st. apply (connect_failure_forgets_streams (λ _ _, []) (λ _ _, []) (λ _ _, 1)
    "127.0.0.1:80" (Connecting tt) st demo_waiting). reflexivity.
Defined.
