(* ===== verification/ChannelCalls.v ===== *)
(** * What the channel does for a call and a stream

    The paths of a response: a unary response reaches its callback, streamed
    messages reach theirs in order and are followed by the status; and what a
    stream that is closed without trailers does to the channel's tables. *)
From S2P Require Import Prelude Status CxxString Wire Codec Loop Platform Channel ChannelInv ChannelRun.

Lemma alter_lookup_insert {A} (f : A → A) (m : gmap Z A) i x :
  m !! i = Some x → alter f i m = <[i := f x]> m.
Proof.
  intros H. apply map_eq. intros j. rewrite lookup_alter, lookup_insert. case_decide; [|done].
  subst. by rewrite H.
Qed.

(** ** Queues of decoders *)

(** What a decoder is when its queue has been taken. *)
Definition drained (d : FrameDecoder) : FrameDecoder :=
  d <| messages_ := [] |>
    <| message_count_ ::= λ n, (Nat.iter (length (messages_ d)) (λ n, u64 (n + 1)) n) |>.

Lemma iter_shift {A} n (f : A → A) x : Nat.iter n f (f x) = f (Nat.iter n f x).
Proof. induction n as [|n IH]; [done|]. simpl. by rewrite IH. Qed.

Lemma drained_take d m q :
  messages_ d = m :: q →
  drained (d <| messages_ := q |> <| message_count_ := u64 (message_count_ d + 1) |>) = drained d.
Proof.
  intros E. unfold drained. rewrite E. destruct d; simpl in *. f_equal.
  by rewrite (iter_shift _ (λ n, u64 (n + 1))).
Qed.

Lemma requeue_drained d : requeue (messages_ d) (message_count_ d) (drained d) = d.
Proof. destruct d. unfold requeue, drained. simpl. by rewrite app_nil_r. Qed.

(** What is decoded later comes after what was decoded first. *)
Lemma feed_split d1 chunks d :
  feed d1 chunks = (Ok, d) →
  ∃ d2, feed (drained d1) chunks = (Ok, d2) ∧ messages_ d = messages_ d1 ++ messages_ d2.
Proof.
  rewrite <-(requeue_drained d1) at 1. rewrite feed_requeue.
  destruct (feed (drained d1) chunks) as [st d2]. intros [= -> <-]. by exists d2.
Qed.

(** A message of which the end is missing is not delivered. *)
Lemma feed_unfinished limit m chunks rest :
  0 ≤ limit → fits limit m → concat chunks ++ rest = EncodeFrame m [] → rest ≠ [] →
  ∃ d, feed (newFrameDecoder limit) chunks = (Ok, d) ∧ messages_ d = [].
Proof.
  intros Hl Hm Hcat Hne. pose proof (newFrameDecoder_wf limit Hl) as Hwf.
  assert (Hf : feed (newFrameDecoder limit) (chunks ++ [rest]) =
    (Ok, (newFrameDecoder limit) <| messages_ := [m] |>)).
  { apply feed_frames; [done|by rewrite Forall_singleton|].
    rewrite concat_app, frames_single, <-Hcat. simpl. by rewrite app_nil_r. }
  rewrite feed_app in Hf. destruct (feed (newFrameDecoder limit) chunks) as [st d] eqn:Hd.
  assert (Hok : ok st = true) by (destruct (ok st) eqn:E; [done|by injection Hf as -> _]).
  rewrite Hok in Hf. rewrite (ok_Ok_feed _ _ _ _ Hd Hok Hwf) in Hd |- *. exists d. split; [done|].
  destruct (feed_split _ _ _ Hf) as (d2 & _ & E). simpl in E.
  destruct (messages_ d) as [|m1 q] eqn:Eq; [done|].
  injection E as <- E. symmetry in E. apply app_eq_nil in E as [-> _].
  destruct (feed_view chunks (newFrameDecoder limit) d) as (_ & _ & _ & Hv); [done| |done|].
  { unfold decoder_waiting. simpl. unfold kPrefixLen. lia. }
  unfold framed_view in Hv. rewrite Eq, frames_single, <-Hcat in Hv.
  apply (f_equal length) in Hv. rewrite !length_app in Hv. simpl in Hv.
  destruct rest; [done|simpl in Hv; lia].
Qed.

(** A decoder between two messages. *)
Definition at_boundary (limit : Z) (d : FrameDecoder) : Prop :=
  0 ≤ limit ∧ max_message_size_ d = limit ∧ have_header_ d = false ∧ needed_ d = 0 ∧ flag_ d = 0 ∧
  buffer_ d = [] ∧ messages_ d = [].

Lemma new_at_boundary limit : 0 ≤ limit → at_boundary limit (newFrameDecoder limit).
Proof. intros Hl. unfold at_boundary. by split_and!. Qed.

Lemma boundary_waits limit d : at_boundary limit d → decoder_wf d ∧ decoder_waiting d.
Proof.
  intros (Hl & <- & Hh & Hn & Hf & Hb & Hm). unfold decoder_wf, decoder_waiting.
  rewrite Hh, Hb, Hm. split_and!; [done..|constructor|]. unfold kPrefixLen. simpl. lia.
Qed.

Lemma boundary_drained limit d q : at_boundary limit d → at_boundary limit (drained (d <| messages_ := q |>)).
Proof. intros (? & ? & ? & ? & ? & ? & ?). unfold at_boundary. by split_and!. Qed.

Lemma feed_boundary limit d m chunks :
  at_boundary limit d → fits limit m → concat chunks = EncodeFrame m [] →
  feed d chunks = (Ok, d <| messages_ := [m] |>) ∧ pending_bytes (d <| messages_ := [m] |>) = [].
Proof.
  intros Hd Hm Hcat. destruct (boundary_waits _ _ Hd) as [Hwf Hw].
  destruct Hd as (Hl & Hmax & Hh & Hn & Hf & Hb & Hq).
  assert (HC : Consume (frames [m]) d = (Ok, d <| messages_ := [m] |>)).
  { rewrite Consume_frames by (try done; rewrite Hmax; by apply Forall_singleton).
    f_equal. destruct d; simpl in *. by rewrite Hq. }
  destruct (feed_concat chunks d Hwf Hw) as (Hst & _ & Heq).
  rewrite Hcat, <-frames_single, HC in *. split; [symmetry; apply Heq; by rewrite <-Hst|].
  unfold pending_bytes. simpl. by rewrite Hh, Hb.
Qed.

(** When one message is decoded in all, nothing follows the chunk that ends it. *)
Lemma feed_last chunks d1 d m m1 q :
  decoder_wf d1 → decoder_waiting d1 → feed d1 chunks = (Ok, d) →
  messages_ d1 = m1 :: q → messages_ d = [m] → pending_bytes d = [] →
  m1 = m ∧ q = [] ∧ concat chunks = [] ∧ d = d1.
Proof.
  intros Hwf Hw Hfeed Hm1 Hm Hp. destruct (feed_split _ _ _ Hfeed) as (d2 & _ & Em).
  rewrite Hm, Hm1 in Em. injection Em as <- Em. symmetry in Em. apply app_eq_nil in Em as [-> _].
  assert (concat chunks = []) as Hnil.
  { destruct (feed_view chunks d1 d Hwf Hw Hfeed) as (_ & _ & _ & Hv).
    unfold framed_view in Hv. rewrite Hm, Hp, Hm1, app_nil_r, <-(assoc_L (++)) in Hv.
    apply (f_equal length) in Hv. rewrite !length_app in Hv.
    apply length_zero_iff_nil. lia. }
  destruct (feed_concat chunks d1 Hwf Hw) as (_ & _ & E).
  rewrite Hnil, Consume_nil, Hfeed in E by done. injection (E eq_refl). done.
Qed.

Section Deliver.
Context (user : Out → World → list UOp) (wire : Out → World → list SOp).
Context (submit : Out → World → Z) (address : string) (tcp_connect : @connect_outcome unit).
#[local] Abbreviation chan := (step user wire submit address tcp_connect).
#[local] Abbreviation chan_run := (fold_left (λ w e, chan e w)).

(** The messages a decoder lets a live call keep. *)
Lemma trace_call_done id cb st p w :
  trace (call_done user id cb st p w) = trace w ++ [UserDone id cb st p].
Proof. destruct cb; [|done]. unfold call_done, call_user. by rewrite do_uops_trace. Qed.

Lemma trace_call_user o w : trace (call_user user o w) = trace w ++ [o].
Proof. unfold call_user. by rewrite do_uops_trace. Qed.

Lemma trace_Complete c st p w :
  completed c = false →
  trace (Complete user c st p w) = trace w ++ [UserDone (call_id c) (done c) st p].
Proof.
  intros Hc. unfold Complete. rewrite Hc, trace_call_done. unfold cancel_timer.
  by destruct (sid c =? 0), (timeout_timer c =? 0).
Qed.

Lemma calls_Complete c st p w :
  completed c = false → calls (Complete user c st p w) = delete (call_id c) (calls w).
Proof.
  intros Hc. unfold Complete. rewrite Hc.
  match goal with |- context [call_done user ?a ?b st p ?x] =>
    destruct (call_done_frame user a b st p x) as (-> & _) end.
  unfold cancel_timer. by destruct (sid c =? 0), (timeout_timer c =? 0).
Qed.

(** ** Unary calls *)

(** A unary call whose response has not begun. *)
Definition call_waiting (limit sid id : Z) (c : Call) (w : World) : Prop :=
  stream_by_sid w !! sid = None ∧ by_stream w !! sid = Some id ∧ calls w !! id = Some c ∧
  call_id c = id ∧ completed c = false ∧ decoder c = newFrameDecoder limit.

Lemma OnData_call_chunk sid id c b st d w :
  stream_by_sid w !! sid = None → by_stream w !! sid = Some id → calls w !! id = Some c →
  completed c = false → decoder_wf (decoder c) → decoder_waiting (decoder c) →
  Consume b (decoder c) = (st, d) → ok st = true →
  OnData user sid (Some b) w = w <| calls ::= <[id := c <| decoder := d |>]> |>.
Proof.
  intros Hs Hb Hc Hd Hwf Hw HC Hst. unfold OnData. rewrite Hs, Hb, Hc, Hd.
  destruct b as [|x b].
  - rewrite Consume_nil in HC by done. injection HC as <- <-.
    destruct w; simpl in *. f_equal. rewrite insert_id; [done|]. by destruct c.
  - rewrite HC, Hst. done.
Qed.

Lemma OnData_call_chunks sid id c chunks d w :
  stream_by_sid w !! sid = None → by_stream w !! sid = Some id → calls w !! id = Some c →
  completed c = false → decoder_wf (decoder c) → decoder_waiting (decoder c) →
  feed (decoder c) chunks = (Ok, d) →
  chan_run (map (λ b, EvData sid (Some b)) chunks) w =
    w <| calls ::= <[id := c <| decoder := d |>]> |>.
Proof.
  revert w c. induction chunks as [|b chunks IH]; intros w c Hs Hb Hc Hd Hwf Hw Hf; simpl in *.
  { simplify_eq. destruct w; simpl in *. f_equal. rewrite insert_id; [done|]. by destruct c. }
  destruct (Consume b (decoder c)) as [st d1] eqn:HC.
  destruct (Consume_view _ _ _ _ Hwf HC) as (Hwf1 & _ & Hok).
  destruct (ok st) eqn:Hst; [|by simplify_eq].
  rewrite (OnData_call_chunk sid id c b st d1 w) by done.
  rewrite (IH _ (c <| decoder := d1 |>)); try done.
  - simpl. destruct w; simpl. f_equal. by rewrite insert_insert_eq.
  - simpl. by rewrite lookup_insert_eq.
  - by apply Hok.
Qed.

Lemma deliver_unary limit sid id c w hs m chunks trailers gs :
  call_waiting limit sid id c w →
  hs !! "grpc-status" = None → hs !! ":status" = Some "200" →
  trailers !! "grpc-status" = Some gs →
  0 ≤ limit → fits limit m → concat chunks = EncodeFrame m [] →
  let w' := chan_run (EvHeaders sid hs :: map (λ b, EvData sid (Some b)) chunks ++
              [EvHeaders sid trailers]) w in
  trace w' = trace w ++
    [UserDone id (done c) (mkStatus (GrpcStatusFromInt gs kInternal) (grpc_message trailers)) m] ∧
  calls w' = delete id (calls w).
Proof.
  intros (Hs & Hb & Hc & Hid & Hd & Hdec) Hh H200 Ht Hl Hm Hcat. simpl fold_left.
  assert (OnHeadersComplete user sid hs w = w) as ->.
  { unfold OnHeadersComplete, bad_http_status. by rewrite Hs, Hb, Hc, Hh, H200, bool_decide_true. }
  rewrite fold_left_app.
  pose proof (feed_frames limit [m] chunks Hl) as Hf. rewrite frames_single, Forall_singleton in Hf.
  specialize (Hf Hm Hcat).
  rewrite (OnData_call_chunks sid id c chunks ((newFrameDecoder limit) <| messages_ := [m] |>));
    try done; rewrite ?Hdec; [|by apply newFrameDecoder_wf
                              |unfold decoder_waiting; simpl; unfold kPrefixLen; lia|done].
  simpl. unfold OnHeadersComplete. simpl stream_by_sid. simpl by_stream.
  rewrite Hs, Hb. simpl calls. rewrite lookup_insert_eq, Ht. simpl.
  rewrite trace_Complete, calls_Complete by done. simpl. rewrite Hid. split; [done|].
  apply delete_insert_eq.
Qed.

(** A unary response is delivered.  When the response to a live call is a
    header block with status 200, one message framed within the call's limit and
    cut into DATA chunks in any way, and trailers with a gRPC status, the
    callback of the call runs once, with that status and message and exactly
    the payload; nothing else reaches the user or the wire, and the call is
    gone. *)
Theorem unary_response_delivered limit sid id c w hs m chunks trailers gs :
  call_waiting limit sid id c w →
  hs !! "grpc-status" = None → hs !! ":status" = Some "200" →
  trailers !! "grpc-status" = Some gs →
  0 ≤ limit → fits limit m → concat chunks = EncodeFrame m [] →
  let w' := chan_run (EvHeaders sid hs :: map (λ b, EvData sid (Some b)) chunks ++
              [EvHeaders sid trailers]) w in
  trace w' = trace w ++
    [UserDone id (done c) (mkStatus (GrpcStatusFromInt gs kInternal) (grpc_message trailers)) m] ∧
  calls w' = delete id (calls w).
Proof. apply deliver_unary. Qed.

(** A response that is cut short passes for an empty one.  When the DATA of the
    response to a live call ends before its message is complete and trailers
    with status 0 follow, the callback gets OK and an empty payload.  (A sender
    that submits trailers while a body waits for the flow-control window, as
    the server's [Respond] does, makes nghttp2 send them first.) *)
Theorem cut_response_is_ok limit sid id c w hs m chunks rest trailers :
  call_waiting limit sid id c w →
  hs !! "grpc-status" = None → hs !! ":status" = Some "200" →
  trailers !! "grpc-status" = Some "0" → trailers !! "grpc-message" = None →
  0 ≤ limit → fits limit m → concat chunks ++ rest = EncodeFrame m [] → rest ≠ [] →
  trace (chan_run (EvHeaders sid hs :: map (λ b, EvData sid (Some b)) chunks ++
           [EvHeaders sid trailers]) w) = trace w ++ [UserDone id (done c) Ok []].
Proof.
  intros (Hs & Hb & Hc & Hid & Hd & Hdec) Hh H200 Ht Htm Hl Hm Hcat Hne. simpl fold_left.
  assert (OnHeadersComplete user sid hs w = w) as ->.
  { unfold OnHeadersComplete, bad_http_status. by rewrite Hs, Hb, Hc, Hh, H200, bool_decide_true. }
  rewrite fold_left_app. destruct (feed_unfinished limit m chunks rest) as (d & Hf & Hq); [done..|].
  rewrite (OnData_call_chunks sid id c chunks d);
    try done; rewrite ?Hdec; [|by apply newFrameDecoder_wf
                              |unfold decoder_waiting; simpl; unfold kPrefixLen; lia|done].
  simpl. unfold OnHeadersComplete. simpl stream_by_sid. simpl by_stream.
  rewrite Hs, Hb. simpl calls. rewrite lookup_insert_eq, Ht. simpl. unfold TakeMessage. rewrite Hq.
  rewrite trace_Complete by done. simpl. rewrite Hid. unfold grpc_message. by rewrite Htm.
Qed.

(** ** Streams *)
Definition stream_ready (id sid : Z) (s : Stream) (w : World) : Prop :=
  stream_by_sid w !! sid = Some id ∧ streams w !! id = Some s ∧ st_completed s = false.

Lemma deliver_messages_run n id s cb w :
  streams w !! id = Some s → on_message (events s) = Some cb →
  n = length (messages_ (st_decoder s)) →
  let w' := deliver_messages user n id w in
  trace w' = trace w ++ map (UserMessage id cb Ok) (messages_ (st_decoder s)) ∧
  streams w' = <[id := s <| st_decoder := drained (st_decoder s) |>]> (streams w) ∧
  stream_by_sid w' = stream_by_sid w.
Proof.
  revert s w. induction n as [|n IH]; intros s w Hs Hcb Hn; cbv zeta;
    cbn [deliver_messages].
  { destruct (messages_ (st_decoder s)) as [|m q] eqn:E; [|done]. simpl. rewrite app_nil_r.
    split_and!; try done. rewrite insert_id; [done|]. rewrite Hs. f_equal.
    unfold drained. rewrite E. destruct s as [? ? ? [] ? ? ? ? ? ?]; simpl in *. by subst. }
  rewrite Hs. destruct (messages_ (st_decoder s)) as [|m q] eqn:E; [done|].
  unfold TakeMessage. rewrite E. cbn match. rewrite Hcb. cbn [call_opt].
  set (d1 := (st_decoder s) <| messages_ := q |> <| message_count_ := _ |>).
  set (w1 := on_stream id (λ s, s <| st_decoder := d1 |>) w).
  destruct (call_user_frame user (UserMessage id cb Ok m) w1) as (_ & _ & Fs & Fb & _).
  assert (E1 : streams w1 = <[id := s <| st_decoder := d1 |>]> (streams w)).
  { unfold w1, on_stream. simpl. by rewrite (alter_lookup_insert _ _ _ s). }
  destruct (IH (s <| st_decoder := d1 |>) (call_user user (UserMessage id cb Ok m) w1))
    as (-> & -> & ->); [|done|simpl in Hn |- *; lia|].
  - by rewrite Fs, E1, lookup_insert_eq.
  - rewrite trace_call_user, Fs, Fb, E1. simpl. rewrite <-(assoc_L (++)). split_and!; [done| |done].
    rewrite insert_insert_eq. f_equal. unfold d1. by rewrite (drained_take _ m q).
Qed.

Lemma OnData_stream_chunk id sid s cb b d w :
  stream_ready id sid s w → on_message (events s) = Some cb → messages_ (st_decoder s) = [] →
  decoder_wf (st_decoder s) → decoder_waiting (st_decoder s) →
  Consume b (st_decoder s) = (Ok, d) →
  let w' := OnData user sid (Some b) w in
  trace w' = trace w ++ map (UserMessage id cb Ok) (messages_ d) ∧
  stream_ready id sid (s <| st_decoder := drained d |>) w'.
Proof.
  intros (Hb & Hs & Hd) Hcb Hq Hwf Hw HC. unfold OnData. rewrite Hb, Hs, Hd.
  destruct b as [|x b].
  { rewrite Consume_nil in HC by done. injection HC as <-. rewrite Hq. simpl.
    rewrite app_nil_r. split; [done|]. split_and!; try done.
    rewrite Hs. f_equal. unfold drained. rewrite Hq. destruct s as [? ? ? [] ? ? ? ? ? ?].
    simpl in *. by subst. }
  rewrite HC. change (ok Ok) with true. cbn [negb].
  set (w1 := on_stream id (λ s, s <| st_decoder := d |>) w).
  assert (E1 : streams w1 = <[id := s <| st_decoder := d |>]> (streams w)).
  { unfold w1, on_stream. simpl. by rewrite (alter_lookup_insert _ _ _ s). }
  destruct (deliver_messages_run (length (messages_ d)) id (s <| st_decoder := d |>) cb w1)
    as (E & Es & Eb); [by rewrite E1, lookup_insert_eq|done|done|].
  rewrite E. split; [done|]. split_and!; [by rewrite Eb| |done].
  by rewrite Es, lookup_insert_eq.
Qed.

Lemma OnData_stream_chunks id sid s cb chunks d w :
  stream_ready id sid s w → on_message (events s) = Some cb → messages_ (st_decoder s) = [] →
  decoder_wf (st_decoder s) → decoder_waiting (st_decoder s) →
  feed (st_decoder s) chunks = (Ok, d) →
  let w' := chan_run (map (λ b, EvData sid (Some b)) chunks) w in
  trace w' = trace w ++ map (UserMessage id cb Ok) (messages_ d) ∧
  ∃ n, stream_ready id sid (s <| st_decoder := d <| messages_ := [] |> <| message_count_ := n |> |>) w'.
Proof.
  revert w s d. induction chunks as [|b chunks IH]; intros w s d Hr Hcb Hq Hwf Hw Hf; simpl in *.
  { injection Hf as <-. rewrite Hq, app_nil_r. split; [done|].
    exists (message_count_ (st_decoder s)). destruct s as [? ? ? [] ? ? ? ? ? ?]. simpl in *. by subst. }
  destruct (Consume b (st_decoder s)) as [st d1] eqn:HC.
  destruct (Consume_view _ _ _ _ Hwf HC) as (Hwf1 & _ & Hok).
  destruct (ok st) eqn:Hst; [|by simplify_eq]. destruct (Hok eq_refl) as [-> Hw1].
  destruct (OnData_stream_chunk id sid s cb b d1 w) as [E Hr1]; try done.
  rewrite <-(requeue_drained d1), feed_requeue in Hf.
  destruct (feed (drained d1) chunks) as [st2 d2] eqn:Hf2. injection Hf as -> <-.
  destruct (IH _ (s <| st_decoder := drained d1 |>) d2 Hr1) as [-> [n Hn]]; try done.
  - destruct Hwf1 as (? & ? & ?). by split_and!.
  - rewrite E. simpl. rewrite map_app, (assoc_L (++)). split; [done|]. by exists n.
Qed.

(** What the callbacks of a queue of unsent messages are told. *)
Definition flushed (q : list OutMsg) (st : Status) : list Out :=
  omap (λ m, (λ cb, UserFlushed cb st) <$> cb m) q.

Lemma trace_answer_queue q st w :
  trace (answer_queue user q st w) = trace w ++ flushed q st.
Proof.
  unfold answer_queue. revert w. induction q as [|m q IH]; intros w; simpl; [by rewrite app_nil_r|].
  rewrite IH. destruct (cb m); simpl; [|done]. by rewrite trace_call_user, <-(assoc_L (++)).
Qed.

Lemma trace_CompleteStream id s cb st w :
  streams w !! id = Some s → st_completed s = false → on_complete (events s) = Some cb →
  trace (CompleteStream user id st w) =
    trace w ++ flushed (out_queue s) st ++ [UserComplete id cb st].
Proof.
  intros Hs Hd Hcb. unfold CompleteStream, Fail. rewrite Hs, Hd, Hcb. cbn [call_opt].
  rewrite trace_call_user, trace_answer_queue, <-(assoc_L (++)). f_equal.
  simpl. unfold cancel_timer. by destruct (st_sid s =? 0), (st_timeout_timer s =? 0).
Qed.

(** The headers of a response change nothing; its trailers end the stream. *)
Lemma response_opens id sid s hs w :
  stream_ready id sid s w → hs !! "grpc-status" = None → hs !! ":status" = Some "200" →
  OnHeadersComplete user sid hs w = w.
Proof.
  intros (Hb & Hs & Hd) Hh H200. unfold OnHeadersComplete, bad_http_status.
  by rewrite Hb, Hs, Hd, Hh, H200, bool_decide_true.
Qed.

Lemma response_ends id sid s trailers gs on_c w :
  stream_ready id sid s w → on_complete (events s) = Some on_c → trailers !! "grpc-status" = Some gs →
  let st := mkStatus (GrpcStatusFromInt gs kInternal) (grpc_message trailers) in
  trace (OnHeadersComplete user sid trailers w) =
    trace w ++ flushed (out_queue s) st ++ [UserComplete id on_c st].
Proof.
  intros (Hb & Hs & Hd) Hev Ht st. unfold OnHeadersComplete. rewrite Hb, Hs, Hd, Ht.
  by rewrite (trace_CompleteStream _ _ on_c _ _ Hs).
Qed.

Lemma deliver_stream limit id sid s w hs ms chunks trailers gs on_m on_c :
  stream_ready id sid s w → st_decoder s = newFrameDecoder limit →
  events s = mkEvents (Some on_m) (Some on_c) →
  hs !! "grpc-status" = None → hs !! ":status" = Some "200" →
  trailers !! "grpc-status" = Some gs →
  0 ≤ limit → Forall (fits limit) ms → concat chunks = frames ms →
  let st := mkStatus (GrpcStatusFromInt gs kInternal) (grpc_message trailers) in
  trace (chan_run (EvHeaders sid hs :: map (λ b, EvData sid (Some b)) chunks ++
           [EvHeaders sid trailers]) w) =
    trace w ++ map (UserMessage id on_m Ok) ms ++ flushed (out_queue s) st ++
    [UserComplete id on_c st].
Proof.
  intros Hr Hdec Hev Hh H200 Ht Hl Hms Hcat st. simpl fold_left.
  rewrite (response_opens id sid s) by done. rewrite fold_left_app.
  destruct (OnData_stream_chunks id sid s on_m chunks ((newFrameDecoder limit) <| messages_ := ms |>) w)
    as [E [n Hr2]]; try done; rewrite ?Hdec; try done.
  - by rewrite Hev.
  - unfold decoder_waiting. simpl. unfold kPrefixLen. lia.
  - by apply feed_frames.
  - cbn [fold_left step]. rewrite (response_ends id sid _ trailers gs on_c _ Hr2); [|simpl; by rewrite Hev|done].
    rewrite E. simpl. by rewrite <-(assoc_L (++)).
Qed.

(** Streamed responses are delivered in order, then the status.  When the
    response to a live stream is headers with status 200, any number of
    messages within the stream's limit, cut into DATA chunks in any way, and
    trailers with a gRPC status, the message callback runs once for each
    message, in order, then the callbacks of what was not sent, then the
    terminal callback with the trailers' status; nothing else happens. *)
Theorem stream_messages_in_order limit id sid s w hs ms chunks trailers gs on_m on_c :
  stream_ready id sid s w → st_decoder s = newFrameDecoder limit →
  events s = mkEvents (Some on_m) (Some on_c) →
  hs !! "grpc-status" = None → hs !! ":status" = Some "200" →
  trailers !! "grpc-status" = Some gs →
  0 ≤ limit → Forall (fits limit) ms → concat chunks = frames ms →
  let st := mkStatus (GrpcStatusFromInt gs kInternal) (grpc_message trailers) in
  trace (chan_run (EvHeaders sid hs :: map (λ b, EvData sid (Some b)) chunks ++
           [EvHeaders sid trailers]) w) =
    trace w ++ map (UserMessage id on_m Ok) ms ++ flushed (out_queue s) st ++
    [UserComplete id on_c st].
Proof. intros. by apply (deliver_stream limit id sid s w). Qed.

(** A stream that is closed before its trailers breaks the tables.  When the
    session closes the HTTP/2 stream of a call or stream that has not ended, the
    end erases the table entry whose iterator is erased again afterwards:
    undefined behaviour. *)
Theorem close_before_trailers_ub sid id w :
  sid ≠ 0 →
  (∃ c, stream_by_sid w !! sid = None ∧ by_stream w !! sid = Some id ∧ calls w !! id = Some c ∧
     completed c = false ∧ Channel.sid c = sid) ∨
  (∃ s, stream_by_sid w !! sid = Some id ∧ streams w !! id = Some s ∧ st_completed s = false ∧
     rst_pending s = false ∧ st_sid s = sid ∧ by_stream w !! sid = None) →
  ub (OnStreamClose user sid w) = true.
Proof.
  intros Hne [(c & Hs & Hb & Hc & Hd & Hsid)|(s & Hb & Hs & Hd & Hr & Hsid & Hby)].
  - unfold OnStreamClose. rewrite Hs, Hb, Hc, Hd. unfold erase_call_it.
    assert (by_stream (Complete user c (unavailable "stream closed") [] w) !! sid = None) as ->;
      [|done].
    unfold Complete. rewrite Hd, Hsid. destruct (Z.eqb_spec sid 0); [done|].
    match goal with |- context [call_done user ?a ?b ?st ?p ?x] =>
      destruct (call_done_frame user a b st p x) as (_ & -> & _) end.
    simpl. by rewrite lookup_delete_eq.
  - unfold OnStreamClose. rewrite Hb, Hs, Hd, Hr. cbn [negb andb].
    set (w1 := CompleteStream user id _ w).
    assert (stream_by_sid w1 !! sid = None ∧ by_stream w1 = by_stream w) as [E1 E2].
    { unfold w1, CompleteStream. rewrite Hs, Hd, Hsid. destruct (Z.eqb_spec sid 0); [done|].
      match goal with |- context [Fail user ?a ?b ?q ?st ?x] =>
        destruct (Fail_frame user a b q st x) as (_ & -> & _ & -> & _) end.
      simpl. rewrite lookup_delete_eq. split; [done|]. unfold cancel_timer. by destruct (_ =? _). }
    unfold erase_stream_it. rewrite E1. simpl. by rewrite E2, Hby.
Qed.
End Deliver.

(** ** Concrete responses *)
#[local] Abbreviation demo_step :=
  (step (λ _ _, []) (λ _ _, []) (λ _ _, 1) "127.0.0.1:80" (Connecting tt)).
Definition demo_200 : gmap string string := {[ ":status" := "200" ]}.
Definition demo_trailers : gmap string string :=
  list_to_map [("grpc-status", "5"); ("grpc-message", "gone")].

Definition demo_call : Call := mkCall 7 1 0 (newFrameDecoder 1024) (Some 3%nat) false.
Definition demo_call_world : World :=
  new_world <| calls := {[ 7 := demo_call ]} |> <| by_stream := {[ 1 := 7 ]} |>.

Lemma unary_response_delivered_witness :
  let m := [chr 1; chr 2] in
  let w' := fold_left (λ w e, demo_step e w)
    (EvHeaders 1 demo_200 ::
     map (λ b, EvData 1 (Some b)) [take 4 (EncodeFrame m []); drop 4 (EncodeFrame m [])] ++
     [EvHeaders 1 demo_trailers]) demo_call_world in
  trace w' = trace demo_call_world ++ [UserDone 7 (done demo_call)
    (mkStatus (GrpcStatusFromInt "5" kInternal) (grpc_message demo_trailers)) m] ∧
  calls w' = delete 7 (calls demo_call_world).
Proof.
  intros m.
  apply (unary_response_delivered (λ _ _, []) (λ _ _, []) (λ _ _, 1) "127.0.0.1:80" (Connecting tt)
    1024 1 7 demo_call demo_call_world demo_200 m
    [take 4 (EncodeFrame m []); drop 4 (EncodeFrame m [])] demo_trailers "5"); try reflexivity.
  - split_and!; reflexivity.
  - lia.
  - split; simpl; lia.
Defined.

Lemma cut_response_is_ok_witness :
  let m := [chr 1; chr 2] in
  trace (fold_left (λ w e, demo_step e w)
    (EvHeaders 1 demo_200 :: map (λ b, EvData 1 (Some b)) [take 6 (EncodeFrame m [])] ++
     [EvHeaders 1 {[ "grpc-status" := "0" ]}]) demo_call_world) =
  trace demo_call_world ++ [UserDone 7 (done demo_call) Ok []].
Proof.
  intros m.
  apply (cut_response_is_ok (λ _ _, []) (λ _ _, []) (λ _ _, 1) "127.0.0.1:80" (Connecting tt)
    1024 1 7 demo_call demo_call_world demo_200 m [take 6 (EncodeFrame m [])]
    (drop 6 (EncodeFrame m []))); try reflexivity.
  - split_and!; reflexivity.
  - lia.
  - split; simpl; lia.
  - discriminate.
Defined.

Definition demo_stream : Stream :=
  mkStream 7 1 0 (newFrameDecoder 1024) (mkEvents (Some 3%nat) (Some 4%nat)) false false false
    [mkOutMsg [] false (Some 5%nat)] true.
Definition demo_stream_world : World :=
  new_world <| streams := {[ 7 := demo_stream ]} |> <| stream_by_sid := {[ 1 := 7 ]} |>.

Lemma stream_messages_in_order_witness :
  let ms := [[chr 1; chr 2]; []] in
  let st := mkStatus (GrpcStatusFromInt "5" kInternal) (grpc_message demo_trailers) in
  trace (fold_left (λ w e, demo_step e w)
    (EvHeaders 1 demo_200 ::
     map (λ b, EvData 1 (Some b)) [take 4 (frames ms); drop 4 (frames ms)] ++
     [EvHeaders 1 demo_trailers]) demo_stream_world) =
  trace demo_stream_world ++ map (UserMessage 7 3 Ok) ms ++ flushed (out_queue demo_stream) st ++
    [UserComplete 7 4 st].
Proof.
  intros ms.
  apply (stream_messages_in_order (λ _ _, []) (λ _ _, []) (λ _ _, 1) "127.0.0.1:80" (Connecting tt)
    1024 7 1 demo_stream demo_stream_world demo_200 ms
    [take 4 (frames ms); drop 4 (frames ms)] demo_trailers "5" 3 4); try reflexivity.
  - split_and!; reflexivity.
  - lia.
  - repeat constructor; simpl; lia.
Defined.
