(* ===== verification/ChannelSends.v ===== *)
(** * What a client stream sends

    A stream of a connected channel, from the calls of the public methods to what
    the session is given, and the consumption of its bodies. *)
From S2P Require Import Prelude Status CxxString Wire Codec Loop SessionSpec Platform.
From S2P Require Import Channel ChannelInv ChannelRun ChannelCalls.

Section Sends.
Context (user : Out → World → list UOp) (wire : Out → World → list SOp).
Context (submit : Out → World → Z) (address : string) (tcp_connect : @connect_outcome unit).
#[local] Abbreviation chan := (step user wire submit address tcp_connect).
#[local] Abbreviation chan_run := (fold_left (λ w e, chan e w)).

Definition open_request (p : string) : Out := SubmitRequestOpen (request_headers address p).

(** A stream that can be sent on at once. *)
Definition sendable (id sid : Z) (s : Stream) (w : World) : Prop :=
  0 < sid ∧ session w = true ∧ stream_ready id sid s w ∧ st_sid s = sid ∧
  out_queue s = [] ∧ out_inflight s = false ∧ send_closed s = false.

(** A stream that was just opened. *)
Definition fresh_stream (id sid timer mrs : Z) (ev : StreamEvents) : Stream :=
  mkStream id sid timer (newFrameDecoder mrs) ev false false false [] false.

Lemma stream_opens id p ev on_c tm sid w :
  state w = kReady → session w = true → on_complete ev = Some on_c → 0 < sid →
  (∀ w, submit (open_request p) w = sid ∧ wire (open_request p) w = []) →
  let w1 := run_open_stream user wire submit address tcp_connect id p ev tm w in
  trace w1 = trace w ++ [open_request p] ∧ bodies w1 = bodies w ∧
  running_ (loop w1) = running_ (loop w) ∧ pending_ (loop w1) = pending_ (loop w) ∧
  ∃ timer, sendable id sid (fresh_stream id sid timer (max_receive_size w) ev) w1.
Proof.
  intros Hst Hse Hev Hpos Hsub. unfold run_open_stream. rewrite Hev, Hst.
  unfold OpenStreamNow. cbn [ps_id ps_path ps_events ps_out_queue ps_timeout_ms existsb].
  fold (open_request p).
  destruct (Hsub w) as [-> _]. destruct (Z.ltb_spec sid 0); [lia|].
  unfold call_session. destruct (Hsub (record_out (open_request p) w)) as [_ ->].
  cbn [fold_left].
  assert (HP : ∀ w0 s, streams w0 !! id = Some s → out_queue s = [] →
    PumpStream user wire id w0 = w0).
  { intros w0 s Hs Hq. unfold PumpStream. by rewrite Hs, Hq. }
  assert (HS : ∀ w0 timer, session w0 = true → stream_by_sid w0 !! sid = Some id →
    streams w0 !! id = Some (fresh_stream id sid timer (max_receive_size w) ev) →
    sendable id sid (fresh_stream id sid timer (max_receive_size w) ev) w0).
  { intros. by split_and!. }
  destruct (0 <? tm).
  - destruct (SetTimer tm (TStreamTimeout id) _) as [timer l] eqn:Et.
    assert (running_ l = running_ (loop w) ∧ pending_ l = pending_ (loop w)) as [El1 El2].
    { revert Et. unfold SetTimer. simpl. destruct (running_ (loop w)) eqn:Er; by intros [= <- <-]. }
    assert (Es : ∀ w0, streams w0 = <[id := fresh_stream id sid 0 (max_receive_size w) ev]> (streams w) →
      streams (on_stream id (λ s, s <| st_timeout_timer := timer |>) w0) !! id =
      Some (fresh_stream id sid timer (max_receive_size w) ev)).
    { intros w0 E. simpl. by rewrite E, lookup_alter_eq, lookup_insert_eq. }
    erewrite HP; [|by apply Es|done].
    split; [done|]. split; [done|]. split; [exact El1|]. split; [exact El2|]. exists timer. apply HS; [done|apply lookup_insert_eq|by apply Es].
  - erewrite HP; [|apply lookup_insert_eq|done].
    do 4 (split; [done|]). exists 0. apply HS; [done|apply lookup_insert_eq..].
Qed.

(** A stream after a body was given to the session. *)
Definition sent_stream (cl : bool) (s : Stream) : Stream :=
  let s := s <| out_queue := [] |> <| out_inflight := true |> in
  if cl then s <| send_closed := true |> else s.

Lemma stream_sends id sid s body fl cl w :
  sendable id sid s w → (∀ w, wire (SendData sid body cl) w = []) →
  let w1 := run_stream_send user wire id body fl cl w in
  trace w1 = trace w ++ [SendData sid body cl] ∧ bodies w1 = bodies w ++ [(sid, (id, fl))] ∧
  session w1 = true ∧ loop w1 = loop w ∧ stream_ready id sid (sent_stream cl s) w1.
Proof.
  destruct s as [i sd timer d ev cp sc rp q fi].
  intros (Hpos & Hse & (Hb & Hs & Hd) & Hsid & Hq & Hif & Hcl) Hw. simpl in *. subst.
  unfold run_stream_send, live_stream. rewrite Hs. simpl.
  unfold PumpStream. simpl. rewrite lookup_alter_eq, Hs. simpl. rewrite Hse.
  destruct (Z.eqb_spec sid 0); [lia|]. cbn [negb orb].
  unfold call_session. rewrite Hw. simpl. split_and!; [done..|].
  split_and!; simpl; [done| |by destruct cl].
  rewrite !lookup_alter_eq, Hs. simpl. by destruct cl.
Qed.

(** The session reports the body consumed. *)
Lemma body_consumed id sid s fl w :
  stream_ready id sid s w → session w = true → bodies w = [(sid, (id, fl))] →
  (∀ cb, fl = Some cb → ∀ w, user (UserFlushed cb Ok) w = []) →
  let w1 := do_sop user (SConsumed sid 0) w in
  trace w1 = trace w ++ match fl with Some cb => [UserFlushed cb Ok] | None => [] end ∧
  bodies w1 = [] ∧ session w1 = true ∧ loop w1 = Post (TPump id) (loop w) ∧
  stream_ready id sid (s <| out_inflight := false |>) w1.
Proof.
  intros (Hb & Hs & Hd) Hse Hbo Hu. unfold do_sop. rewrite Hbo. cbn [take_body].
  rewrite decide_True by done. unfold OnConsumed. simpl streams. rewrite Hs.
  assert (∀ w0 w1, w0 = w1 → stream_by_sid w1 !! sid = Some id →
    streams w1 !! id = Some (s <| out_inflight := false |>) →
    stream_ready id sid (s <| out_inflight := false |>) w0) as Hsr by (intros ? ? -> ? ?; done).
  destruct fl as [cb|]; cbn [call_opt].
  - unfold call_user. rewrite (Hu cb eq_refl). simpl. split_and!; [done..|].
    split_and!; simpl; [done|by rewrite lookup_alter_eq, Hs|done].
  - rewrite app_nil_r. split_and!; [done..|].
    split_and!; simpl; [done|by rewrite lookup_alter_eq, Hs|done].
Qed.

(** The caller's thread makes a unary call; the loop runs it. *)
Lemma api_call p body tm dn w :
  running_ (loop w) = true → pending_ (loop w) = [] →
  ∃ w0, chan_run [EvApi (ApiCall p body tm dn); EvWake] w =
    run_call user wire submit address tcp_connect (next_call_id w) p body tm dn (max_receive_size w) w0 ∧
    state w0 = state w ∧ stream_by_sid w0 = stream_by_sid w ∧ trace w0 = trace w.
Proof.
  intros Hr Hp. destruct w as [st se ca bs pe ni str sb ps mr [r q wo wc pq ti nt] bo tr ss wr u].
  simpl in Hr, Hp. subst. cbn [fold_left step]. unfold do_uop, ChannelCall. cbn [fetch_id snd next_call_id].
  unfold DrainPending. simpl. eexists. split; [reflexivity|]. done.
Qed.

(** The caller's thread opens a stream and sends on it; the loop runs both. *)
Lemma api_open_send p ev on_c tm body fl cl w :
  on_complete ev = Some on_c → running_ (loop w) = true → pending_ (loop w) = [] →
  let id := next_call_id w in
  ∃ l n i o, chan_run [EvApi (ApiOpenStream p ev tm); EvApi (ApiStreamSend id body fl cl); EvWake] w =
    run_stream_send user wire id body fl cl (run_open_stream user wire submit address tcp_connect
      id p ev tm (w <| loop := l |> <| next_call_id := n |> <| issued := i |> <| wrapped := o |>)).
Proof.
  intros Hev Hr Hp id. unfold id. clear id.
  destruct w as [st se ca bs pe ni str sb ps mr [r q wo wc pq ti nt] bo tr ss wr u].
  simpl in Hr, Hp. subst. cbn [fold_left]. unfold step at 2 3. unfold do_uop, OpenStream.
  cbn [fetch_id snd next_call_id]. rewrite Hev. unfold step, DrainPending. simpl. 
  by eexists (mkLoop _ _ _ _ _ _ _), _, _, _.
Qed.

(** ** A stream that talks *)

(** A later send of the caller's thread, and the wake-up after a body was
    consumed. *)
Lemma api_send id body fl cl w :
  running_ (loop w) = true → pending_ (loop w) = [] →
  ∃ l, running_ l = true ∧ pending_ l = [] ∧
    chan_run [EvApi (ApiStreamSend id body fl cl); EvWake] w =
    run_stream_send user wire id body fl cl (w <| loop := l |>).
Proof.
  intros Hr Hp. destruct w as [st se ca bs pe ni str sb ps mr [r q wo wc pq ti nt] bo tr ss wr u].
  simpl in Hr, Hp. subst. cbn [fold_left]. unfold step, DrainPending. simpl.
  by eexists (mkLoop _ _ _ _ _ _ _).
Qed.

Lemma api_close id w :
  running_ (loop w) = true → pending_ (loop w) = [] →
  ∃ l, chan_run [EvApi (ApiStreamCloseSend id); EvWake] w =
    run_stream_close_send user wire id (w <| loop := l |>).
Proof.
  intros Hr Hp. destruct w as [st se ca bs pe ni str sb ps mr [r q wo wc pq ti nt] bo tr ss wr u].
  simpl in Hr, Hp. subst. cbn [fold_left]. unfold step, DrainPending. simpl.
  by eexists (mkLoop _ _ _ _ _ _ _).
Qed.

Lemma pump_wake id s w l :
  running_ l = true → pending_ l = [] → loop w = Post (TPump id) l →
  streams w !! id = Some s → out_queue s = [] →
  ∃ l', running_ l' = true ∧ pending_ l' = [] ∧ chan_run [EvWake] w = w <| loop := l' |>.
Proof.
  intros Hr Hp Hl Hs Hq.
  destruct w as [st se ca bs pe ni str sb ps mr lo bo tr ss wr u]. destruct l as [r q wo wc pq ti nt].
  simpl in *. subst. cbn [fold_left]. unfold step, DrainPending. simpl.
  unfold PumpStream. simpl. rewrite Hs, Hq. by eexists (mkLoop _ _ _ _ _ _ _).
Qed.

(** The session, its bodies and the loop. *)
Definition same_below (w w' : World) : Prop :=
  session w' = session w ∧ bodies w' = bodies w ∧ loop w' = loop w.
#[export] Instance same_below_preorder : PreOrder same_below.
Proof. split; [done|]. intros w1 w2 w3 (? & ? & ?) (? & ? & ?). split_and!; congruence. Qed.

(** Callbacks that do not call the channel. *)
Context (Hsilent : ∀ o w, user o w = []).
#[local] Set Default Proof Using "Hsilent".

Lemma call_opt_below cb o w : same_below w (call_opt user cb o w).
Proof. destruct cb; [|done]. cbn [call_opt]. unfold call_user. by rewrite Hsilent. Qed.

Lemma deliver_messages_below n id w : same_below w (deliver_messages user n id w).
Proof.
  revert w. induction n as [|n IH]; intros w; [done|]. cbn [deliver_messages].
  destruct (streams w !! id) as [s|]; [|done].
  destruct (TakeMessage (st_decoder s)) as [[m d]|]; [|done].
  etrans; [|apply IH]. etrans; [|apply call_opt_below]. done.
Qed.

Lemma OnData_below id sid s cb chunks d w :
  stream_ready id sid s w → on_message (events s) = Some cb → messages_ (st_decoder s) = [] →
  decoder_wf (st_decoder s) → decoder_waiting (st_decoder s) → feed (st_decoder s) chunks = (Ok, d) →
  same_below w (chan_run (map (λ b, EvData sid (Some b)) chunks) w).
Proof.
  revert w s d. induction chunks as [|b chunks IH]; intros w s d Hr Hcb Hq Hwf Hw Hf; simpl in *; [done|].
  destruct (Consume b (st_decoder s)) as [st d1] eqn:HC.
  destruct (Consume_view _ _ _ _ Hwf HC) as (Hwf1 & _ & Hok).
  destruct (ok st) eqn:Hst; [|by simplify_eq]. destruct (Hok eq_refl) as [-> Hw1].
  destruct (OnData_stream_chunk user id sid s cb b d1 w) as [_ Hr1]; try done.
  rewrite <-(requeue_drained d1), feed_requeue in Hf.
  destruct (feed (drained d1) chunks) as [st2 d2] eqn:Hf2. injection Hf as -> <-.
  etrans; [|apply (IH _ _ d2 Hr1); try done; destruct Hwf1 as (? & ? & ?); by split_and!].
  destruct Hr as (Hb & Hs & Hd). unfold OnData. rewrite Hb, Hs, Hd. destruct b as [|x b]; [done|].
  rewrite HC. change (negb (ok Ok)) with false. cbn match. etrans; [|apply deliver_messages_below]. done.
Qed.

(** A stream on an idle channel that can be sent on, between two messages. *)
Definition talking (limit : Z) (ev : StreamEvents) (id sid : Z) (w : World) : Prop :=
  running_ (loop w) = true ∧ pending_ (loop w) = [] ∧ bodies w = [] ∧
  ∃ s, sendable id sid s w ∧ events s = ev ∧ at_boundary limit (st_decoder s).

(** The header blocks that open a response. *)
Definition opens_response (hs : gmap string string) : Prop :=
  hs !! "grpc-status" = None ∧ hs !! ":status" = Some "200".

Lemma responses_open id sid s hss w :
  stream_ready id sid s w → Forall opens_response hss → chan_run (map (EvHeaders sid) hss) w = w.
Proof.
  intros Hr. induction 1 as [|hs hss [Hg H2] _ IH]; [done|]. cbn [map fold_left step].
  by rewrite (response_opens user id sid s hs w Hr Hg H2).
Qed.

(** One exchange: a message is sent and consumed, and its answer arrives, for the
    first one after the headers of the response. *)
Definition exchange (id sid : Z) (body : bytes) (fl : closure) (hss : list (gmap string string))
    (answer : list bytes) : list Event :=
  [EvApi (ApiStreamSend id body (Some fl) false); EvWake; EvSession (SConsumed sid 0); EvWake] ++
  map (EvHeaders sid) hss ++ map (λ b, EvData sid (Some b)) answer.

Lemma talk_exchange limit on_m on_c id sid body fl r hss answer w :
  talking limit (mkEvents (Some on_m) on_c) id sid w → (∀ w, wire (SendData sid body false) w = []) →
  fits limit r → Forall opens_response hss → concat answer = EncodeFrame r [] →
  let w' := chan_run (exchange id sid body fl hss answer) w in
  talking limit (mkEvents (Some on_m) on_c) id sid w' ∧
  trace w' = trace w ++ [SendData sid body false; UserFlushed fl Ok; UserMessage id on_m Ok r].
Proof.
  intros (Hr & Hp & Hb & s & Hs & Hev & Hd) Hw Hfit Hhss Hcat. unfold exchange. cbv zeta.
  change ([?a; ?b; ?c; ?d] ++ ?l) with ([a; b] ++ [c] ++ [d] ++ l).
  rewrite !fold_left_app.
  destruct (api_send id body (Some fl) false w Hr Hp) as (l & Hrl & Hpl & E). rewrite E. clear E.
  match goal with |- context [run_stream_send _ _ _ _ _ _ ?x] =>
    destruct (stream_sends id sid s body (Some fl) false x Hs Hw) as (Et1 & Eb1 & Ese1 & El1 & Hr1);
    change (bodies x) with (bodies w) in Eb1; change (loop x) with l in El1;
    change (trace x) with (trace w) in Et1 end.
  rewrite Hb in Eb1.
  match type of Hr1 with stream_ready _ _ _ ?x => set (w1 := x) in * end. clearbody w1.
  destruct (body_consumed id sid _ (Some fl) w1 Hr1 Ese1 Eb1) as (Et2 & Eb2 & Ese2 & El2 & Hr2); [done|].
  change (chan_run [EvSession (SConsumed sid 0)] w1) with (do_sop user (SConsumed sid 0) w1).
  revert Et2 Eb2 Ese2 El2 Hr2. generalize (do_sop user (SConsumed sid 0) w1). intros w2 Et2 Eb2 Ese2 El2 Hr2.
  rewrite El1 in El2.
  destruct (pump_wake id _ w2 l Hrl Hpl El2 (proj1 (proj2 Hr2)) eq_refl) as (l' & Hrl' & Hpl' & ->).
  destruct Hs as (Hpos & Hse & (_ & _ & Hc) & Hsid & Hq & Hif & Hcl).
  destruct (boundary_waits _ _ Hd) as [Hwf Hwt].
  destruct (feed_boundary limit _ r answer Hd Hfit Hcat) as [Hfeed _].
  set (s2 := (sent_stream false s) <| out_inflight := false |>) in Hr2.
  match goal with |- context [fold_left _ (map (EvHeaders sid) hss) ?x] => set (w3 := x) end.
  rewrite (responses_open id sid s2 hss w3 Hr2 Hhss).
  assert (Hq2 : messages_ (st_decoder s2) = []) by by destruct Hd as (_ & _ & _ & _ & _ & _ & ?).
  assert (Hev2 : on_message (events s2) = Some on_m) by (simpl; by rewrite Hev).
  destruct (OnData_stream_chunks user wire submit address tcp_connect id sid s2 on_m answer _ w3 Hr2 Hev2 Hq2 Hwf Hwt Hfeed) as (Et3 & n & Hr3).
  destruct (OnData_below id sid s2 on_m answer _ w3 Hr2 Hev2 Hq2 Hwf Hwt Hfeed) as (Ese3 & Eb3 & El3).
  split.
  - split_and!; [by rewrite El3|by rewrite El3|by rewrite Eb3; exact Eb2|]. eexists. split; [|split].
    + split_and!; [done|by rewrite Ese3; exact Ese2|exact Hr3|done..].
    + done.
    + by destruct Hd as (? & ? & ? & ? & ? & ? & ?).
  - etrans; [exact Et3|]. change (trace w3) with (trace w2).
    rewrite Et2, Et1, <-!(assoc_L (++)). done.
Qed.

(** The caller closes its side, and the trailers arrive. *)
Lemma talk_closes limit on_m on_c id sid trailers gs w :
  talking limit (mkEvents on_m (Some on_c)) id sid w → (∀ w, wire (SendData sid [] true) w = []) →
  trailers !! "grpc-status" = Some gs →
  trace (chan_run [EvApi (ApiStreamCloseSend id); EvWake; EvHeaders sid trailers] w) =
    trace w ++ [SendData sid [] true;
      UserComplete id on_c (mkStatus (GrpcStatusFromInt gs kInternal) (grpc_message trailers))].
Proof.
  intros (Hr & Hp & Hb & s & Hs & Hev & Hd) Hw Ht.
  change ([?a; ?b; ?c]) with ([a; b] ++ [c]). rewrite fold_left_app.
  destruct (api_close id w Hr Hp) as (l & E). rewrite E. clear E.
  destruct Hs as (Hpos & Hse & (Hb1 & Hs & Hc) & Hsid & Hq & Hif & Hcl).
  unfold run_stream_close_send, live_stream. simpl streams. rewrite Hs, Hc, Hcl, Hq.
  simpl session. rewrite Hsid, Hse. destruct (Z.eqb_spec sid 0); [lia|]. cbn [negb andb].
  unfold call_session. rewrite Hw. cbn [fold_left step].
  erewrite (response_ends user id sid (s <| send_closed := true |>)); [|split_and!|simpl; by rewrite Hev|done].
  - simpl. by rewrite Hq, <-(assoc_L (++)).
  - exact Hb1.
  - simpl. by rewrite lookup_alter_eq, Hs.
  - exact Hc.
Qed.

(** The caller opens the stream. *)
Lemma talk_opens p ev on_c tm sid w :
  state w = kReady → session w = true → bodies w = [] → running_ (loop w) = true →
  pending_ (loop w) = [] → on_complete ev = Some on_c → 0 < sid → 0 ≤ max_receive_size w →
  (∀ w, submit (open_request p) w = sid ∧ wire (open_request p) w = []) →
  let w1 := chan_run [EvApi (ApiOpenStream p ev tm); EvWake] w in
  talking (max_receive_size w) ev (next_call_id w) sid w1 ∧ trace w1 = trace w ++ [open_request p].
Proof.
  intros Hst Hse Hb Hr Hp Hev Hpos Hmrs Hsub.
  assert (∃ w0, chan_run [EvApi (ApiOpenStream p ev tm); EvWake] w =
    run_open_stream user wire submit address tcp_connect (next_call_id w) p ev tm w0 ∧
    state w0 = kReady ∧ session w0 = true ∧ bodies w0 = [] ∧ trace w0 = trace w ∧
    max_receive_size w0 = max_receive_size w ∧
    running_ (loop w0) = true ∧ pending_ (loop w0) = []) as (w0 & E & E1 & E2 & E3 & E4 & E5 & E6 & E7).
  { destruct w as [st se ca bs pe ni str sb ps mr [r q wo wc pq ti nt] bo tr ss wr u].
    simpl in *. subst. cbn [fold_left step]. unfold do_uop, OpenStream.
    cbn [fetch_id snd next_call_id]. rewrite Hev. unfold DrainPending. simpl.
    eexists. split; [reflexivity|]. by split_and!. }
  rewrite E. destruct (stream_opens (next_call_id w) p ev on_c tm sid w0) as (Et & Eb & Er & Ep & timer & Hs);
    [done..|].
  split; [|by rewrite Et, E4]. split_and!; [by rewrite Er|by rewrite Ep|by rewrite Eb|].
  eexists. split; [exact Hs|]. split; [done|]. simpl. rewrite E5. by apply new_at_boundary.
Qed.
End Sends.
