(* ===== verification/ServerConn.v ===== *)
(** * A server connection (core/source/urpc_server.cc, [Server::Impl::Conn])

    One HTTP/2 connection of the server: its calls, the call contexts that
    handlers hold, and every handler of the session's events, with the unary
    and the streaming machinery.

    The connection calls out to code that can come back before it returns: a
    handler or a callback of the user operates on its contexts, and a frame
    submitted to the session can make it report a consumed body or a closed
    stream.  The model keeps that: every call out goes through [reenter], a
    parameter that maps the world at the call to the world at its return, and
    every definition is written against it.  The parameter is instantiated in
    ServerRun.v by an environment that runs the operations below to any depth.

    C++ references and iterators into [calls] that the code keeps across a call
    out are dangling when the stream was closed meanwhile; where the code then
    uses one, the model sets the sticky flag [ub]. *)
From S2P Require Import Prelude Status CxxString Wire Codec Router Loop SessionSpec.

Definition kContentType : string := "application/grpc".

(** User code is opaque: a closure is a token. *)
Abbreviation closure := nat (only parsing).
Abbreviation Entry := (HandlerEntry nat nat) (only parsing).

Definition header_fields : Type := list (string * string).

(** ** State *)

Record OutMsg := mkOutMsg { framed : bytes; out_cb : option closure }.

Record Call := mkCall {
  path : string;
  decoder : FrameDecoder;
  deadline_timer : Z;
  started_ms : Z;
  responded : bool;
  request_done : bool;
  cancel_fired : bool;
  cancel_cbs : list closure;
  call_form : MethodForm;
  entry : Entry;
  has_handler : bool;
  dispatched : bool;
  request_half_closed : bool;
  read_finished : bool;
  read_cb : option closure;
  pending_msgs : list bytes;
  out_queue : list OutMsg;
  out_inflight : bool;
  response_headers_sent : bool;
  write_closed : bool;
  finish_pending : Status;
  has_finish_pending : bool
}.
#[export] Instance eta_Call : EtaRecord Call := λ c,
  mkCall (path c) (decoder c) (deadline_timer c) (started_ms c) (responded c)
    (request_done c) (cancel_fired c) (cancel_cbs c) (call_form c) (entry c)
    (has_handler c) (dispatched c) (request_half_closed c) (read_finished c)
    (read_cb c) (pending_msgs c) (out_queue c) (out_inflight c)
    (response_headers_sent c) (write_closed c) (finish_pending c)
    (has_finish_pending c).

(** [Call{}]: the default member initializers. *)
Definition default_call : Call :=
  mkCall "" (newFrameDecoder 0) 0 0 false false false [] kUnary default_entry false false
    false false None [] [] false false false Ok false.

(** The context objects of [ctxs]: [Ctx], or [StreamCtx] with the stashed first
    message. *)
Inductive CtxObj :=
  | Ctx
  | StreamCtx (first_msg : option bytes).

(** What the connection asks of others: frames to the session, calls of user
    code, log records. *)
Inductive Out :=
  | SendHeaders (sid : Z) (fields : header_fields) (end_stream : bool)
  | SendData (sid : Z) (data : bytes) (end_stream : bool)
  | SendTrailers (sid : Z) (trailers : header_fields)
  | UserUnary (h : closure) (sid : Z) (request : bytes)
  | UserStream (h : closure) (sid : Z)
  | UserRead (cb : closure) (st : Status) (eos : bool) (msg : bytes)
  | UserWrite (cb : closure) (st : Status)
  | UserCancel (cb : closure)
  | LogCall (event : string) (fields : string).

(** Tasks of this connection on the server's loop. *)
Inductive STask :=
  | TDeadline (sid : Z)
  | TPumpOut (sid : Z).

Record World := mkWorld {
  conn_closed : bool;                       (* Conn::closed *)
  destroyed : bool;                         (* erased from Server::Impl::conns *)
  calls : gmap Z Call;
  ctxs : gmap Z CtxObj;
  loop : LoopRunner STask;
  now_ms : Z;                               (* LoopRunner::NowMs *)
  alive : bool;                             (* Server::Impl::alive *)
  (* the session below: open streams, and bodies with a consumed callback *)
  h2_streams : gset Z;
  bodies : list (Z * option closure);
  trace : list Out;
  opened : gset Z;                          (* ghost: streams ever announced *)
  ub : bool;                                (* undefined behaviour reached *)
  hung : bool                               (* an unbounded loop was cut *)
}.
#[export] Instance eta_World : EtaRecord World := λ w,
  mkWorld (conn_closed w) (destroyed w) (calls w) (ctxs w) (loop w) (now_ms w)
    (alive w) (h2_streams w) (bodies w) (trace w) (opened w) (ub w) (hung w).

Definition new_world : World :=
  mkWorld false false ∅ ∅ (Start newLoop).2 0 true ∅ [] [] ∅ false false.

(** Writing through a reference to the call of [sid]. *)
Definition on_call (sid : Z) (f : Call → Call) (w : World) : World :=
  w <| calls ::= alter f sid |>.

(** Using a reference to the call of [sid] after a call out. *)
Definition deref (sid : Z) (w : World) : World :=
  match calls w !! sid with
  | Some _ => w
  | None => w <| ub := true |>
  end.

Definition log_call (fields : string) (w : World) : World :=
  w <| trace ::= λ t, t ++ [LogCall "call_end" fields] |>.

(** The header lists the code sends; a [HeaderMap] is in key order. *)
Definition response_headers : header_fields :=
  [(":status", "200"); ("content-type", kContentType)].
Definition trailers_only_headers (c : StatusCode) (msg : string) : header_fields :=
  [(":status", "200"); ("content-type", kContentType);
   ("grpc-status", pretty c); ("grpc-message", msg)].
Definition ok_trailers : header_fields := [("grpc-status", "0")].
Definition status_trailers (st : Status) : header_fields :=
  [("grpc-message", message st); ("grpc-status", pretty (code st))].

Definition deadline_status : Status := mkStatus kDeadlineExceeded "deadline exceeded".
Definition multiple_requests : Status := mkStatus kInternal "multiple request messages".
Definition unread_overflow : Status :=
  mkStatus kResourceExhausted "too many unread request messages".
Definition stream_cancelled : Status := mkStatus kUnavailable "stream cancelled".
Definition stream_closed : Status := mkStatus kUnavailable "stream closed".
Definition stream_finished : Status := mkStatus kInternal "stream finished".
Definition queue_full : Status := mkStatus kResourceExhausted "send queue full".
Definition concurrent_read : Status := mkStatus kInternal "concurrent read".

(** The bound of both queues. *)
Definition kQueueBound : nat := 64.

(** ** Operations *)
Section Conn.
Context (reenter : Out → World → World).
Context (router : Router nat nat) (max_receive_size : Z).
(** How often [CancelStreamIo] goes round its loop before it is cut. *)
Context (spin : nat).

(** A call out: recorded, then whatever it makes others do. *)
Definition call_out (o : Out) (w : World) : World :=
  reenter o (w <| trace ::= λ t, t ++ [o] |>).

(** A call of the session, which belongs to the connection. *)
Definition send (o : Out) (w : World) : World :=
  call_out o (if destroyed w then w <| ub := true |> else w).

Definition StopDeadline (sid : Z) (w : World) : World :=
  match calls w !! sid with
  | Some c =>
      if deadline_timer c =? 0 then w
      else on_call sid (λ c, c <| deadline_timer := 0 |>)
             (w <| loop ::= CancelTimer (deadline_timer c) |>)
  | None => w
  end.

(** The callbacks of [FireCancel]; the vector lives in the call. *)
Fixpoint fire_cancel_cbs (sid : Z) (cbs : list closure) (w : World) : World :=
  match cbs with
  | [] => w
  | cb :: cbs => fire_cancel_cbs sid cbs (deref sid (call_out (UserCancel cb) w))
  end.

Definition FireCancel (sid : Z) (w : World) : World :=
  match calls w !! sid with
  | None => w
  | Some c =>
      if cancel_fired c then w
      else
        let w := on_call sid (λ c, c <| cancel_fired := true |>) w in
        let w := fire_cancel_cbs sid (cancel_cbs c) w in
        on_call sid (λ c, c <| cancel_cbs := [] |>) w
  end.

Definition SendTrailersOnly (sid : Z) (c : StatusCode) (msg : string) (w : World) : World :=
  let w := send (SendHeaders sid (trailers_only_headers c msg) true) w in
  log_call ("sid=" +:+ pretty sid +:+ " status=" +:+ StatusCodeName c) w.

Definition TrailersOnly (sid : Z) (c : StatusCode) (msg : string) (w : World) : World :=
  match calls w !! sid with
  | Some call =>
      if responded call then w
      else
        let w := on_call sid (λ c, c <| responded := true |>) w in
        SendTrailersOnly sid c msg (StopDeadline sid w)
  | None => SendTrailersOnly sid c msg w
  end.

Definition RespondError (sid : Z) (st : Status) (w : World) : World :=
  match calls w !! sid with
  | None => w
  | Some c =>
      if responded c then w
      else
        let w := on_call sid (λ c, c <| responded := true |>) w in
        TrailersOnly sid (code st) (message st) (StopDeadline sid w)
  end.

(** The record of a call's end; it reads [call.path]. *)
Definition log_call_end (sid : Z) (p : string) (c : StatusCode) (dur : string)
    (w : World) : World :=
  log_call ("path=" +:+ p +:+ " sid=" +:+ pretty sid +:+ " status=" +:+
    StatusCodeName c +:+ dur) (deref sid w).

Definition elapsed (c : Call) (w : World) : Z := u64 (now_ms w - started_ms c).

Definition Respond (sid : Z) (status : Status) (payload : bytes) (w : World) : World :=
  match calls w !! sid with
  | None => w
  | Some c =>
      if responded c then w
      else
        let w := on_call sid (λ c, c <| responded := true |>) w in
        let w := StopDeadline sid w in
        let dur := elapsed c w in
        let w :=
          if ok status then
            let w := send (SendHeaders sid response_headers false) w in
            let w := send (SendData sid (EncodeFrame payload []) false) w in
            send (SendTrailers sid ok_trailers) w
          else SendTrailersOnly sid (code status) (message status) w in
        log_call_end sid (path c) (code status) (" us=" +:+ pretty dur) w
  end.

(** *** Streaming: the response side *)

Definition MaybeSendDeferredFinish (sid : Z) (w : World) : World :=
  match calls w !! sid with
  | None => w
  | Some c =>
      if negb (has_finish_pending c) then w
      else if out_inflight c || negb (match out_queue c with [] => true | _ => false end) then w
      else
        let w := on_call sid (λ c, c <| has_finish_pending := false |>) w in
        let w := send (SendTrailers sid (status_trailers (finish_pending c))) w in
        log_call_end sid (path c) (code (finish_pending c)) "" w
  end.

(** A body with a consumed callback given to the session: it can be consumed as
    long as its stream is open there. *)
Definition push_body (sid : Z) (cb : option closure) (w : World) : World :=
  w <| bodies ::= give_body sid cb (h2_streams w) |>.

(** [PumpOut] past its guard: the first message leaves the queue. *)
Definition pump_msg (sid : Z) (c : Call) (out : OutMsg) (rest : list OutMsg) (w : World) : World :=
  let w := on_call sid (λ c, c <| out_queue := rest |> <| out_inflight := true |>) w in
  let w :=
    if response_headers_sent c then w
    else
      send (SendHeaders sid response_headers false)
        (on_call sid (λ c, c <| response_headers_sent := true |>) w) in
  send (SendData sid (framed out) false) (push_body sid (out_cb out) w).

Definition PumpOut (sid : Z) (w : World) : World :=
  match calls w !! sid with
  | None => w
  | Some c =>
      match out_queue c with
      | [] => w
      | out :: rest =>
          if out_inflight c || responded c || write_closed c then w
          else pump_msg sid c out rest w
      end
  end.

(** The lambda given to [SendData]: the body was consumed. *)
Definition OnConsumed (sid : Z) (cb : option closure) (w : World) : World :=
  let w := on_call sid (λ c, c <| out_inflight := false |>) w in
  let w := match cb with Some cb => call_out (UserWrite cb Ok) w | None => w end in
  let w := w <| loop ::= Post (TPumpOut sid) |> in
  MaybeSendDeferredFinish sid w.

Definition FinishStream (sid : Z) (st : Status) (w : World) : World :=
  match calls w !! sid with
  | None => w
  | Some c =>
      if responded c then w
      else
        let w := on_call sid (λ c, c <| responded := true |> <| write_closed := true |>
                                     <| read_finished := true |>) w in
        let w := StopDeadline sid w in
        if out_inflight c || negb (match out_queue c with [] => true | _ => false end) then
          on_call sid (λ c, c <| finish_pending := st |> <| has_finish_pending := true |>) w
        else
          let dur := elapsed c w in
          if negb (response_headers_sent c) then
            SendTrailersOnly sid (code st) (message st) w
          else
            let w := send (SendTrailers sid (status_trailers st)) w in
            log_call_end sid (path c) (code st) (" us=" +:+ pretty dur) w
  end.

(** The [while] loop of [CancelStreamIo]. *)
Fixpoint drain_out_queue (fuel : nat) (sid : Z) (w : World) : World :=
  match calls w !! sid with
  | None => w <| ub := true |>
  | Some c =>
      match out_queue c with
      | [] => w
      | out :: rest =>
          match fuel with
          | O => w <| hung := true |>
          | S fuel =>
              let w := on_call sid (λ c, c <| out_queue := rest |>) w in
              drain_out_queue fuel sid
                (match out_cb out with
                 | Some cb => call_out (UserWrite cb stream_cancelled) w
                 | None => w
                 end)
          end
      end
  end.

Definition CancelStreamIo (sid : Z) (w : World) : World :=
  match calls w !! sid with
  | None => w
  | Some c =>
      let w := on_call sid (λ c, c <| read_finished := true |> <| read_cb := None |>) w in
      let w := match read_cb c with
               | Some cb => call_out (UserRead cb stream_cancelled false []) w
               | None => w
               end in
      drain_out_queue spin sid w
  end.

(** *** Streaming: the request side *)

Definition DispatchStream (sid : Z) (first_msg : option bytes) (w : World) : World :=
  match calls w !! sid with
  | None => w
  | Some c =>
      if dispatched c then w
      else
        let w := on_call sid (λ c, c <| dispatched := true |>) w in
        let w := w <| ctxs ::= <[sid := StreamCtx first_msg]> |> in
        match stream (entry c) with
        | Some h => call_out (UserStream h sid) w
        | None => w <| ub := true |>        (* an empty std::function *)
        end
  end.

Definition DeliverRead (sid : Z) (st : Status) (eos : bool) (msg : bytes) (w : World) : World :=
  match calls w !! sid with
  | None => w
  | Some c =>
      if read_finished c then w
      else if negb (ok st) || eos then
        let w := on_call sid (λ c, c <| read_finished := true |>) w in
        match read_cb c with
        | Some cb => call_out (UserRead cb st eos msg) (on_call sid (λ c, c <| read_cb := None |>) w)
        | None => w
        end
      else
        match read_cb c with
        | Some cb => call_out (UserRead cb st false msg) (on_call sid (λ c, c <| read_cb := None |>) w)
        | None =>
            if (kQueueBound <=? length (pending_msgs c))%nat then FinishStream sid unread_overflow w
            else on_call sid (λ c, c <| pending_msgs ::= λ q, q ++ [msg] |>) w
        end
  end.

(** [OnData]'s loop over the decoded messages.  Only [OnData] and
    [FinishRequest] touch the decoder, so its [n] messages are [n] rounds. *)
Fixpoint deliver_messages (n : nat) (sid : Z) (w : World) : bool * World :=
  match n with
  | O => (true, w)
  | S n =>
      match calls w !! sid with
      | None => (true, w <| ub := true |>)
      | Some c =>
          match TakeMessage (decoder c) with
          | None => (true, w)
          | Some (msg, d) =>
              let w := on_call sid (λ c, c <| decoder := d |>) w in
              if decide (call_form c = kServerStreaming) then
                if dispatched c then (false, FinishStream sid multiple_requests w)
                else deliver_messages n sid (deref sid (DispatchStream sid (Some msg) w))
              else deliver_messages n sid (deref sid (DeliverRead sid Ok false msg w))
          end
      end
  end.

Definition missing_request : Status := mkStatus kInternal "missing request message".
Definition unknown_method (p : string) : Status :=
  mkStatus kUnimplemented ("unknown method: " +:+ p).
Definition bad_headers : Status := mkStatus kInternal "bad request headers".

(** [TrailersOnly] with the code and message of a status. *)
Definition TrailersOnlySt (sid : Z) (st : Status) (w : World) : World :=
  TrailersOnly sid (code st) (message st) w.

Definition FinishRequest (sid : Z) (w : World) : World :=
  match calls w !! sid with
  | None => w
  | Some c =>
      if request_done c then w
      else
        let w := on_call sid (λ c, c <| request_done := true |>) w in
        if negb (has_handler c) then TrailersOnlySt sid (unknown_method (path c)) w
        else
          match call_form c with
          | kUnary =>
              if negb (message_count_ (decoder c) =? 0) then TrailersOnlySt sid multiple_requests w
              else
                match TakeMessage (decoder c) with
                | None => TrailersOnlySt sid missing_request w
                | Some (request, d) =>
                    let w := on_call sid (λ c, c <| decoder := d |>) w in
                    let w := w <| ctxs ::= <[sid := Ctx]> |> in
                    match unary (entry c) with
                    | Some h => call_out (UserUnary h sid request) w
                    | None => w <| ub := true |>
                    end
                end
          | kServerStreaming =>
              let w := on_call sid (λ c, c <| request_half_closed := true |>) w in
              if negb (dispatched c) then
                match TakeMessage (decoder c) with
                | None => TrailersOnlySt sid missing_request w
                | Some (msg, d) =>
                    DispatchStream sid (Some msg) (on_call sid (λ c, c <| decoder := d |>) w)
                end
              else DeliverRead sid Ok true [] w
          | kClientStreaming | kBidi =>
              let w := on_call sid (λ c, c <| request_half_closed := true |>) w in
              if negb (dispatched c) then TrailersOnlySt sid (unknown_method (path c)) w
              else DeliverRead sid Ok true [] w
          end
  end.

(** The header block as a [HeaderMap]; the session keeps the last duplicate. *)
Abbreviation HeaderMap := (gmap string string) (only parsing).

(** [headers.find("content-type")->second.rfind(kContentType, 0) == 0] *)
Definition grpc_content_type (headers : HeaderMap) : bool :=
  match headers !! "content-type" with
  | Some v => String.prefix kContentType v
  | None => false
  end.

(** The call's fields as [OnHeadersComplete] sets them. *)
Definition open_call (p : string) (now : Z) (e : option Entry) (c : Call) : Call :=
  let c := c <| path := p |> <| started_ms := now |>
             <| decoder := newFrameDecoder max_receive_size |>
             <| has_handler := negb (is_null e) |> in
  match e with
  | Some e => c <| call_form := form e |> <| entry := e |>
  | None => c
  end.

Definition arm_deadline (sid : Z) (headers : HeaderMap) (w : World) : World :=
  match headers !! "grpc-timeout" with
  | None => w
  | Some v =>
      let ms := ParseGrpcTimeout v in
      if 0 <? ms then
        let '(id, l) := SetTimer ms (TDeadline sid) (loop w) in
        on_call sid (λ c, c <| deadline_timer := id |>) (w <| loop := l |>)
      else w
  end.

Definition OnHeadersComplete (sid : Z) (headers : HeaderMap) (end_stream : bool)
    (w : World) : World :=
  match headers !! ":path" with
  | Some p =>
      if grpc_content_type headers then
        let e := Find p router in
        let c := open_call p (now_ms w) e (default default_call (calls w !! sid)) in
        let w := arm_deadline sid headers (w <| calls ::= <[sid := c]> |>) in
        let w := if has_handler c && bool_decide (call_form c = kClientStreaming ∨ call_form c = kBidi)
                 then DispatchStream sid None w else w in
        if end_stream then FinishRequest sid w else w
      else TrailersOnlySt sid bad_headers w
  | None => TrailersOnlySt sid bad_headers w
  end.

(** [data] is [None] for the null pointer of an end-of-stream report. *)
Definition OnData (sid : Z) (data : option bytes) (end_stream : bool) (w : World) : World :=
  match calls w !! sid with
  | None => w
  | Some c =>
      if request_done c then w
      else
        let '(st, d) :=
          match data with
          | Some ((_ :: _) as data) => Consume data (decoder c)
          | _ => (Ok, decoder c)
          end in
        let w := on_call sid (λ c, c <| decoder := d |>) w in
        if negb (ok st) then RespondError sid st w
        else
          let '(go_on, w) :=
            if decide (call_form c = kUnary) then (true, w)
            else deliver_messages (length (messages_ d)) sid w in
          if go_on && end_stream then FinishRequest sid w else w
  end.

(** [Server::Impl::OnConnIdle] erases closed connections, this one included: its
    calls and contexts go, and so do the session's streams. *)
Definition OnConnIdle (w : World) : World :=
  if conn_closed w then
    w <| destroyed := true |> <| calls := ∅ |> <| ctxs := ∅ |>
      <| h2_streams := ∅ |> <| bodies := [] |>
  else w.

Definition OnStreamClose (sid : Z) (w : World) : World :=
  let w :=
    match calls w !! sid with
    | None => w
    | Some c =>
        let w := CancelStreamIo sid w in
        let w := FireCancel sid (deref sid w) in
        let w := deref sid w in
        let w := match calls w !! sid with
                 | Some c => if deadline_timer c =? 0 then w
                             else w <| loop ::= CancelTimer (deadline_timer c) |>
                 | None => w
                 end in
        w <| calls ::= delete sid |> <| ctxs ::= delete sid |>
    end in
  OnConnIdle w.

Definition OnDeadline (sid : Z) (w : World) : World :=
  match calls w !! sid with
  | None => w
  | Some _ =>
      let w := deref sid (FireCancel sid w) in
      match calls w !! sid with
      | None => w
      | Some c =>
          if responded c then w
          else
            let w := on_call sid (λ c, c <| responded := true |> <| deadline_timer := 0 |>) w in
            if bool_decide (call_form c ≠ kUnary) && response_headers_sent c then
              log_call ("sid=" +:+ pretty sid +:+ " status=DEADLINE_EXCEEDED")
                (send (SendTrailers sid (status_trailers deadline_status)) w)
            else SendTrailersOnly sid (code deadline_status) (message deadline_status) w
      end
  end.

(** The error branch of [ConnHook::OnRead]: the peer is gone. *)
Fixpoint cancel_all (sids : list Z) (w : World) : World :=
  match sids with
  | [] => w
  | sid :: sids =>
      cancel_all sids (deref sid (FireCancel sid (deref sid (CancelStreamIo sid (deref sid w)))))
  end.

(** The keys of a [std::map], in its order. *)
Definition map_keys {A} (m : gmap Z A) : list Z :=
  merge_sort (≤) (map fst (map_to_list m)).

Definition OnReadError (w : World) : World :=
  if conn_closed w then w
  else
    let w := w <| conn_closed := true |> in
    OnConnIdle (cancel_all (map_keys (calls w)) w).

(** *** The contexts' methods: what user code can call *)

(** [Ctx::Respond] and [StreamCtx::Respond]; both return [Status::Ok()]. *)
Definition ctx_Respond (o : CtxObj) (sid : Z) (st : Status) (payload : bytes) (w : World)
    : Status * World :=
  match o with
  | Ctx => (Ok, Respond sid st payload w)
  | StreamCtx _ => (Ok, FinishStream sid st w)
  end.

Definition ctx_IsCancelled (sid : Z) (w : World) : bool :=
  match calls w !! sid with Some c => cancel_fired c | None => true end.

Definition ctx_OnCancel (sid : Z) (cb : closure) (w : World) : bool * World :=
  match calls w !! sid with
  | None => (false, w)
  | Some c =>
      if cancel_fired c then (false, w)
      else (true, on_call sid (λ c, c <| cancel_cbs ::= λ l, l ++ [cb] |>) w)
  end.

Definition RemainingMsOf (timer_id : Z) : Z := if timer_id =? 0 then 0 else 1.

Definition ctx_TimeRemainingMs (sid : Z) (w : World) : Z :=
  match calls w !! sid with
  | None => 0
  | Some c => if cancel_fired c then 0 else RemainingMsOf (deadline_timer c)
  end.

Definition ctx_path (sid : Z) (w : World) : string :=
  match calls w !! sid with Some c => path c | None => "" end.

Definition ctx_ReadMessage (sid : Z) (cb : closure) (w : World) : World :=
  let first_msg := match ctxs w !! sid with Some (StreamCtx m) => m | _ => None end in
  match calls w !! sid with
  | None => call_out (UserRead cb stream_closed false []) w
  | Some c =>
      if read_finished c then
        call_out (UserRead cb stream_closed (request_half_closed c) []) w
      else
        match first_msg with
        | Some m => call_out (UserRead cb Ok false m) (w <| ctxs ::= <[sid := StreamCtx None]> |>)
        | None =>
            match pending_msgs c with
            | m :: q =>
                call_out (UserRead cb Ok false m) (on_call sid (λ c, c <| pending_msgs := q |>) w)
            | [] =>
                if request_half_closed c then
                  call_out (UserRead cb Ok true [])
                    (on_call sid (λ c, c <| read_finished := true |>) w)
                else
                  match read_cb c with
                  | Some _ => call_out (UserRead cb concurrent_read false []) w
                  | None => on_call sid (λ c, c <| read_cb := Some cb |>) w
                  end
            end
        end
  end.

(** [if (cb) cb(st)] *)
Definition answer_write (cb : option closure) (st : Status) (w : World) : World :=
  match cb with Some cb => call_out (UserWrite cb st) w | None => w end.

Definition ctx_WriteMessage (sid : Z) (msg : bytes) (cb : option closure) (w : World) : World :=
  match calls w !! sid with
  | None => answer_write cb stream_closed w
  | Some c =>
      if responded c || write_closed c then answer_write cb stream_finished w
      else if (kQueueBound <=? length (out_queue c))%nat then answer_write cb queue_full w
      else
        PumpOut sid
          (on_call sid (λ c, c <| out_queue ::= λ q, q ++ [mkOutMsg (EncodeFrame msg []) cb] |>) w)
  end.

Definition ctx_WriteDone (sid : Z) (w : World) : World :=
  on_call sid (λ c, c <| write_closed := true |>) w.

Definition ctx_Finish (sid : Z) (st : Status) (w : World) : World := FinishStream sid st w.

(** ** What can happen inside a call out *)
Inductive ReOp :=
  | ApiRespond (sid : Z) (st : Status) (payload : bytes)
  | ApiOnCancel (sid : Z) (cb : closure)
  | ApiRead (sid : Z) (cb : closure)
  | ApiWrite (sid : Z) (msg : bytes) (cb : option closure)
  | ApiWriteDone (sid : Z)
  | ApiFinish (sid : Z) (st : Status)
  | H2Consumed (sid : Z) (n : nat)         (* the [n]th body of the stream *)
  | H2Close (sid : Z) (keep : list bool).

(** A method of a context object that no longer exists is undefined behaviour. *)
Definition with_ctx (sid : Z) (f : CtxObj → World → World) (w : World) : World :=
  match ctxs w !! sid with
  | Some o => f o w
  | None => w <| ub := true |>
  end.

(** A method that only [StreamCallCtx] has. *)
Definition with_stream_ctx (sid : Z) (f : World → World) (w : World) : World :=
  with_ctx sid (λ o w, match o with StreamCtx _ => f w | Ctx => w end) w.

Definition do_op (op : ReOp) (w : World) : World :=
  match op with
  | ApiRespond sid st payload => with_ctx sid (λ o w, (ctx_Respond o sid st payload w).2) w
  | ApiOnCancel sid cb => with_ctx sid (λ _ w, (ctx_OnCancel sid cb w).2) w
  | ApiRead sid cb => with_stream_ctx sid (ctx_ReadMessage sid cb) w
  | ApiWrite sid msg cb => with_stream_ctx sid (ctx_WriteMessage sid msg cb) w
  | ApiWriteDone sid => with_stream_ctx sid (ctx_WriteDone sid) w
  | ApiFinish sid st => with_stream_ctx sid (ctx_Finish sid st) w
  | H2Consumed sid n =>
      match take_body sid n (bodies w) with
      | Some (cb, b) => OnConsumed sid cb (w <| bodies := b |>)
      | None => w
      end
  | H2Close sid keep =>
      OnStreamClose sid (w <| h2_streams ::= λ s, s ∖ {[sid]} |>
                           <| bodies ::= drop_bodies sid keep |>)
  end.

(** A task of this connection that the loop runs.  The deadline task captures
    the connection and nothing else; the pump task checks that the server is
    alive, then uses the connection. *)
Definition run_stask (t : STask) (w : World) : World :=
  match t with
  | TDeadline sid => if destroyed w then w <| ub := true |> else OnDeadline sid w
  | TPumpOut sid =>
      if negb (alive w) then w
      else if destroyed w then w <| ub := true |> else PumpOut sid w
  end.
End Conn.
