(* ===== verification/ServerInv.v ===== *)
(** * Invariants of a server connection

    The frames of a stream follow the response grammar (headers, data, one
    terminal), the queues are bounded, a context has its call.  The proofs are
    by rely and guarantee: [Inv] holds at every call out, [Rely] is what a call
    out may do to the world, and every operation, given a [reenter] that keeps
    both, keeps both. *)
From S2P Require Import Prelude Status CxxString Wire Codec Router Loop SessionSpec ServerConn.

(** ** The response grammar *)
Inductive phase := Fresh | Open | Done | Refused | Again | Violation.
#[export] Instance phase_eq_dec : EqDecision phase.
Proof. solve_decision. Defined.

(** The fields of the refusal of a header block that is no request. *)
Definition refusal : header_fields := trailers_only_headers (code bad_headers) (message bad_headers).

(** The phase of a stream after one more output: headers, then data, then one
    terminal (trailers, or headers that end the stream), then nothing.  Data
    never ends the stream: the trailers do.  A stream that was only ever refused
    may be refused [Again]: [TrailersOnly] keeps no record of a stream that has
    no call. *)
Definition phase_step (sid : Z) (p : phase) (o : Out) : phase :=
  match o with
  | SendHeaders s h e =>
      if decide (s = sid) then
        match p with
        | Fresh => if e then if decide (h = refusal) then Refused else Done else Open
        | Open => if e then Done else Violation
        | Refused | Again => if e then if decide (h = refusal) then Again else Violation else Violation
        | _ => Violation
        end
      else p
  | SendData s _ e =>
      if decide (s = sid) then
        match p with Open => if e then Violation else Open | _ => Violation end
      else p
  | SendTrailers s _ =>
      if decide (s = sid) then match p with Open => Done | _ => Violation end else p
  | _ => p
  end.

Definition phase_of (tr : list Out) (sid : Z) : phase := fold_left (phase_step sid) tr Fresh.

(** The stream that a frame is for. *)
Definition frame_sid (o : Out) : option Z :=
  match o with
  | SendHeaders s _ _ | SendData s _ _ | SendTrailers s _ => Some s
  | _ => None
  end.

Lemma phase_of_snoc tr o sid : phase_of (tr ++ [o]) sid = phase_step sid (phase_of tr sid) o.
Proof. unfold phase_of. by rewrite fold_left_app. Qed.

Lemma phase_step_other sid p o : frame_sid o ≠ Some sid → phase_step sid p o = p.
Proof. destruct o; simpl; intros H; try done; by rewrite decide_False by congruence. Qed.

Lemma phase_headers sid h : phase_step sid Fresh (SendHeaders sid h false) = Open.
Proof. simpl. by rewrite decide_True. Qed.
Lemma phase_data sid d : phase_step sid Open (SendData sid d false) = Open.
Proof. simpl. by rewrite decide_True. Qed.
Lemma phase_trailers sid t : phase_step sid Open (SendTrailers sid t) = Done.
Proof. simpl. by rewrite decide_True. Qed.

(** Headers that end an unanswered stream. *)
Lemma phase_headers_end sid h p :
  p = Fresh ∨ p = Open →
  phase_step sid p (SendHeaders sid h true) ≠ Violation ∧
  phase_step sid p (SendHeaders sid h true) ≠ Again.
Proof. simpl. rewrite decide_True by done. intros [-> | ->]; [by case_decide|done]. Qed.

(** A stream that has been refused, and by nothing but refusals. *)
Definition was_refused (p : phase) : Prop := p = Refused ∨ p = Again.

Lemma phase_refusal sid p :
  p = Fresh ∨ was_refused p → was_refused (phase_step sid p (SendHeaders sid refusal true)).
Proof.
  unfold was_refused. simpl. rewrite !decide_True by done. intros [-> |[-> | ->]]; auto.
Qed.
Lemma was_refused_ok p : was_refused p → p ≠ Violation.
Proof. by intros [-> | ->]. Qed.

(** ** The invariant *)

(** Bodies of a stream that the session has yet to report consumed. *)
Definition nbodies (b : list (Z * option nat)) (sid : Z) : nat :=
  length (filter (λ x : Z * option nat, x.1 = sid) b).

Definition call_ok (p : phase) (nb : nat) (c : Call) : Prop :=
  p ≠ Again ∧
  (length (out_queue c) ≤ kQueueBound)%nat ∧
  (length (pending_msgs c) ≤ kQueueBound)%nat ∧
  (responded c = false → p = if response_headers_sent c then Open else Fresh) ∧
  (out_inflight c = true ∨ out_queue c ≠ [] → response_headers_sent c = true) ∧
  (has_finish_pending c = true →
    responded c = true ∧ response_headers_sent c = true ∧ p = Open) ∧
  (call_form c = kUnary → response_headers_sent c = false ∧ out_queue c = []) ∧
  (out_inflight c = false → nb = 0%nat) ∧ (nb ≤ 1)%nat.

Lemma call_ok_finish p nb c :
  call_ok p nb c → has_finish_pending c = true →
  responded c = true ∧ response_headers_sent c = true ∧ p = Open.
Proof. unfold call_ok. tauto. Qed.
Lemma call_ok_unfinished p nb c :
  call_ok p nb c → responded c = false → has_finish_pending c = false.
Proof.
  intros Hok Hr. destruct (has_finish_pending c) eqn:E; [|done].
  destruct (call_ok_finish _ _ _ Hok E). congruence.
Qed.

(** The context fits the form of the call. *)
Definition ctx_fits (o : CtxObj) (f : MethodForm) : Prop :=
  match o with Ctx => f = kUnary | StreamCtx _ => f ≠ kUnary end.

Record Inv (w : World) : Prop := {
  inv_call sid c : calls w !! sid = Some c →
    sid ∈ opened w ∧ call_ok (phase_of (trace w) sid) (nbodies (bodies w) sid) c;
  inv_unborn sid : sid ∉ opened w → nbodies (bodies w) sid = 0%nat;
  inv_fresh sid : sid ∉ opened w → phase_of (trace w) sid = Fresh;
  inv_grammar sid : phase_of (trace w) sid ≠ Violation;
  inv_ctx sid o : ctxs w !! sid = Some o →
    ∃ c, calls w !! sid = Some c ∧ ctx_fits o (call_form c)
}.

(** ** The rely *)

(** Nothing but the code in the middle of a call out will send on this stream:
    its terminal is claimed, or its body is on its way to the session. *)
Inductive lock := LDone | LInflight.
Definition locked_call (k : lock) (nb : nat) (c : Call) : Prop :=
  match k with
  | LDone => responded c = true ∧ has_finish_pending c = false
  | LInflight => out_inflight c = true ∧ nb = 0%nat
  end.
Definition locked (k : lock) (w : World) (sid : Z) : Prop :=
  match calls w !! sid with
  | Some c => locked_call k (nbodies (bodies w) sid) c
  | None => sid ∈ opened w
  end.

Record RelyOn (X : Z → Prop) (w w' : World) : Prop := {
  rely_dom sid : calls w !! sid = None → calls w' !! sid = None;
  rely_streams : h2_streams w' ⊆ h2_streams w;
  rely_gone sid : is_Some (calls w !! sid) → calls w' !! sid = None → sid ∉ h2_streams w';
  rely_opened : opened w' = opened w;
  rely_locked k sid : ¬ X sid → locked k w sid →
    locked k w' sid ∧ phase_of (trace w') sid = phase_of (trace w) sid
}.
Abbreviation Rely := (RelyOn (λ _, False)) (only parsing).
Abbreviation RelyBut sid := (RelyOn (eq sid)) (only parsing).

Lemma RelyOn_refl X w : RelyOn X w w.
Proof. split; try done. intros sid [c Hc] Hn. congruence. Qed.

Lemma RelyOn_trans X w1 w2 w3 : RelyOn X w1 w2 → RelyOn X w2 w3 → RelyOn X w1 w3.
Proof.
  intros H12 H23. split.
  - intros sid H. by apply (rely_dom _ _ _ H23), (rely_dom _ _ _ H12).
  - etrans; [by eapply rely_streams|by eapply rely_streams].
  - intros sid H1 H3. destruct (calls w2 !! sid) as [c|] eqn:H2.
    + eapply rely_gone; [done|by rewrite H2|done].
    + intros Hin. eapply (rely_gone _ _ _ H12); [done..|]. by eapply rely_streams.
  - etrans; [by eapply rely_opened|by eapply rely_opened].
  - intros k sid HX H. destruct (rely_locked _ _ _ H12 k sid HX H) as [H2 Hp2].
    destruct (rely_locked _ _ _ H23 k sid HX H2) as [H3 Hp3]. split; [done|congruence].
Qed.

Lemma Rely_weaken X w w' : Rely w w' → RelyOn X w w'.
Proof.
  intros H. split; try apply H. intros k sid _. apply (rely_locked _ _ _ H). tauto.
Qed.

(** A stream that was not locked may have gained frames. *)
Lemma RelyBut_Rely sid w w' : (∀ k, ¬ locked k w sid) → RelyBut sid w w' → Rely w w'.
Proof.
  intros Hl H. split; try apply H. intros k sid' _ Hl'.
  destruct (decide (sid = sid')) as [<-|Hne]; [by destruct (Hl k)|].
  by apply (rely_locked _ _ _ H).
Qed.

Lemma Rely_split sid w w' :
  RelyBut sid w w' →
  (∀ k, locked k w sid → locked k w' sid ∧ phase_of (trace w') sid = phase_of (trace w) sid) →
  Rely w w'.
Proof.
  intros H Hl. split; try apply H. intros k sid' _ Hl'.
  destruct (decide (sid = sid')) as [<-|Hne]; [auto|]. by apply (rely_locked _ _ _ H).
Qed.

(** [w'] keeps the invariant and is a world that [w] may become. *)
Definition Good (w w' : World) : Prop := Inv w' ∧ Rely w w'.
Definition GoodBut (sid : Z) (w w' : World) : Prop := Inv w' ∧ RelyBut sid w w'.

Lemma Good_refl w : Inv w → Good w w.
Proof. split; [done|apply RelyOn_refl]. Qed.

Lemma Good_trans w1 w2 w3 : Good w1 w2 → Good w2 w3 → Good w1 w3.
Proof. intros [_ H1] [H2 H3]. split; [done|by eapply RelyOn_trans]. Qed.

Lemma GoodBut_trans sid w1 w2 w3 : GoodBut sid w1 w2 → GoodBut sid w2 w3 → GoodBut sid w1 w3.
Proof. intros [_ H1] [H2 H3]. split; [done|by eapply RelyOn_trans]. Qed.

Lemma Good_But sid w w' : Good w w' → GoodBut sid w w'.
Proof. intros [? ?]. split; [done|by apply Rely_weaken]. Qed.

Lemma GoodBut_Good sid w w' : (∀ k, ¬ locked k w sid) → GoodBut sid w w' → Good w w'.
Proof. intros ? [? ?]. split; [done|by eapply RelyBut_Rely]. Qed.

Lemma Good_Inv w w' : Good w w' → Inv w'.
Proof. by intros []. Qed.

(** ** World updates *)

(** The parts of the world that [Inv] and [Rely] look at are the same. *)
Definition same_core (w w' : World) : Prop :=
  calls w' = calls w ∧ ctxs w' = ctxs w ∧ opened w' = opened w ∧
  h2_streams w' = h2_streams w ∧ bodies w' = bodies w ∧
  ∀ sid, phase_of (trace w') sid = phase_of (trace w) sid.

Lemma same_core_Good w w' : same_core w w' → Inv w → Good w w'.
Proof.
  intros (Hc & Hx & Ho & Hh & Hb & Hp) HI. split.
  - split.
    + intros sid c. rewrite Hc, Hp, Ho, Hb. apply HI.
    + intros sid. rewrite Ho, Hb. apply HI.
    + intros sid. rewrite Ho, Hp. apply HI.
    + intros sid. rewrite Hp. apply HI.
    + intros sid o. rewrite Hc, Hx. apply HI.
  - split; unfold locked; rewrite ?Hc, ?Ho, ?Hh, ?Hb; try done.
    intros sid [c Hs]. congruence.
Qed.

(** A call's update that keeps what the others rely on. *)
Definition upd_ok (p : phase) (nb : nat) (c c' : Call) : Prop :=
  call_ok p nb c → call_ok p nb c' ∧ call_form c' = call_form c ∧
  ∀ k, locked_call k nb c → locked_call k nb c'.

Lemma calls_on_call sid f w sid' :
  calls (on_call sid f w) !! sid' =
  if decide (sid' = sid) then f <$> calls w !! sid else calls w !! sid'.
Proof.
  unfold on_call. simpl. case_decide; [subst; by rewrite lookup_alter_eq|].
  by rewrite lookup_alter_ne by done.
Qed.

Lemma on_call_Rely sid f w :
  (∀ c k, calls w !! sid = Some c →
    locked_call k (nbodies (bodies w) sid) c → locked_call k (nbodies (bodies w) sid) (f c)) →
  Rely w (on_call sid f w).
Proof.
  intros Hf. split; try done.
  - intros sid'. rewrite calls_on_call. case_decide; [subst|done]. by intros ->.
  - intros sid' [c Hc]. rewrite calls_on_call. case_decide; [subst|congruence].
    by rewrite Hc.
  - intros k sid' _. unfold locked. rewrite calls_on_call.
    case_decide; [subst|done]. destruct (calls w !! sid) as [c|] eqn:Hc; [|done].
    intros Hl. split; [|done]. by apply Hf.
Qed.

Lemma on_call_RelyBut sid f w : RelyBut sid w (on_call sid f w).
Proof.
  split; try done.
  - intros sid'. rewrite calls_on_call. case_decide; [subst|done]. by intros ->.
  - intros sid' [c Hc]. rewrite calls_on_call. case_decide; [subst|congruence].
    by rewrite Hc.
  - intros k sid' Hne. unfold locked. rewrite calls_on_call. by rewrite decide_False by congruence.
Qed.

Lemma on_call_Good sid f w :
  Inv w →
  (∀ c, calls w !! sid = Some c →
    upd_ok (phase_of (trace w) sid) (nbodies (bodies w) sid) c (f c)) →
  Good w (on_call sid f w).
Proof.
  intros HI Hf. split.
  - split; try apply HI.
    + intros sid' c'. rewrite calls_on_call. case_decide; [subst sid'|apply HI].
      rewrite fmap_Some. intros (c & Hc & ->). destruct (inv_call _ HI _ _ Hc).
      split; [done|by apply Hf].
    + intros sid' o Ho. rewrite calls_on_call. destruct (inv_ctx _ HI _ _ Ho) as (c & Hc & Hfit).
      case_decide; [subst sid'|eauto]. rewrite Hc. eexists; split; [done|].
      destruct (inv_call _ HI _ _ Hc). by destruct (Hf c Hc) as (_ & -> & _).
  - apply on_call_Rely. intros c k Hc. destruct (inv_call _ HI _ _ Hc). by apply Hf.
Qed.

(** The invariant with one call in the middle of an update. *)
Definition InvBut (sid : Z) (w : World) : Prop :=
  (∀ sid' c, calls w !! sid' = Some c →
    sid' ∈ opened w ∧ (sid' ≠ sid → call_ok (phase_of (trace w) sid') (nbodies (bodies w) sid') c)) ∧
  (∀ sid', sid' ∉ opened w → nbodies (bodies w) sid' = 0%nat) ∧
  (∀ sid', sid' ∉ opened w → phase_of (trace w) sid' = Fresh) ∧
  (∀ sid', phase_of (trace w) sid' ≠ Violation) ∧
  (∀ sid' o, ctxs w !! sid' = Some o →
    ∃ c, calls w !! sid' = Some c ∧ ctx_fits o (call_form c)).

Lemma Inv_InvBut sid w : Inv w → InvBut sid w.
Proof.
  intros HI. split; [|split_and!; apply HI].
  intros sid' c Hc. destruct (inv_call _ HI _ _ Hc). by split.
Qed.

Lemma InvBut_Inv sid w :
  InvBut sid w →
  (∀ c, calls w !! sid = Some c → call_ok (phase_of (trace w) sid) (nbodies (bodies w) sid) c) →
  Inv w.
Proof.
  intros (H1 & H2 & H3 & H4 & H5) Hc. split; try done.
  intros sid' c' Hc'. destruct (H1 _ _ Hc') as [Ho Hok]. split; [done|].
  destruct (decide (sid' = sid)) as [->|]; auto.
Qed.

Lemma on_call_InvBut sid f w :
  InvBut sid w → (∀ c, calls w !! sid = Some c → call_form (f c) = call_form c) →
  InvBut sid (on_call sid f w).
Proof.
  intros (H1 & H2 & H3 & H4 & H5) Hf. split_and!; try done.
  - intros sid' c'. rewrite calls_on_call. case_decide; [subst sid'|apply H1].
    rewrite fmap_Some. intros (c & Hc & ->). split; [by eapply H1|done].
  - intros sid' o Ho. rewrite calls_on_call. destruct (H5 _ _ Ho) as (c & Hc & Hfit).
    case_decide; [subst sid'|eauto]. rewrite Hc. eexists; split; [done|]. by rewrite Hf.
Qed.

(** The world when a call out begins. *)
Definition record_out (o : Out) (w : World) : World := w <| trace ::= λ t, t ++ [o] |>.

Lemma record_out_frame sid o w :
  InvBut sid w → sid ∈ opened w → frame_sid o = Some sid →
  phase_step sid (phase_of (trace w) sid) o ≠ Violation →
  (∀ c, calls w !! sid = Some c →
    call_ok (phase_step sid (phase_of (trace w) sid) o) (nbodies (bodies w) sid) c) →
  GoodBut sid w (record_out o w).
Proof.
  intros (H1 & H2 & H3 & H4 & H5) Hop Ho Hv Hc.
  assert (Hne : ∀ sid', sid' ≠ sid →
    phase_of (trace (record_out o w)) sid' = phase_of (trace w) sid').
  { intros sid' Hne. simpl. rewrite phase_of_snoc. apply phase_step_other. congruence. }
  assert (Heq : phase_of (trace (record_out o w)) sid = phase_step sid (phase_of (trace w) sid) o).
  { simpl. apply phase_of_snoc. }
  split.
  - split; try done.
    + intros sid' c Hc'. destruct (H1 _ _ Hc') as [Hop' Hok]. split; [done|].
      destruct (decide (sid' = sid)) as [->|Hn]; [rewrite Heq; by apply Hc|].
      rewrite Hne by done. by apply Hok.
    + intros sid' Hn. destruct (decide (sid' = sid)) as [->|]; [done|]. rewrite Hne; auto.
    + intros sid'. destruct (decide (sid' = sid)) as [->|]; [by rewrite Heq|]. rewrite Hne; auto.
  - split; try done.
    + intros sid' [c Hs] Hn. simpl in Hn. congruence.
    + intros k sid' Hn Hl. split; [done|]. apply Hne. congruence.
Qed.

(** Closes the obligation of an update that touches no field of [call_ok], or
    whose effect on them is by cases. *)
Ltac solve_upd :=
  let c := fresh "c" in let Hc := fresh "Hc" in
  intros c Hc; simplify_eq; try clear Hc;
  match goal with |- upd_ok _ _ ?c _ => destruct c end;
  unfold upd_ok, call_ok, locked_call; simpl in *; subst;
  intros; destruct_and?; split_and!; try done; intros;
  try (repeat match goal with k : lock |- _ => destruct k end); simpl in *;
  try lia; try solve [intuition (congruence || lia)]; try solve [naive_solver lia].
Ltac solve_ok := simpl in *; intros; try done; try lia; intuition (congruence || lia).

(** The operations stay folded: their lemmas below speak of them. *)
#[global] Arguments call_out : simpl never.
#[global] Arguments send : simpl never.
#[global] Arguments on_call : simpl never.
#[global] Arguments deref : simpl never.
#[global] Arguments log_call : simpl never.
#[global] Arguments StopDeadline : simpl never.

(** Steps in sequence, from the last one. *)
Lemma Good_step w w1 w2 : Good w w1 → (Inv w1 → Good w1 w2) → Good w w2.
Proof. intros H1 H2. eapply Good_trans; [done|]. apply H2, H1. Qed.

Ltac good_by L :=
  eapply Good_step; cycle 1; [let H := fresh in intros H; eapply L; try exact H|].
Ltac good :=
  repeat lazymatch goal with
  | |- Good ?w ?w => apply Good_refl; assumption
  | |- Good _ (on_call _ _ _) => good_by on_call_Good; [solve_upd|]
  end; try done.

Lemma calls_StopDeadline sid w :
  calls (StopDeadline sid w) !! sid = (λ c, c <| deadline_timer := 0 |>) <$> calls w !! sid.
Proof.
  unfold StopDeadline. destruct (calls w !! sid) as [c|] eqn:Hc; [|by rewrite Hc].
  destruct (Z.eqb_spec (deadline_timer c) 0) as [Hz|].
  - rewrite Hc. simpl. f_equal. destruct c; simpl in *. by subst.
  - rewrite calls_on_call, decide_True by done. simpl. by rewrite Hc.
Qed.

(** The body of an open stream may be reported. *)
Lemma push_body_in sid cb w :
  sid ∈ h2_streams w → push_body sid cb w = w <| bodies ::= λ b, b ++ [(sid, cb)] |>.
Proof. intros H. unfold push_body, give_body. simpl. by rewrite decide_True. Qed.
Lemma push_body_out sid cb w : sid ∉ h2_streams w → push_body sid cb w = w.
Proof. intros H. unfold push_body, give_body. simpl. rewrite decide_False by done. by destruct w. Qed.

(** ** The operations *)
Section Keep.
Context (reenter : Out → World → World).
Context (Hre : ∀ o w, Inv w → Good w (reenter o w)).
#[local] Set Default Proof Using "Hre".

(** A call of user code, or any other output that is not a frame. *)
Lemma call_out_Good o w : frame_sid o = None → Inv w → Good w (call_out reenter o w).
Proof.
  intros Ho HI. assert (HG : Good w (record_out o w)).
  { apply same_core_Good; [|done]. split_and!; try done. intros sid. simpl.
    rewrite phase_of_snoc. apply phase_step_other. congruence. }
  eapply Good_trans; [done|]. apply Hre, HG.
Qed.

Lemma log_call_Good s w : Inv w → Good w (log_call s w).
Proof.
  intros HI. apply same_core_Good; [|done]. split_and!; try done. intros sid. simpl.
  by rewrite phase_of_snoc.
Qed.

Lemma set_ub_Good w : Inv w → Good w (w <| ub := true |>).
Proof. intros. by apply same_core_Good. Qed.

Lemma deref_Good sid w : Inv w → Good w (deref sid w).
Proof. intros. unfold deref. split_match; [by apply Good_refl|by apply set_ub_Good]. Qed.

Lemma set_loop_Good l w : Inv w → Good w (w <| loop ::= l |>).
Proof. intros. by apply same_core_Good. Qed.

(** A frame, given to the session. *)
Lemma send_frame sid o w :
  InvBut sid w → sid ∈ opened w → frame_sid o = Some sid →
  phase_step sid (phase_of (trace w) sid) o ≠ Violation →
  (∀ c, calls w !! sid = Some c →
    call_ok (phase_step sid (phase_of (trace w) sid) o) (nbodies (bodies w) sid) c) →
  GoodBut sid w (send reenter o w) ∧
  ∀ k, locked k w sid → locked k (send reenter o w) sid ∧
    phase_of (trace (send reenter o w)) sid = phase_step sid (phase_of (trace w) sid) o.
Proof.
  intros HI Hop Ho Hv Hc.
  set (w0 := if destroyed w then w <| ub := true |> else w).
  assert (InvBut sid w0 ∧ calls w0 = calls w ∧ opened w0 = opened w ∧ trace w0 = trace w ∧
    bodies w0 = bodies w ∧ h2_streams w0 = h2_streams w)
    as (HI0 & E1 & E2 & E3 & E4 & E5) by (unfold w0; by destruct (destroyed w)).
  assert (HG : GoodBut sid w0 (record_out o w0)).
  { apply record_out_frame; rewrite ?E1, ?E2, ?E3, ?E4; done. }
  assert (HR : Good (record_out o w0) (send reenter o w)) by apply Hre, HG.
  split.
  - split; [apply HR|]. destruct (GoodBut_trans _ _ _ _ HG (Good_But sid _ _ HR)) as [_ R].
    destruct R as [R1 R2 R3 R4 R5]. unfold locked in R5.
    split; unfold locked; rewrite <-?E1, <-?E2, <-?E3, <-?E4, <-?E5; done.
  - intros k Hl. destruct HR as [_ HR].
    destruct (rely_locked _ _ _ HR k sid) as [Hl' ->]; [tauto| |].
    + unfold locked in *. change (calls (record_out o w0)) with (calls w0).
      change (opened (record_out o w0)) with (opened w0).
      change (bodies (record_out o w0)) with (bodies w0). by rewrite E1, E2, E4.
    + split; [done|]. simpl. by rewrite phase_of_snoc, E3.
Qed.


Lemma same_core_step w w' w0 : Good w0 w → same_core w w' → Good w0 w'.
Proof. intros [HI HR] Hs. eapply Good_trans; [done|]. by apply same_core_Good. Qed.

Lemma StopDeadline_Good sid w : Inv w → Good w (StopDeadline sid w).
Proof.
  intros HI. unfold StopDeadline. split_matches; good. by apply set_loop_Good.
Qed.

Lemma fire_cancel_cbs_Good sid cbs w : Inv w → Good w (fire_cancel_cbs reenter sid cbs w).
Proof.
  revert w. induction cbs as [|cb cbs IH]; intros w HI; simpl; [good|].
  good_by IH. good_by deref_Good. by apply call_out_Good.
Qed.

Lemma FireCancel_Good sid w : Inv w → Good w (FireCancel reenter sid w).
Proof.
  intros HI. unfold FireCancel. split_matches; good. good_by fire_cancel_cbs_Good. good.
Qed.

Lemma drain_out_queue_Good fuel sid w : Inv w → Good w (drain_out_queue reenter fuel sid w).
Proof.
  revert w. induction fuel as [|fuel IH]; intros w HI; simpl;
    split_matches; good; try by apply same_core_Good.
  all: good_by IH; good; good_by call_out_Good; good.
Qed.

Lemma CancelStreamIo_Good spin sid w : Inv w → Good w (CancelStreamIo reenter spin sid w).
Proof.
  intros HI. unfold CancelStreamIo. split_matches; good.
  all: good_by drain_out_queue_Good; good; good_by call_out_Good; good.
Qed.

(** A body on its way to the session. *)
Lemma push_body_GoodBut sid cb w :
  Inv w → locked LInflight w sid → (calls w !! sid = None → sid ∉ h2_streams w) →
  GoodBut sid w (push_body sid cb w).
Proof.
  intros HI Hl Hn. destruct (decide (sid ∈ h2_streams w)) as [Hin|Hin];
    [rewrite push_body_in by done|rewrite push_body_out by done; apply Good_But, Good_refl, HI].
  destruct (calls w !! sid) as [c|] eqn:Hc; [|by destruct (Hn eq_refl)].
  unfold locked in Hl. rewrite Hc in Hl. destruct Hl as [Hif Hnb].
  assert (Hne : ∀ sid', sid' ≠ sid →
    nbodies (bodies w ++ [(sid, cb)]) sid' = nbodies (bodies w) sid').
  { intros sid' Hne. unfold nbodies. rewrite filter_app, filter_cons_False by (simpl; congruence).
    by rewrite filter_nil, app_nil_r. }
  assert (Heq : nbodies (bodies w ++ [(sid, cb)]) sid = 1%nat).
  { unfold nbodies in *. rewrite filter_app, filter_cons_True by done.
    by rewrite length_app, Hnb. }
  split.
  - split; try apply HI; simpl.
    + intros sid' c' Hc'. destruct (inv_call _ HI _ _ Hc') as [Ho Hok]. split; [done|].
      destruct (decide (sid' = sid)) as [->|]; [|by rewrite Hne].
      rewrite Heq. simplify_eq. unfold call_ok in *. destruct_and?. split_and!; try done.
      congruence.
    + intros sid' Hn'. destruct (inv_call _ HI _ _ Hc). rewrite Hne by congruence.
      by apply (inv_unborn _ HI).
  - split; try done; simpl; [intros sid' [? ?] ?; congruence|].
    intros k sid' Hs. unfold locked; simpl. by rewrite Hne by congruence.
Qed.

Lemma send_body_GoodBut sid d cb w :
  Inv w → sid ∈ opened w → phase_of (trace w) sid = Open → locked LInflight w sid →
  (calls w !! sid = None → sid ∉ h2_streams w) →
  GoodBut sid w (send reenter (SendData sid d false) (push_body sid cb w)).
Proof.
  intros HI Ho Hp Hl Hn. pose proof (push_body_GoodBut sid cb w HI Hl Hn) as HG.
  assert (Ht : trace (push_body sid cb w) = trace w) by done.
  assert (phase_step sid Open (SendData sid d false) = Open) as Hs by (simpl; by case_decide).
  eapply GoodBut_trans; [exact HG|]. destruct HG as [HI' HR]. apply send_frame.
  - by apply Inv_InvBut.
  - by rewrite (rely_opened _ _ _ HR).
  - done.
  - by rewrite Ht, Hp, Hs.
  - intros c Hc. rewrite Ht, Hp, Hs. destruct (inv_call _ HI' _ _ Hc) as [_ Hok].
    by rewrite Ht, Hp in Hok.
Qed.

(** A call that [PumpOut] may take a message of. *)
Definition pump_ready (p : phase) (nb : nat) (c : Call) (rest : list OutMsg) : Prop :=
  (length rest ≤ kQueueBound)%nat ∧ (length (pending_msgs c) ≤ kQueueBound)%nat ∧
  responded c = false ∧ has_finish_pending c = false ∧ out_inflight c = false ∧ nb = 0%nat ∧
  call_form c ≠ kUnary ∧ p = if response_headers_sent c then Open else Fresh.

Lemma pump_headers_GoodBut sid c rest w :
  InvBut sid w → calls w !! sid = Some c → 
  pump_ready (phase_of (trace w) sid) (nbodies (bodies w) sid) c rest →
  let w1 := on_call sid (λ c, c <| out_queue := rest |> <| out_inflight := true |>) w in
  let w2 := if response_headers_sent c then w1
            else send reenter (SendHeaders sid response_headers false)
                   (on_call sid (λ c, c <| response_headers_sent := true |>) w1) in
  GoodBut sid w w2 ∧ locked LInflight w2 sid ∧ phase_of (trace w2) sid = Open.
Proof.
  intros HI Hc Hr w1. destruct Hr as (Hq & Hpm & Hresp & Hfp & Hif & Hnb & Hform & Hp).
  assert (HI1 : InvBut sid w1) by by apply on_call_InvBut.
  assert (HR1 : Rely w w1).
  { apply on_call_Rely. intros c' k ? Hl. destruct k; simpl in *; intuition congruence. }
  assert (Hop : sid ∈ opened w) by by eapply HI.
  assert (Hc1 : calls w1 !! sid = Some (c <| out_queue := rest |> <| out_inflight := true |>)).
  { unfold w1. rewrite calls_on_call, decide_True by done. by rewrite Hc. }
  destruct (response_headers_sent c) eqn:Hs; intros w2.
  - assert (HI2 : Inv w1).
    { eapply InvBut_Inv; [done|]. intros ? Hc'. rewrite Hc1 in Hc'. simplify_eq.
      unfold call_ok; simpl. rewrite Hs. split_and!; solve_ok. }
    split_and!; [split; [done|by apply Rely_weaken]| |done].
    unfold locked, w2. rewrite Hc1. done.
  - assert (HI1' : InvBut sid (on_call sid (λ c, c <| response_headers_sent := true |>) w1))
      by by apply on_call_InvBut.
    assert (HR1' : Rely w1 (on_call sid (λ c, c <| response_headers_sent := true |>) w1)).
    { apply on_call_Rely. intros c' k ? Hl. destruct k; simpl in *; intuition congruence. }
    destruct (send_frame sid (SendHeaders sid response_headers false) _ HI1') as [HG Hk].
    + done.
    + done.
    + simpl. by rewrite decide_True, Hp by done.
    + intros c'. rewrite calls_on_call, decide_True by done. rewrite Hc1.
      simpl. rewrite decide_True, Hp by done. intros. simplify_eq. unfold call_ok; simpl. split_and!; solve_ok.
    + split.
      * destruct HG as [HI2 HR2]. split; [done|].
        eapply RelyOn_trans, RelyOn_trans, HR2; by apply Rely_weaken.
      * destruct (Hk LInflight) as [Hl Hph].
        { unfold locked. rewrite calls_on_call, decide_True by done. by rewrite Hc1. }
        split; [done|]. etrans; [done|]. simpl. by rewrite decide_True, Hp by done.
Qed.

Lemma pump_msg_GoodBut sid c out rest w :
  InvBut sid w → calls w !! sid = Some c →
  pump_ready (phase_of (trace w) sid) (nbodies (bodies w) sid) c rest →
  GoodBut sid w (pump_msg reenter sid c out rest w).
Proof.
  intros HI Hc Hr. destruct (pump_headers_GoodBut _ _ _ _ HI Hc Hr) as ([HI2 HR2] & Hl & Hp).
  destruct (send_body_GoodBut sid (framed out) (out_cb out) _ HI2) as [HI3 HR3]; [|done..| |].
  - rewrite (rely_opened _ _ _ HR2). by eapply HI.
  - intros Hn. by eapply (rely_gone _ _ _ HR2).
  - split; [done|]. eapply RelyOn_trans; [exact HR2|exact HR3].
Qed.

Lemma PumpOut_Good sid w : Inv w → Good w (PumpOut reenter sid w).
Proof.
  intros HI. unfold PumpOut. split_matches; good. bool_cond.
  destruct (inv_call _ HI _ _ Heqo) as [Ho Hok]. unfold call_ok in Hok. destruct_and?.
  apply (GoodBut_Good sid).
  - intros k. unfold locked. rewrite Heqo. destruct k; simpl; intuition congruence.
  - apply pump_msg_GoodBut; [by apply Inv_InvBut|done|]. rewrite Heql in *.
    unfold pump_ready. simpl in *. split_and!; try lia; auto.
    + destruct (has_finish_pending c); intuition congruence.
    + intuition congruence.
Qed.

(** A call whose terminal is claimed may be in any phase but one: it is not
    refused again. *)
Lemma call_ok_claimed p p' nb c :
  responded c = true → has_finish_pending c = false → p' ≠ Again →
  call_ok p nb c → call_ok p' nb c.
Proof. unfold call_ok. intuition congruence. Qed.

Lemma send_claimed sid o w :
  Inv w → sid ∈ opened w → locked LDone w sid → frame_sid o = Some sid →
  phase_step sid (phase_of (trace w) sid) o ≠ Violation →
  (calls w !! sid = None ∨ phase_step sid (phase_of (trace w) sid) o ≠ Again) →
  GoodBut sid w (send reenter o w) ∧ locked LDone (send reenter o w) sid ∧
  phase_of (trace (send reenter o w)) sid = phase_step sid (phase_of (trace w) sid) o.
Proof.
  intros HI Ho Hl Hf Hv Ha. destruct (send_frame sid o w) as [HG Hk]; try done.
  - by apply Inv_InvBut.
  - intros c Hc. unfold locked in Hl. rewrite Hc in Hl. destruct Hl.
    destruct Ha as [Ha|Ha]; [congruence|]. eapply call_ok_claimed; [done..|]. by apply (inv_call _ HI).
  - split; [done|]. by apply Hk.
Qed.

(** The next frame of a response. *)
Lemma send_next sid o p w :
  Inv w → sid ∈ opened w → locked LDone w sid → frame_sid o = Some sid →
  phase_step sid (phase_of (trace w) sid) o = p → p = Open ∨ p = Done →
  GoodBut sid w (send reenter o w) ∧ locked LDone (send reenter o w) sid ∧
  phase_of (trace (send reenter o w)) sid = p.
Proof.
  intros HI Ho Hl Hf Hs Hp. rewrite <-Hs. apply send_claimed; try done; [|right];
    rewrite Hs; by destruct Hp as [-> | ->].
Qed.

Lemma send_trailers_GoodBut sid t w :
  Inv w → sid ∈ opened w → locked LDone w sid → phase_of (trace w) sid = Open →
  GoodBut sid w (send reenter (SendTrailers sid t) w).
Proof.
  intros HI Ho Hl Hp. apply (send_next sid _ Done); try done; [|by right].
  by rewrite Hp, phase_trailers.
Qed.

Lemma GoodBut_step sid w w1 w2 : GoodBut sid w w1 → (Inv w1 → Good w1 w2) → GoodBut sid w w2.
Proof. intros H1 H2. eapply GoodBut_trans; [done|]. apply Good_But, H2, H1. Qed.

Lemma SendTrailersOnly_GoodBut sid c msg w :
  Inv w → sid ∈ opened w → locked LDone w sid →
  phase_of (trace w) sid = Fresh ∨ phase_of (trace w) sid = Open →
  GoodBut sid w (SendTrailersOnly reenter sid c msg w).
Proof.
  intros HI Ho Hl Hp. eapply GoodBut_step; [|intros; by apply log_call_Good].
  destruct (phase_headers_end sid (trailers_only_headers c msg) _ Hp).
  apply send_claimed; auto.
Qed.

(** A header block refused on a stream that has no call. *)
Lemma refuse_GoodBut sid w :
  Inv w → sid ∈ opened w → calls w !! sid = None →
  phase_of (trace w) sid = Fresh ∨ was_refused (phase_of (trace w) sid) →
  let w' := TrailersOnlySt reenter sid bad_headers w in
  GoodBut sid w w' ∧ was_refused (phase_of (trace w') sid).
Proof.
  intros HI Ho Hc Hp. unfold TrailersOnlySt, TrailersOnly. rewrite Hc. cbn zeta.
  pose proof (phase_refusal sid _ Hp) as Hr.
  destruct (send_claimed sid (SendHeaders sid refusal true) w HI Ho) as (HG & Hl & Hph);
    [unfold locked; by rewrite Hc|done|by apply was_refused_ok|by left|].
  split.
  - eapply GoodBut_step; [exact HG|intros; by apply log_call_Good].
  - rewrite <-Hph in Hr. refine (eq_ind_r was_refused _ (phase_of_snoc _ _ sid)). exact Hr.
Qed.

Lemma log_call_end_Good sid p c d w : Inv w → Good w (log_call_end sid p c d w).
Proof. intros. unfold log_call_end. good_by log_call_Good. by apply deref_Good. Qed.

(** The step that claims the terminal of an unanswered call. *)
Lemma claim_step sid f w c :
  Inv w → calls w !! sid = Some c → responded c = false →
  let w' := StopDeadline sid (on_call sid f w) in
  Good w (on_call sid f w) → responded (f c) = true → has_finish_pending (f c) = false →
  Inv w' ∧ Rely w w' ∧ sid ∈ opened w' ∧ locked LDone w' sid ∧
  (phase_of (trace w') sid = if response_headers_sent c then Open else Fresh).
Proof.
  intros HI Hc Hr w' HG Hr' Hf'. destruct (inv_call _ HI _ _ Hc) as [Ho Hok].
  assert (Hl : locked LDone (on_call sid f w) sid).
  { unfold locked. rewrite calls_on_call, decide_True by done. by rewrite Hc. }
  pose proof (StopDeadline_Good sid _ (Good_Inv _ _ HG)) as HG'.
  destruct (rely_locked _ _ _ (proj2 HG') LDone sid) as [Hl' Hp']; [tauto|done|].
  destruct (Good_trans _ _ _ HG HG') as [HI2 HR2].
  split_and!; try done.
  - unfold w'. by rewrite (rely_opened _ _ _ HR2).
  - unfold w'. rewrite Hp'. simpl. by apply Hok.
Qed.

(** [TrailersOnly] on a stream that has not been answered. *)
Lemma TrailersOnly_GoodBut sid st msg w :
  Inv w → sid ∈ opened w →
  (calls w !! sid = None → phase_of (trace w) sid = Fresh) →
  GoodBut sid w (TrailersOnly reenter sid st msg w).
Proof.
  intros HI Ho Hn. unfold TrailersOnly. destruct (calls w !! sid) as [c|] eqn:Hc.
  - destruct (responded c) eqn:Hr; [by apply Good_But, Good_refl|].
    destruct (claim_step sid (λ c, c <| responded := true |>) w c)
      as (HI1 & HR1 & Ho1 & Hl1 & Hp1); try done.
    + good.
    + destruct (inv_call _ HI _ _ Hc) as [_ Hok]. unfold call_ok in Hok. simpl.
      destruct (has_finish_pending c); [|done]. intuition congruence.
    + eapply GoodBut_trans; [split; [done|by apply Rely_weaken]|].
      apply SendTrailersOnly_GoodBut; try done. rewrite Hp1. destruct (response_headers_sent c); auto.
  - apply SendTrailersOnly_GoodBut; auto. unfold locked. by rewrite Hc.
Qed.

Lemma not_inflight_unlocked w sid c :
  calls w !! sid = Some c → responded c = false → out_inflight c = false →
  ∀ k, ¬ locked k w sid.
Proof. intros Hc ? ? k. unfold locked. rewrite Hc. destruct k; simpl; intuition congruence. Qed.

Lemma Respond_Good sid st payload w c :
  Inv w → calls w !! sid = Some c → call_form c = kUnary →
  Good w (Respond reenter sid st payload w).
Proof.
  intros HI Hc Hf. unfold Respond. rewrite Hc. destruct (responded c) eqn:Hr; [by apply Good_refl|].
  destruct (inv_call _ HI _ _ Hc) as [_ Hok]. unfold call_ok in Hok. destruct_and?.
  assert (Hhs : response_headers_sent c = false) by intuition congruence.
  assert (Hif : out_inflight c = false) by (destruct (out_inflight c); intuition congruence).
  eapply (GoodBut_Good sid); [by eapply not_inflight_unlocked|].
  destruct (claim_step sid (λ c, c <| responded := true |>) w c)
    as (HI1 & HR1 & Ho1 & Hl1 & Hp1); try done.
  { good. }
  { simpl. destruct (has_finish_pending c); intuition congruence. }
  rewrite Hhs in Hp1. eapply GoodBut_trans; [split; [exact HI1|by apply Rely_weaken]|].
  eapply GoodBut_step; [|intros; by apply log_call_end_Good].
  destruct (ok st); [|by apply SendTrailersOnly_GoodBut; auto].
  destruct (send_next sid (SendHeaders sid response_headers false) Open _ HI1 Ho1 Hl1)
    as (HG2 & Hl2 & Hp2); [done|by rewrite Hp1, phase_headers|by left|].
  eapply GoodBut_trans; [exact HG2|]. destruct HG2 as [HI2 HR2].
  pose proof Ho1 as Ho2. rewrite <-(rely_opened _ _ _ HR2) in Ho2.
  destruct (send_next sid (SendData sid (EncodeFrame payload []) false) Open _ HI2 Ho2 Hl2)
    as (HG3 & Hl3 & Hp3); [done|by rewrite Hp2, phase_data|by left|].
  eapply GoodBut_trans; [exact HG3|]. destruct HG3 as [HI3 HR3].
  rewrite <-(rely_opened _ _ _ HR3) in Ho2.
  by apply send_trailers_GoodBut.
Qed.

Lemma MaybeSendDeferredFinish_Good sid w : Inv w → Good w (MaybeSendDeferredFinish reenter sid w).
Proof.
  intros HI. unfold MaybeSendDeferredFinish. destruct (calls w !! sid) as [c|] eqn:Hc; [|good].
  destruct (negb (has_finish_pending c)) eqn:Hfp; [good|]. bool_cond.
  destruct (out_inflight c || _) eqn:Hq; [good|]. bool_cond.
  destruct (inv_call _ HI _ _ Hc) as [Ho Hok].
  destruct (call_ok_finish _ _ _ Hok) as (Hr & Hhs & Hp); [done|].
  apply (GoodBut_Good sid).
  { intros k. unfold locked. rewrite Hc. destruct k; simpl; intuition congruence. }
  assert (HG : Good w (on_call sid (λ c, c <| has_finish_pending := false |>) w)) by good.
  eapply GoodBut_step; [|intros; by apply log_call_end_Good].
  eapply GoodBut_trans; [apply Good_But, HG|]. apply send_trailers_GoodBut; try done.
  - apply HG.
  - unfold locked. rewrite calls_on_call, decide_True by done. by rewrite Hc.
Qed.

(** A terminal put off until the queue has drained. *)
Lemma defer_finish_Good sid f st w c :
  Inv w → calls w !! sid = Some c → responded c = false → Good w (on_call sid f w) →
  responded (f c) = true → response_headers_sent (f c) = true →
  let w1 := StopDeadline sid (on_call sid f w) in
  Rely w w1 → Inv w1 → phase_of (trace w1) sid = Open →
  Good w (on_call sid (λ c, c <| finish_pending := st |> <| has_finish_pending := true |>) w1).
Proof.
  intros HI Hc Hr HG Hr1 Hs w1 HR1 HI1 Hp1.
  assert (Hc1 : calls w1 !! sid = Some ((f c) <| deadline_timer := 0 |>)).
  { unfold w1. rewrite calls_StopDeadline, calls_on_call, decide_True by done. by rewrite Hc. }
  destruct (inv_call _ HI1 _ _ Hc1) as [Ho Hok]. split.
  - eapply InvBut_Inv; [apply on_call_InvBut; [by apply Inv_InvBut|done]|].
    intros c'. rewrite calls_on_call, decide_True, Hc1 by done. intros [= <-].
    unfold call_ok in *. simpl in Hok |- *. intuition.
  - apply (Rely_split sid).
    + eapply RelyOn_trans; [by apply Rely_weaken|]. apply on_call_RelyBut.
    + intros k Hl. destruct (rely_locked _ _ _ HR1 k sid) as [Hl1 Hp]; [tauto|done|].
      split; [|done]. destruct k; [unfold locked in Hl; rewrite Hc in Hl; destruct Hl; congruence|].
      unfold locked in *. rewrite calls_on_call, decide_True, Hc1 by done. by rewrite Hc1 in Hl1.
Qed.

Lemma FinishStream_Good sid st w : Inv w → Good w (FinishStream reenter sid st w).
Proof.
  intros HI. unfold FinishStream. destruct (calls w !! sid) as [c|] eqn:Hc; [|good].
  destruct (responded c) eqn:Hr; [good|].
  destruct (inv_call _ HI _ _ Hc) as [Ho Hok]. unfold call_ok in Hok. destruct_and?.
  set (f := λ c, c <| responded := true |> <| write_closed := true |> <| read_finished := true |>).
  assert (HG : Good w (on_call sid f w)) by (unfold f; good).
  assert (Hfp : has_finish_pending c = false)
    by (destruct (has_finish_pending c); intuition congruence).
  destruct (claim_step sid f w c HI Hc Hr HG) as (HI1 & HR1 & Ho1 & Hl1 & Hp1); try done.
  destruct (out_inflight c || _) eqn:Hq.
  - assert (response_headers_sent c = true) as Hs.
    { apply H3. apply orb_true_iff in Hq as [Hq|Hq]; [by left|right]. by destruct (out_queue c). }
    rewrite Hs in Hp1. by apply (defer_finish_Good sid f st w c).
  - bool_cond. apply (GoodBut_Good sid); [by eapply not_inflight_unlocked|].
    eapply GoodBut_trans; [split; [exact HI1|by apply Rely_weaken]|].
    destruct (response_headers_sent c) eqn:Hs; simpl negb; cbn match.
    + eapply GoodBut_step; [|intros; by apply log_call_end_Good].
      by apply send_trailers_GoodBut.
    + apply SendTrailersOnly_GoodBut; auto.
Qed.

(** ** Bodies, contexts, and the end of streams and connections *)

Lemma take_body_spec sid n bs cb b sid' :
  take_body sid n bs = Some (cb, b) →
  nbodies bs sid' = (if decide (sid' = sid) then S (nbodies b sid') else nbodies b sid')%nat.
Proof.
  intros (b1 & b2 & -> & ->)%take_body_elem. unfold nbodies.
  rewrite !filter_app, filter_cons, !length_app. simpl.
  repeat case_decide; simpl; try lia; congruence.
Qed.

Lemma consume_Good sid n cb b w :
  Inv w → take_body sid n (bodies w) = Some (cb, b) →
  Good w (on_call sid (λ c, c <| out_inflight := false |>) (w <| bodies := b |>)).
Proof.
  intros HI Hb. assert (Hn := λ sid', take_body_spec sid n (bodies w) cb b sid' Hb).
  assert (Hle : ∀ sid', (nbodies b sid' ≤ nbodies (bodies w) sid')%nat).
  { intros sid'. rewrite Hn. case_decide; lia. }
  split.
  - split; try apply HI.
    + intros sid' c'. rewrite calls_on_call. simpl. case_decide; [subst sid'|].
      * rewrite fmap_Some. intros (c & Hc & ->). destruct (inv_call _ HI _ _ Hc) as [Ho Hok].
        split; [done|]. unfold call_ok in *. destruct_and?. specialize (Hn sid).
        rewrite decide_True in Hn by done. simpl.
        split_and!; try done; try lia; intuition congruence.
      * intros Hc. destruct (inv_call _ HI _ _ Hc) as [Ho Hok]. split; [done|].
        specialize (Hn sid'). rewrite decide_False in Hn by done. by rewrite <-Hn.
    + intros sid' Ho. pose proof (Hle sid'). rewrite (inv_unborn _ HI _ Ho) in *. simpl. lia.
    + intros sid' o Ho. rewrite calls_on_call. destruct (inv_ctx _ HI _ _ Ho) as (c & Hc & Hfit).
      simpl. case_decide; [subst sid'|eauto]. rewrite Hc. by eexists.
  - split; try done.
    + intros sid'. rewrite calls_on_call. case_decide; [subst|done]. simpl. by intros ->.
    + intros sid' [c Hc]. rewrite calls_on_call. case_decide; [subst|simpl; congruence].
      simpl. by rewrite Hc.
    + intros k sid' _. unfold locked. rewrite calls_on_call. simpl. specialize (Hn sid').
      case_decide; simplify_eq; [|rewrite <-Hn; done].
      destruct (calls w !! sid) as [c|] eqn:Hc; simpl; [|done]. destruct k; simpl; [done|].
      intros [_ ?]. lia.
Qed.

Lemma OnConsumed_Good sid cb w w0 :
  Good w0 (on_call sid (λ c, c <| out_inflight := false |>) w) →
  Good w0 (OnConsumed reenter sid cb w).
Proof.
  intros HG. unfold OnConsumed. good_by MaybeSendDeferredFinish_Good. good_by set_loop_Good.
  destruct cb; [|done]. by good_by call_out_Good.
Qed.

Lemma ctx_insert_Good sid o w c :
  Inv w → calls w !! sid = Some c → ctx_fits o (call_form c) →
  Good w (w <| ctxs ::= <[sid := o]> |>).
Proof.
  intros HI Hc Hfit. split.
  - split; try apply HI. simpl. intros sid' o'. rewrite lookup_insert_Some.
    intros [[<- <-]|[_ Ho]]; [eauto|by apply HI].
  - split; try done. simpl. intros sid' [? ?] ?. congruence.
Qed.

Lemma DispatchStream_Good sid m w :
  Inv w → (∀ c, calls w !! sid = Some c → call_form c ≠ kUnary) →
  Good w (DispatchStream reenter sid m w).
Proof.
  intros HI Hf. unfold DispatchStream. destruct (calls w !! sid) as [c|] eqn:Hc; [|good].
  destruct (dispatched c); [good|].
  assert (HG : Good w (w <| calls ::= alter (λ c, c <| dispatched := true |>) sid |>
                         <| ctxs ::= <[sid := StreamCtx m]> |>)).
  { eapply Good_trans with (on_call sid (λ c, c <| dispatched := true |>) w); [good|].
    apply (ctx_insert_Good sid _ (on_call sid _ w) (c <| dispatched := true |>));
      [apply on_call_Good; [done|solve_upd]| |].
    - rewrite calls_on_call, decide_True by done. by rewrite Hc.
    - simpl. by apply Hf. }
  destruct (stream (entry c)); [by good_by call_out_Good|by good_by set_ub_Good].
Qed.

Lemma DeliverRead_Good sid st eos msg w : Inv w → Good w (DeliverRead reenter sid st eos msg w).
Proof.
  intros HI. unfold DeliverRead. destruct (calls w !! sid) as [c|] eqn:Hc; [|good].
  destruct (read_finished c); [good|]. destruct (negb (ok st) || eos).
  - destruct (read_cb c); [good_by call_out_Good; good|good].
  - destruct (read_cb c); [good_by call_out_Good; good|].
    destruct (Nat.leb_spec kQueueBound (length (pending_msgs c))).
    + by apply FinishStream_Good.
    + apply on_call_Good; [done|]. intros c' Hc'. simplify_eq.
      unfold upd_ok, call_ok; simpl. rewrite length_app; simpl.
      intuition lia.
Qed.

Lemma OnConnIdle_Good w : Inv w → Good w (OnConnIdle w).
Proof.
  intros HI. unfold OnConnIdle. destruct (conn_closed w); [|by apply Good_refl]. split.
  - split; simpl; try done; try apply HI.
  - split; simpl; try done; try set_solver.
    intros k sid _. unfold locked; simpl. destruct (calls w !! sid) eqn:Hc; [|done].
    intros _. split; [|done]. by eapply inv_call.
Qed.

Lemma erase_call_Good sid w :
  Inv w → sid ∉ h2_streams w →
  Good w (w <| calls ::= delete sid |> <| ctxs ::= delete sid |>).
Proof.
  intros HI Hs. split.
  - split; simpl; try apply HI.
    + intros sid' c'. rewrite lookup_delete_Some. intros [? ?]. by apply HI.
    + intros sid' o'. rewrite lookup_delete_Some. intros [Hne Ho].
      destruct (inv_ctx _ HI _ _ Ho) as (c & ? & ?). exists c. by rewrite lookup_delete_ne.
  - split; simpl; try done.
    + intros sid' Hc. apply lookup_delete_None. auto.
    + intros sid' [c Hc]. rewrite lookup_delete_None. intros [<-|?]; [done|congruence].
    + intros k sid' _. unfold locked; simpl. destruct (decide (sid = sid')) as [<-|].
      * rewrite lookup_delete_eq. destruct (calls w !! sid) eqn:Hc; [|done].
        intros _. split; [|done]. by eapply inv_call.
      * by rewrite lookup_delete_ne.
Qed.

(** The erasure of a call, with the callbacks that come before it. *)
Lemma OnStreamClose_Good spin sid w :
  Inv w → sid ∉ h2_streams w → Good w (OnStreamClose reenter spin sid w).
Proof.
  intros HI Hs. unfold OnStreamClose. good_by OnConnIdle_Good.
  destruct (calls w !! sid) as [c|] eqn:Hc; [|by apply Good_refl].
  set (w1 := deref sid (FireCancel reenter sid (deref sid (CancelStreamIo reenter spin sid w)))).
  assert (HG1 : Good w w1).
  { unfold w1. good_by deref_Good. good_by FireCancel_Good. good_by deref_Good.
    by apply CancelStreamIo_Good. }
  set (w2 := match calls w1 !! sid with Some c => _ | None => _ end).
  assert (HG2 : Good w w2).
  { unfold w2. split_matches; try done. by good_by set_loop_Good. }
  eapply Good_step; [exact HG2|]. intros HI2. apply erase_call_Good; [done|].
  pose proof (rely_streams _ _ _ (proj2 HG2)). set_solver.
Qed.

Lemma drop_bodies_le sid keep b sid' : (nbodies (drop_bodies sid keep b) sid' ≤ nbodies b sid')%nat.
Proof. apply sublist_length, filter_sublist, drop_bodies_sublist. Qed.

Lemma close_stream_Good sid keep w :
  Inv w →
  Good w (w <| h2_streams ::= λ s, s ∖ {[sid]} |> <| bodies ::= drop_bodies sid keep |>).
Proof.
  intros HI. assert (Hn := drop_bodies_le sid keep (bodies w)). split.
  - split; simpl; try apply HI.
    + intros sid' c Hc. destruct (inv_call _ HI _ _ Hc) as [Ho Hok]. split; [done|].
      specialize (Hn sid'). unfold call_ok in *. intuition lia.
    + intros sid' Hc. specialize (Hn sid'). rewrite (inv_unborn _ HI _ Hc) in Hn. lia.
  - split; simpl; try done; try set_solver.
    + intros sid' [? ?] ?. congruence.
    + intros k sid' _. unfold locked; simpl. destruct (calls w !! sid'); [|done].
      intros Hl. split; [|done]. specialize (Hn sid'). destruct k; simpl in *; [done|].
      split; [tauto|]. destruct Hl. lia.
Qed.

(** *** What user code calls *)

Lemma ctx_ReadMessage_Good sid cb w m :
  Inv w → ctxs w !! sid = Some (StreamCtx m) → Good w (ctx_ReadMessage reenter sid cb w).
Proof.
  intros HI Hx. unfold ctx_ReadMessage. rewrite Hx.
  destruct (inv_ctx _ HI _ _ Hx) as (c & Hc & Hf). rewrite Hc.
  destruct (read_finished c); [by apply call_out_Good|].
  destruct m as [m|].
  { good_by call_out_Good; [done|]. by eapply ctx_insert_Good. }
  destruct (pending_msgs c) as [|m q] eqn:Hq.
  - destruct (request_half_closed c); [good_by call_out_Good; good|].
    destruct (read_cb c); [by apply call_out_Good|good].
  - good_by call_out_Good; [done|]. apply on_call_Good; [done|].
    intros c' Hc'. simplify_eq. unfold upd_ok, call_ok; simpl. rewrite Hq; simpl. intuition lia.
Qed.

Lemma answer_write_Good cb st w : Inv w → Good w (answer_write reenter cb st w).
Proof. intros. destruct cb; [by apply call_out_Good|by apply Good_refl]. Qed.

Lemma ctx_WriteMessage_Good sid msg cb w m :
  Inv w → ctxs w !! sid = Some (StreamCtx m) → Good w (ctx_WriteMessage reenter sid msg cb w).
Proof.
  intros HI Hx. unfold ctx_WriteMessage. destruct (inv_ctx _ HI _ _ Hx) as (c & Hc & Hf).
  rewrite Hc. destruct (responded c || write_closed c) eqn:Hr; [by apply answer_write_Good|].
  bool_cond. destruct (Nat.leb_spec kQueueBound (length (out_queue c))); [by apply answer_write_Good|].
  set (g := λ c0 : Call, c0 <| out_queue ::= λ q, q ++ [mkOutMsg (EncodeFrame msg []) cb] |>).
  assert (Hc' : calls (on_call sid g w) !! sid = Some (g c)).
  { rewrite calls_on_call, decide_True by done. by rewrite Hc. }
  destruct (inv_call _ HI _ _ Hc) as [Ho Hok]. pose proof (call_ok_unfinished _ _ _ Hok H) as Hfp.
  unfold call_ok in Hok. destruct_and?.
  unfold PumpOut. rewrite Hc'. destruct (out_queue (g c)) as [|out rest] eqn:Hq.
  { simpl in Hq. by destruct (out_queue c). }
  change (responded (g c)) with (responded c). change (write_closed (g c)) with (write_closed c).
  change (out_inflight (g c)) with (out_inflight c). rewrite H, H0.
  assert (Hlen : length (out_queue (g c)) = S (length (out_queue c))).
  { simpl. rewrite length_app. simpl. lia. }
  destruct (out_inflight c) eqn:Hif; simpl orb; cbn match.
  - apply on_call_Good; [done|]. intros c'. rewrite Hc. intros [= <-].
    unfold upd_ok, call_ok. rewrite Hlen. simpl. rewrite Hif. intuition (try lia; try congruence).
  - apply (GoodBut_Good sid); [by eapply not_inflight_unlocked|].
    destruct (pump_msg_GoodBut sid (g c) out rest (on_call sid g w)) as [HI' HR'].
    + apply on_call_InvBut; [by apply Inv_InvBut|done].
    + exact Hc'.
    + rewrite Hq in Hlen. simpl in Hlen. unfold pump_ready. split_and!; simpl; auto; lia.
    + split; [exact HI'|]. eapply RelyOn_trans; [apply on_call_RelyBut|exact HR'].
Qed.

(** *** Every operation that a call out may run *)
Theorem do_op_Good spin op w : Inv w → Good w (do_op reenter spin op w).
Proof.
  intros HI.
  assert (Hctx : ∀ sid f, (∀ o, ctxs w !! sid = Some o → Good w (f o w)) →
    Good w (with_ctx sid f w)).
  { intros sid f Hf. unfold with_ctx. destruct (ctxs w !! sid) eqn:Hx; [by apply Hf|].
    by apply set_ub_Good. }
  assert (Hstream : ∀ sid f, (∀ m, ctxs w !! sid = Some (StreamCtx m) → Good w (f w)) →
    Good w (with_stream_ctx sid f w)).
  { intros sid f Hf. apply Hctx. intros [|m] Hx; [by apply Good_refl|by eapply Hf]. }
  destruct op as [sid st p|sid cb|sid cb|sid msg cb|sid|sid st|sid|sid read]; unfold do_op.
  - apply Hctx. intros o Hx. destruct (inv_ctx _ HI _ _ Hx) as (c & Hc & Hf).
    destruct o; [by eapply Respond_Good|by apply FinishStream_Good].
  - apply Hctx. intros o _. unfold ctx_OnCancel. split_matches; try by apply Good_refl.
    apply on_call_Good; [done|solve_upd].
  - apply Hstream. intros m Hx. by eapply ctx_ReadMessage_Good.
  - apply Hstream. intros m Hx. by eapply ctx_WriteMessage_Good.
  - apply Hstream. intros m Hx. apply on_call_Good; [done|solve_upd].
  - apply Hstream. intros m Hx. by apply FinishStream_Good.
  - destruct (take_body sid n (bodies w)) as [[cb b]|] eqn:Hb; [|by apply Good_refl].
    apply OnConsumed_Good. by eapply consume_Good.
  - eapply Good_step; [by apply close_stream_Good|].
    intros. apply OnStreamClose_Good; [done|]. simpl. set_solver.
Qed.

(** ** The handlers of events *)

Lemma RespondError_GoodBut sid st w : Inv w → GoodBut sid w (RespondError reenter sid st w).
Proof.
  intros HI. unfold RespondError. destruct (calls w !! sid) as [c|] eqn:Hc;
    [|by apply Good_But, Good_refl].
  destruct (responded c) eqn:Hr; [by apply Good_But, Good_refl|].
  assert (HG : Good w (on_call sid (λ c, c <| responded := true |>) w)) by good.
  pose proof (StopDeadline_Good sid _ (Good_Inv _ _ HG)) as HG'.
  unfold TrailersOnly. rewrite calls_StopDeadline, calls_on_call, decide_True, Hc by done.
  apply Good_But. by eapply Good_trans.
Qed.

Lemma OnDeadline_GoodBut sid w : Inv w → GoodBut sid w (OnDeadline reenter sid w).
Proof.
  intros HI. unfold OnDeadline. destruct (calls w !! sid) as [c0|] eqn:Hc0;
    [|by apply Good_But, Good_refl].
  set (w1 := deref sid (FireCancel reenter sid w)).
  assert (HG : Good w w1) by (unfold w1; good_by deref_Good; by apply FireCancel_Good).
  eapply GoodBut_trans; [by apply Good_But|].
  destruct HG as [HI1 _]. destruct (calls w1 !! sid) as [c|] eqn:Hc; [|by apply Good_But, Good_refl].
  destruct (responded c) eqn:Hr; [by apply Good_But, Good_refl|].
  destruct (inv_call _ HI1 _ _ Hc) as [Ho Hok]. pose proof (call_ok_unfinished _ _ _ Hok Hr) as Hfp.
  assert (Hp : phase_of (trace w1) sid = if response_headers_sent c then Open else Fresh)
    by by apply Hok.
  set (w2 := on_call sid (λ c, c <| responded := true |> <| deadline_timer := 0 |>) w1).
  assert (HG2 : Good w1 w2) by (unfold w2; good).
  eapply GoodBut_trans; [by apply Good_But|]. destruct HG2 as [HI2 _].
  assert (Hl : locked LDone w2 sid).
  { unfold locked, w2. rewrite calls_on_call, decide_True by done. by rewrite Hc. }
  destruct (_ && response_headers_sent c) eqn:Hs.
  - bool_cond. rewrite H0 in Hp. eapply GoodBut_step; [|intros; by apply log_call_Good].
    by apply send_trailers_GoodBut.
  - apply (SendTrailersOnly_GoodBut sid _ _ w2); try done.
    change (trace w2) with (trace w1). rewrite Hp. destruct (response_headers_sent c); auto.
Qed.

(** The call's refusal, when the stream has one. *)
Lemma refuse_call_GoodBut sid st w c :
  Inv w → calls w !! sid = Some c → GoodBut sid w (TrailersOnlySt reenter sid st w).
Proof.
  intros HI Hc. apply (TrailersOnly_GoodBut sid); [done| |congruence]. by eapply inv_call.
Qed.

Lemma set_decoder_Good sid d w : Inv w → Good w (on_call sid (λ c, c <| decoder := d |>) w).
Proof. intros HI. apply on_call_Good; [done|solve_upd]. Qed.

Lemma FinishRequest_GoodBut sid w : Inv w → GoodBut sid w (FinishRequest reenter sid w).
Proof.
  intros HI. unfold FinishRequest. destruct (calls w !! sid) as [c|] eqn:Hc;
    [|by apply Good_But, Good_refl].
  destruct (request_done c); [by apply Good_But, Good_refl|].
  set (w1 := on_call sid (λ c, c <| request_done := true |>) w).
  assert (HG1 : Good w w1) by (unfold w1; good).
  eapply GoodBut_trans; [by apply Good_But|]. destruct HG1 as [HI1 _].
  assert (Hc1 : calls w1 !! sid = Some (c <| request_done := true |>)).
  { unfold w1. rewrite calls_on_call, decide_True by done. by rewrite Hc. }
  destruct (negb (has_handler c)); [by eapply refuse_call_GoodBut|].
  set (w2 := on_call sid (λ c, c <| request_half_closed := true |>) w1).
  assert (HG2 : Good w1 w2) by (unfold w2; good). pose proof (Good_Inv _ _ HG2) as HI2.
  assert (Hc2 : calls w2 !! sid = Some (c <| request_done := true |> <| request_half_closed := true |>)).
  { unfold w2. rewrite calls_on_call, decide_True by done. by rewrite Hc1. }
  assert (HR : ∀ st, GoodBut sid w1 (TrailersOnlySt reenter sid st w2)).
  { intros st. eapply GoodBut_trans; [by apply Good_But|]. by eapply refuse_call_GoodBut. }
  assert (HD : GoodBut sid w1 (DeliverRead reenter sid Ok true [] w2)).
  { apply Good_But. eapply Good_trans; [done|]. by apply DeliverRead_Good. }
  destruct (call_form c) eqn:Hf.
  - destruct (negb (message_count_ (decoder c) =? 0)); [by eapply refuse_call_GoodBut|].
    destruct (TakeMessage (decoder c)) as [[m d]|]; [|by eapply refuse_call_GoodBut].
    pose proof (set_decoder_Good sid d w1 HI1) as HG3.
    eapply GoodBut_trans; [exact (Good_But _ _ _ HG3)|]. apply Good_But.
    assert (HG4 : Good (on_call sid (λ c, c <| decoder := d |>) w1)
      (on_call sid (λ c, c <| decoder := d |>) w1 <| ctxs ::= <[sid := Ctx]> |>)).
    { apply (ctx_insert_Good sid Ctx (on_call sid (λ c, c <| decoder := d |>) w1)
        (c <| request_done := true |> <| decoder := d |>)); [apply HG3| |done].
      rewrite calls_on_call, decide_True by done. by rewrite Hc1. }
    eapply Good_trans; [exact HG4|]. destruct HG4 as [HI4 _].
    destruct (unary (entry c)); [by apply call_out_Good|by apply set_ub_Good].
  - destruct (negb (dispatched c)); [|done].
    destruct (TakeMessage (decoder c)) as [[m d]|]; [|done].
    eapply GoodBut_trans; [by apply Good_But|]. apply Good_But.
    eapply Good_step; [by apply set_decoder_Good|]. intros HI3. apply DispatchStream_Good; [done|].
    intros c'. rewrite calls_on_call, decide_True by done. rewrite Hc2. intros [= <-]. simpl. congruence.
  - by destruct (negb (dispatched c)).
  - by destruct (negb (dispatched c)).
Qed.

Lemma deliver_messages_Good n sid w : Inv w → Good w (deliver_messages reenter n sid w).2.
Proof.
  revert w. induction n as [|n IH]; intros w HI; simpl; [by apply Good_refl|].
  destruct (calls w !! sid) as [c|] eqn:Hc; [|by apply set_ub_Good].
  destruct (TakeMessage (decoder c)) as [[m d]|]; [|by apply Good_refl].
  set (w1 := on_call sid (λ c, c <| decoder := d |>) w).
  assert (HG1 : Good w w1) by by apply set_decoder_Good.
  eapply Good_trans; [done|]. destruct HG1 as [HI1 _].
  case_decide as Hf.
  - destruct (dispatched c); [by apply FinishStream_Good|].
    good_by IH. good_by deref_Good. apply DispatchStream_Good; [done|]. intros c'.
    unfold w1. rewrite calls_on_call, decide_True, Hc by done. intros [= <-]. simpl. congruence.
  - good_by IH. good_by deref_Good. by apply DeliverRead_Good.
Qed.

Lemma OnData_GoodBut sid data es w : Inv w → GoodBut sid w (OnData reenter sid data es w).
Proof.
  intros HI. unfold OnData. destruct (calls w !! sid) as [c|] eqn:Hc; [|by apply Good_But, Good_refl].
  destruct (request_done c); [by apply Good_But, Good_refl|].
  destruct (match data with Some ((_ :: _) as data) => _ | _ => _ end) as [st d].
  set (w1 := on_call sid (λ c, c <| decoder := d |>) w).
  assert (HG1 : Good w w1) by by apply set_decoder_Good.
  eapply GoodBut_trans; [by apply Good_But|]. destruct HG1 as [HI1 _].
  destruct (negb (ok st)); [by apply RespondError_GoodBut|].
  assert (H : Good w1 (if decide (call_form c = kUnary) then (true, w1)
    else deliver_messages reenter (length (messages_ d)) sid w1).2).
  { case_decide; [by apply Good_refl|]. by apply deliver_messages_Good. }
  destruct (if decide _ then _ else _) as [b w2]. simpl in H.
  destruct (b && es); [|by apply Good_But]. eapply GoodBut_trans; [by apply Good_But|].
  by apply FinishRequest_GoodBut, H.
Qed.

Lemma cancel_all_Good spin sids w : Inv w → Good w (cancel_all reenter spin sids w).
Proof.
  revert w. induction sids as [|sid sids IH]; intros w HI; simpl; [by apply Good_refl|].
  good_by IH. good_by deref_Good. good_by FireCancel_Good. good_by deref_Good.
  good_by CancelStreamIo_Good. by apply deref_Good.
Qed.

Lemma OnReadError_Good spin w : Inv w → Good w (OnReadError reenter spin w).
Proof.
  intros HI. unfold OnReadError. destruct (conn_closed w); [by apply Good_refl|].
  good_by OnConnIdle_Good. good_by cancel_all_Good. by apply same_core_Good.
Qed.

(** The stream that a task is for. *)
Definition task_sid (t : STask) : Z := match t with TDeadline sid | TPumpOut sid => sid end.

Lemma run_stask_GoodBut t w : Inv w → GoodBut (task_sid t) w (run_stask reenter t w).
Proof.
  intros HI. unfold run_stask. destruct t as [sid|sid]; cbn [task_sid].
  - destruct (destroyed w); [by apply Good_But, set_ub_Good|by apply OnDeadline_GoodBut].
  - apply Good_But. destruct (negb (alive w)); [by apply Good_refl|].
    destruct (destroyed w); [by apply set_ub_Good|by apply PumpOut_Good].
Qed.

(** A new stream, or a trailing header block. *)
Lemma open_call_ok mrs p now e nb :
  nb = 0%nat → call_ok Fresh nb (open_call mrs p now e default_call).
Proof. intros ->. destruct e; unfold call_ok; simpl; intuition; try lia; congruence. Qed.

(** The world in which a new stream has its call. *)
Definition with_call (sid : Z) (c : Call) (w : World) : World := w <| calls ::= <[sid := c]> |>.

Lemma with_call_Inv mrs p e sid w :
  Inv w → sid ∈ opened w → phase_of (trace w) sid = Fresh → nbodies (bodies w) sid = 0%nat →
  calls w !! sid = None →
  Inv (with_call sid (open_call mrs p (now_ms w) e default_call) w).
Proof.
  intros HI Ho Hp Hnb Hn. split; simpl; try apply HI.
  - intros sid' c'. rewrite lookup_insert_Some. intros [[<- <-]|[Hne Hc']]; [|by apply HI].
    split; [done|]. rewrite Hp. by apply open_call_ok.
  - intros sid' o Hx. destruct (inv_ctx _ HI _ _ Hx) as (c' & Hc' & Hf).
    exists c'. rewrite lookup_insert_ne by congruence. done.
Qed.

Lemma arm_deadline_Good sid hs w : Inv w → Good w (arm_deadline sid hs w).
Proof.
  intros HI. unfold arm_deadline. destruct (hs !! "grpc-timeout"); [|by apply Good_refl].
  destruct (0 <? _); [|by apply Good_refl]. destruct (SetTimer _ _ _) as [id l].
  good_by on_call_Good; [solve_upd|]. exact (set_loop_Good (λ _, l) w HI).
Qed.

Lemma arm_deadline_form sid hs w c c' :
  calls w !! sid = Some c → calls (arm_deadline sid hs w) !! sid = Some c' →
  call_form c' = call_form c.
Proof.
  unfold arm_deadline. intros Hc. destruct (hs !! "grpc-timeout"); [|naive_solver].
  destruct (0 <? _); [|naive_solver]. destruct (SetTimer _ _ _) as [id l].
  rewrite calls_on_call, decide_True by done. simpl. rewrite Hc. by intros [= <-].
Qed.

(** A header block that opens a stream: refused, or the stream has its call. *)
Definition accepted (hs : gmap string string) : option string :=
  match hs !! ":path" with
  | Some p => if grpc_content_type hs then Some p else None
  | None => None
  end.

Lemma OnHeadersComplete_refused router mrs sid hs es w :
  accepted hs = None →
  OnHeadersComplete reenter router mrs sid hs es w = TrailersOnlySt reenter sid bad_headers w.
Proof using Type.
  unfold accepted, OnHeadersComplete. intros Ha.
  destruct (hs !! ":path"); [|done]. by destruct (grpc_content_type hs).
Qed.

Lemma OnHeadersComplete_accepted router mrs sid hs es w p :
  Inv w → sid ∈ opened w → calls w !! sid = None → phase_of (trace w) sid = Fresh →
  nbodies (bodies w) sid = 0%nat → accepted hs = Some p →
  let c := open_call mrs p (now_ms w) (Find p router) default_call in
  Inv (with_call sid c w) ∧
  GoodBut sid (with_call sid c w) (OnHeadersComplete reenter router mrs sid hs es w).
Proof.
  intros HI Ho Hn Hp Hnb Ha c.
  pose proof (with_call_Inv mrs p (Find p router) sid w HI Ho Hp Hnb Hn) as HI1.
  split; [exact HI1|]. fold c in HI1.
  assert (E : OnHeadersComplete reenter router mrs sid hs es w =
    let w2 := arm_deadline sid hs (with_call sid c w) in
    let w3 := if has_handler c && bool_decide (call_form c = kClientStreaming ∨ call_form c = kBidi)
              then DispatchStream reenter sid None w2 else w2 in
    if es then FinishRequest reenter sid w3 else w3).
  { unfold accepted in Ha. unfold OnHeadersComplete. destruct (hs !! ":path"); [|done].
    destruct (grpc_content_type hs); [|done]. simplify_eq. by rewrite Hn. }
  rewrite E. cbv zeta. set (w1 := with_call sid c w) in *.
  pose proof (arm_deadline_Good sid hs w1 HI1) as HG2.
  assert (HG3 : Good w1 (if has_handler c &&
      bool_decide (call_form c = kClientStreaming ∨ call_form c = kBidi)
    then DispatchStream reenter sid None (arm_deadline sid hs w1) else arm_deadline sid hs w1)).
  { destruct (_ && _) eqn:Hs; [|done]. bool_cond. apply bool_decide_eq_true in H0.
    eapply Good_step; [done|]. intros HI2. apply DispatchStream_Good; [done|]. intros c' Hc'.
    rewrite (arm_deadline_form sid hs w1 c c'); [intuition congruence| |done].
    unfold w1, with_call. simpl. by rewrite lookup_insert_eq. }
  destruct es; [|by apply Good_But]. eapply GoodBut_trans; [by apply Good_But|].
  apply FinishRequest_GoodBut, HG3.
Qed.
End Keep.

(** ** Every open stream has its call, or has been refused *)
Definition call_or_refused (w : World) (sid : Z) : Prop :=
  sid ∈ h2_streams w →
  sid ∈ opened w ∧ (calls w !! sid = None → was_refused (phase_of (trace w) sid)).
Definition Refusals (w : World) : Prop := ∀ sid, call_or_refused w sid.

(** Only the stream of the event needs looking at. *)
Lemma RelyBut_Refusals sid w w' :
  RelyBut sid w w' → (∀ sid', sid' ≠ sid → call_or_refused w sid') →
  (sid ∈ h2_streams w →
   sid ∈ opened w ∧ (calls w !! sid = None → was_refused (phase_of (trace w') sid))) →
  Refusals w'.
Proof.
  intros HR HF Hs sid' Hin'. assert (Hin : sid' ∈ h2_streams w) by by apply (rely_streams _ _ _ HR).
  rewrite (rely_opened _ _ _ HR).
  assert (Hg : calls w' !! sid' = None → calls w !! sid' = None).
  { intros Hn'. destruct (calls w !! sid') as [c|] eqn:Hc; [|done].
    by destruct (rely_gone _ _ _ HR sid'). }
  destruct (decide (sid' = sid)) as [->|Hne]; [destruct (Hs Hin); auto|].
  destruct (HF sid' Hne Hin) as [Ho Hw]. split; [done|]. intros Hn'. pose proof (Hg Hn') as Hn.
  destruct (rely_locked _ _ _ HR LDone sid') as [_ ->]; [congruence|unfold locked; by rewrite Hn|auto].
Qed.

(** Nothing but a header block is done on a stream that has no call. *)
Lemma GoodBut_Refusals sid w w' :
  GoodBut sid w w' → (calls w !! sid = None → trace w' = trace w) → Refusals w → Refusals w'.
Proof.
  intros [_ HR] Hn HF. apply (RelyBut_Refusals sid w); [done|auto|].
  intros Hin. destruct (HF sid Hin). split; [done|]. intros Hc. rewrite (Hn Hc). auto.
Qed.

Lemma Good_Refusals w w' : Good w w' → Refusals w → Refusals w'.
Proof.
  intros [_ HR] HF. apply (RelyBut_Refusals 0 w); [by apply Rely_weaken|auto|].
  intros Hin. destruct (HF 0 Hin) as [Ho Hw]. split; [done|]. intros Hc.
  destruct (rely_locked _ _ _ HR LDone 0) as [_ ->]; [tauto|unfold locked; by rewrite Hc|auto].
Qed.
