(* ===== verification/ServerRun.v ===== *)
(** * Runs of a server connection

    The environment that the operations of ServerConn.v call out to, run to any
    depth; the events that drive a connection; reachable worlds; and the
    properties of every run. *)
From S2P Require Import Prelude Status CxxString Wire Codec Router Loop SessionSpec ServerConn ServerInv.

(** ** The environment *)
Section Env.
(** What the environment does inside a call out, as the operations it runs
    before it returns.  An [oracle] may look at the whole world. *)
Context (oracle : Out → World → list ReOp) (spin : nat).

(** To depth [n]: an operation run inside a call out may call out itself. *)
Fixpoint env (n : nat) (o : Out) (w : World) : World :=
  match n with
  | O => w
  | S n => fold_left (λ w op, do_op (env n) spin op w) (oracle o w) w
  end.

Lemma env_Good n o w : Inv w → Good w (env n o w).
Proof.
  revert o w. induction n as [|n IH]; intros o w HI; simpl; [by apply Good_refl|].
  generalize (oracle o w). intros ops. revert w HI.
  induction ops as [|op ops IHops]; intros w HI; simpl; [by apply Good_refl|].
  eapply Good_step; [by apply do_op_Good|]. apply IHops.
Qed.
End Env.

(** ** Events *)
Inductive Event :=
  | EvHeaders (sid : Z) (headers : gmap string string) (end_stream : bool)
  | EvData (sid : Z) (data : option bytes) (end_stream : bool)
  | EvOp (op : ReOp)                       (* user code or the session, later *)
  | EvWake                                 (* the loop's wake-up is delivered *)
  | EvTimer (id : Z)                       (* the loop reports an expired timer *)
  | EvReadError                            (* ConnHook::OnRead with nread < 0 *)
  | EvTick (ms : Z)                        (* time passes *)
  | EvServerGone.                          (* Server::Impl is destroyed *)

(** The session announces a stream at its first header block. *)
Definition announce (sid : Z) (w : World) : World :=
  if decide (sid ∈ opened w) then w
  else w <| opened ::= λ s, {[sid]} ∪ s |> <| h2_streams ::= λ s, {[sid]} ∪ s |>.

(** What the session guarantees of its reports: they are for a connection that
    exists, and a header block either opens a new stream or trails the request
    of a stream that is still open there, whether it has a call or not.  HTTP/2
    has no pseudo headers in trailers, and nghttp2 enforces it. *)
Definition ev_ok (e : Event) (w : World) : Prop :=
  match e with
  | EvHeaders sid hs _ =>
      destroyed w = false ∧
      (sid ∉ opened w ∨ (sid ∈ h2_streams w ∧ hs !! ":path" = None))
  | EvData _ _ _ | EvReadError => destroyed w = false
  | _ => True
  end.

Section Run.
Context (oracle : Out → World → list ReOp) (depth spin : nat).
Context (router : Router nat nat) (max_receive_size : Z).

#[local] Abbreviation re := (env oracle spin depth).

(** The connection as a host of the server's loop. *)
#[export] Program Instance conn_host : LoopHost STask World := {|
  get_loop := loop;
  set_loop l w := w <| loop := l |>;
  run_task t w := run_stask re t w
|}.
Next Obligation. done. Qed.

Definition step (e : Event) (w : World) : World :=
  match e with
  | EvHeaders sid hs es => OnHeadersComplete re router max_receive_size sid hs es (announce sid w)
  | EvData sid data es => OnData re sid data es w
  | EvOp op => do_op re spin op w
  | EvWake => if woken (loop w) then DrainPending (w <| loop ::= λ l, l <| woken := false |> |>) else w
  | EvTimer id => OnTimer id w
  | EvReadError => OnReadError re spin w
  | EvTick ms => w <| now_ms ::= λ t, u64 (t + ms) |>
  | EvServerGone => w <| alive := false |>
  end.

Inductive reachable : World → Prop :=
  | reach_new : reachable new_world
  | reach_step w e : reachable w → ev_ok e w → reachable (step e w).

Definition run (es : list Event) (w : World) : World := fold_left (λ w e, step e w) es w.

(** ** The invariant of every run *)
Lemma re_Good o w : Inv w → Good w (re o w).
Proof. apply env_Good. Qed.

Lemma new_world_Inv : Inv new_world.
Proof. by split; simpl; intros *; rewrite ?lookup_empty. Qed.

Lemma announce_new sid w :
  sid ∉ opened w →
  announce sid w = w <| opened ::= λ s, {[sid]} ∪ s |> <| h2_streams ::= λ s, {[sid]} ∪ s |>.
Proof. intros Hn. unfold announce. by rewrite decide_False. Qed.
Lemma announce_old sid w : sid ∈ opened w → announce sid w = w.
Proof. intros Hn. unfold announce. by rewrite decide_True. Qed.

Lemma announce_Inv sid w : Inv w → Inv (announce sid w).
Proof.
  intros HI. unfold announce. case_decide; [done|]. split; simpl; try apply HI.
  - intros sid' c Hc. destruct (inv_call _ HI _ _ Hc). split; [set_solver|done].
  - intros sid' Hn. apply (inv_unborn _ HI). set_solver.
  - intros sid' Hn. apply (inv_fresh _ HI). set_solver.
Qed.

(** What holds between two events. *)
Definition Whole (w : World) : Prop := Inv w ∧ Refusals w.

Lemma Good_Whole w w' : Whole w → Good w w' → Whole w'.
Proof. intros [HI HF] HG. split; [apply HG|by eapply Good_Refusals]. Qed.
Lemma GoodBut_Whole sid w w' :
  Whole w → GoodBut sid w w' → (calls w !! sid = None → trace w' = trace w) → Whole w'.
Proof. intros [HI HF] HG Hn. split; [apply HG|by eapply GoodBut_Refusals]. Qed.

Lemma set_loop_Whole l w : Whole w → Whole (w <| loop := l |>).
Proof. intros HW. eapply Good_Whole; [done|]. apply same_core_Good; [done|apply HW]. Qed.

Lemma run_stask_Whole t w : Whole w → Whole (run_stask re t w).
Proof.
  intros HW. eapply GoodBut_Whole; [done|apply run_stask_GoodBut; [apply re_Good|apply HW]|].
  destruct t; simpl; unfold OnDeadline, PumpOut; intros ->; by split_matches.
Qed.

Lemma run_queued_Whole q w : Whole w → Whole (run_queued q w).
Proof.
  intros HW. destruct q; simpl; [by apply run_stask_Whole|].
  eapply Good_Whole; [done|]. apply same_core_Good; [done|apply HW].
Qed.

Lemma run_all_Whole qs w : Whole w → Whole (fold_left (λ w q, run_queued q w) qs w).
Proof.
  revert w. induction qs as [|q qs IH]; intros w HI; [done|]. by apply IH, run_queued_Whole.
Qed.

(** A header block that opens a stream. *)
Lemma new_stream_Whole sid hs es w :
  Whole w → sid ∉ opened w →
  Whole (OnHeadersComplete re router max_receive_size sid hs es (announce sid w)).
Proof.
  intros [HI HF] Hn. pose proof (announce_Inv sid w HI) as HI'.
  rewrite announce_new in * by done. set (w0 := w <| opened ::= _ |> <| h2_streams ::= _ |>) in *.
  assert (Ho : sid ∈ opened w0) by (simpl; set_solver).
  assert (Hc : calls w0 !! sid = None).
  { simpl. destruct (calls w !! sid) eqn:Hc; [|done]. by destruct (inv_call _ HI _ _ Hc). }
  assert (Hp : phase_of (trace w0) sid = Fresh) by by apply (inv_fresh _ HI).
  assert (Hb : nbodies (bodies w0) sid = 0%nat) by by apply (inv_unborn _ HI).
  assert (HF0 : ∀ sid', sid' ≠ sid → call_or_refused w0 sid').
  { intros sid' Hne. unfold call_or_refused. simpl. intros Hin.
    destruct (HF sid') as [? ?]; [set_solver|]. split; [set_solver|done]. }
  destruct (accepted hs) as [p|] eqn:Ha.
  - destruct (OnHeadersComplete_accepted re re_Good router max_receive_size sid hs es w0 p)
      as (HI1 & HG & HR); try done.
    set (c := open_call _ _ _ _ _) in *. split; [done|].
    apply (RelyBut_Refusals sid (with_call sid c w0)); [done| |].
    + intros sid' Hne Hin. destruct (HF0 sid' Hne Hin) as [? Hw]. split; [done|].
      simpl. rewrite lookup_insert_ne by congruence. exact Hw.
    + intros _. split; [done|]. simpl. by rewrite lookup_insert_eq.
  - rewrite OnHeadersComplete_refused by done.
    destruct (refuse_GoodBut re re_Good sid w0) as [[HG HR] Hw]; try done; [by left|].
    split; [done|]. by apply (RelyBut_Refusals sid w0).
Qed.

(** A header block that trails the request of an open stream. *)
Lemma trailers_Whole sid hs es w :
  Whole w → sid ∈ h2_streams w → hs !! ":path" = None →
  Whole (OnHeadersComplete re router max_receive_size sid hs es w).
Proof.
  intros [HI HF] Hin Hp. destruct (HF sid Hin) as [Ho Hw].
  rewrite OnHeadersComplete_refused by (unfold accepted; by rewrite Hp).
  destruct (calls w !! sid) as [c|] eqn:Hc.
  - eapply GoodBut_Whole; [by split|by eapply refuse_call_GoodBut; [apply re_Good|..]|congruence].
  - destruct (refuse_GoodBut re re_Good sid w) as [HG Hw']; auto.
    split; [apply HG|]. apply (RelyBut_Refusals sid w); [apply HG|auto|auto].
Qed.

Lemma step_Whole e w : Whole w → ev_ok e w → Whole (step e w).
Proof.
  intros HW He. destruct e as [sid hs es|sid data es|op| |id| |ms|]; unfold step.
  - destruct He as [_ [Hn|[Hin Hp]]]; [by apply new_stream_Whole|].
    rewrite announce_old by apply HW, Hin. by apply trailers_Whole.
  - eapply GoodBut_Whole; [done|apply OnData_GoodBut; [apply re_Good|apply HW]|].
    unfold OnData. by intros ->.
  - eapply Good_Whole; [done|]. apply do_op_Good; [apply re_Good|apply HW].
  - destruct (woken (loop w)); [|done]. unfold DrainPending, swap_pending.
    by apply run_all_Whole, set_loop_Whole, set_loop_Whole.
  - unfold OnTimer. destruct (timers_ _ !! id); [|done]. by apply run_stask_Whole, set_loop_Whole.
  - eapply Good_Whole; [done|]. apply OnReadError_Good; [apply re_Good|apply HW].
  - eapply Good_Whole; [done|]. by apply same_core_Good; [|apply HW].
  - eapply Good_Whole; [done|]. by apply same_core_Good; [|apply HW].
Qed.

Lemma reachable_Whole w : reachable w → Whole w.
Proof.
  induction 1; [|by apply step_Whole]. split; [apply new_world_Inv|]. intros sid. by simpl; intros ?%not_elem_of_empty.
Qed.
Lemma reachable_Inv w : reachable w → Inv w.
Proof. intros Hr. apply (reachable_Whole w Hr). Qed.

(** ** The response grammar, declaratively *)

(** The frames of a stream, in the order the session was given them. *)
Definition frames_of (sid : Z) (tr : list Out) : list Out :=
  filter (λ o, frame_sid o = Some sid) tr.

(** A prefix of a response: nothing; headers that end the stream; or headers,
    then data, then at most one terminal. *)
Definition response_prefix (sid : Z) (fs : list Out) : Prop :=
  fs = [] ∨ (∃ h, fs = [SendHeaders sid h true]) ∨
  ∃ h (ds : list bytes) tl,
    fs = SendHeaders sid h false :: map (λ d, SendData sid d false) ds ++ tl ∧
    (tl = [] ∨ (∃ t, tl = [SendTrailers sid t]) ∨ ∃ h', tl = [SendHeaders sid h' true]).

(** The frames of a stream that was only ever refused. *)
Definition refusals (sid : Z) (n : nat) : list Out := replicate n (SendHeaders sid refusal true).

Lemma phase_shape sid tr :
  match phase_of tr sid with
  | Fresh => frames_of sid tr = []
  | Open => ∃ h ds,
      frames_of sid tr = SendHeaders sid h false :: map (λ d, SendData sid d false) ds
  | Done => response_prefix sid (frames_of sid tr)
  | Refused => frames_of sid tr = refusals sid 1
  | Again => ∃ n, (2 ≤ n)%nat ∧ frames_of sid tr = refusals sid n
  | Violation => True
  end.
Proof.
  induction tr as [|o tr IH] using rev_ind; [done|].
  rewrite phase_of_snoc. unfold frames_of in *. rewrite filter_app.
  destruct (decide (frame_sid o = Some sid)) as [Ho|Ho].
  2:{ rewrite phase_step_other by done. rewrite (filter_cons_False _ o) by done.
      rewrite filter_nil, app_nil_r. exact IH. }
  rewrite (filter_cons_True _ o), filter_nil by done.
  destruct o as [s h e|s d e|s t|?|?|?|?|?|?]; try done; simpl in Ho; injection Ho as ->;
    simpl; rewrite decide_True by done; destruct (phase_of tr sid); try destruct e; try done.
  - rewrite IH. case_decide as Hh; [by rewrite Hh|]. right; left. by eexists.
  - rewrite IH. by exists h, [].
  - destruct IH as (h0 & ds & ->). right; right. exists h0, ds, [SendHeaders sid h true]. eauto.
  - case_decide as Hh; [|done]. exists 2%nat. split; [done|]. by rewrite IH, Hh.
  - case_decide as Hh; [|done]. destruct IH as (n & Hn & ->). exists (S n). split; [lia|].
    rewrite Hh. unfold refusals. by rewrite replicate_S_end.
  - destruct IH as (h0 & ds & ->). exists h0, (ds ++ [d]). by rewrite map_app.
  - destruct IH as (h0 & ds & ->). right; right. exists h0, ds, [SendTrailers sid t]. eauto.
Qed.

(** C9: on every run, whatever the environment does inside call outs, the frames
    given to the session for a stream are a prefix of a response: no data
    before headers, nothing after the terminal, and at most one terminal.  The
    one exception is a stream that has no call, because its first header block
    was refused: [TrailersOnly] finds no call to mark, so it refuses the
    client's trailers too, and all that was ever sent there is the refusal. *)
Theorem response_grammar w sid :
  reachable w →
  response_prefix sid (frames_of sid (trace w)) ∨
  (calls w !! sid = None ∧ ∃ n, (2 ≤ n)%nat ∧ frames_of sid (trace w) = refusals sid n).
Proof.
  intros Hr. pose proof (reachable_Inv _ Hr) as HI. pose proof (inv_grammar _ HI sid) as Hv.
  pose proof (phase_shape sid (trace w)) as Hs. destruct (phase_of (trace w) sid) eqn:Hp.
  - by left; left.
  - destruct Hs as (h & ds & ->). left; right; right. exists h, ds, []. rewrite app_nil_r. eauto.
  - by left.
  - left; right; left. rewrite Hs. by eexists.
  - right. split; [|done]. destruct (calls w !! sid) as [c|] eqn:Hc; [|done].
    destruct (inv_call _ HI _ _ Hc) as [_ [Ha _]]. congruence.
  - done.
Qed.

(** C14: both queues of a call stay within the bound of 64 messages. *)
Theorem queues_bounded w sid c :
  reachable w → calls w !! sid = Some c →
  (length (out_queue c) ≤ 64)%nat ∧ (length (pending_msgs c) ≤ 64)%nat.
Proof.
  intros Hr Hc. destruct (inv_call _ (reachable_Inv _ Hr) _ _ Hc) as [_ Hok].
  split; apply Hok.
Qed.

(** C17: a call context that user code can reach has its call, of the form that
    the context is for; a unary call never sends stream frames of its own. *)
Theorem contexts_have_calls w sid o :
  reachable w → ctxs w !! sid = Some o →
  ∃ c, calls w !! sid = Some c ∧
    (o = Ctx → call_form c = kUnary ∧ response_headers_sent c = false ∧ out_queue c = []) ∧
    (o ≠ Ctx → call_form c ≠ kUnary).
Proof.
  intros Hr Ho. pose proof (reachable_Inv _ Hr) as HI.
  destruct (inv_ctx _ HI _ _ Ho) as (c & Hc & Hf). exists c. split; [done|].
  destruct (inv_call _ HI _ _ Hc) as [_ Hok]. unfold call_ok in Hok. destruct_and?.
  destruct o; simpl in Hf; naive_solver.
Qed.

(** One body of a stream at a time is with the session, and while one is the
    call waits for it. *)
Theorem one_body_in_flight w sid c :
  reachable w → calls w !! sid = Some c →
  (nbodies (bodies w) sid ≤ 1)%nat ∧
  (nbodies (bodies w) sid = 1%nat → out_inflight c = true ∧ response_headers_sent c = true).
Proof.
  intros Hr Hc. destruct (inv_call _ (reachable_Inv _ Hr) _ _ Hc) as [_ Hok].
  unfold call_ok in Hok. destruct_and?. split; [done|]. intros Hn.
  assert (out_inflight c = true) by (destruct (out_inflight c); [done|]; exfalso; intuition congruence).
  intuition.
Qed.
End Run.

(** ** A concrete run *)

(** A bidirectional method whose handler writes a message and then waits. *)
Definition demo_oracle (o : Out) (w : World) : list ReOp :=
  match o with
  | UserStream _ sid => [ApiWrite sid [chr 1] (Some 4%nat); ApiWrite sid [chr 2] None]
  | _ => []
  end.
Definition demo_router : Router nat nat :=
  mkRouter {[ "/a.S/M" := mkEntry kBidi (None : option nat) (Some 7%nat) ]}.
Definition demo_headers : gmap string string :=
  list_to_map [(":path", "/a.S/M"); ("content-type", "application/grpc")].
Definition demo_run : World :=
  step demo_oracle 2 0 demo_router 1024 (EvHeaders 1 demo_headers false) new_world.

Lemma demo_reachable : reachable demo_oracle 2 0 demo_router 1024 demo_run.
Proof.
  apply reach_step; [apply reach_new|]. split; [reflexivity|]. left. apply not_elem_of_empty.
Qed.

(** The same connection, when a request that is not gRPC comes on stream 3 and
    then its trailers: two header blocks that end the stream are sent there. *)
Definition web_headers : gmap string string :=
  list_to_map [(":path", "/a.S/M"); ("content-type", "text/html")].
Definition refused_run : World :=
  run demo_oracle 2 0 demo_router 1024
    [EvHeaders 3 web_headers false; EvHeaders 3 ∅ true] demo_run.

Lemma refused_reachable : reachable demo_oracle 2 0 demo_router 1024 refused_run.
Proof.
  apply (reach_step _ _ _ _ _ (step demo_oracle 2 0 demo_router 1024
    (EvHeaders 3 web_headers false) demo_run) (EvHeaders 3 ∅ true)).
  - apply reach_step; [apply demo_reachable|]. split; [reflexivity|]. left.
    apply (bool_decide_unpack _). vm_compute. exact I.
  - split; [reflexivity|]. right. split; [|reflexivity].
    apply (bool_decide_unpack _). vm_compute. exact I.
Qed.

Example refused_twice : frames_of 3 (trace refused_run) = refusals 3 2.
Proof. vm_compute. reflexivity. Qed.

Lemma response_grammar_witness :
  response_prefix 3 (frames_of 3 (trace refused_run)) ∨
  (calls refused_run !! 3 = None ∧
   ∃ n, (2 ≤ n)%nat ∧ frames_of 3 (trace refused_run) = refusals 3 n).
Proof. apply (response_grammar demo_oracle 2 0 demo_router 1024). apply refused_reachable. Defined.

Lemma queues_bounded_witness :
  ∃ c, calls demo_run !! 1 = Some c ∧ (length (out_queue c) ≤ 64)%nat ∧
    (length (pending_msgs c) ≤ 64)%nat.
Proof.
  eexists. split; [vm_compute; reflexivity|].
  apply (queues_bounded demo_oracle 2 0 demo_router 1024 demo_run 1); [apply demo_reachable|].
  vm_compute. reflexivity.
Defined.

Lemma contexts_have_calls_witness :
  ∃ c, calls demo_run !! 1 = Some c ∧
    (StreamCtx None = Ctx → call_form c = kUnary ∧ response_headers_sent c = false ∧ out_queue c = []) ∧
    (StreamCtx None ≠ Ctx → call_form c ≠ kUnary).
Proof.
  apply (contexts_have_calls demo_oracle 2 0 demo_router 1024 demo_run 1); [apply demo_reachable|].
  vm_compute. reflexivity.
Defined.

Lemma one_body_in_flight_witness :
  ∃ c, calls demo_run !! 1 = Some c ∧ (nbodies (bodies demo_run) 1 ≤ 1)%nat ∧
    (nbodies (bodies demo_run) 1 = 1%nat → out_inflight c = true ∧ response_headers_sent c = true).
Proof.
  eexists. split; [vm_compute; reflexivity|].
  apply (one_body_in_flight demo_oracle 2 0 demo_router 1024 demo_run 1); [apply demo_reachable|].
  vm_compute. reflexivity.
Defined.
