(* ===== verification/Owners.v ===== *)
(** * The connections under the session's contract

    Whatever the contract of SessionSpec.v lets a session do, the environments of
    the server's connection and of the client's channel can do: so their theorems,
    which hold for every environment, hold over the session of H2Session.v. *)
From S2P Require Import Prelude Status CxxString Wire Codec Router Loop SessionSpec.
From S2P Require ServerConn ServerRun Channel ChannelRun.

(** ** The server's connection *)
Module Server.
Import ServerConn.

(** What its model keeps of the session. *)
Definition below (w : World) : Below (option nat) := mkBelow (h2_streams w) (bodies w).
Definition set_below (b : Below (option nat)) (w : World) : World :=
  w <| h2_streams := streams b |> <| bodies := outstanding b |>.

Lemma set_below_id w : set_below (below w) w = w.
Proof. by destruct w. Qed.

(** What the model does at a step of the contract: a stream is announced, a body
    is pushed, the lambda of a consumed body and [OnStreamClose] run. *)
Definition follows (reenter : Out → World → World) (spin : nat) (w : World)
    (l : Label (option nat)) (b : Below (option nat)) : Prop :=
  match l with
  | LOpen sid => sid ∉ opened w → below (ServerRun.announce sid w) = b
  | LGive sid cb => push_body sid cb w = set_below b w
  | LConsumed cb => ∃ sid n,
      do_op reenter spin (H2Consumed sid n) w = OnConsumed reenter sid cb (set_below b w)
  | LClose sid => ∃ keep,
      do_op reenter spin (H2Close sid keep) w = OnStreamClose reenter spin sid (set_below b w)
  end.

(** Every step that the contract allows is one that the connection's model
    makes: its streams and bodies are the contract's state, and the events of
    its environment include every choice the contract leaves to the session. *)
Theorem connection_follows_contract reenter spin w l b :
  promise (below w) l b → follows reenter spin w l b.
Proof.
  unfold below. inversion 1; subst; simpl; unfold set_below; simpl.
  - intros Hn. unfold ServerRun.announce. by rewrite decide_False.
  - by destruct w.
  - exists sid, n. match goal with Ht : take_body _ _ _ = _ |- _ => rewrite Ht end. by destruct w.
  - exists keep. by destruct w.
Qed.
End Server.

(** ** The client's channel *)
Module Client.
Import Channel.

(** What the contract attaches to a body is the call's id and the callback. *)
Theorem channel_follows_contract user wire submit address tcp_connect s w l b :
  promise (mkBelow s (bodies w)) l b →
  match l with
  | LConsumed (id, cb) => ∃ sid n,
      ChannelRun.step user wire submit address tcp_connect (ChannelRun.EvSession (SConsumed sid n)) w =
        OnConsumed user id cb (w <| bodies := outstanding b |>)
  | LClose sid => ∃ keep,
      ChannelRun.step user wire submit address tcp_connect (ChannelRun.EvSession (SStreamClose sid keep)) w =
        OnStreamClose user sid (w <| bodies := outstanding b |>)
  | _ => True
  end.
Proof.
  inversion 1; subst; simpl; try done.
  - destruct a as [id cb]. exists sid, n. by match goal with Ht : take_body _ _ _ = _ |- _ => rewrite Ht end.
  - by exists keep.
Qed.
(** The half-close of a stream does not wait: with nothing queued, [StreamCloseSend]
    gives the session the empty body that ends the stream while the body of the
    last message has not been consumed, unlike [PumpStream], which keeps one body
    per stream.  Nghttp2 refuses a second body (NGHTTP2_ERR_DATA_EXIST), and the
    stream is marked closed: its end is never sent. *)
Theorem close_send_overlaps user submit address tcp_connect id s cb w :
  live_stream id w = Some s → send_closed s = false → out_queue s = [] → st_sid s ≠ 0 →
  session w = true → (st_sid s, (id, cb)) ∈ bodies w →
  let w' := run_ctask user (λ _ _, []) submit address tcp_connect (TStreamCloseSend id) w in
  trace w' = trace w ++ [SendData (st_sid s) [] true] ∧ (st_sid s, (id, cb)) ∈ bodies w' ∧
  ∃ s', streams w' !! id = Some s' ∧ send_closed s' = true.
Proof.
  intros Hl Hc Hq Hs Hses Hb. simpl. unfold run_stream_close_send. rewrite Hl, Hc, Hq.
  apply Z.eqb_neq in Hs. rewrite Hs. cbn [negb andb].
  assert (E : session (on_stream id (λ s, s <| send_closed := true |>) w) = true) by done.
  rewrite E. unfold live_stream in Hl. destruct (streams w !! id) as [s0|] eqn:Hid; [|done].
  split_and!; [done|done|]. simpl. rewrite lookup_alter_eq, Hid. simpl. by eexists.
Qed.

(** A message is in flight when the stream is closed. *)
Section Demo.
#[local] Abbreviation go :=
  (ChannelRun.step (λ _ _, []) (λ _ _, []) (λ _ _, 1) "127.0.0.1:80" (Platform.Connecting tt)).
Definition demo_in_flight : World :=
  fold_left (λ w e, go e w)
    [ChannelRun.EvApi (ApiOpenStream "/a.S/M" (mkEvents None (Some 2%nat)) 0); ChannelRun.EvWake;
     ChannelRun.EvConnected Ok; ChannelRun.EvApi (ApiStreamSend 1 [chr 7] (Some 4%nat) false);
     ChannelRun.EvWake] new_world.

Lemma close_send_overlaps_witness :
  let w' := run_ctask (λ _ _, []) (λ _ _, []) (λ _ _, 1) "127.0.0.1:80" (Platform.Connecting tt)
    (TStreamCloseSend 1) demo_in_flight in
  trace w' = trace demo_in_flight ++ [SendData 1 [] true] ∧ (1, (1, Some 4%nat)) ∈ bodies w'.
Proof.
  assert (Hs : ∃ s, live_stream 1 demo_in_flight = Some s ∧ send_closed s = false ∧ out_queue s = [] ∧
    st_sid s = 1) by (eexists; split; [vm_compute; reflexivity|done]).
  destruct Hs as (s & Hl & Hc & Hq & Hsid).
  destruct (close_send_overlaps (λ _ _, []) (λ _ _, 1) "127.0.0.1:80" (Platform.Connecting tt) 1 s
    (Some 4%nat) demo_in_flight) as (H1 & H2 & _);
    [exact Hl|exact Hc|exact Hq|by rewrite Hsid|vm_compute; reflexivity|rewrite Hsid; vm_compute; constructor|].
  rewrite Hsid in H1, H2. split; [exact H1|exact H2].
Defined.
End Demo.
End Client.
