(* ===== verification/ServerCalls.v ===== *)
(** * What the server does for a call

    The behaviour of the handlers of ServerConn.v on the paths of a call: how a
    request reaches its handler, what an answer puts on the wire, what a
    deadline, a refusal and a second terminal do, and how streamed messages
    move through the queues. *)
From S2P Require Import Prelude Status CxxString Wire Codec Router Loop ServerConn ServerInv ServerRun.

(** ** Equations of updates *)
Lemma on_call_ext sid f g w :
  (∀ c, calls w !! sid = Some c → f c = g c) → on_call sid f w = on_call sid g w.
Proof.
  intros H. unfold on_call. simpl. f_equal. apply map_eq. intros i.
  rewrite !lookup_alter. case_decide; [|done]. subst.
  destruct (calls w !! i) eqn:Hc; simpl; [|done]. f_equal. by apply H.
Qed.

Lemma on_call_on_call sid f g w : on_call sid f (on_call sid g w) = on_call sid (λ c, f (g c)) w.
Proof.
  unfold on_call. simpl. f_equal. apply map_eq. intros i.
  destruct (decide (sid = i)) as [<-|]; [rewrite !lookup_alter_eq|by rewrite !lookup_alter_ne].
  by destruct (calls w !! sid).
Qed.

Lemma on_call_id sid f w : (∀ c, calls w !! sid = Some c → f c = c) → on_call sid f w = w.
Proof.
  intros H. destruct w. unfold on_call. simpl in *. f_equal. apply map_eq. intros i.
  rewrite lookup_alter. case_decide; [|done]. subst.
  destruct (calls !! i) eqn:Hc; simpl; [|done]. f_equal. by apply H.
Qed.

Lemma calls_on_call_eq sid f w c : calls w !! sid = Some c → calls (on_call sid f w) !! sid = Some (f c).
Proof. intros Hc. rewrite calls_on_call, decide_True by done. by rewrite Hc. Qed.

(** ** Requests *)
Section Requests.
Context (reenter : Out → World → World).

(** A chunk of a unary request only feeds the decoder. *)
Lemma OnData_unary_chunk sid c b st d w :
  calls w !! sid = Some c → request_done c = false → call_form c = kUnary →
  decoder_wf (decoder c) → decoder_waiting (decoder c) →
  Consume b (decoder c) = (st, d) → ok st = true →
  ∀ es, OnData reenter sid (Some b) es w =
    let w := on_call sid (λ c, c <| decoder := d |>) w in
    if es then FinishRequest reenter sid w else w.
Proof.
  intros Hc Hd Hf Hwf Hw HC Hst es. unfold OnData. rewrite Hc, Hd.
  assert (match b with [] => (Ok, decoder c) | _ :: _ => Consume b (decoder c) end = (st, d)) as ->.
  { destruct b; [|done]. rewrite Consume_nil in HC by done. done. }
  rewrite Hst. simpl negb. cbn match. rewrite decide_True by done. by destruct es.
Qed.

Lemma OnData_unary_chunks sid w c chunks d :
  calls w !! sid = Some c → request_done c = false → call_form c = kUnary →
  decoder_wf (decoder c) → decoder_waiting (decoder c) →
  feed (decoder c) chunks = (Ok, d) →
  fold_left (λ w b, OnData reenter sid (Some b) false w) chunks w =
    on_call sid (λ c, c <| decoder := d |>) w.
Proof.
  revert w c. induction chunks as [|b chunks IH]; intros w c Hc Hd Hf Hwf Hw Hfeed; simpl in *.
  { simplify_eq. symmetry. apply on_call_id. intros c' Hc'. simplify_eq. by destruct c. }
  destruct (Consume b (decoder c)) as [st d1] eqn:HC.
  destruct (Consume_view _ _ _ _ Hwf HC) as (Hwf1 & _ & Hok).
  destruct (ok st) eqn:Hst; [|by simplify_eq].
  rewrite (OnData_unary_chunk sid c b st d1 w) by done. cbn zeta match.
  rewrite (IH _ (c <| decoder := d1 |>)); [|by apply calls_on_call_eq|try done..].
  - by rewrite on_call_on_call.
  - by apply Hok.
Qed.

(** A unary call as the request finds it. *)
Definition unary_waiting (limit : Z) (h : closure) (c : Call) : Prop :=
  request_done c = false ∧ call_form c = kUnary ∧ has_handler c = true ∧
  unary (entry c) = Some h ∧ decoder c = newFrameDecoder limit.

(** The decoder when the request has been taken, and [ms] followed it. *)
Definition took_request (limit : Z) (ms : list bytes) : FrameDecoder :=
  (newFrameDecoder limit) <| messages_ := ms |> <| message_count_ := 1 |>.

Lemma unary_request_dispatch sid w c limit h m ms chunks :
  calls w !! sid = Some c → unary_waiting limit h c → 0 ≤ limit → Forall (fits limit) (m :: ms) →
  concat chunks = frames (m :: ms) →
  OnData reenter sid None true
    (fold_left (λ w b, OnData reenter sid (Some b) false w) chunks w) =
  call_out reenter (UserUnary h sid m)
    ((on_call sid (λ c, c <| request_done := true |> <| decoder := took_request limit ms |>) w)
       <| ctxs ::= <[sid := Ctx]> |>).
Proof.
  intros Hc (Hd & Hf & Hh & Hu & Hdec) Hl Hm Hcat.
  pose proof (newFrameDecoder_wf limit Hl) as Hwf.
  assert (Hwait : decoder_waiting (newFrameDecoder limit))
    by (unfold decoder_waiting; simpl; unfold kPrefixLen; lia).
  set (d := (newFrameDecoder limit) <| messages_ := m :: ms |>).
  rewrite (OnData_unary_chunks sid w c chunks d)
    by (rewrite ?Hdec; try done; by apply feed_frames).
  set (c1 := c <| decoder := d |>).
  assert (Hc1 : calls (on_call sid (λ c, c <| decoder := d |>) w) !! sid = Some c1)
    by by apply calls_on_call_eq.
  unfold OnData. rewrite Hc1. change (request_done c1) with (request_done c). rewrite Hd. cbn match.
  change (ok Ok) with true. simpl negb. cbn match.
  change (call_form c1) with (call_form c). rewrite decide_True by done. cbn match.
  rewrite on_call_on_call.
  unfold FinishRequest. rewrite (calls_on_call_eq _ _ _ _ Hc).
  simpl request_done. simpl has_handler. rewrite Hd, Hh. cbn zeta match. simpl negb. cbn match.
  simpl call_form. rewrite Hf. simpl decoder. simpl message_count_. simpl TakeMessage.
  simpl Z.eqb. simpl negb. cbn match. simpl unary. rewrite Hu.
  match goal with |- context [TakeMessage ?d] =>
    change (TakeMessage d) with (Some (m, took_request limit ms)) end.
  cbn match. by rewrite !on_call_on_call.
Qed.
End Requests.

(** ** Answers *)
Section Answers.
Context (reenter : Out → World → World).

(** The session is quiet about a frame when submitting it reports nothing. *)
Definition quiet (o : Out) : Prop := ∀ w, reenter o w = w.

Lemma send_quiet o w : quiet o → destroyed w = false → send reenter o w = record_out o w.
Proof. intros Hq Hd. unfold send, call_out. by rewrite Hd, Hq. Qed.

Lemma trace_StopDeadline sid w : trace (StopDeadline sid w) = trace w.
Proof. unfold StopDeadline. destruct (calls w !! sid); [|done]. by destruct (_ =? _). Qed.
Lemma destroyed_StopDeadline sid w : destroyed (StopDeadline sid w) = destroyed w.
Proof. unfold StopDeadline. destruct (calls w !! sid); [|done]. by destruct (_ =? _). Qed.
Lemma trace_deref sid w : trace (deref sid w) = trace w.
Proof. unfold deref. by destruct (calls w !! sid). Qed.

Lemma Respond_ok_trace sid c st payload w :
  calls w !! sid = Some c → responded c = false → destroyed w = false → ok st = true →
  (∀ o, frame_sid o = Some sid → quiet o) →
  ∃ s, trace (Respond reenter sid st payload w) = trace w ++
    [SendHeaders sid response_headers false; SendData sid (EncodeFrame payload []) false;
     SendTrailers sid ok_trailers; LogCall "call_end" s].
Proof.
  intros Hc Hr Hd Hst Hq. unfold Respond. rewrite Hc, Hr, Hst. cbn match.
  set (w1 := StopDeadline sid (on_call sid _ w)).
  assert (Hd1 : destroyed w1 = false) by (unfold w1; by rewrite destroyed_StopDeadline).
  rewrite (send_quiet (SendHeaders sid response_headers false)) by auto.
  rewrite (send_quiet (SendData sid _ false)) by auto.
  rewrite (send_quiet (SendTrailers sid _)) by auto.
  eexists. unfold log_call_end, log_call. simpl. rewrite trace_deref. simpl.
  unfold w1. rewrite trace_StopDeadline. simpl. by rewrite <-!(assoc_L (++)).
Qed.

Lemma Respond_error_trace sid c st payload w :
  calls w !! sid = Some c → responded c = false → destroyed w = false → ok st = false →
  (∀ o, frame_sid o = Some sid → quiet o) →
  ∃ s1 s2, trace (Respond reenter sid st payload w) = trace w ++
    [SendHeaders sid (trailers_only_headers (code st) (message st)) true;
     LogCall "call_end" s1; LogCall "call_end" s2].
Proof.
  intros Hc Hr Hd Hst Hq. unfold Respond. rewrite Hc, Hr, Hst. cbn match.
  set (w1 := StopDeadline sid (on_call sid _ w)).
  assert (Hd1 : destroyed w1 = false) by (unfold w1; by rewrite destroyed_StopDeadline).
  unfold SendTrailersOnly.
  rewrite (send_quiet (SendHeaders sid _ true)) by auto.
  do 2 eexists. unfold log_call_end, log_call. simpl. rewrite trace_deref. simpl.
  unfold w1. rewrite trace_StopDeadline. simpl. by rewrite <-!(assoc_L (++)).
Qed.

(** A call is answered once.  When a call has been answered, every other
    terminal does nothing: a second response, a finish, a refusal, an error of
    the framing; and so does the pump of its queue. *)
Theorem answered_once sid c st payload w :
  calls w !! sid = Some c → responded c = true →
  Respond reenter sid st payload w = w ∧ FinishStream reenter sid st w = w ∧
  TrailersOnlySt reenter sid st w = w ∧ RespondError reenter sid st w = w ∧
  PumpOut reenter sid w = w.
Proof.
  intros Hc Hr. unfold Respond, FinishStream, TrailersOnlySt, TrailersOnly, RespondError, PumpOut.
  rewrite Hc, Hr. split_and!; try done. destruct (out_queue c); [done|]. by rewrite orb_true_r.
Qed.
End Answers.

(** Extra request messages are not noticed.  A unary request that carries
    further messages after the first is dispatched to its handler with the first
    one, in any environment: the check for "multiple request messages" counts
    the messages already taken, of which there are none. *)
Theorem extra_messages_accepted reenter sid w c limit h m ms chunks :
  calls w !! sid = Some c → unary_waiting limit h c → 0 ≤ limit → Forall (fits limit) (m :: ms) →
  concat chunks = frames (m :: ms) →
  ∃ w', OnData reenter sid None true
      (fold_left (λ w b, OnData reenter sid (Some b) false w) chunks w) =
    call_out reenter (UserUnary h sid m) w' ∧ trace w' = trace w ∧
    ctxs w' = <[sid := Ctx]> (ctxs w).
Proof.
  intros Hc Hu Hl Hm Hcat. rewrite (unary_request_dispatch reenter sid w c limit h m ms) by done.
  eexists. split; [done|]. done.
Qed.

(** ** A unary call, from headers to trailers *)
Section Served.
Context (h : closure) (F : bytes → Status * bytes) (oracle : Out → World → list ReOp).
(** The handler [h] replies to each request [m] with [F m] before it returns; the
    environment does nothing when the session is given a frame. *)
Context (Hreply : ∀ sid m w, oracle (UserUnary h sid m) w = [ApiRespond sid (F m).1 (F m).2]).
Context (Hframes : ∀ o sid w, frame_sid o = Some sid → oracle o w = []).
Context (spin depth : nat) (router : Router nat nat) (limit : Z).
#[local] Set Default Proof Using "Type".

#[local] Abbreviation srv := (step oracle (S depth) spin router limit).

Lemma frames_quiet n o sid : frame_sid o = Some sid → quiet (env oracle spin n) o.
Proof using Hframes. intros Ho w. destruct n; [done|]. simpl. by rewrite (Hframes o sid). Qed.

Lemma fold_step_data sid chunks w :
  fold_left (λ w e, srv e w) (map (λ b, EvData sid (Some b) false) chunks) w =
  fold_left (λ w b, OnData (env oracle spin (S depth)) sid (Some b) false w) chunks w.
Proof. revert w. induction chunks as [|b chunks IH]; intros w; simpl; [done|]. apply IH. Qed.

Lemma open_unary re' sid hs p e w :
  hs !! ":path" = Some p → grpc_content_type hs = true → hs !! "grpc-timeout" = None →
  Find p router = Some e → form e = kUnary → calls w !! sid = None →
  OnHeadersComplete re' router limit sid hs false w =
    w <| calls ::= <[sid := open_call limit p (now_ms w) (Some e) default_call]> |>.
Proof.
  intros Hp Hct Ht He Hf Hn. unfold OnHeadersComplete. rewrite Hp, Hct, He, Hn. simpl default.
  unfold arm_deadline. rewrite Ht. simpl call_form. rewrite Hf.
  rewrite bool_decide_false by (intros [?|?]; done). by rewrite andb_false_r.
Qed.

(** A unary call, from its headers to the reply of its handler. *)
Lemma dispatch_by sid hs p e m chunks w :
  destroyed w = false → sid ∉ opened w → calls w !! sid = None →
  hs !! ":path" = Some p → grpc_content_type hs = true → hs !! "grpc-timeout" = None →
  Find p router = Some e → form e = kUnary → unary e = Some h →
  0 ≤ limit → fits limit m → concat chunks = EncodeFrame m [] →
  ∃ c w', run oracle (S depth) spin router limit
      (EvHeaders sid hs false :: map (λ b, EvData sid (Some b) false) chunks ++
       [EvData sid None true]) w = Respond (env oracle spin depth) sid (F m).1 (F m).2 w' ∧
    calls w' !! sid = Some c ∧ responded c = false ∧ destroyed w' = false ∧
    trace w' = trace w ++ [UserUnary h sid m].
Proof using Hreply.
  intros Hd Ho Hn Hp Hct Ht He Hf Hu Hl Hm Hcat.
  unfold run. simpl fold_left. rewrite fold_left_app, fold_step_data.
  unfold announce. rewrite decide_False by done.
  rewrite (open_unary _ sid hs p e) by done.
  set (c := open_call limit p _ (Some e) default_call).
  match goal with |- context [fold_left _ chunks ?x] => set (w1 := x) end.
  assert (Hc1 : calls w1 !! sid = Some c) by (simpl; by rewrite lookup_insert_eq).
  match goal with |- ∃ c w', ?x = _ ∧ _ =>
    change x with (OnData (env oracle spin (S depth)) sid None true
      (fold_left (λ w b, OnData (env oracle spin (S depth)) sid (Some b) false w) chunks w1)) end.
  rewrite (unary_request_dispatch (env oracle spin (S depth)) sid w1 c limit h m [] chunks)
    by (rewrite ?frames_single, ?Forall_singleton; try done; by split_and!).
  match goal with |- context [call_out _ _ ?x] => set (w2 := x) end.
  unfold call_out. simpl env. rewrite Hreply. simpl fold_left.
  unfold with_ctx. simpl ctxs. rewrite lookup_insert_eq. simpl.
  exists (c <| request_done := true |> <| decoder := took_request limit [] |>),
    (w2 <| trace ::= λ t, t ++ [UserUnary h sid m] |>).
  split; [done|]. split; [|done]. unfold w2. simpl. rewrite lookup_alter_eq. by rewrite lookup_insert_eq.
Qed.

(** What a reply puts on the wire. *)
Definition reply_frames (sid : Z) (st : Status) (payload : bytes) : list Out :=
  if ok st then
    [SendHeaders sid response_headers false; SendData sid (EncodeFrame payload []) false;
     SendTrailers sid ok_trailers]
  else [SendHeaders sid (trailers_only_headers (code st) (message st)) true].

Lemma reply_by sid hs p e m chunks w :
  destroyed w = false → sid ∉ opened w → calls w !! sid = None →
  hs !! ":path" = Some p → grpc_content_type hs = true → hs !! "grpc-timeout" = None →
  Find p router = Some e → form e = kUnary → unary e = Some h →
  0 ≤ limit → fits limit m → concat chunks = EncodeFrame m [] →
  ∃ logs, trace (run oracle (S depth) spin router limit
      (EvHeaders sid hs false :: map (λ b, EvData sid (Some b) false) chunks ++
       [EvData sid None true]) w) =
    trace w ++ UserUnary h sid m :: reply_frames sid (F m).1 (F m).2 ++ map (LogCall "call_end") logs.
Proof using Hreply Hframes.
  intros. destruct (dispatch_by sid hs p e m chunks w) as (c & w' & -> & Hc & Hr & Hd & Ht); [done..|].
  assert (Hq : ∀ o, frame_sid o = Some sid → quiet (env oracle spin depth) o).
  { intros o Hfo. by eapply frames_quiet. }
  unfold reply_frames. destruct (ok (F m).1) eqn:Hst.
  - destruct (Respond_ok_trace _ sid c (F m).1 (F m).2 w' Hc Hr Hd Hst Hq) as [s ->].
    exists [s]. rewrite Ht. by rewrite <-(assoc_L (++)).
  - destruct (Respond_error_trace _ sid c (F m).1 (F m).2 w' Hc Hr Hd Hst Hq) as (s1 & s2 & ->).
    exists [s1; s2]. rewrite Ht. by rewrite <-(assoc_L (++)).
Qed.

Lemma unary_by sid hs p e m chunks w :
  (F m).1 = Ok → destroyed w = false → sid ∉ opened w → calls w !! sid = None →
  hs !! ":path" = Some p → grpc_content_type hs = true → hs !! "grpc-timeout" = None →
  Find p router = Some e → form e = kUnary → unary e = Some h →
  0 ≤ limit → fits limit m → concat chunks = EncodeFrame m [] →
  ∃ s, trace (run oracle (S depth) spin router limit
      (EvHeaders sid hs false :: map (λ b, EvData sid (Some b) false) chunks ++
       [EvData sid None true]) w) =
    trace w ++ [UserUnary h sid m; SendHeaders sid response_headers false;
      SendData sid (EncodeFrame (F m).2 []) false; SendTrailers sid ok_trailers;
      LogCall "call_end" s].
Proof using Hreply Hframes.
  intros Hok. intros.
  destruct (dispatch_by sid hs p e m chunks w) as (c & w' & -> & Hc & Hr & Hd & Ht); [done..|].
  rewrite Hok. destruct (Respond_ok_trace (env oracle spin depth) sid c Ok (F m).2 w' Hc Hr Hd eq_refl)
    as [s ->].
  - intros o Hfo. by eapply frames_quiet.
  - exists s. rewrite Ht. by rewrite <-(assoc_L (++)).
Qed.
End Served.

(** An environment of one handler: the rest of it does nothing. *)
Definition replying (h : closure) (F : bytes → Status * bytes) (o : Out) (w : World) : list ReOp :=
  match o with
  | UserUnary h' sid m => if decide (h' = h) then [ApiRespond sid (F m).1 (F m).2] else []
  | _ => []
  end.

Lemma replying_replies h F sid m w :
  replying h F (UserUnary h sid m) w = [ApiRespond sid (F m).1 (F m).2].
Proof. simpl. by rewrite decide_True. Qed.
Lemma replying_frames h F o sid w : frame_sid o = Some sid → replying h F o w = [].
Proof. by destruct o. Qed.

(** The handler [h] answers each request [m] with [f m]. *)
Definition answering (h : closure) (f : bytes → bytes) : Out → World → list ReOp :=
  replying h (λ m, (Ok, f m)).

Lemma serve_reply h F spin depth router limit sid hs p e m chunks w :
  destroyed w = false → sid ∉ opened w → calls w !! sid = None →
  hs !! ":path" = Some p → grpc_content_type hs = true → hs !! "grpc-timeout" = None →
  Find p router = Some e → form e = kUnary → unary e = Some h →
  0 ≤ limit → fits limit m → concat chunks = EncodeFrame m [] →
  ∃ logs, trace (run (replying h F) (S depth) spin router limit
      (EvHeaders sid hs false :: map (λ b, EvData sid (Some b) false) chunks ++
       [EvData sid None true]) w) =
    trace w ++ UserUnary h sid m :: reply_frames sid (F m).1 (F m).2 ++ map (LogCall "call_end") logs.
Proof. apply reply_by; [apply replying_replies|apply replying_frames]. Qed.

(** A unary call, from its headers to its trailers. *)
Lemma serve_unary h f spin depth router limit sid hs p e m chunks w :
  destroyed w = false → sid ∉ opened w → calls w !! sid = None →
  hs !! ":path" = Some p → grpc_content_type hs = true → hs !! "grpc-timeout" = None →
  Find p router = Some e → form e = kUnary → unary e = Some h →
  0 ≤ limit → fits limit m → concat chunks = EncodeFrame m [] →
  ∃ s, trace (run (answering h f) (S depth) spin router limit
      (EvHeaders sid hs false :: map (λ b, EvData sid (Some b) false) chunks ++
       [EvData sid None true]) w) =
    trace w ++ [UserUnary h sid m; SendHeaders sid response_headers false;
      SendData sid (EncodeFrame (f m) []) false; SendTrailers sid ok_trailers;
      LogCall "call_end" s].
Proof.
  intros. unfold answering.
  by apply (unary_by h (λ m, (Ok, f m)) _ (replying_replies h _) (replying_frames h _) spin depth
    router limit sid hs p e m chunks w).
Qed.

Lemma answered_once_witness :
  let c := default_call <| responded := true |> in
  let w := new_world <| calls := {[ 1 := c ]} |> in
  Respond (λ _ w, w) 1 Ok [] w = w.
Proof.
  intros c w. apply (answered_once (λ _ w, w) 1 c Ok [] w); reflexivity.
Defined.

(** ** Refusals *)
Section Refusals.
Context (reenter : Out → World → World).

(** The status with which the end of a request is refused, if it is. *)
Definition refusal (c : Call) : option Status :=
  if negb (has_handler c) then Some (unknown_method (path c))
  else match call_form c with
  | kUnary =>
      if negb (message_count_ (decoder c) =? 0) then Some multiple_requests
      else if HasMessage (decoder c) then None else Some missing_request
  | kServerStreaming =>
      if dispatched c then None
      else if HasMessage (decoder c) then None else Some missing_request
  | kClientStreaming | kBidi =>
      if dispatched c then None else Some (unknown_method (path c))
  end.

Lemma TrailersOnly_trace sid c st w :
  calls w !! sid = Some c → responded c = false → destroyed w = false →
  (∀ o, frame_sid o = Some sid → quiet reenter o) →
  ∃ s, trace (TrailersOnlySt reenter sid st w) = trace w ++
    [SendHeaders sid (trailers_only_headers (code st) (message st)) true; LogCall "call_end" s].
Proof.
  intros Hc Hr Hd Hq. unfold TrailersOnlySt, TrailersOnly. rewrite Hc, Hr. cbn match.
  set (w1 := StopDeadline sid (on_call sid _ w)).
  assert (Hd1 : destroyed w1 = false) by (unfold w1; by rewrite destroyed_StopDeadline).
  unfold SendTrailersOnly. rewrite (send_quiet reenter (SendHeaders sid _ true)) by auto.
  eexists. unfold log_call. simpl. unfold w1. rewrite trace_StopDeadline. simpl.
  by rewrite <-!(assoc_L (++)).
Qed.

(** C34: a request that ends without what its method needs is refused with one
    trailers-only response: UNIMPLEMENTED for a path that is not registered,
    INTERNAL for a missing request message; no handler is called.  The path is in
    grpc-message as it came, not percent-encoded as the wire protocol's contract
    says. *)
Theorem request_end_refused sid c st w :
  calls w !! sid = Some c → request_done c = false → responded c = false →
  destroyed w = false → (∀ o, frame_sid o = Some sid → quiet reenter o) →
  refusal c = Some st →
  ∃ s, trace (FinishRequest reenter sid w) = trace w ++
    [SendHeaders sid (trailers_only_headers (code st) (message st)) true; LogCall "call_end" s].
Proof.
  intros Hc Hd Hr Hde Hq Href. unfold FinishRequest. rewrite Hc, Hd. cbn match.
  set (w1 := on_call sid (λ c, c <| request_done := true |>) w).
  assert (Hc1 : calls w1 !! sid = Some (c <| request_done := true |>)) by by apply calls_on_call_eq.
  assert (H1 : ∃ s, trace (TrailersOnlySt reenter sid st w1) = trace w ++
    [SendHeaders sid (trailers_only_headers (code st) (message st)) true; LogCall "call_end" s])
    by by eapply (TrailersOnly_trace sid _ st w1 Hc1).
  assert (H2 : ∃ s, trace (TrailersOnlySt reenter sid st
      (on_call sid (λ c, c <| request_half_closed := true |>) w1)) = trace w ++
    [SendHeaders sid (trailers_only_headers (code st) (message st)) true; LogCall "call_end" s]).
  { by eapply (TrailersOnly_trace sid (c <| request_done := true |> <| request_half_closed := true |>)
      st (on_call sid _ w1) (calls_on_call_eq _ _ _ _ Hc1)). }
  unfold refusal, HasMessage, TakeMessage in *. clearbody w1.
  destruct (has_handler c); simpl in *; [|by simplify_eq].
  destruct (call_form c); simpl in *;
    repeat (case_match; simplify_eq/=); done.
Qed.

(** A framing violation is never answered.  When the request bytes are
    refused by the decoder (a compressed frame, a message over the limit), the
    call is marked answered although nothing is sent, so whatever answer is
    attempted later does nothing: the peer's stream stays without a response. *)
Theorem violation_unanswered sid c data st d w :
  calls w !! sid = Some c → request_done c = false → responded c = false →
  data ≠ [] → Consume data (decoder c) = (st, d) → ok st = false →
  ∀ es w', w' = OnData reenter sid (Some data) es w →
  trace w' = trace w ∧
  ∀ st' payload, Respond reenter sid st' payload w' = w' ∧
    FinishStream reenter sid st' w' = w' ∧ TrailersOnlySt reenter sid st' w' = w'.
Proof.
  intros Hc Hd Hr Hne HC Hst es w' ->. unfold OnData. rewrite Hc, Hd. cbn match.
  destruct data as [|b data]; [done|]. rewrite HC, Hst. simpl negb. cbn match.
  unfold RespondError. rewrite (calls_on_call_eq _ _ _ _ Hc). simpl responded. rewrite Hr. cbn match.
  rewrite on_call_on_call.
  set (w1 := on_call sid _ w).
  assert (Hc1 : calls (StopDeadline sid w1) !! sid =
    Some (c <| decoder := d |> <| responded := true |> <| deadline_timer := 0 |>)).
  { rewrite calls_StopDeadline. unfold w1. by rewrite (calls_on_call_eq _ _ _ _ Hc). }
  assert (HT : ∀ st', TrailersOnlySt reenter sid st' (StopDeadline sid w1) = StopDeadline sid w1)
    by (intros st'; unfold TrailersOnlySt, TrailersOnly; by rewrite Hc1).
  fold (TrailersOnlySt reenter sid st (StopDeadline sid w1)). rewrite HT. split.
  - by rewrite trace_StopDeadline.
  - intros st' payload. unfold Respond, FinishStream. by rewrite Hc1, HT.
Qed.
End Refusals.

(** ** Concrete calls *)
Definition demo_call : Call :=
  default_call <| entry := mkEntry kUnary (Some 7%nat) None |> <| has_handler := true |>
    <| decoder := newFrameDecoder 1024 |>.
Definition demo_world : World := new_world <| calls := {[ 1 := demo_call ]} |>.

Lemma extra_messages_accepted_witness :
  let m1 := [chr 1] in
  let m2 := [chr 2] in
  ∃ w', OnData (λ _ w, w) 1 None true
      (OnData (λ _ w, w) 1 (Some (drop 3 (frames [m1; m2]))) false
        (OnData (λ _ w, w) 1 (Some (take 3 (frames [m1; m2]))) false demo_world)) =
    call_out (λ _ w, w) (UserUnary 7 1 m1) w' ∧ trace w' = trace demo_world ∧
    ctxs w' = <[1 := Ctx]> (ctxs demo_world).
Proof.
  intros m1 m2.
  apply (extra_messages_accepted (λ _ w, w) 1 demo_world demo_call 1024 7 m1 [m2]
    [take 3 (frames [m1; m2]); drop 3 (frames [m1; m2])]).
  - reflexivity.
  - split_and!; reflexivity.
  - lia.
  - repeat constructor; simpl; lia.
  - reflexivity.
Defined.

Lemma request_end_refused_witness :
  ∃ s, trace (FinishRequest (λ _ w, w) 1 demo_world) =
    [SendHeaders 1 (trailers_only_headers kInternal (message missing_request)) true;
     LogCall "call_end" s].
Proof.
  apply (request_end_refused (λ _ w, w) 1 demo_call missing_request demo_world); try reflexivity.
  intros o _ w. reflexivity.
Defined.

Lemma violation_unanswered_witness :
  let w' := OnData (λ _ w, w) 1 (Some [chr 1; chr 0; chr 0; chr 0; chr 0]) true demo_world in
  trace w' = [] ∧
  ∀ st payload, Respond (λ _ w, w) 1 st payload w' = w' ∧
    FinishStream (λ _ w, w) 1 st w' = w' ∧ TrailersOnlySt (λ _ w, w) 1 st w' = w'.
Proof.
  intros w'.
  apply (violation_unanswered (λ _ w, w) 1 demo_call [chr 1; chr 0; chr 0; chr 0; chr 0]
    compressed_error (Consume [chr 1; chr 0; chr 0; chr 0; chr 0] (newFrameDecoder 1024)).2
    demo_world) with (es := true); try reflexivity. discriminate.
Defined.
