(* ===== verification/ServerStreams.v ===== *)
(** * What the server does for a stream

    The request side (messages wait for reads, in order), the response side
    (the pump sends queued messages one body at a time), the terminals of a
    stream, deadlines, cancellation and the loss of the connection. *)
From S2P Require Import Prelude Status CxxString Wire Codec Router Loop SessionSpec ServerConn ServerInv ServerRun ServerCalls.

(** ** The request side *)
Section Reading.
Context (reenter : Out → World → World).

(** A stream whose messages wait for reads. *)
Definition reading (c : Call) : Prop :=
  (call_form c = kClientStreaming ∨ call_form c = kBidi) ∧
  read_finished c = false ∧ read_cb c = None.

(** The decoder when all its messages have been taken. *)
Definition drained_decoder (n : Z) (d : FrameDecoder) : FrameDecoder :=
  d <| messages_ := [] |> <| message_count_ := n |>.

Lemma deliver_messages_queue ms sid w c :
  calls w !! sid = Some c → reading c → messages_ (decoder c) = ms →
  (length (pending_msgs c) + length ms ≤ kQueueBound)%nat →
  ∃ n, deliver_messages reenter (length ms) sid w =
    (true, on_call sid (λ c', c' <| decoder := drained_decoder n (decoder c) |>
                                 <| pending_msgs ::= λ q, q ++ ms |>) w).
Proof.
  revert w c. induction ms as [|m ms IH]; intros w c Hc (Hf & Hrf & Hcb) Hms Hlen; simpl.
  - exists (message_count_ (decoder c)). f_equal. symmetry. apply on_call_id. intros c' Hc'. simplify_eq.
    destruct c. match goal with d : FrameDecoder |- _ => destruct d end.
    simpl in *. subst. by rewrite app_nil_r.
  - rewrite Hc. unfold TakeMessage. rewrite Hms. cbn match.
    rewrite decide_False by (destruct Hf as [-> | ->]; done).
    match goal with |- context [on_call sid ?f w] => set (g := f) end.
    unfold DeliverRead. rewrite (calls_on_call_eq _ _ _ _ Hc). simpl in Hlen.
    change (read_finished (g c)) with (read_finished c). rewrite Hrf. cbn match.
    change (read_cb (g c)) with (read_cb c). rewrite Hcb. simpl negb. simpl orb. cbn match.
    change (pending_msgs (g c)) with (pending_msgs c).
    destruct (Nat.leb_spec kQueueBound (length (pending_msgs c))); [lia|].
    rewrite on_call_on_call. set (g2 := λ c0 : Call, (g c0) <| pending_msgs ::= λ q, q ++ [m] |>).
    assert (Hc2 : calls (on_call sid g2 w) !! sid = Some (g2 c)) by by apply calls_on_call_eq.
    unfold deref. rewrite Hc2. destruct (IH (on_call sid g2 w) (g2 c)) as [n Hn].
    + done.
    + done.
    + done.
    + simpl. rewrite length_app. simpl. lia.
    + exists n. rewrite Hn, on_call_on_call. f_equal. apply on_call_ext. intros c' _.
      unfold g2, g. simpl. by rewrite <-(assoc_L (++)).
Qed.

(** Request data that arrives, and reads. *)
Inductive ReadEvent := RChunk (data : bytes) | RRead (cb : closure).
Definition chunk_of (e : ReadEvent) : option bytes := match e with RChunk b => Some b | _ => None end.
Definition read_of (e : ReadEvent) : option closure := match e with RRead cb => Some cb | _ => None end.
Definition read_step (sid : Z) (e : ReadEvent) (w : World) : World :=
  match e with
  | RChunk data => OnData reenter sid (Some data) false w
  | RRead cb => with_stream_ctx sid (ctx_ReadMessage reenter sid cb) w
  end.

(** The reader keeps up with the decoder: of [n] unread messages there are never
    more than 64, and a read is made only when none waits ([r]). *)
Fixpoint keeps_up (d : FrameDecoder) (n : nat) (r : bool) (es : list ReadEvent) : bool :=
  match es with
  | [] => true
  | RRead _ :: es =>
      negb r && match n with O => keeps_up d 0 true es | S n => keeps_up d n false es end
  | RChunk data :: es =>
      let d := (Consume data d).2 in
      let n := (n + length (messages_ d))%nat in
      let rest := if r then (n - 1)%nat else n in
      (rest <=? kQueueBound)%nat && keeps_up (d <| messages_ := [] |>) rest (r && (n =? 0)%nat) es
  end.

(** A stream with unread messages [q], or a read that waits, and a decoder that
    waits for bytes: [d], but for the number of messages taken so far. *)
Record reader (sid : Z) (q : list bytes) (r : option closure) (d : FrameDecoder) (w : World) : Prop := {
  reader_call : ∃ c n, calls w !! sid = Some c ∧ (call_form c = kClientStreaming ∨ call_form c = kBidi) ∧
    request_done c = false ∧ request_half_closed c = false ∧ read_finished c = false ∧ read_cb c = r ∧ pending_msgs c = q ∧
    decoder c = requeue [] n d;
  reader_ctx : ctxs w !! sid = Some (StreamCtx None);
  reader_wait : is_Some r → q = [];
  reader_decoder : decoder_wf d ∧ decoder_waiting d ∧ messages_ d = []
}.

Definition answered (rs : list closure) (ms : list bytes) : list Out :=
  zip_with (λ cb m, UserRead cb Ok false m) rs ms.

Context (Hquiet : ∀ cb m, quiet reenter (UserRead cb Ok false m)).
#[local] Set Default Proof Using "Hquiet".

Lemma reader_read sid q d cb w :
  reader sid q None d w →
  let w' := read_step sid (RRead cb) w in
  match q with
  | [] => reader sid [] (Some cb) d w' ∧ trace w' = trace w
  | m :: q => reader sid q None d w' ∧ trace w' = trace w ++ [UserRead cb Ok false m]
  end.
Proof.
  intros [(c & n & Hc & Hf & Hd & Hh & Hrf & Hr & Hq & Hdec) Hx _ Hw]. cbn [read_step].
  unfold with_stream_ctx, with_ctx. rewrite Hx. unfold ctx_ReadMessage.
  rewrite Hx, Hc, Hrf, Hq, Hr, Hh. destruct q as [|m q].
  - split; [|done]. split; try done. do 2 eexists. split; [by apply calls_on_call_eq|done].
  - unfold call_out. rewrite Hquiet. split; [|done]. split; try done.
    exists (c <| pending_msgs := q |>), n. split; [simpl; by rewrite lookup_alter_eq, Hc|done].
Qed.

(** The messages of a chunk: the first for the read that waits. *)
Lemma deliver_reader sid q r c n d w :
  calls w !! sid = Some c → (call_form c = kClientStreaming ∨ call_form c = kBidi) →
  request_done c = false → request_half_closed c = false → read_finished c = false →
  read_cb c = r → pending_msgs c = q → decoder c = requeue [] n d → ctxs w !! sid = Some (StreamCtx None) →
  (is_Some r → q = []) → decoder_wf (d <| messages_ := [] |>) → decoder_waiting d →
  let rs := option_list r in
  let ms := messages_ d in
  (length (q ++ ms) - length rs ≤ kQueueBound)%nat →
  let '(go_on, w') := deliver_messages reenter (length ms) sid w in
  go_on = true ∧ trace w' = trace w ++ answered rs (q ++ ms) ∧
  reader sid (drop (length rs) (q ++ ms)) (match ms with [] => r | _ => None end) (d <| messages_ := [] |>) w'.
Proof.
  intros Hc Hf Hd Hh Hrf Hr Hq Hdec Hx Hone Hwf Hwait rs ms Hlen.
  destruct r as [cb|].
  2:{ destruct (deliver_messages_queue ms sid w c) as [n' ->].
      - done.
      - done.
      - by rewrite Hdec.
      - rewrite Hq. rewrite length_app in Hlen. simpl in Hlen. lia.
      - split_and!; [done|simpl; by rewrite app_nil_r|]. split; try done.
        + eexists _, n'. split; [by apply calls_on_call_eq|]. split_and!; try done; [by destruct ms|simpl; by rewrite Hq|].
          rewrite Hdec. done.
        + by destruct ms. }
  rewrite Hone in * by by eexists. destruct ms as [|m ms'] eqn:Hms; subst ms.
  { simpl. split_and!; [done|by rewrite app_nil_r|]. split; try done. exists c, n. split; [done|].
    split_and!; try done. rewrite Hdec. unfold requeue. simpl. by rewrite Hms. }
  cbn [length deliver_messages]. rewrite Hc. unfold TakeMessage. rewrite Hdec.
  change (messages_ (requeue [] n d)) with (messages_ d). rewrite Hms. cbn match.
  rewrite decide_False by (destruct Hf as [-> | ->]; done).
  match goal with |- context [on_call sid ?f w] => set (g := f) end.
  unfold DeliverRead. rewrite (calls_on_call_eq _ _ _ _ Hc).
  change (read_finished (g c)) with (read_finished c). rewrite Hrf. cbn match.
  change (read_cb (g c)) with (read_cb c). rewrite Hr. simpl negb. simpl orb. cbn match.
  rewrite on_call_on_call. set (g2 := λ c0 : Call, (g c0) <| read_cb := None |>).
  unfold call_out. rewrite Hquiet.
  set (w1 := (on_call sid g2 w) <| trace ::= λ t, t ++ [UserRead cb Ok false m] |>).
  assert (Hc1 : calls w1 !! sid = Some (g2 c)) by by apply (calls_on_call_eq sid g2).
  unfold deref. rewrite Hc1.
  destruct (deliver_messages_queue ms' sid w1 (g2 c)) as [n' ->]; [done|done|done| |].
  { simpl. rewrite Hq. simpl in *. lia. }
  split_and!; [done|simpl; by destruct ms'|]. split; try done.
  eexists _, n'. split; [exact (calls_on_call_eq _ _ _ _ Hc1)|]. split_and!; try done. simpl. by rewrite Hq.
Qed.

Lemma reader_chunk sid q r d data d' w :
  reader sid q r d w → Consume data d = (Ok, d') →
  let rs := option_list r in
  let ms := messages_ d' in
  (length (q ++ ms) - length rs ≤ kQueueBound)%nat →
  let w' := read_step sid (RChunk data) w in
  trace w' = trace w ++ answered rs (q ++ ms) ∧
  reader sid (drop (length rs) (q ++ ms)) (match ms with [] => r | _ => None end) (d' <| messages_ := [] |>) w'.
Proof.
  intros [(c & n & Hc & Hf & Hd & Hh & Hrf & Hr & Hq & Hdec) Hx Hone (Hwf & Hwait & Hm)] HC rs ms Hlen.
  destruct (Consume_view _ _ _ _ Hwf HC) as ((H1 & H2 & _) & _ & Hwait'). destruct (Hwait' eq_refl) as [_ Hw'].
  assert (E : match data with [] => (Ok, decoder c) | _ => Consume data (decoder c) end = (Ok, requeue [] n d')).
  { rewrite Hdec. destruct data; [|by rewrite Consume_requeue, HC].
    rewrite Consume_nil in HC by done. by simplify_eq. }
  cbn [read_step]. unfold OnData. rewrite Hc, Hd.
  assert (E2 : (match Some data with Some ((_ :: _) as b) => Consume b (decoder c) | _ => (Ok, decoder c) end) =
    (Ok, requeue [] n d')) by (destruct data; exact E).
  rewrite E2. cbv zeta. change (ok Ok) with true. simpl negb. cbn match.
  rewrite decide_False by (destruct Hf as [-> | ->]; done).
  set (g := λ c : Call, c <| decoder := requeue [] n d' |>).
  pose proof (deliver_reader sid q r (g c) n d' (on_call sid g w)) as HD. cbv zeta in HD.
  change (messages_ (requeue [] n d')) with ms.
  destruct (deliver_messages reenter (length ms) sid (on_call sid g w)) as [b w'] eqn:Edm. simpl.
  assert (HD' : b = true ∧ trace w' = trace w ++ answered rs (q ++ ms) ∧
    reader sid (drop (length rs) (q ++ ms)) (match ms with [] => r | _ => None end) (d' <| messages_ := [] |>) w').
  { unfold ms in Edm. rewrite Edm in HD. apply HD; try done. by apply (calls_on_call_eq sid g). }
  destruct HD' as (-> & ? & ?). done.
Qed.

Lemma requeue_self d : d = requeue (messages_ d) (message_count_ d) (d <| messages_ := [] |>).
Proof using Type. destruct d. unfold requeue. simpl. by rewrite app_nil_r. Qed.

(** Every read gets the next message, in the order of both. *)
Lemma reads_served sid es q r d w d' :
  reader sid q r d w → keeps_up d (length q) (bool_decide (is_Some r)) es = true →
  feed d (omap chunk_of es) = (Ok, d') →
  let w' := fold_left (λ w e, read_step sid e w) es w in
  let rs := option_list r ++ omap read_of es in
  let ms := q ++ messages_ d' in
  trace w' = trace w ++ answered rs ms ∧
  ∃ c, calls w' !! sid = Some c ∧ pending_msgs c = drop (length rs) ms.
Proof.
  revert q r d w d'. induction es as [|[data|cb] es IH]; intros q r d w d' Hrd Hk Hfeed.
  - simpl in *. simplify_eq. destruct Hrd as [(c & n & Hc & _ & _ & _ & _ & _ & Hq & _) _ Hone (_ & _ & Hm)].
    rewrite Hm, !app_nil_r. destruct r as [cb|]; simpl.
    + rewrite Hone in * by by eexists. simpl. rewrite app_nil_r. eauto.
    + rewrite app_nil_r. eauto.
  - change (omap chunk_of (RChunk data :: es)) with (data :: omap chunk_of es) in Hfeed.
    change (omap read_of (RChunk data :: es)) with (omap read_of es). cbn [feed] in Hfeed.
    destruct (Consume data d) as [st d1] eqn:HC.
    destruct (Consume_view _ _ _ _ (proj1 (reader_decoder _ _ _ _ _ Hrd)) HC) as (_ & _ & Hst).
    destruct (ok st) eqn:Eok; [|simplify_eq; done]. destruct (Hst eq_refl) as [-> _].
    simpl in Hk. rewrite HC in Hk. simpl in Hk. apply andb_true_iff in Hk as [Hb Hk].
    apply Nat.leb_le in Hb. set (ms1 := messages_ d1) in *.
    rewrite (requeue_self d1), feed_requeue in Hfeed. fold ms1 in Hfeed.
    destruct (feed (d1 <| messages_ := [] |>) (omap chunk_of es)) as [st3 d3] eqn:Hf3.
    injection Hfeed as -> <-. change (messages_ (requeue ms1 _ d3)) with (ms1 ++ messages_ d3).
    assert (Hlen : (length (q ++ ms1) - length (option_list r) = if bool_decide (is_Some r)
      then length q + length ms1 - 1 else length q + length ms1)%nat).
    { rewrite length_app. destruct r; simpl; lia. }
    destruct (reader_chunk sid q r d data d1 w Hrd HC) as [Ht Hrd']; [fold ms1; by rewrite Hlen|].
    fold ms1 in Ht, Hrd'. pose proof (reader_wait _ _ _ _ _ Hrd) as Hone. cbn [fold_left].
    set (w1 := read_step sid (RChunk data) w) in *. clearbody w1.
    destruct (IH _ _ _ _ d3 Hrd') as (Ht' & c & Hc & Hp).
    + rewrite length_drop, Hlen. destruct r as [cb|]; [|by destruct ms1].
      rewrite (Hone ltac:(by eexists)) in *. by destruct ms1.
    + exact Hf3.
    + cbv zeta. split; [rewrite Ht', Ht|exists c; split; [exact Hc|rewrite Hp]]; clear -Hone; clearbody ms1;
        (destruct r as [cb|]; [rewrite (Hone ltac:(by eexists))|]; destruct ms1); simpl;
        rewrite ?drop_0, ?app_nil_r, <-?(assoc_L (++)); done.
  - simpl in Hk. apply andb_true_iff in Hk as [Hr Hk]. destruct r as [cb'|]; [done|].
    pose proof (reader_read sid q d cb w Hrd) as Hstep. cbn [fold_left].
    set (w1 := read_step sid (RRead cb) w) in *. clearbody w1.
    change (omap chunk_of (RRead cb :: es)) with (omap chunk_of es) in Hfeed.
    change (omap read_of (RRead cb :: es)) with (cb :: omap read_of es).
    destruct q as [|m q]; destruct Hstep as [Hrd' Ht].
    + destruct (IH _ _ _ _ d' Hrd' Hk Hfeed) as [Ht' Hc]. split; [by rewrite Ht', Ht|exact Hc].
    + destruct (IH _ _ _ _ d' Hrd' Hk Hfeed) as [Ht' Hc]. split; [|exact Hc].
      rewrite Ht', Ht. simpl. by rewrite <-(assoc_L (++)).
Qed.

(** Queued messages are lost at the half close.  When the peer ends its side
    while messages wait for a read, the end is delivered first: the next read
    is answered UNAVAILABLE, although the messages are still queued. *)
Theorem half_close_loses_unread sid c cb w m q :
  calls w !! sid = Some c → reading c → request_done c = false → has_handler c = true →
  dispatched c = true → pending_msgs c = m :: q → ctxs w !! sid = Some (StreamCtx None) →
  ∃ w' c', FinishRequest reenter sid w = w' ∧ trace w' = trace w ∧
    calls w' !! sid = Some c' ∧ pending_msgs c' = m :: q ∧
    ctx_ReadMessage reenter sid cb w' = call_out reenter (UserRead cb stream_closed true []) w'.
Proof using Type.
  intros Hc (Hf & Hrf & Hcb) Hd Hh Hdis Hq Hx.
  exists (on_call sid (λ c, c <| request_done := true |> <| request_half_closed := true |>
                               <| read_finished := true |>) w).
  set (g := λ c, _ <| read_finished := true |>).
  assert (Hc' : calls (on_call sid g w) !! sid = Some (g c)) by by apply calls_on_call_eq.
  exists (g c). split_and!; try done.
  - unfold FinishRequest. rewrite Hc, Hd. cbn match. rewrite Hh. simpl negb. cbn match.
    rewrite Hdis. simpl negb.
    assert (DeliverRead reenter sid Ok true []
      (on_call sid (λ c, c <| request_half_closed := true |>)
        (on_call sid (λ c, c <| request_done := true |>) w)) = on_call sid g w) as HD.
    { rewrite on_call_on_call. unfold DeliverRead. rewrite (calls_on_call_eq _ _ _ _ Hc).
      simpl read_finished. rewrite Hrf. cbn match. simpl orb. cbn match.
      simpl read_cb. rewrite Hcb. by rewrite on_call_on_call. }
    destruct Hf as [-> | ->]; exact HD.
  - unfold ctx_ReadMessage. by rewrite Hc'.
Qed.
End Reading.

Definition read_event (sid : Z) (e : ReadEvent) : Event :=
  match e with
  | RChunk data => EvData sid (Some data) false
  | RRead cb => EvOp (ApiRead sid cb)
  end.

(** C13: streamed request messages reach the reader in order, and none is lost.
    On a stream whose peer has not ended its side, when its messages come in
    chunks cut in any way, in between reads made in any order with them, the
    n-th read is answered with OK and the n-th message, and what was not read
    yet is queued.  The reader keeps up: of the messages that are complete there
    are never more than 64 unread (the next one would finish the stream with
    RESOURCE_EXHAUSTED), and a read is made when none waits (it would be answered
    INTERNAL).  The callbacks of the reads do nothing of their own; the
    environment is free otherwise. *)
Theorem stream_reads_in_order oracle spin depth router mrs sid c limit ms es w :
  (∀ cb m w, oracle (UserRead cb Ok false m) w = []) →
  calls w !! sid = Some c → reading c → request_done c = false → request_half_closed c = false →
  pending_msgs c = [] → ctxs w !! sid = Some (StreamCtx None) → decoder c = newFrameDecoder limit →
  0 ≤ limit → Forall (fits limit) ms → concat (omap chunk_of es) = frames ms →
  keeps_up (newFrameDecoder limit) 0 false es = true →
  let w' := run oracle depth spin router mrs (map (read_event sid) es) w in
  trace w' = trace w ++ zip_with (λ cb m, UserRead cb Ok false m) (omap read_of es) ms ∧
  ∃ c', calls w' !! sid = Some c' ∧ pending_msgs c' = drop (length (omap read_of es)) ms.
Proof.
  intros Hq Hc (Hf & Hrf & Hr) Hd Hh Hp Hx Hdec Hl Hms Hcat Hk w'.
  set (re := env oracle spin depth).
  assert (E : w' = fold_left (λ w e, read_step re sid e w) es w).
  { unfold w', run. clear. revert w. induction es as [|[data|cb] es IH]; intros w; [done| |]; apply IH. }
  assert (Hquiet : ∀ cb m, quiet re (UserRead cb Ok false m)).
  { intros cb m w0. unfold re. destruct depth; [done|]. simpl. by rewrite Hq. }
  pose proof (feed_frames limit ms (omap chunk_of es) Hl Hms Hcat) as Hfeed.
  assert (Hrd : reader sid [] None (newFrameDecoder limit) w).
  { split; [|done|by intros []|].
    - exists c, 0. split_and!; try done.
    - split_and!; [by apply newFrameDecoder_wf|unfold decoder_waiting; simpl; unfold kPrefixLen; lia|done]. }
  rewrite E. exact (reads_served re Hquiet sid es [] None _ w _ Hrd Hk Hfeed).
Qed.

(** ** The response side *)
(** The environments that do nothing inside call outs, but for the start of a
    stream's handler. *)
Definition passive (oracle : Out → World → list ReOp) : Prop :=
  ∀ o w, (∀ h sid, o ≠ UserStream h sid) → oracle o w = [].
Definition silent (o : Out) (w : World) : list ReOp := [].
Lemma silent_passive : passive silent.
Proof. done. Qed.

Lemma last_from {A} (l : list A) x d : List.last (x :: l) d = List.last l x.
Proof. revert x. induction l as [|y l IH]; [done|]. intros x. simpl in *. by destruct l. Qed.

(** The environments that do nothing when the session is given a frame. *)
Definition unmoved (oracle : Out → World → list ReOp) : Prop :=
  ∀ o sid w, frame_sid o = Some sid → oracle o w = [].
(** The callback of a write does nothing. *)
Definition calm (oracle : Out → World → list ReOp) (cb : option closure) : Prop :=
  match cb with Some cb => ∀ w, oracle (UserWrite cb Ok) w = [] | None => True end.

Lemma passive_unmoved oracle : passive oracle → unmoved oracle.
Proof. intros H o sid w Ho. apply H. intros h s ->. done. Qed.
Lemma passive_calm oracle cb : passive oracle → calm oracle cb.
Proof. intros H. destruct cb; [|done]. intros w. by apply H. Qed.

Section Writing.
Context (oracle : Out → World → list ReOp) (Hframes : unmoved oracle).
Context (spin depth : nat) (router : Router nat nat) (limit : Z).
#[local] Set Default Proof Using "Hframes".
#[local] Abbreviation re := (env oracle spin depth).
#[local] Abbreviation runs := (run oracle depth spin router limit).

Lemma frame_quiet o sid : frame_sid o = Some sid → quiet re o.
Proof. intros Ho w. destruct depth; [done|]. simpl. by rewrite (Hframes o sid). Qed.

Lemma send_unmoved o sid w :
  frame_sid o = Some sid → destroyed w = false → send re o w = record_out o w.
Proof. intros Ho. by eapply send_quiet, frame_quiet. Qed.

Lemma call_out_calm cb w :
  calm oracle (Some cb) → call_out re (UserWrite cb Ok) w = record_out (UserWrite cb Ok) w.
Proof using Type. intros Hc. unfold call_out. destruct depth; [done|]. simpl. by rewrite Hc. Qed.

(** A stream whose last body is with the session and whose other messages
    wait, on a live connection with nothing else to do. *)
Record pumping (sid : Z) (cb : option closure) (q : list OutMsg) (w : World) : Prop := {
  pumping_call : ∃ c, calls w !! sid = Some c ∧ responded c = false ∧ write_closed c = false ∧
    has_finish_pending c = false ∧ out_queue c = q ∧ out_inflight c = true ∧
    response_headers_sent c = true;
  pumping_ctx : ∃ m, ctxs w !! sid = Some (StreamCtx m);
  pumping_body : bodies w = [(sid, cb)];
  pumping_open : sid ∈ h2_streams w;
  pumping_alive : alive w = true ∧ destroyed w = false;
  pumping_loop : running_ (loop w) = true ∧ pending_ (loop w) = []
}.

(** A stream that has nothing to send, on such a connection: [hs] says whether
    something was sent before. *)
Record writable (hs : bool) (sid : Z) (w : World) : Prop := {
  writable_call : ∃ c, calls w !! sid = Some c ∧ responded c = false ∧ write_closed c = false ∧
    has_finish_pending c = false ∧ out_queue c = [] ∧ out_inflight c = false ∧
    response_headers_sent c = hs;
  writable_ctx : ∃ m, ctxs w !! sid = Some (StreamCtx m);
  writable_bodies : bodies w = [];
  writable_open : sid ∈ h2_streams w;
  writable_alive : alive w = true ∧ destroyed w = false;
  writable_loop : running_ (loop w) = true ∧ pending_ (loop w) = []
}.

(** What writes do to a call, and not to its context. *)
Definition sends_only (sid : Z) (w w' : World) : Prop :=
  ctxs w' = ctxs w ∧ ∀ c, calls w !! sid = Some c → ∃ q i hs, calls w' !! sid =
    Some (c <| out_queue := q |> <| out_inflight := i |> <| response_headers_sent := hs |>).
#[export] Instance sends_only_preorder sid : PreOrder (sends_only sid).
Proof using Type.
  split.
  - intros w. split; [done|]. intros c Hc.
    exists (out_queue c), (out_inflight c), (response_headers_sent c).
    rewrite Hc. by destruct c.
  - intros w1 w2 w3 [Hx1 H1] [Hx2 H2]. split; [by rewrite Hx2|]. intros c Hc. destruct (H1 c Hc) as (q & i & hs & Hc2).
    destruct (H2 _ Hc2) as (q' & i' & hs' & Hc3). by exists q', i', hs'.
Qed.

(** Other changes of the call matter to neither. *)
Definition keeps_sending (f : Call → Call) : Prop := ∀ c,
  responded (f c) = responded c ∧ write_closed (f c) = write_closed c ∧
  has_finish_pending (f c) = has_finish_pending c ∧ out_queue (f c) = out_queue c ∧
  out_inflight (f c) = out_inflight c ∧ response_headers_sent (f c) = response_headers_sent c.

Lemma pumping_on_call sid cb q f w :
  keeps_sending f → pumping sid cb q w → pumping sid cb q (on_call sid f w).
Proof using Type.
  intros Hf [(c & Hc & Hs) Hx Hb Ho Ha Hl]. split; try done. exists (f c).
  rewrite (calls_on_call_eq _ _ _ _ Hc). destruct (Hf c) as (-> & -> & -> & -> & -> & ->). done.
Qed.

Lemma writable_on_call hs sid f w :
  keeps_sending f → writable hs sid w → writable hs sid (on_call sid f w).
Proof using Type.
  intros Hf [(c & Hc & Hs) Hx Hb Ho Ha Hl]. split; try done. exists (f c).
  rewrite (calls_on_call_eq _ _ _ _ Hc). destruct (Hf c) as (-> & -> & -> & -> & -> & ->). done.
Qed.

(** The record of a consumed body. *)
Definition ack (cb : option closure) : list Out :=
  match cb with Some cb => [UserWrite cb Ok] | None => [] end.

(** What a queue puts out: each message once the one before was consumed. *)
Fixpoint pump_trace (sid : Z) (cb : option closure) (q : list OutMsg) : list Out :=
  match q with
  | [] => []
  | out :: rest => ack cb ++ SendData sid (framed out) false :: pump_trace sid (out_cb out) rest
  end.

Lemma pump_msg_unmoved sid c out q w :
  destroyed w = false → response_headers_sent c = true →
  pump_msg re sid c out q w =
    record_out (SendData sid (framed out) false) (push_body sid (out_cb out)
      (on_call sid (λ c, c <| out_queue := q |> <| out_inflight := true |>) w)).
Proof.
  intros Hd Hhs. unfold pump_msg. rewrite Hhs. by eapply send_unmoved.
Qed.

(** One round of backpressure: the session reports the body consumed, and the
    loop delivers the wake-up. *)
Definition drain_round (sid : Z) : list Event := [EvOp (H2Consumed sid 0); EvWake].

Lemma drain_round_step sid cb out q w :
  calm oracle cb → pumping sid cb (out :: q) w →
  pumping sid (out_cb out) q (runs (drain_round sid) w) ∧
  trace (runs (drain_round sid) w) = trace w ++ ack cb ++ [SendData sid (framed out) false].
Proof.
  intros Hcalm [(c & Hc & Hr & Hwc & Hfp & Hq & Hif & Hhs) [m Hx] Hb Ho [Ha Hd] [Hrun Hpend]].
  unfold run, drain_round. simpl fold_left. unfold do_op. rewrite Hb. simpl take_body.
  rewrite decide_True by done. cbn match.
  unfold OnConsumed. set (g1 := λ c : Call, c <| out_inflight := false |>).
  set (w1 := match cb with Some cb => _ | None => _ end).
  assert (Hw1 : calls w1 = alter g1 sid (calls w) ∧ trace w1 = trace w ++ ack cb ∧ bodies w1 = [] ∧
    loop w1 = loop w ∧ h2_streams w1 = h2_streams w ∧ alive w1 = alive w ∧
    destroyed w1 = destroyed w ∧ ctxs w1 = ctxs w).
  { unfold w1. destruct cb; [by rewrite call_out_calm|]. simpl. by rewrite app_nil_r. }
  destruct Hw1 as (E1 & E2 & E3 & E4 & E5 & E6 & E7 & E8). clearbody w1.
  assert (Hc1 : calls w1 !! sid = Some (g1 c)) by (rewrite E1, lookup_alter_eq; by rewrite Hc).
  unfold MaybeSendDeferredFinish. simpl calls. rewrite Hc1. simpl has_finish_pending. rewrite Hfp.
  simpl negb. cbn match. unfold Post. simpl loop. rewrite E4. simpl running_. rewrite Hrun. cbn match.
  simpl woken. cbn match. unfold DrainPending. simpl. rewrite Hpend. simpl.
  rewrite E6, E7, Ha, Hd. simpl negb. cbn match.
  unfold PumpOut. simpl calls. rewrite Hc1. simpl out_queue. rewrite Hq. cbn match.
  simpl out_inflight. simpl responded. simpl write_closed. rewrite Hr, Hwc.
  simpl orb. cbn match. match goal with |- context [pump_msg _ _ _ _ _ ?x] => set (w2 := x) end.
  rewrite pump_msg_unmoved by done. rewrite push_body_in by (simpl; by rewrite E5). split.
  - split; simpl; try done.
    + rewrite lookup_alter_eq, Hc1. by eexists.
    + rewrite E8. eauto.
    + by rewrite E3.
    + by rewrite E5.
  - simpl. by rewrite E2, <-!(assoc_L (++)).
Qed.

Lemma runs_app e1 e2 w : runs (e1 ++ e2) w = runs e2 (runs e1 w).
Proof using Type. apply fold_left_app. Qed.

Lemma drain_rounds sid cb q w :
  Forall (calm oracle) (removelast (cb :: map out_cb q)) → pumping sid cb q w →
  let w' := runs (concat (replicate (length q) (drain_round sid))) w in
  trace w' = trace w ++ pump_trace sid cb q ∧
    pumping sid (List.last (map out_cb q) cb) [] w'.
Proof.
  revert cb w. induction q as [|out q IH]; intros cb w Hcalm Hp.
  { rewrite app_nil_r. done. }
  change (removelast (cb :: map out_cb (out :: q))) with (cb :: removelast (map out_cb (out :: q))) in Hcalm.
  apply Forall_cons in Hcalm as [Hcb Hcalm].
  destruct (drain_round_step sid cb out q w Hcb Hp) as [Hp' Ht].
  simpl length. simpl replicate. simpl concat.
  change (EvOp (H2Consumed sid 0) :: EvWake :: ?l) with (drain_round sid ++ l).
  rewrite runs_app. destruct (IH _ _ Hcalm Hp') as [Ht' Hp''].
  split; [rewrite Ht', Ht; simpl pump_trace; by rewrite <-!(assoc_L (++))|].
  by rewrite map_cons, last_from.
Qed.

(** The connection when the callback of a consumed body is called. *)
Definition consumed (sid : Z) (cb : option closure) (w : World) : World :=
  (on_call sid (λ c, c <| out_inflight := false |>) (w <| bodies := [] |>))
    <| trace ::= λ t, t ++ ack cb |>.

Lemma consumed_writable sid cb w : pumping sid cb [] w → writable true sid (consumed sid cb w).
Proof using Type.
  intros [(c & Hc & Hr & Hwc & Hfp & Hq & Hif & Hhs) Hx Hb Ho Ha Hl].
  split; try done. simpl. rewrite lookup_alter_eq, Hc. by eexists.
Qed.

Lemma consumed_sends sid cb w : sends_only sid w (consumed sid cb w).
Proof using Type.
  split; [done|]. intros c Hc. exists (out_queue c), false, (response_headers_sent c). simpl.
  rewrite lookup_alter_eq, Hc. by destruct c.
Qed.

(** Other tasks of the loop matter to neither. *)
Lemma pumping_loop_set sid cb q l w :
  running_ l = true → pending_ l = [] → pumping sid cb q w → pumping sid cb q (w <| loop := l |>).
Proof using Type. by intros ? ? []. Qed.
Lemma writable_loop_set hs sid l w :
  running_ l = true → pending_ l = [] → writable hs sid w → writable hs sid (w <| loop := l |>).
Proof using Type. by intros ? ? []. Qed.

(** The rest of a round that found nothing more to send. *)
Lemma idle_wake sid w :
  (∃ c, calls w !! sid = Some c ∧ out_queue c = [] ∧ has_finish_pending c = false) →
  running_ (loop w) = true → pending_ (loop w) = [] → alive w = true → destroyed w = false →
  ∃ l, runs [EvWake] (MaybeSendDeferredFinish re sid (w <| loop ::= Post (TPumpOut sid) |>)) =
    w <| loop := l |> ∧ running_ l = true ∧ pending_ l = [].
Proof using Type.
  destruct w as [cc de ca cx [r qr wo wc pe ti nt] nm al hs bo tr op u hu].
  intros (c & Hc & Hq & Hfp) Hrun Hpend Ha Hd. simpl in *. subst.
  unfold MaybeSendDeferredFinish. simpl calls. rewrite Hc, Hfp. cbn [negb].
  unfold run. cbn [fold_left]. unfold step, DrainPending. simpl.
  unfold PumpOut. simpl calls. rewrite Hc, Hq. by eexists (mkLoop _ _ _ _ _ _ _).
Qed.

Lemma round_idle sid cb w w1 :
  pumping sid cb [] w →
  match cb with Some cb => re (UserWrite cb Ok) (consumed sid (Some cb) w) | None => consumed sid None w end = w1 →
  (∃ c, calls w1 !! sid = Some c ∧ out_queue c = [] ∧ has_finish_pending c = false) →
  running_ (loop w1) = true → pending_ (loop w1) = [] → alive w1 = true → destroyed w1 = false →
  ∃ l, runs (drain_round sid) w = w1 <| loop := l |> ∧ running_ l = true ∧ pending_ l = [].
Proof using Type.
  intros [_ _ Hb _ _ _] E Hc Hrun Hpend Ha Hd.
  destruct (idle_wake sid w1 Hc Hrun Hpend Ha Hd) as (l & El & Hl). exists l. split; [|exact Hl].
  rewrite <-El. unfold run, drain_round. cbn [fold_left]. unfold step at 2. unfold do_op. rewrite Hb.
  cbn [take_body]. rewrite decide_True by done. unfold OnConsumed. subst w1.
  destruct cb as [cb|]; [done|]. f_equal. f_equal. unfold consumed, ack. simpl.
  by rewrite app_nil_r.
Qed.

(** A stream whose responses have all been consumed. *)
Definition drained (sid : Z) (w : World) : Prop :=
  destroyed w = false ∧ (∃ m, ctxs w !! sid = Some (StreamCtx m)) ∧
  ∃ c, calls w !! sid = Some c ∧ responded c = false ∧ out_queue c = [] ∧
    out_inflight c = false ∧ response_headers_sent c = true ∧ has_finish_pending c = false.

Lemma writable_drained sid w : writable true sid w → drained sid w.
Proof using Type.
  intros [(c & Hc & Hr & Hwc & Hfp & Hq & Hif & Hhs) Hx Hb Ho [Ha Hd] Hl].
  split_and!; try done. exists c. by split_and!.
Qed.

Lemma last_round sid cb w :
  calm oracle cb → pumping sid cb [] w →
  let w' := runs (drain_round sid) w in
  writable true sid w' ∧ trace w' = trace w ++ ack cb ∧ sends_only sid w w'.
Proof using Type.
  intros Hcalm Hp. pose proof (consumed_writable sid cb w Hp) as Hw.
  destruct Hw as [(c & Hc & _ & _ & Hfp & Hq & _) _ _ _ [Ha Hd] [Hrun Hpend]].
  destruct (round_idle sid cb w (consumed sid cb w) Hp) as (l & -> & Hr & Hpe); try done.
  - destruct cb as [cb|]; [|done]. destruct depth; [done|]. simpl. by rewrite Hcalm.
  - exists c. by split_and!.
  - split_and!; [by apply writable_loop_set, consumed_writable|done|apply consumed_sends].
Qed.

(** Writes while a body is in flight only queue. *)
Lemma write_queues sid cb q msg wcb w :
  pumping sid cb q w → (length q < 64)%nat →
  pumping sid cb (q ++ [mkOutMsg (EncodeFrame msg []) wcb]) (runs [EvOp (ApiWrite sid msg wcb)] w) ∧
  trace (runs [EvOp (ApiWrite sid msg wcb)] w) = trace w ∧
  sends_only sid w (runs [EvOp (ApiWrite sid msg wcb)] w).
Proof.
  intros [(c & Hc & Hr & Hwc & Hfp & Hq & Hif & Hhs) [m Hx] Hb Ho Hal Hlo] Hlen.
  unfold run. simpl fold_left. unfold do_op, with_stream_ctx, with_ctx. rewrite Hx. cbn match.
  unfold ctx_WriteMessage. rewrite Hc, Hr, Hwc, Hq. simpl orb. cbn match.
  destruct (Nat.leb_spec kQueueBound (length q)); [unfold kQueueBound in *; lia|].
  set (g := λ c0 : Call, c0 <| out_queue ::= _ |>).
  assert (PumpOut re sid (on_call sid g w) = on_call sid g w) as ->.
  { unfold PumpOut. rewrite (calls_on_call_eq _ _ _ _ Hc). simpl out_inflight. rewrite Hif.
    by destruct (out_queue (g c)). }
  split_and!; [|done|].
  - split; simpl; try done; [|by eauto].
    rewrite lookup_alter_eq, Hc. eexists. split_and!; try done. simpl. by rewrite Hq.
  - split; [done|]. intros c0 Hc0. simplify_eq. simpl. rewrite lookup_alter_eq, Hc. simpl. by do 3 eexists.
Qed.

Lemma writes_queue sid cb q msgs w :
  pumping sid cb q w → (length q + length msgs ≤ 64)%nat →
  let ws := runs (map (λ mc : bytes * option closure, EvOp (ApiWrite sid mc.1 mc.2)) msgs) w in
  pumping sid cb (q ++ map (λ mc, mkOutMsg (EncodeFrame mc.1 []) mc.2) msgs) ws ∧
  trace ws = trace w ∧ sends_only sid w ws.
Proof.
  revert q w. induction msgs as [|[m wcb] msgs IH]; intros q w Hp Hlen; simpl in *.
  { by rewrite app_nil_r. }
  destruct (write_queues sid cb q m wcb w Hp) as (Hp' & Ht & Hs); [lia|].
  destruct (IH _ _ Hp') as (Hp'' & Ht' & Hs'); [rewrite length_app; simpl; lia|].
  rewrite <-(assoc_L (++)) in Hp''. split_and!; [exact Hp''|etrans; [exact Ht'|exact Ht]|].
  etrans; [exact Hs|exact Hs'].
Qed.

Lemma plain_writes_queue sid msgs w :
  pumping sid None [] w → (length msgs ≤ 64)%nat →
  let ws := runs (map (λ msg, EvOp (ApiWrite sid msg None)) msgs) w in
  pumping sid None (map (λ m, mkOutMsg (EncodeFrame m []) None) msgs) ws ∧ trace ws = trace w.
Proof.
  intros Hp Hlen.
  destruct (writes_queue sid None [] (map (λ m, (m, None)) msgs) w Hp) as (H1 & H2 & _);
    rewrite ?length_map, ?map_map in *; done.
Qed.

(** A write that finds nothing in flight is sent at once; the first one opens
    the response. *)
Definition opening (hs : bool) (sid : Z) : list Out :=
  if hs then [] else [SendHeaders sid response_headers false].

Lemma first_write hs sid msg wcb w :
  writable hs sid w →
  let w' := runs [EvOp (ApiWrite sid msg wcb)] w in
  pumping sid wcb [] w' ∧
  trace w' = trace w ++ opening hs sid ++ [SendData sid (EncodeFrame msg []) false] ∧
  sends_only sid w w'.
Proof.
  intros [(c & Hc & Hr & Hwc & Hfp & Hq & Hif & Hhs) [m Hx] Hb Ho [Ha Hd] [Hrun Hpend]].
  unfold run. simpl fold_left. unfold do_op, with_stream_ctx, with_ctx. rewrite Hx. cbn match.
  unfold ctx_WriteMessage. rewrite Hc, Hr, Hwc, Hq. simpl orb. cbn match.
  change (kQueueBound <=? length (@nil OutMsg))%nat with false. cbn match.
  set (g := λ c : Call, c <| out_queue ::= _ |>).
  unfold PumpOut. rewrite (calls_on_call_eq _ _ _ _ Hc).
  assert (out_queue (g c) = [mkOutMsg (EncodeFrame msg []) wcb]) as -> by (simpl; by rewrite Hq).
  simpl out_inflight. simpl responded. simpl write_closed. rewrite Hif, Hr, Hwc. simpl orb. cbn match.
  unfold pump_msg. simpl response_headers_sent. rewrite Hhs. cbn match.
  destruct hs.
  - rewrite push_body_in by done. rewrite (send_unmoved _ sid) by done. split_and!.
    + split; simpl; try done; [|by eauto|by rewrite Hb].
      rewrite !lookup_alter_eq, Hc. simpl. eexists. by split_and!.
    + done.
    + split; [done|]. intros c0 Hc0. simplify_eq. simpl. rewrite !lookup_alter_eq, Hc. simpl.
      do 2 eexists. exists (response_headers_sent c). by destruct c.
  - rewrite (send_unmoved (SendHeaders _ _ _) sid) by done. rewrite push_body_in by done.
    rewrite (send_unmoved _ sid) by done. split_and!.
    + split; simpl; try done; [|by eauto|by rewrite Hb].
      rewrite !lookup_alter_eq, Hc. simpl. by eexists.
    + simpl. by rewrite <-(assoc_L (++)).
    + split; [done|]. intros c0 Hc0. simplify_eq. simpl. rewrite !lookup_alter_eq, Hc. simpl. by do 3 eexists.
Qed.

(** The end of a stream that has nothing to send any more. *)
Lemma finish_effect sid st w :
  drained sid w →
  let w' := do_op re spin (ApiFinish sid st) w in
  (∃ s, trace w' = trace w ++ [SendTrailers sid (status_trailers st); LogCall "call_end" s]) ∧
  (∃ c, calls w' !! sid = Some c ∧ out_queue c = [] ∧ has_finish_pending c = false) ∧
  running_ (loop w') = running_ (loop w) ∧ pending_ (loop w') = pending_ (loop w) ∧
  alive w' = alive w ∧ destroyed w' = false.
Proof.
  intros (Hd & [m Hx] & c & Hc & Hr & Hq & Hif & Hhs & Hfp). cbv zeta.
  unfold do_op, with_stream_ctx, with_ctx. rewrite Hx. cbn match.
  unfold ctx_Finish, FinishStream. rewrite Hc, Hr, Hq, Hif, Hhs. simpl orb. cbn match. simpl negb.
  cbn match. rewrite (send_unmoved _ sid) by (done || by rewrite destroyed_StopDeadline).
  set (f := λ c0 : Call, c0 <| responded := true |> <| write_closed := true |> <| read_finished := true |>).
  assert (Hc1 : calls (on_call sid f w) !! sid = Some (f c)) by by apply calls_on_call_eq.
  assert (HS : let w2 := StopDeadline sid (on_call sid f w) in
    trace w2 = trace w ∧ (∃ t, calls w2 !! sid = Some (f c <| deadline_timer := t |>)) ∧
    running_ (loop w2) = running_ (loop w) ∧ pending_ (loop w2) = pending_ (loop w) ∧
    alive w2 = alive w ∧ destroyed w2 = false).
  { cbv zeta. unfold StopDeadline. rewrite Hc1. destruct (_ =? 0).
    - split_and!; try done. exists (deadline_timer (f c)). rewrite Hc1. by destruct c.
    - unfold CancelTimer. simpl loop. destruct (timers_ (loop w) !! _); split_and!; try done;
        (exists 0; simpl; rewrite !lookup_alter_eq, Hc; done). }
  cbv zeta in HS. revert HS. generalize (StopDeadline sid (on_call sid f w)).
  intros w2 (E1 & [t Hc2] & E3 & E4 & E5 & E6).
  unfold log_call_end, deref. simpl calls. rewrite Hc2. simpl. split_and!; try done.
  - eexists. by rewrite E1, <-(assoc_L (++)).
  - eexists. rewrite Hc2. by split_and!.
Qed.

Lemma finish_drained sid st w :
  drained sid w →
  ∃ s, trace (runs [EvOp (ApiFinish sid st)] w) = trace w ++
    [SendTrailers sid (status_trailers st); LogCall "call_end" s].
Proof. intros H. by destruct (finish_effect sid st w H) as [Hs _]. Qed.

Lemma pump_trace_map sid msgs :
  pump_trace sid None (map (λ m, mkOutMsg (EncodeFrame m []) None) msgs) =
  map (λ m, SendData sid (EncodeFrame m []) false) msgs.
Proof. induction msgs as [|m msgs IH]; simpl; [done|]. by rewrite IH. Qed.

(** Operations done inside a call out. *)
Lemma fold_ops ops w : fold_left (λ w op, do_op re spin op w) ops w = runs (map EvOp ops) w.
Proof using Type. revert w. induction ops as [|op ops IH]; intros w; [done|]. apply IH. Qed.

Lemma env_ops o ops w :
  oracle o w = ops → env oracle spin (S depth) o w = runs (map EvOp ops) w.
Proof using Type. intros E. cbn [env]. rewrite E. apply fold_ops. Qed.

Lemma no_calls_calm cbs :
  Forall (λ cb, cb = None) cbs → Forall (calm oracle) (removelast (None :: cbs)).
Proof using Type.
  intros H. assert (Forall (λ cb, cb = None) (None :: cbs)) as Hn by by constructor. clear H.
  induction Hn as [|cb l -> _ IH]; [constructor|]. destruct l; constructor; done.
Qed.

Lemma last_none {A} (l : list A) : List.last (map (λ _, None) l) None = (None : option closure).
Proof using Type. induction l as [|x l IH]; [done|]. simpl map. by rewrite last_from. Qed.

(** The writes, the rounds and the end of a stream of responses. *)
Lemma serve_responses sid msg msgs st w :
  writable false sid w → (length msgs ≤ 64)%nat →
  ∃ s, trace (runs (map (λ msg, EvOp (ApiWrite sid msg None)) (msg :: msgs) ++
      concat (replicate (S (length msgs)) (drain_round sid)) ++ [EvOp (ApiFinish sid st)]) w) =
    trace w ++ SendHeaders sid response_headers false ::
      map (λ msg, SendData sid (EncodeFrame msg []) false) (msg :: msgs) ++
      [SendTrailers sid (status_trailers st); LogCall "call_end" s].
Proof.
  intros Hw Hlen. destruct (first_write false sid msg None w Hw) as (Hp1 & Ht1 & _).
  revert Hp1 Ht1. set (w1 := runs [EvOp (ApiWrite sid msg None)] w). intros Hp1 Ht1.
  assert (runs (map (λ msg, EvOp (ApiWrite sid msg None)) (msg :: msgs) ++
      concat (replicate (S (length msgs)) (drain_round sid)) ++ [EvOp (ApiFinish sid st)]) w =
    runs [EvOp (ApiFinish sid st)] (runs (drain_round sid)
      (runs (concat (replicate (length msgs) (drain_round sid)))
        (runs (map (λ msg, EvOp (ApiWrite sid msg None)) msgs) w1)))) as ->.
  { rewrite !runs_app, replicate_S_end, concat_app, runs_app. done. }
  clearbody w1. destruct (plain_writes_queue sid msgs w1 Hp1 Hlen) as [Hp2 Ht2].
  revert Hp2 Ht2. generalize (runs (map (λ msg, EvOp (ApiWrite sid msg None)) msgs) w1).
  intros w2 Hp2 Ht2. destruct (drain_rounds sid None (map (λ m, mkOutMsg (EncodeFrame m []) None) msgs) w2)
    as [Ht3 Hp3]; [|exact Hp2|].
  { rewrite map_map. apply (no_calls_calm (map (λ _, None) msgs)). by apply Forall_map, Forall_true. }
  rewrite length_map in Ht3, Hp3. rewrite map_map in Hp3. simpl out_cb in Hp3. rewrite last_none in Hp3.
  destruct (last_round _ None _ I Hp3) as (Hdr & Ht4 & _).
  destruct (finish_drained sid st _ (writable_drained _ _ Hdr)) as [s Hs]. exists s.
  rewrite Hs, Ht4, Ht3, Ht2, Ht1, pump_trace_map. simpl.
  rewrite app_nil_r, <-!(assoc_L (++)). done.
Qed.

End Writing.

(** ** Rounds in which the callback acts *)
Section Rounds.
Context (oracle : Out → World → list ReOp) (Hframes : unmoved oracle).
Context (spin depth : nat) (router : Router nat nat) (limit : Z).
#[local] Set Default Proof Using "Hframes".
#[local] Abbreviation inner := (run oracle depth spin router limit).
#[local] Abbreviation runs := (run oracle (S depth) spin router limit).

(** The consumption of the last body, when its callback finishes the stream. *)
Lemma finishing_round sid cb st w :
  pumping sid (Some cb) [] w → (∀ w, oracle (UserWrite cb Ok) w = [ApiFinish sid st]) →
  ∃ s, trace (runs (drain_round sid) w) =
    trace w ++ [UserWrite cb Ok; SendTrailers sid (status_trailers st); LogCall "call_end" s].
Proof.
  intros Hp Hor. pose proof (consumed_writable sid (Some cb) w Hp) as Hw.
  destruct (finish_effect oracle Hframes spin depth sid st _ (writable_drained _ _ Hw)) as ([s Es] & Hc & E3 & E4 & E5 & E6).
  pose proof Hp as [_ _ _ _ [Ha _] [Hrun Hpend]].
  destruct (round_idle oracle spin (S depth) router limit sid (Some cb) w
    (do_op (env oracle spin depth) spin (ApiFinish sid st) (consumed sid (Some cb) w))) as (l & -> & _).
  - done.
  - by rewrite (env_ops oracle spin depth router limit _ [ApiFinish sid st]).
  - done.
  - by rewrite E3.
  - by rewrite E4.
  - by rewrite E5.
  - done.
  - exists s. etrans; [exact Es|]. simpl. by rewrite <-(assoc_L (++)).
Qed.

(** The consumption of the last body, when its callback writes the next. *)
Lemma chained_round sid cb msg cb' w :
  pumping sid (Some cb) [] w →
  (∀ w, oracle (UserWrite cb Ok) w = [ApiWrite sid msg (Some cb')]) →
  let w' := runs (drain_round sid) w in
  pumping sid (Some cb') [] w' ∧
  trace w' = trace w ++ [UserWrite cb Ok; SendData sid (EncodeFrame msg []) false].
Proof.
  intros Hp Hor. pose proof (consumed_writable sid (Some cb) w Hp) as Hw.
  destruct (first_write oracle Hframes spin depth router limit true sid msg (Some cb') _ Hw) as (Hp2 & Et & _).
  pose proof Hp2 as [(c & Hc & _ & _ & Hfp & Hq & _) _ _ _ [Ha Hd] [Hrun Hpend]].
  destruct (round_idle oracle spin (S depth) router limit sid (Some cb) w
    (inner [EvOp (ApiWrite sid msg (Some cb'))] (consumed sid (Some cb) w)))
    as (l & -> & Hr & Hpe); try done.
  - by rewrite (env_ops oracle spin depth router limit _ [ApiWrite sid msg (Some cb')]).
  - exists c. by split_and!.
  - split; [by apply pumping_loop_set|]. etrans; [exact Et|]. simpl.
    by rewrite <-(assoc_L (++)).
Qed.

(** A stream whose writes are chained on their callbacks: [cb] was given to the
    last write, [l] are the writes that follow, and the last one's callback
    finishes the stream. *)
Fixpoint chained (sid : Z) (cb : closure) (l : list (bytes * closure)) (st : Status) : Prop :=
  match l with
  | [] => ∀ w, oracle (UserWrite cb Ok) w = [ApiFinish sid st]
  | (msg, cb') :: l =>
      (∀ w, oracle (UserWrite cb Ok) w = [ApiWrite sid msg (Some cb')]) ∧ chained sid cb' l st
  end.

Fixpoint chain_trace (sid : Z) (cb : closure) (l : list (bytes * closure)) (st : Status) : list Out :=
  UserWrite cb Ok ::
  match l with
  | [] => [SendTrailers sid (status_trailers st)]
  | (msg, cb') :: l => SendData sid (EncodeFrame msg []) false :: chain_trace sid cb' l st
  end.

(** A chain of any length is sent, one message in each round. *)
Lemma chain_served sid cb l st w :
  pumping sid (Some cb) [] w → chained sid cb l st →
  ∃ s, trace (runs (concat (replicate (S (length l)) (drain_round sid))) w) =
    trace w ++ chain_trace sid cb l st ++ [LogCall "call_end" s].
Proof.
  revert cb w. induction l as [|[msg cb'] l IH]; intros cb w Hp.
  - intros Hor. cbn [length replicate concat]. rewrite app_nil_r. by apply finishing_round.
  - intros [Hor Hch]. destruct (chained_round sid cb msg cb' w Hp Hor) as [Hp' Ht].
    destruct (IH cb' _ Hp' Hch) as [s Es]. exists s. cbn [length].
    change (concat (replicate (S (S ?k)) ?d)) with (d ++ concat (replicate (S k) d)).
    rewrite (runs_app oracle spin (S depth) router limit), Es, Ht, <-!(assoc_L (++)). done.
Qed.
End Rounds.

(** ** Responses in an environment that only starts streams *)
Section Passive.
Context (oracle : Out → World → list ReOp) (Hpassive : passive oracle).
Context (spin depth : nat) (router : Router nat nat) (limit : Z).
#[local] Set Default Proof Using "Hpassive".
#[local] Abbreviation runs := (run oracle depth spin router limit).

Lemma all_calm cbs : Forall (calm oracle) cbs.
Proof. apply Forall_true. intros cb. by apply passive_calm. Qed.

(** Response messages leave in order, one body at a time, and each write is
    acknowledged.  Up to 64 writes on a stream with a body in flight, followed
    by as many rounds in which the session consumes the body it holds and the
    loop runs, put each message on the wire as one frame, in the order of the
    writes, every frame only after the callback of the one before was called
    with OK; a write by itself sends nothing. *)
Theorem writes_leave_in_order sid cb msgs w :
  pumping sid cb [] w → (length msgs ≤ 64)%nat →
  trace (runs (map (λ mc : bytes * option closure, EvOp (ApiWrite sid mc.1 mc.2)) msgs ++
    concat (replicate (length msgs) (drain_round sid))) w) =
  trace w ++ pump_trace sid cb (map (λ mc, mkOutMsg (EncodeFrame mc.1 []) mc.2) msgs).
Proof.
  intros Hp Hlen. unfold run. rewrite fold_left_app.
  pose proof (passive_unmoved oracle Hpassive) as Hframes.
  destruct (writes_queue oracle Hframes spin depth router limit sid cb [] msgs w Hp) as (Hp' & Ht & _); [done|]. simpl app in Hp'.
  destruct (drain_rounds oracle Hframes spin depth router limit _ _ _ _ (all_calm _) Hp') as [Hd _]. rewrite length_map in Hd.
  unfold run in *. by rewrite Hd, Ht.
Qed.

(** C12: a stream of responses, from the first write to the trailers.  A stream
    handler that writes 1 to 65 messages and finishes once they have all been
    consumed produces headers, every message as one frame in order, and
    trailers with its status: nothing is lost and the stream ends.  The stream is
    fresh, the loop runs and nothing is posted to it, and the environment does
    nothing of its own inside a call.  The status's message goes out as its
    bytes: the contract of the wire protocol says that grpc-message is
    percent-encoded, which the code does not do.  A 66th message that is written
    before one was consumed would be refused and dropped. *)
Theorem stream_responses_served sid c msg msgs st m w :
  calls w !! sid = Some c → responded c = false → write_closed c = false →
  has_finish_pending c = false → out_queue c = [] → out_inflight c = false →
  response_headers_sent c = false → ctxs w !! sid = Some (StreamCtx m) → bodies w = [] →
  sid ∈ h2_streams w → alive w = true → destroyed w = false →
  running_ (loop w) = true → pending_ (loop w) = [] → (length msgs ≤ 64)%nat →
  ∃ s, trace (runs (map (λ msg, EvOp (ApiWrite sid msg None)) (msg :: msgs) ++
      concat (replicate (S (length msgs)) (drain_round sid)) ++ [EvOp (ApiFinish sid st)]) w) =
    trace w ++ SendHeaders sid response_headers false ::
      map (λ msg, SendData sid (EncodeFrame msg []) false) (msg :: msgs) ++
      [SendTrailers sid (status_trailers st); LogCall "call_end" s].
Proof.
  intros. apply serve_responses; [by apply passive_unmoved| |done].
  split; try done; [by exists c|by exists m].
Qed.
End Passive.

(** The silent environment. *)
Lemma silent_quiet spin depth o : quiet (env silent spin depth) o.
Proof. intros w. by destruct depth. Qed.
Lemma call_out_silent spin depth o w : call_out (env silent spin depth) o w = record_out o w.
Proof. unfold call_out. by rewrite silent_quiet. Qed.
Lemma send_silent spin depth o w :
  destroyed w = false → send (env silent spin depth) o w = record_out o w.
Proof. apply send_quiet, silent_quiet. Qed.

(** ** Concrete streams *)

(** A stream that is open for reads. *)
Definition demo_stream : Call :=
  default_call <| call_form := kBidi |> <| has_handler := true |> <| dispatched := true |>
    <| decoder := newFrameDecoder 1024 |>.
Definition demo_streams (c : Call) : World :=
  new_world <| calls := {[ 1 := c ]} |> <| ctxs := {[ 1 := StreamCtx None ]} |>
    <| opened := {[ 1 ]} |> <| h2_streams := {[ 1 ]} |>.

(** A stream with a body in flight and a queue. *)
Definition demo_pump (q : list OutMsg) : World :=
  (demo_streams (demo_stream <| out_inflight := true |> <| response_headers_sent := true |>
                   <| out_queue := q |>)) <| bodies := [(1, Some 5%nat)] |>.

Lemma demo_pumping q : pumping 1 (Some 5%nat) q (demo_pump q).
Proof. split; [|by exists None|done|set_solver|done|done]. by eexists. Qed.

(** A read before the messages, and two reads between their pieces. *)
Definition demo_reads : list ReadEvent :=
  let b := frames [[chr 1; chr 2]; []; [chr 3]] in
  [RRead 9; RChunk (take 3 b); RChunk (take 9 (drop 3 b)); RRead 8; RChunk (drop 12 b)].

Lemma stream_reads_in_order_witness :
  let w := run silent 1 0 (newRouter (UH := nat) (SH := nat)) 1024
    (map (read_event 1) demo_reads) (demo_streams demo_stream) in
  trace w = [UserRead 9 Ok false [chr 1; chr 2]; UserRead 8 Ok false []] ∧
  ∃ c', calls w !! 1 = Some c' ∧ pending_msgs c' = [[chr 3]].
Proof.
  apply (stream_reads_in_order silent 0 1 _ 1024 1 demo_stream 1024 [[chr 1; chr 2]; []; [chr 3]]
    demo_reads (demo_streams demo_stream)); try reflexivity; try done.
  - split_and!; [by right|reflexivity|reflexivity].
  - repeat constructor; simpl; lia.
Defined.

Lemma half_close_loses_unread_witness :
  let re := λ (_ : Out) (w : World), w in
  let c := demo_stream <| pending_msgs := [[chr 1]] |> in
  ∃ w' c', FinishRequest re 1 (demo_streams c) = w' ∧ trace w' = [] ∧
    calls w' !! 1 = Some c' ∧ pending_msgs c' = [[chr 1]] ∧
    ctx_ReadMessage re 1 9 w' = call_out re (UserRead 9 stream_closed true []) w'.
Proof.
  intros re c. apply (half_close_loses_unread re 1 c 9 (demo_streams c) [chr 1] []); try reflexivity.
  split_and!; [by right|reflexivity|reflexivity].
Defined.

Lemma writes_leave_in_order_witness :
  let r := newRouter (UH := nat) (SH := nat) in
  let msgs := [([chr 1], Some 6%nat); ([], None)] in
  trace (run silent 1 0 r 1024 (map (λ mc : bytes * option closure, EvOp (ApiWrite 1 mc.1 mc.2))
      msgs ++ concat (replicate (length msgs) (drain_round 1))) (demo_pump [])) =
  trace (demo_pump []) ++
    pump_trace 1 (Some 5%nat) (map (λ mc, mkOutMsg (EncodeFrame mc.1 []) mc.2) msgs).
Proof.
  intros r msgs. apply (writes_leave_in_order silent silent_passive 0 1 r 1024 1 (Some 5%nat) msgs (demo_pump [])).
  - apply demo_pumping.
  - simpl. lia.
Defined.

Lemma stream_responses_served_witness :
  let r := newRouter (UH := nat) (SH := nat) in
  let w := demo_streams demo_stream in
  let msg := [chr 1] in
  let msgs := [[chr 2]] in
  ∃ s, trace (run silent 1 0 r 1024 (map (λ msg, EvOp (ApiWrite 1 msg None)) (msg :: msgs) ++
      concat (replicate (S (length msgs)) (drain_round 1)) ++ [EvOp (ApiFinish 1 Ok)]) w) =
    trace w ++ SendHeaders 1 response_headers false ::
      map (λ msg, SendData 1 (EncodeFrame msg []) false) (msg :: msgs) ++
      [SendTrailers 1 (status_trailers Ok); LogCall "call_end" s].
Proof.
  intros r w msg msgs.
  apply (stream_responses_served silent silent_passive 0 1 r 1024 1 demo_stream msg msgs Ok None w); try reflexivity.
  simpl. lia.
Defined.
