(* ===== verification/ServerEnds.v ===== *)
(** * How a server call ends

    Deferred terminals, deadlines, the cancellation of a stream's reads and
    writes, and the loss of the connection. *)
From S2P Require Import Prelude Status CxxString Wire Codec Router Loop SessionSpec ServerConn ServerInv ServerRun ServerCalls ServerStreams.

Section Ends.
Context (spin depth : nat) (router : Router nat nat) (limit : Z).
#[local] Abbreviation re := (env silent spin depth).
#[local] Abbreviation runs := (run silent depth spin router limit).

(** ** Terminals that wait for the queue *)

(** A stream that is finished while a body is in flight and [q] waits. *)
Record finishing (sid : Z) (st : Status) (cb : option closure) (q : list OutMsg) (w : World) : Prop := {
  finishing_call : ∃ c, calls w !! sid = Some c ∧ responded c = true ∧
    has_finish_pending c = true ∧ finish_pending c = st ∧ out_queue c = q ∧ out_inflight c = true;
  finishing_body : bodies w = [(sid, cb)];
  finishing_alive : alive w = true ∧ destroyed w = false;
  finishing_loop : running_ (loop w) = true ∧ pending_ (loop w) = []
}.

Lemma StopDeadline_frame sid w :
  bodies (StopDeadline sid w) = bodies w ∧ alive (StopDeadline sid w) = alive w ∧
  running_ (loop (StopDeadline sid w)) = running_ (loop w) ∧
  pending_ (loop (StopDeadline sid w)) = pending_ (loop w).
Proof.
  unfold StopDeadline. destruct (calls w !! sid) as [c|]; [|done]. destruct (_ =? _); [done|].
  simpl. unfold CancelTimer. by destruct (timers_ _ !! _).
Qed.

Lemma finish_while_pumping sid st cb q w :
  pumping sid cb q w →
  finishing sid st cb q (runs [EvOp (ApiFinish sid st)] w) ∧
  trace (runs [EvOp (ApiFinish sid st)] w) = trace w.
Proof.
  intros [(c & Hc & Hr & Hwc & Hfp & Hq & Hif & Hhs) [m Hx] Hb Ho [Ha Hd] [Hrun Hpend]].
  unfold run. simpl fold_left. unfold do_op, with_stream_ctx, with_ctx. rewrite Hx. cbn match.
  unfold ctx_Finish, FinishStream. rewrite Hc, Hr, Hif. simpl orb. cbn match.
  match goal with |- context [StopDeadline sid ?x] => set (w1 := x) end.
  destruct (StopDeadline_frame sid w1) as (E1 & E2 & E3 & E4).
  split; [|change (trace (on_call sid _ ?x)) with (trace x); by rewrite trace_StopDeadline].
  split.
  - erewrite calls_on_call_eq; [|rewrite calls_StopDeadline; unfold w1;
      by rewrite (calls_on_call_eq _ _ _ _ Hc)]. by eexists.
  - etrans; [exact E1|exact Hb].
  - split; [etrans; [exact E2|exact Ha]|].
    etrans; [exact (destroyed_StopDeadline sid w1)|exact Hd].
  - split; [etrans; [exact E3|exact Hrun]|etrans; [exact E4|exact Hpend]].
Qed.

(** The call of a finishing stream when its body is consumed. *)
Lemma finishing_consumed sid st cb q w :
  finishing sid st cb q w →
  ∃ w1, let w2 := MaybeSendDeferredFinish re sid w1 in
  runs [EvOp (H2Consumed sid 0)] w = w2 ∧ bodies w1 = [] ∧ alive w1 = true ∧ destroyed w1 = false ∧
  woken (loop w1) = true ∧ pending_ (loop w1) = [Posted (TPumpOut sid)] ∧
  trace w1 = trace w ++ ack cb ∧
  ∃ c, calls w1 !! sid = Some c ∧ responded c = true ∧ has_finish_pending c = true ∧
    finish_pending c = st ∧ out_queue c = q ∧ out_inflight c = false.
Proof.
  intros [(c & Hc & Hr & Hfp & Hst & Hq & Hif) Hb [Ha Hd] [Hrun Hpend]].
  unfold run. simpl fold_left. unfold do_op. rewrite Hb. simpl take_body.
  rewrite decide_True by done. cbn match. unfold OnConsumed.
  match goal with |- context [MaybeSendDeferredFinish _ sid ?x] => exists x end.
  split; [done|]. unfold Post. destruct cb as [cb|]; [rewrite call_out_silent|];
    simpl; rewrite Hrun, Hpend, lookup_alter_eq, Hc; simpl; rewrite ?app_nil_r;
    split_and!; try done; by eexists.
Qed.

(** A terminal waits for the body in flight.  A stream that is finished while
    its last message is with the session sends nothing then, and its trailers,
    with the status it was finished with, as soon as the body is consumed. *)
Theorem finish_after_last_body sid st cb w :
  pumping sid cb [] w →
  ∃ s, trace (runs [EvOp (ApiFinish sid st); EvOp (H2Consumed sid 0)] w) =
    trace w ++ ack cb ++ [SendTrailers sid (status_trailers st); LogCall "call_end" s].
Proof.
  intros Hp. destruct (finish_while_pumping sid st cb [] w Hp) as [Hf Ht].
  change (runs [EvOp (ApiFinish sid st); EvOp (H2Consumed sid 0)] w) with
    (runs [EvOp (H2Consumed sid 0)] (runs [EvOp (ApiFinish sid st)] w)).
  destruct (finishing_consumed _ _ _ _ _ Hf)
    as (w1 & -> & _ & _ & Hd & _ & _ & Ht1 & c & Hc & Hr & Hfp & Hst & Hq & Hif).
  unfold MaybeSendDeferredFinish. rewrite Hc, Hfp, Hq, Hif. simpl negb. simpl orb. cbn match.
  rewrite send_silent by done. eexists. unfold log_call_end, log_call. simpl.
  rewrite trace_deref. simpl. by rewrite Ht1, Ht, Hst, <-!(assoc_L (++)).
Qed.

(** A stream finished with messages still queued never ends.  When a write
    waits behind the body in flight, finishing the stream stops the pump: in
    any number of later rounds the queued messages are not sent and neither are
    the trailers that wait for them. *)
Theorem finish_strands_queue sid st cb out q n w :
  pumping sid cb (out :: q) w →
  trace (runs (EvOp (ApiFinish sid st) :: concat (replicate (S n) (drain_round sid))) w) =
    trace w ++ ack cb.
Proof.
  intros Hp. destruct (finish_while_pumping sid st cb _ w Hp) as [Hf Ht].
  change (EvOp (ApiFinish sid st) :: ?l) with ([EvOp (ApiFinish sid st)] ++ l).
  rewrite runs_app. revert Hf Ht. generalize (runs [EvOp (ApiFinish sid st)] w). intros w0 Hf <-.
  simpl replicate. simpl concat.
  change (EvOp (H2Consumed sid 0) :: EvWake :: ?l) with
    ([EvOp (H2Consumed sid 0)] ++ [EvWake] ++ l). rewrite !runs_app.
  destruct (finishing_consumed _ _ _ _ _ Hf)
    as (w1 & -> & Hb & Ha & Hd & Hwk & Hpend & Ht1 & c & Hc & Hr & Hfp & Hst & Hq & Hif).
  assert (MaybeSendDeferredFinish re sid w1 = w1) as ->.
  { unfold MaybeSendDeferredFinish. by rewrite Hc, Hfp, Hq, Hif. }
  assert (HP : ∀ w', calls w' = calls w1 → PumpOut re sid w' = w').
  { intros w' E. unfold PumpOut. rewrite E, Hc, Hq, Hif, Hr. done. }
  unfold run at 2. simpl fold_left. rewrite Hwk. cbn match. unfold DrainPending. simpl.
  rewrite Hpend. simpl. rewrite Ha, Hd. simpl negb. cbn match. rewrite HP by done.
  match goal with |- context [runs _ ?x] => set (w3 := x) end.
  rewrite <-Ht1. assert (Hidle : ∀ w, bodies w = [] → woken (loop w) = false →
    runs (concat (replicate n (drain_round sid))) w = w).
  { clear. intros w Hb Hwk. induction n as [|n IH]; [done|]. simpl replicate. simpl concat.
    change (EvOp (H2Consumed sid 0) :: EvWake :: ?l) with ([EvOp (H2Consumed sid 0)] ++ [EvWake] ++ l).
    rewrite !runs_app. unfold run at 3. simpl fold_left. rewrite Hb. simpl take_body. cbn match.
    unfold run at 2. simpl fold_left. rewrite Hwk. exact IH. }
  rewrite Hidle by done. done.
Qed.

(** ** Cancellation *)

(** The records of writes that are answered without being sent. *)
Definition refused (st : Status) (q : list OutMsg) : list Out :=
  concat (map (λ out, match out_cb out with Some cb => [UserWrite cb st] | None => [] end) q).

Lemma drain_out_queue_silent fuel sid q w c :
  calls w !! sid = Some c → out_queue c = q → (length q ≤ fuel)%nat →
  drain_out_queue re fuel sid w =
    on_call sid (λ c, c <| out_queue := [] |>)
      (w <| trace ::= λ t, t ++ refused stream_cancelled q |>).
Proof.
  revert q w c. induction fuel as [|fuel IH]; intros q w c Hc Hq Hlen; simpl; rewrite Hc, Hq.
  all: destruct q as [|out q]; simpl in Hlen; try lia.
  1,2: unfold refused; simpl; rewrite on_call_id;
    [destruct w; simpl; by rewrite app_nil_r|intros c' Hc'; simpl in Hc'; simplify_eq;
     destruct c; simpl in Hq; by subst].
  set (g := λ c : Call, c <| out_queue := q |>).
  set (w1 := match out_cb out with Some cb => _ | None => _ end).
  assert (w1 = on_call sid g (w <| trace ::= λ t, t ++ refused stream_cancelled [out] |>)) as ->.
  { unfold w1, refused. simpl. destruct (out_cb out); [by rewrite call_out_silent|].
    simpl. destruct w; simpl. by rewrite app_nil_r. }
  rewrite (IH q _ (g c)); [|by apply (calls_on_call_eq sid g)|done|lia].
  match goal with |- on_call _ ?f ((on_call _ _ ?x) <| trace ::= ?h |>) = _ =>
    change ((on_call sid g x) <| trace ::= h |>) with (on_call sid g (x <| trace ::= h |>)) end.
  rewrite on_call_on_call. f_equal. destruct w; simpl. unfold refused. simpl.
  by rewrite app_nil_r, <-(assoc_L (++)).
Qed.

(** The answer a waiting read gets. *)
Definition read_answer (st : Status) (cb : option closure) : list Out :=
  match cb with Some cb => [UserRead cb st false []] | None => [] end.

(** Cancelling a stream's reads and writes terminates and answers each of
    them.  In an environment that adds no writes, when the loop may go round as
    often as messages are queued, the waiting read and every queued write get
    UNAVAILABLE, once and in order, and nothing is left to answer. *)
Theorem cancel_answers_all sid c w :
  calls w !! sid = Some c → (length (out_queue c) ≤ spin)%nat →
  CancelStreamIo re spin sid w =
    on_call sid (λ c, c <| read_finished := true |> <| read_cb := None |> <| out_queue := [] |>)
      (w <| trace ::= λ t, t ++ read_answer stream_cancelled (read_cb c) ++
              refused stream_cancelled (out_queue c) |>).
Proof.
  intros Hc Hlen. unfold CancelStreamIo. rewrite Hc.
  set (g := λ c : Call, c <| read_finished := true |> <| read_cb := None |>).
  set (w1 := match read_cb c with Some cb => _ | None => _ end).
  assert (w1 = on_call sid g (w <| trace ::= λ t, t ++ read_answer stream_cancelled (read_cb c) |>)) as ->.
  { unfold w1, read_answer. destruct (read_cb c); [by rewrite call_out_silent|].
    destruct w; simpl. by rewrite app_nil_r. }
  rewrite (drain_out_queue_silent spin sid (out_queue c) _ (g c));
    [|by apply (calls_on_call_eq sid g)|done|done].
  match goal with |- on_call _ ?f ((on_call _ _ ?x) <| trace ::= ?h |>) = _ =>
    change ((on_call sid g x) <| trace ::= h |>) with (on_call sid g (x <| trace ::= h |>)) end.
  rewrite on_call_on_call. f_equal. destruct w; simpl. by rewrite <-(assoc_L (++)).
Qed.

(** ** The loss of the connection *)

(** What cancelling all calls leaves alone: whatever does not depend on the
    calls, the trace and the flags. *)
Lemma cancel_all_frame {A} (π : World → A) sids w :
  (∀ f w, π (w <| calls ::= f |>) = π w) → (∀ f w, π (w <| trace ::= f |>) = π w) →
  (∀ w, π (w <| ub := true |>) = π w) → (∀ w, π (w <| hung := true |>) = π w) →
  π (cancel_all re spin sids w) = π w.
Proof.
  intros H1 H2 H3 H4.
  assert (Ho : ∀ o w, π (call_out re o w) = π w) by (intros; rewrite call_out_silent; apply H2).
  assert (Hc : ∀ sid f w, π (on_call sid f w) = π w) by (intros; apply H1).
  assert (Hd : ∀ sid w, π (deref sid w) = π w)
    by (intros; unfold deref; destruct (calls _ !! _); auto).
  assert (Hq : ∀ n sid w, π (drain_out_queue re n sid w) = π w).
  { induction n as [|n IH]; intros sid w'; simpl; (destruct (calls w' !! sid) as [c|]; [|apply H3]);
      destruct (out_queue c) as [|out q]; try apply H4; try done.
    rewrite IH. destruct (out_cb out); rewrite ?Ho; apply Hc. }
  assert (Hcs : ∀ sid w, π (CancelStreamIo re spin sid w) = π w).
  { intros sid w'. unfold CancelStreamIo. destruct (calls w' !! sid) as [c|]; [|done].
    rewrite Hq. destruct (read_cb c); rewrite ?Ho; apply Hc. }
  assert (Hfs : ∀ sid cbs w, π (fire_cancel_cbs re sid cbs w) = π w).
  { intros sid cbs. induction cbs as [|cb cbs IH]; intros w'; simpl; [done|].
    by rewrite IH, Hd, Ho. }
  assert (Hf : ∀ sid w, π (FireCancel re sid w) = π w).
  { intros sid w'. unfold FireCancel. destruct (calls w' !! sid) as [c|]; [|done].
    destruct (cancel_fired c); [done|]. by rewrite Hc, Hfs, Hc. }
  revert w. induction sids as [|sid sids IH]; intros w; simpl; [done|].
  by rewrite IH, Hd, Hf, Hd, Hcs, Hd.
Qed.

(** A deadline that outlives its connection is used after it is freed.  When
    the peer goes away while a call with an armed deadline is open, the
    connection is destroyed but the timer stays on the loop; when it expires,
    its task runs on the destroyed connection. *)
Theorem deadline_outlives_connection id sid ms w :
  timers_ (loop w) !! id = Some (mkTimer ms (TDeadline sid)) → conn_closed w = false →
  destroyed (runs [EvReadError] w) = true ∧ ub (runs [EvReadError; EvTimer id] w) = true.
Proof.
  intros Ht Hcl.
  set (w1 := cancel_all re spin (map_keys (calls w)) (w <| conn_closed := true |>)).
  assert (Hl : loop w1 = loop w) by (unfold w1; by rewrite (cancel_all_frame loop)).
  assert (Hcc : conn_closed w1 = true) by (unfold w1; by rewrite (cancel_all_frame conn_closed)).
  assert (runs [EvReadError] w = OnConnIdle w1) as Hw.
  { unfold run. simpl fold_left. unfold OnReadError. by rewrite Hcl. }
  change (runs [EvReadError; EvTimer id] w) with (runs [EvTimer id] (runs [EvReadError] w)).
  rewrite Hw. unfold OnConnIdle. rewrite Hcc. split; [done|].
  unfold run. simpl fold_left. unfold OnTimer. simpl. by rewrite Hl, Ht.
Qed.
End Ends.

(** ** Deadlines *)

(** The frame with which an expired deadline ends a call. *)
Definition deadline_frame (sid : Z) (c : Call) : Out :=
  if bool_decide (call_form c ≠ kUnary) && response_headers_sent c
  then SendTrailers sid (status_trailers deadline_status)
  else SendHeaders sid (trailers_only_headers (code deadline_status) (message deadline_status)) true.

(** The call is gone, or it has been answered. *)
Definition ended (sid : Z) (w : World) : Prop := ∀ c, calls w !! sid = Some c → responded c = true.

Lemma locked_ended sid w : locked LDone w sid → ended sid w.
Proof. unfold locked, ended. intros Hl c Hc. rewrite Hc in Hl. apply Hl. Qed.

Section Deadline.
Context (reenter : Out → World → World).

Lemma cancel_cbs_run_quiet sid cbs w c :
  (∀ cb, quiet reenter (UserCancel cb)) → calls w !! sid = Some c →
  fire_cancel_cbs reenter sid cbs w = w <| trace ::= λ t, t ++ map UserCancel cbs |>.
Proof.
  intros Hq. revert w. induction cbs as [|cb cbs IH]; intros w Hc; simpl.
  { destruct w; simpl. by rewrite app_nil_r. }
  unfold call_out. rewrite Hq. unfold deref. simpl calls. rewrite Hc.
  rewrite IH by done. destruct w; simpl. by rewrite <-(assoc_L (++)).
Qed.

Lemma FireCancel_quiet sid w c :
  (∀ cb, quiet reenter (UserCancel cb)) → calls w !! sid = Some c → cancel_fired c = false →
  FireCancel reenter sid w =
    on_call sid (λ c, c <| cancel_fired := true |> <| cancel_cbs := [] |>)
      (w <| trace ::= λ t, t ++ map UserCancel (cancel_cbs c) |>).
Proof.
  intros Hq Hc Hf. unfold FireCancel. rewrite Hc, Hf. cbn match.
  erewrite cancel_cbs_run_quiet by (done || by apply calls_on_call_eq).
  change ((on_call sid ?f w) <| trace ::= ?g |>) with (on_call sid f (w <| trace ::= g |>)).
  by rewrite on_call_on_call.
Qed.

(** Callbacks that leave the call alone. *)
Lemma OnDeadline_trace sid c w :
  (∀ cb, quiet reenter (UserCancel cb)) → quiet reenter (deadline_frame sid c) →
  calls w !! sid = Some c → cancel_fired c = false → responded c = false → destroyed w = false →
  ∃ s c', trace (OnDeadline reenter sid w) = trace w ++ map UserCancel (cancel_cbs c) ++
      [deadline_frame sid c; LogCall "call_end" s] ∧
    calls (OnDeadline reenter sid w) !! sid = Some c' ∧ responded c' = true ∧ cancel_fired c' = true ∧
    cancel_cbs c' = [].
Proof.
  intros Hq Hqf Hc Hf Hr Hd. unfold OnDeadline. rewrite Hc, (FireCancel_quiet sid w c) by done.
  set (g := λ c : Call, c <| cancel_fired := true |> <| cancel_cbs := [] |>).
  match goal with |- context [deref sid ?x] => set (w1 := x) end.
  assert (Hc1 : calls w1 !! sid = Some (g c)) by by apply (calls_on_call_eq sid g).
  assert (deref sid w1 = w1) as -> by (unfold deref; by rewrite Hc1).
  rewrite Hc1. change (responded (g c)) with (responded c). rewrite Hr. cbn match.
  change (call_form (g c)) with (call_form c).
  change (response_headers_sent (g c)) with (response_headers_sent c).
  set (g2 := λ c : Call, c <| responded := true |> <| deadline_timer := 0 |>).
  unfold deadline_frame in *.
  destruct (bool_decide (call_form c ≠ kUnary) && response_headers_sent c).
  all: unfold SendTrailersOnly; rewrite send_quiet by done; do 2 eexists; split_and!;
    [unfold log_call; simpl; by rewrite <-!(assoc_L (++))
    |unfold log_call, record_out; simpl; rewrite !lookup_alter_eq, Hc; simpl; reflexivity|done..].
Qed.

(** Callbacks that answer the call, or make it go away. *)
Lemma OnDeadline_overtaken sid c w :
  calls w !! sid = Some c → ended sid (FireCancel reenter sid w) →
  trace (OnDeadline reenter sid w) = trace (FireCancel reenter sid w).
Proof.
  intros Hc He. unfold OnDeadline. rewrite Hc. set (w1 := FireCancel reenter sid w) in *.
  unfold deref. destruct (calls w1 !! sid) as [c1|] eqn:Hc1; [rewrite Hc1|simpl; by rewrite Hc1].
  by rewrite (He c1 Hc1).
Qed.

(** Any callbacks at all. *)
Lemma OnDeadline_ends sid w :
  (∀ o w, Inv w → Good w (reenter o w)) → Inv w → ended sid (OnDeadline reenter sid w).
Proof.
  intros Hre HI. unfold OnDeadline. destruct (calls w !! sid) as [c0|] eqn:Hc0; [|intros c; congruence].
  set (w1 := deref sid (FireCancel reenter sid w)).
  assert (HI1 : Inv w1).
  { unfold w1. eapply Good_Inv, deref_Good, Good_Inv, FireCancel_Good; done. }
  destruct (calls w1 !! sid) as [c|] eqn:Hc; [|intros c; congruence].
  destruct (responded c) eqn:Hr; [intros c'; congruence|].
  destruct (inv_call _ HI1 _ _ Hc) as [Ho Hok]. pose proof (call_ok_unfinished _ _ _ Hok Hr) as Hfp.
  set (w2 := on_call sid (λ c, c <| responded := true |> <| deadline_timer := 0 |>) w1).
  assert (Hl : locked LDone w2 sid).
  { unfold locked, w2. rewrite calls_on_call, decide_True by done. by rewrite Hc. }
  assert (HI2 : Inv w2) by (eapply Good_Inv, on_call_Good; [done|solve_upd]).
  assert (Hp : phase_of (trace w2) sid = if response_headers_sent c then Open else Fresh) by by apply Hok.
  destruct (_ && response_headers_sent c) eqn:Hs; bool_cond; unfold SendTrailersOnly.
  - rewrite H0 in Hp. apply (locked_ended sid (send _ _ w2)).
    eapply send_next; [done..| |by right]. by rewrite Hp, phase_trailers.
  - apply (locked_ended sid (send _ _ w2)).
    destruct (phase_headers_end sid (trailers_only_headers (code deadline_status) (message deadline_status))
      (phase_of (trace w2) sid)); [rewrite Hp; destruct (response_headers_sent c); auto|].
    apply send_claimed; auto.
Qed.
End Deadline.

Section Expiry.
Context (oracle : Out → World → list ReOp) (spin depth : nat) (router : Router nat nat) (limit : Z).
#[local] Abbreviation re := (env oracle spin depth).

(** C16: an expired deadline ends the call, whatever user code does.  When the
    loop reports the timer of an unanswered call, its cancel callbacks run; then
    the call has been answered, or it is gone.  Cancel callbacks that do nothing
    run once each, in the order they were registered, and then the call is
    answered DEADLINE_EXCEEDED, with trailers if response headers are out,
    trailers-only otherwise, and is cancelled from then on.  Callbacks that
    answer the call overtake the deadline: nothing is sent after them.  The trace
    is all that happens: a read that waits is not called back and messages that
    wait for the session are not answered, although the contract of the streaming
    interface wants a terminal on the read side. *)
Theorem deadline_ends_call id sid ms c w :
  reachable oracle depth spin router limit w →
  timers_ (loop w) !! id = Some (mkTimer ms (TDeadline sid)) →
  calls w !! sid = Some c → cancel_fired c = false → responded c = false → destroyed w = false →
  let w' := step oracle depth spin router limit (EvTimer id) w in
  let called := FireCancel re sid (w <| loop := CancelTimer id (loop w) |>) in
  ended sid w' ∧
  ((∀ cb w, oracle (UserCancel cb) w = []) → (∀ o w, frame_sid o = Some sid → oracle o w = []) →
   ctx_IsCancelled sid w' = true ∧
   ∃ s, trace w' = trace w ++ map UserCancel (cancel_cbs c) ++
     [deadline_frame sid c; LogCall "call_end" s]) ∧
  (ended sid called → trace w' = trace called).
Proof.
  intros Hw Ht Hc Hf Hr Hd w' called. set (w1 := w <| loop := CancelTimer id (loop w) |>) in *.
  assert (E : w' = OnDeadline re sid w1).
  { unfold w', step, OnTimer. simpl get_loop. rewrite Ht.
    change (run_stask re (TDeadline sid) w1 = OnDeadline re sid w1).
    unfold run_stask. change (destroyed w1) with (destroyed w). by rewrite Hd. }
  rewrite E. split_and!.
  - apply OnDeadline_ends; [apply re_Good|]. eapply Good_Inv, (same_core_Good w); [done|].
    by eapply reachable_Inv.
  - intros Hq Hqf.
    destruct (OnDeadline_trace re sid c w1) as (s & c' & Htr & Hc' & _ & Hf' & _); try done.
    + intros cb w2. destruct depth; [done|]. simpl. by rewrite Hq.
    + intros w2. destruct depth; [done|]. simpl. rewrite Hqf; [done|].
      unfold deadline_frame. by destruct (_ && _).
    + split; [|by exists s]. unfold ctx_IsCancelled. by rewrite Hc'.
  - intros He. by apply (OnDeadline_overtaken re sid c w1).
Qed.
End Expiry.

(** ** A producer that writes again *)
Section Retry.
Context (sid : Z) (depth : nat).

(** User code whose write callback writes an empty message again. *)
Definition retrying (o : Out) (w : World) : list ReOp :=
  match o with
  | UserWrite cb _ => [ApiWrite sid [] (Some cb)]
  | _ => []
  end.

(** A stream with one write queued behind a body in flight. *)
Definition retry_ready (w : World) : Prop :=
  (∃ m, ctxs w !! sid = Some (StreamCtx m)) ∧
  ∃ c cb d, calls w !! sid = Some c ∧ responded c = false ∧ write_closed c = false ∧
    out_inflight c = true ∧ out_queue c = [mkOutMsg d (Some cb)].

Lemma retry_hangs spin fuel w :
  retry_ready w → hung (drain_out_queue (env retrying spin (S depth)) fuel sid w) = true.
Proof.
  revert w. induction fuel as [|fuel IH]; intros w ([m Hx] & c & cb & d & Hc & Hr & Hwc & Hif & Hq);
    simpl; rewrite Hc, Hq; [done|]. simpl. apply IH.
  set (g := λ c : Call, c <| out_queue := [] |>).
  set (w1 := record_out (UserWrite cb stream_cancelled) (on_call sid g w)).
  match goal with |- retry_ready ?x =>
    change x with (do_op (env retrying spin depth) spin (ApiWrite sid [] (Some cb)) w1) end.
  unfold do_op, with_stream_ctx, with_ctx. change (ctxs w1) with (ctxs w). rewrite Hx. cbn match.
  assert (Hc1 : calls w1 !! sid = Some (g c)) by by apply (calls_on_call_eq sid g).
  unfold ctx_WriteMessage. rewrite Hc1. simpl responded. simpl write_closed. rewrite Hr, Hwc.
  simpl orb. cbn match. change (kQueueBound <=? length (out_queue (g c)))%nat with false. cbn match.
  set (g2 := λ c0 : Call, c0 <| out_queue ::= _ |>).
  assert (Hc2 : calls (on_call sid g2 w1) !! sid = Some (g2 (g c))) by by apply calls_on_call_eq.
  assert (PumpOut (env retrying spin depth) sid (on_call sid g2 w1) = on_call sid g2 w1) as ->.
  { unfold PumpOut. rewrite Hc2. simpl. by rewrite Hif. }
  split; [by exists m|]. exists (g2 (g c)), cb, (EncodeFrame [] []). done.
Qed.

(** The cancellation of a stream need not terminate.  When the callback of a
    refused write writes again, as a producer that retries does, the loop that
    empties the queue finds a message in every round: however often it goes
    round, it is not done. *)
Theorem cancel_need_not_end spin c cb d m w :
  calls w !! sid = Some c → ctxs w !! sid = Some (StreamCtx m) → responded c = false →
  write_closed c = false → out_inflight c = true → read_cb c = None →
  out_queue c = [mkOutMsg d (Some cb)] →
  hung (CancelStreamIo (env retrying spin (S depth)) spin sid w) = true.
Proof.
  intros Hc Hx Hr Hwc Hif Hcb Hq. unfold CancelStreamIo. rewrite Hc, Hcb.
  apply retry_hangs. split; [by exists m|]. exists (c <| read_finished := true |> <| read_cb := None |>), cb, d.
  split; [|done]. by apply (calls_on_call_eq sid (λ c, c <| read_finished := true |> <| read_cb := None |>)).
Qed.
End Retry.

(** ** Concrete streams *)
Lemma finish_after_last_body_witness :
  let r := newRouter (UH := nat) (SH := nat) in
  ∃ s, trace (run silent 1 0 r 1024 [EvOp (ApiFinish 1 Ok); EvOp (H2Consumed 1 0)] (demo_pump [])) =
    [UserWrite 5 Ok; SendTrailers 1 (status_trailers Ok); LogCall "call_end" s].
Proof.
  intros r. apply (finish_after_last_body 0 1 r 1024 1 Ok (Some 5%nat) (demo_pump [])).
  apply demo_pumping.
Defined.

Lemma finish_strands_queue_witness :
  let r := newRouter (UH := nat) (SH := nat) in
  trace (run silent 1 0 r 1024 (EvOp (ApiFinish 1 Ok) :: concat (replicate 3 (drain_round 1)))
    (demo_pump [mkOutMsg [chr 1] None])) = [UserWrite 5 Ok].
Proof.
  intros r.
  apply (finish_strands_queue 0 1 r 1024 1 Ok (Some 5%nat) (mkOutMsg [chr 1] None) [] 2
    (demo_pump [mkOutMsg [chr 1] None])). apply demo_pumping.
Defined.

(** A stream with a read that waits and two writes that are queued. *)
Definition demo_busy : Call :=
  demo_stream <| read_cb := Some 8%nat |> <| out_inflight := true |>
    <| out_queue := [mkOutMsg [chr 1] (Some 6%nat); mkOutMsg [chr 2] None] |>.

Lemma cancel_answers_all_witness :
  trace (CancelStreamIo (env silent 2 1) 2 1 (demo_streams demo_busy)) =
    [UserRead 8 stream_cancelled false []; UserWrite 6 stream_cancelled].
Proof.
  rewrite (cancel_answers_all 2 1 1 demo_busy (demo_streams demo_busy));
    [reflexivity|reflexivity|simpl; lia].
Defined.

(** A stream with a deadline, whose handler asks to be told of a cancellation. *)
Definition timed_oracle (o : Out) (w : World) : list ReOp :=
  match o with UserStream _ sid => [ApiOnCancel sid 3] | _ => [] end.
Definition timed_headers : gmap string string :=
  list_to_map [(":path", "/a.S/M"); ("content-type", "application/grpc"); ("grpc-timeout", "100m")].
Definition demo_timed : World :=
  step timed_oracle 1 0 demo_router 1024 (EvHeaders 1 timed_headers false) new_world.

Lemma deadline_ends_call_witness :
  ∃ s, let w' := step timed_oracle 1 0 demo_router 1024 (EvTimer 1) demo_timed in
    trace w' = trace demo_timed ++ [UserCancel 3;
      SendHeaders 1 (trailers_only_headers kDeadlineExceeded "deadline exceeded") true;
      LogCall "call_end" s] ∧
    ctx_IsCancelled 1 w' = true.
Proof.
  assert (Hc : ∃ c, calls demo_timed !! 1 = Some c ∧ cancel_cbs c = [3%nat] ∧ cancel_fired c = false ∧
    responded c = false ∧ response_headers_sent c = false) by (eexists; split; [by vm_compute|done]).
  destruct Hc as (c & Hc & Hcb & Hf & Hr & Hh).
  destruct (deadline_ends_call timed_oracle 0 1 demo_router 1024 1 1 100 c demo_timed)
    as (_ & H & _); try done.
  - apply reach_step; [apply reach_new|]. split; [reflexivity|]. left. apply not_elem_of_empty.
  - destruct H as [H1 (s & H2)]; [done|by intros []|].
    exists s. split; [|exact H1]. revert H2. unfold deadline_frame. by rewrite Hcb, Hh, andb_false_r.
Defined.

(** A callback that answers overtakes the deadline. *)
Definition answering_oracle (o : Out) (w : World) : list ReOp :=
  match o with
  | UserStream _ sid => [ApiOnCancel sid 3]
  | UserCancel _ => [ApiFinish 1 (mkStatus kUnavailable "gone")]
  | _ => []
  end.
Example deadline_overtaken :
  let go e w := step answering_oracle 2 0 demo_router 1024 e w in
  frames_of 1 (trace (go (EvTimer 1) (go (EvHeaders 1 timed_headers false) new_world))) =
    [SendHeaders 1 (trailers_only_headers kUnavailable "gone") true].
Proof. vm_compute. reflexivity. Qed.
