(* ===== verification/Lifecycle.v ===== *)
(** * The server's lifecycle (core/include/urpc/core/server.h, core/source/urpc_server.cc)

    [Server::Start], [Shutdown], [Wait] and what the loop does for them: the
    listener, the set of connections, the graceful drain with its grace timer,
    and the mutex.  The connections are those of ServerConn.v; the loop and the
    listener are those of Loop.v and Platform.v.

    The threads that call the server wait for flags that the loop's thread sets;
    a step of the model is one call, one return, or one callback of the loop's
    thread, which holds the mutex for as long as the code does. *)
From S2P Require Import Prelude Status CxxString Wire Codec Router Loop Platform ServerConn ServerRun.

(** ** State *)

(** A connection in [conns]: its handle, and the [Conn] of ServerConn.v. *)
Record SConn := mkSConn { socket : option nat; conn : World }.
#[export] Instance eta_SConn : EtaRecord SConn := λ c, mkSConn (socket c) (conn c).

(** What the server posts to its loop. *)
Inductive SrvTask :=
  | TStart
  | TShutdown
  | TFinishShutdown.                        (* the grace timer *)

(** A thread inside a call that blocks. *)
Inductive Caller :=
  | InStart
  | InDrain.                                (* Shutdown and Wait *)

Record Server := mkServer {
  srv_loop : LoopRunner SrvTask;
  listener : option TcpListener;
  listening : bool;
  conns : list SConn;
  gone : list World;                        (* connections that were erased *)
  shutdown_requested : bool;
  drained : bool;
  start_status : Status;
  start_done : bool;
  sockets : gset nat;                       (* handles not given to uv_close *)
  next_socket : nat;
  listener_closed : bool;                   (* libuv reported the handle closed *)
  mu_held : bool;                           (* by the loop's thread *)
  deadlocked : bool;                        (* it locked the mutex it holds *)
  callers : gmap nat Caller;
  returned : list (nat * Status)            (* the calls that have returned *)
}.
#[export] Instance eta_Server : EtaRecord Server := λ s,
  mkServer (srv_loop s) (listener s) (listening s) (conns s) (gone s) (shutdown_requested s) (drained s)
    (start_status s) (start_done s) (sockets s) (next_socket s) (listener_closed s) (mu_held s)
    (deadlocked s) (callers s) (returned s).

(** [Server(loop, router, options)], on a loop that runs. *)
Definition new_server : Server :=
  mkServer (Loop.Start newLoop).2 None false [] [] false false Ok false ∅ 0 false false false ∅ [].

(** [std::lock_guard lock(mu)] around [f], on the loop's thread. *)
Definition with_lock (f : Server → Server) (s : Server) : Server :=
  if mu_held s then s <| deadlocked := true |>
  else (f (s <| mu_held := true |>)) <| mu_held := false |>.

(** [if (!drained) { drained = true; cv.notify_all(); }] under the mutex: the
    lambda given to [Close], and [finish] of [Shutdown]. *)
Definition complete_drain (s : Server) : Server :=
  with_lock (λ s, if drained s then s else s <| drained := true |>) s.

Section Server.
Context (oracle : Out → World → list ReOp) (depth spin : nat).
Context (router : Router nat nat) (max_receive_size : Z).
Context {sockaddr : Type} (uv_ip4_addr uv_ip6_addr : string → Z → sockaddr + Z).
Context (uv_strerror : Z → string) (uv_tcp_bind : sockaddr → Z) (uv_listen : Z).
Context (address : string) (shutdown_grace_ms : Z).

#[local] Abbreviation re := (env oracle spin depth).

(** [uv_close(conn->socket, nullptr); conn->socket = nullptr], if there is one. *)
Definition close_socket (c : SConn) (s : Server) : Server :=
  match socket c with
  | Some h => s <| sockets ::= λ l, l ∖ {[h]} |>
  | None => s
  end.

(** [listener->Close(...)] with the callbacks that it runs at once. *)
Definition close_listener (s : Server) : Server :=
  match listener s with
  | Some l =>
      let '(now, l) := Close (Some 0%nat) l in
      foldr (λ _ s, complete_drain s) (s <| listener := Some l |>) now
  | None => s
  end.

(** A connection that is erased from [conns] dies; tasks and timers of the loop
    may still know it. *)
Definition erase (w : World) : World := ServerConn.OnConnIdle (w <| conn_closed := true |>).
Definition erase_conns (P : SConn → Prop) `{∀ c, Decision (P c)} (s : Server) : Server :=
  s <| gone ::= λ l, l ++ map (λ c, erase (conn c)) (filter P (conns s)) |>
    <| conns ::= filter (λ c, ¬ P c) |>.

(** [Impl::OnConnIdle]: closed connections go; the last one, during a shutdown,
    takes the listener with it. *)
Definition OnConnIdle (s : Server) : Server :=
  let last (s : Server) := shutdown_requested s && bool_decide (conns s = []) &&
                           negb (drained s) && listening s in
  let s1 := with_lock (erase_conns (λ c, conn_closed (conn c) = true)) s in
  if last s1 then close_listener (s1 <| listening := false |>) else s1.

(** The calls of a connection, in the order of the map; a call that has gone
    meanwhile leaves the loop with a dangling iterator. *)
Fixpoint fire_all (sids : list Z) (w : World) : World :=
  match sids with
  | [] => w
  | sid :: sids => fire_all sids (deref sid (FireCancel re sid (deref sid w)))
  end.

(** [FinishShutdown]'s loop over the connections.  A cancel callback that makes
    a stream close gets to [OnConnIdle], which locks the mutex: the connection
    is marked closed by then, so this shows as its destruction. *)
Definition finish_conn (c : SConn) (s : Server) : Server :=
  let w := fire_all (map_keys (calls (conn c))) ((conn c) <| conn_closed := true |>) in
  let s := if destroyed w && negb (destroyed (conn c)) then s <| deadlocked := true |> else s in
  (close_socket c s) <| gone ::= λ l, l ++ [erase w] |>.

Definition FinishShutdown (s : Server) : Server :=
  if mu_held s then s <| deadlocked := true |>
  else if drained s then s
  else
    let s := (foldl (λ s c, finish_conn c s) (s <| mu_held := true |>) (conns s)) <| conns := [] |> in
    if listening s then
      close_listener (s <| listening := false |> <| mu_held := false |>)
    else s <| drained := true |> <| mu_held := false |>.

(** The lambda that [Start] posts. *)
Definition run_start (s : Server) : Server :=
  match listener s with
  | None => s
  | Some l =>
      let '(st, l) := BindAndListen uv_ip4_addr uv_ip6_addr uv_strerror uv_tcp_bind uv_listen
                        address 0%nat l in
      with_lock (λ s, s <| start_status := st |> <| listening := ok st |> <| start_done := true |>)
        (s <| listener := Some l |>)
  end.

(** The loop of the lambda that [Shutdown] posts: connections with no calls close at once. *)
Definition close_idle (s : Server) : Server :=
  let idle := filter (λ c, calls (conn c) = ∅) (conns s) in
  erase_conns (λ c, calls (conn c) = ∅) (foldl (λ s c, close_socket c s) s idle).

(** The lambda that [Shutdown] posts: it holds the mutex to its end. *)
Definition shutdown_locked (s : Server) : Server :=
  let s := close_idle s in
  if negb (bool_decide (conns s = [])) then
    s <| srv_loop := (SetTimer shutdown_grace_ms TFinishShutdown (srv_loop s)).2 |>
  else if listening s then close_listener (s <| listening := false |>)
  else complete_drain s.

Definition run_shutdown (s : Server) : Server := with_lock shutdown_locked s.

(** A thread that waits for a mutex it holds runs nothing any more. *)
Definition run_srv_task (t : SrvTask) (s : Server) : Server :=
  if deadlocked s then s else
  match t with
  | TStart => run_start s
  | TShutdown => run_shutdown s
  | TFinishShutdown => FinishShutdown s
  end.

#[export] Program Instance server_host : LoopHost SrvTask Server := {|
  get_loop := srv_loop;
  set_loop l s := s <| srv_loop := l |>;
  run_task t s := run_srv_task t s
|}.
Next Obligation. done. Qed.

(** ** The calls, from any thread *)
Definition call_Start (t : nat) (s : Server) : Server :=
  if start_done s then s <| returned ::= λ r, r ++ [(t, start_status s)] |>
  else s <| listener := Some newListener |> <| srv_loop ::= Post TStart |>
         <| callers ::= <[t := InStart]> |>.

Definition call_Shutdown (t : nat) (s : Server) : Server :=
  if negb (start_done s) then s <| returned ::= λ r, r ++ [(t, Ok)] |>
  else if shutdown_requested s then s <| callers ::= <[t := InDrain]> |>
  else s <| shutdown_requested := true |> <| srv_loop ::= Post TShutdown |>
         <| callers ::= <[t := InDrain]> |>.

Definition call_Wait (t : nat) (s : Server) : Server := s <| callers ::= <[t := InDrain]> |>.
Definition IsRunning (s : Server) : bool := negb (drained s).

(** The predicate of [cv.wait] holds: the call returns. *)
Definition return_call (t : nat) (s : Server) : Server :=
  let back st := s <| callers ::= delete t |> <| returned ::= λ r, r ++ [(t, st)] |> in
  match callers s !! t with
  | Some InStart => if start_done s then back (start_status s) else s
  | Some InDrain => if drained s then back Ok else s
  | None => s
  end.

(** ** The loop's callbacks *)

(** The lambda given to [BindAndListen]: a new connection.  [Flush] of its
    session sends the SETTINGS frame and touches nothing here. *)
Definition on_accept (s : Server) : Server :=
  let h := next_socket s in
  let c := mkSConn (Some h) new_world in
  with_lock (λ s, s <| conns ::= λ l, l ++ [c] |>)
    (s <| next_socket ::= S |> <| sockets ::= λ l, {[h]} ∪ l |>).

(** An event of the [i]th connection.  Its streams that close call [OnConnIdle]
    too, which finds nothing to do as long as the connection is not closed. *)
Definition conn_event (i : nat) (e : ServerRun.Event) (s : Server) : Server :=
  match conns s !! i with
  | None => s
  | Some _ =>
      let s := s <| conns ::= alter (λ c : SConn,
                 c <| conn ::= ServerRun.step oracle depth spin router max_receive_size e |>) i |> in
      match e with EvReadError => OnConnIdle s | _ => s end
  end.

Inductive Event :=
  | EvStart (t : nat)
  | EvShutdown (t : nat)
  | EvWaitCall (t : nat)
  | EvReturn (t : nat)
  | EvAccept (status accept : Z)            (* a peer connects *)
  | EvConn (i : nat) (e : ServerRun.Event)
  | EvGone (i : nat) (e : ServerRun.Event)  (* a task or a timer of an erased one *)
  | EvTasks                                 (* the loop's wake-up is delivered *)
  | EvGrace (id : Z)                        (* the loop reports an expired timer *)
  | EvListenerClosed                        (* libuv has closed the listener *)
  | EvStopLoop.                             (* the loop's owner stops it *)

Definition step (e : Event) (s : Server) : Server :=
  if deadlocked s then s else
  match e with
  | EvStart t => call_Start t s
  | EvShutdown t => call_Shutdown t s
  | EvWaitCall t => call_Wait t s
  | EvReturn t => return_call t s
  | EvAccept status accept =>
      match listener s with
      | Some l =>
          match OnConnection status accept l with Some _ => on_accept s | None => s end
      | None => s
      end
  | EvConn i e => conn_event i e s
  | EvGone i e =>
      s <| gone ::= alter (ServerRun.step oracle depth spin router max_receive_size e) i |>
  | EvTasks => if woken (srv_loop s)
               then DrainPending (s <| srv_loop ::= λ l, l <| woken := false |> |>) else s
  | EvGrace id => OnTimer id s
  | EvListenerClosed =>
      match listener s with
      | Some l =>
          if closing l && negb (listener_closed s) then
            let '(now, l) := OnClosedTramp l in
            foldr (λ _ s, complete_drain s)
              (s <| listener := Some l |> <| listener_closed := true |>) now
          else s
      | None => s
      end
  | EvStopLoop => s <| srv_loop ::= Stop |>
  end.

(** What libuv guarantees: a peer is accepted while the handle listens; a
    handle that is closing is reported closed before the next timer runs; one
    thread is in one call; and [Start] is called once. *)
Definition ev_ok (e : Event) (s : Server) : Prop :=
  match e with
  | EvStart t => callers s !! t = None ∧ (listener s = None ∨ start_done s = true)
  | EvShutdown t | EvWaitCall t => callers s !! t = None
  | EvAccept _ _ => listening s = true
  | EvConn i e => ∀ c, conns s !! i = Some c → ServerRun.ev_ok e (conn c)
  | EvGone _ e => match e with EvWake | EvTimer _ => True | _ => False end
  | EvGrace _ => ∀ l, listener s = Some l → closing l = true → listener_closed s = true
  | _ => True
  end.

Inductive reachable : Server → Prop :=
  | srv_new : reachable new_server
  | srv_step s e : reachable s → ev_ok e s → reachable (step e s).

Definition run (es : list Event) (s : Server) : Server := fold_left (λ s e, step e s) es s.
End Server.
