(* ===== verification/LifecycleRun.v ===== *)
(** * Runs of a server

    The invariant of every run, and what it gives: a drained server has closed
    its listener and let go of its connections, a shutdown completes within the
    grace time, and the ways in which it does not. *)
From S2P Require Import Prelude Status CxxString Wire Codec Router Loop Platform ServerConn ServerRun Lifecycle.

(** ** The invariant *)

(** The listener is on its way: libuv will report it closed, and that drains. *)
Definition closing_down (s : Server) : Prop :=
  listener_closed s = false ∧
  ∃ l, listener s = Some l ∧ closing l = true ∧ loop_set l = false ∧ is_Some (on_closed_ l).

(** The loop's code still holds the tasks [q]. *)
Record Inv (q : list (Queued SrvTask)) (s : Server) : Prop := {
  inv_mu : mu_held s = false;
  inv_listening : listening s = true →
    start_done s = true ∧ ok (start_status s) = true ∧ listener_closed s = false ∧
    ∃ l, listener s = Some l ∧ loop_set l = true ∧ closing l = false;
  inv_closing l : listener s = Some l → closing l = true →
    listening s = false ∧ start_done s = true ∧ shutdown_requested s = true ∧ loop_set l = false ∧
    ok (start_status s) = true ∧
    (listener_closed s = false → is_Some (on_closed_ l));
  inv_drained : drained s = true →
    conns s = [] ∧ listening s = false ∧ shutdown_requested s = true ∧ listener_closed s = true ∧
    ok (start_status s) = true;
  inv_closed : listener_closed s = true → drained s = true;
  inv_requested : shutdown_requested s = true → start_done s = true;
  inv_conns c : c ∈ conns s → ∃ h, socket c = Some h ∧ h ∈ sockets s;
  inv_fresh h : h ∈ sockets s → (h < next_socket s)%nat;
  inv_distinct : NoDup (map socket (conns s));
  inv_tasks : NoDup (q ++ pending_ (srv_loop s));
  inv_start : Posted TStart ∈ q ++ pending_ (srv_loop s) →
    start_done s = false ∧ ∃ l, listener s = Some l ∧ closing l = false;
  inv_shutdown : Posted TShutdown ∈ q ++ pending_ (srv_loop s) → shutdown_requested s = true;
  inv_finish : Posted TFinishShutdown ∉ q ++ pending_ (srv_loop s);
  inv_quit : QuitTask ∈ q ++ pending_ (srv_loop s) → running_ (srv_loop s) = false;
  inv_woken : running_ (srv_loop s) = true → pending_ (srv_loop s) ≠ [] → woken (srv_loop s) = true;
  inv_timers id t : timers_ (srv_loop s) !! id = Some t → 
    task t = TFinishShutdown ∧ shutdown_requested s = true ∧ ok (start_status s) = true;
  inv_started : start_done s = true → ok (start_status s) = true → drained s = false →
    listening s = true ∨ closing_down s;
  inv_no_conns : listening s = false → drained s = false → conns s = [] ;
  inv_grace : shutdown_requested s = true → running_ (srv_loop s) = true → drained s = false →
    listening s = true →
    Posted TShutdown ∈ q ++ pending_ (srv_loop s) ∨
    ∃ id t, timers_ (srv_loop s) !! id = Some t
}.

(** Nothing is claimed once the loop's thread is stuck. *)
Definition InvD (q : list (Queued SrvTask)) (s : Server) : Prop := deadlocked s = false → Inv q s.

(** What the invariant looks at. *)
Definition same_server (s s' : Server) : Prop :=
  srv_loop s' = srv_loop s ∧ listener s' = listener s ∧ listening s' = listening s ∧
  conns s' = conns s ∧ shutdown_requested s' = shutdown_requested s ∧ drained s' = drained s ∧
  start_status s' = start_status s ∧ start_done s' = start_done s ∧ sockets s' = sockets s ∧
  next_socket s' = next_socket s ∧ listener_closed s' = listener_closed s ∧ mu_held s' = mu_held s.

Lemma same_server_Inv q s s' : same_server s s' → Inv q s → Inv q s'.
Proof.
  intros (E1 & E2 & E3 & E4 & E5 & E6 & E7 & E8 & E9 & E10 & E11 & E12) HI.
  destruct HI as [H1 H2 H3 H4 H5 H6 H7 H8 H9 H10 H11 H12 H13 H14 H15 H16 H17 H18 H19].
  split; unfold closing_down in *;
    rewrite ?E1, ?E2, ?E3, ?E4, ?E5, ?E6, ?E7, ?E8, ?E9, ?E10, ?E11, ?E12; assumption.
Qed.

Lemma new_server_Inv : Inv [] new_server.
Proof. split; simpl; try done; try set_solver. constructor. constructor. Qed.

(** ** The operations *)

(** Closing a listener that listens: the callback waits for libuv. *)
Lemma close_listener_eq s l :
  listener s = Some l → loop_set l = true → closing l = false →
  close_listener s = s <| listener := Some (l <| on_closed_ := Some 0%nat |> <| closing := true |>
                                              <| loop_set := false |>) |>.
Proof. intros Hl H1 H2. unfold close_listener. rewrite Hl. destruct l; simpl in *. by subst. Qed.

(** The handles that a list of connections holds. *)
Lemma close_sockets_eq cs s :
  foldl (λ s c, close_socket c s) s cs =
    s <| sockets := sockets s ∖ list_to_set (omap socket cs) |>.
Proof.
  revert s. induction cs as [|c cs IH]; intros s; simpl.
  - rewrite difference_empty_L. by destruct s.
  - rewrite IH. unfold close_socket. destruct (socket c); simpl; [|done].
    by rewrite difference_difference_l_L.
Qed.

(** What [finish_conn] does to each connection. *)
Lemma finish_conns_eq oracle depth spin cs s :
  ∃ g d, foldl (λ s c, finish_conn oracle depth spin c s) s cs =
    s <| sockets := sockets s ∖ list_to_set (omap socket cs) |>
      <| gone ::= λ l, l ++ g |> <| deadlocked ::= orb d |>.
Proof.
  revert s. induction cs as [|c cs IH]; intros s; simpl.
  - exists [], false. rewrite difference_empty_L. destruct s; simpl. by rewrite app_nil_r.
  - destruct (IH (finish_conn oracle depth spin c s)) as (g & d & ->).
    unfold finish_conn. cbv zeta. set (w := fire_all _ _ _ _ _).
    exists (erase w :: g), (d || (destroyed w && negb (destroyed (conn c))))%bool.
    destruct (destroyed w && _); unfold close_socket; destruct (socket c); simpl;
      rewrite <- ?(assoc_L (++)), ?difference_difference_l_L;
      destruct s; simpl; by rewrite ?orb_true_r, ?orb_false_r.
Qed.

Lemma sublist_map {A B} (f : A → B) l1 l2 : l1 `sublist_of` l2 → map f l1 `sublist_of` map f l2.
Proof. induction 1; simpl; by constructor. Qed.

(** Erasing connections. *)
Lemma erase_conns_Inv P `{∀ c, Decision (P c)} q s : Inv q s → Inv q (erase_conns P s).
Proof.
  intros [H1 H2 H3 H4 H4' H5 H6 H7 H8 H9 H10 H11 H12 H13 H14 H15 H16 H17 H18].
  split; simpl; try done.
  - intros Hd. destruct (H4 Hd) as (-> & ?). done.
  - intros c [_ Hc]%list_elem_of_filter. auto.
  - eapply sublist_NoDup; [exact H8|]. apply sublist_map, sublist_filter.
  - intros Hl Hd. by rewrite H17.
Qed.

(** The listener goes with the last connection. *)
Lemma close_last_Inv q s :
  Inv q s → listening s = true → conns s = [] → shutdown_requested s = true →
  Inv q (close_listener (s <| listening := false |>)).
Proof.
  intros [H1 H2 H3 H4 H4' H5 H6 H7 H8 H9 H10 H11 H12 H13 H14 H15 H16 H17 H18] Hl Hc Hr.
  destruct (H2 Hl) as (Hs & Hok & Hcl & l & El & E1 & E2).
  assert (Hd : drained s = false) by (destruct (drained s); [|done]; destruct (H4 eq_refl) as (_ & ? & _); congruence).
  rewrite (close_listener_eq _ l) by done.
  split; simpl; try assumption; try (intros; congruence).
  - intros l0 [= <-] _. by split_and!.
  - intros Hp. destruct (H10 Hp). congruence.
  - intros _ _ _. right. split; simpl; [done|]. eexists. by split_and!.
Qed.

(** A task that the loop takes from the list it holds. *)
Lemma Inv_take x q s :
  (x = Posted TShutdown → running_ (srv_loop s) = true → listening s = true →
    ∃ id t, timers_ (srv_loop s) !! id = Some t) →
  Inv (x :: q) s → Inv q s.
Proof.
  intros Hx [H1 H2 H3 H4 H4' H5 H6 H7 H8 H9 H10 H11 H12 H13 H14 H15 H16 H17 H18].
  assert (Hin : ∀ y, y ∈ q ++ pending_ (srv_loop s) → y ∈ x :: q ++ pending_ (srv_loop s))
    by (intros; by right).
  split; try assumption; auto.
  - by inversion H9.
  - intros Hr Hn Hd Hl. destruct (H18 Hr Hn Hd Hl) as [Hp|]; [|by right].
    simpl in Hp. apply elem_of_cons in Hp as [E|]; [right; by apply Hx|by left].
Qed.

(** The loop's own fields of the invariant, after a timer is set. *)
Lemma SetTimer_Inv q ms s :
  Inv q s → shutdown_requested s = true → ok (start_status s) = true →
  let s' := s <| srv_loop := (SetTimer ms TFinishShutdown (srv_loop s)).2 |> in
  Inv q s' ∧ (running_ (srv_loop s') = true → ∃ id t, timers_ (srv_loop s') !! id = Some t).
Proof.
  intros HI Hr Hok s'. subst s'. unfold SetTimer. destruct (running_ (srv_loop s)) eqn:Er; simpl.
  - split; [|intros _; do 2 eexists; apply lookup_insert_eq].
    destruct HI as [H1 H2 H3 H4 H4' H5 H6 H7 H8 H9 H10 H11 H12 H13 H14 H15 H16 H17 H18].
    split; simpl; try assumption.
    + intros id t [[_ <-]|[_ Ht]]%lookup_insert_Some; [done|by apply H15 in Ht].
    + intros _ _ Hd Hl. right. do 2 eexists. apply lookup_insert_eq.
  - split; [|congruence]. revert HI. by apply same_server_Inv.
Qed.

Section Steps.
Context (oracle : Out → World → list ReOp) (depth spin : nat).
Context {sockaddr : Type} (uv_ip4_addr uv_ip6_addr : string → Z → sockaddr + Z).
Context (uv_strerror : Z → string) (uv_tcp_bind : sockaddr → Z) (uv_listen : Z).
Context (address : string) (shutdown_grace_ms : Z).

#[local] Abbreviation bind := (BindAndListen uv_ip4_addr uv_ip6_addr uv_strerror uv_tcp_bind uv_listen
  address 0%nat).
#[local] Abbreviation start := (run_start uv_ip4_addr uv_ip6_addr uv_strerror uv_tcp_bind uv_listen address).

(** [BindAndListen] leaves a listener that is open when it succeeds. *)
Lemma BindAndListen_open l :
  closing (bind l).2 = closing l ∧ (ok (bind l).1 = true → loop_set (bind l).2 = true).
Proof.
  unfold BindAndListen. pose proof (parse_address_sound uv_ip4_addr uv_ip6_addr uv_strerror address) as HP.
  revert HP. destruct (ParseAddress _ _ _ _) as [a|st]; intros HP; [by repeat case_match|].
  split; [done|]. simpl. unfold ok. by rewrite HP.
Qed.

Lemma run_start_Inv q s : Inv (Posted TStart :: q) s → Inv q (start s).
Proof.
  intros HI. destruct (inv_start _ _ HI) as (Hs & l & El & Hcl); [left|].
  pose proof (inv_tasks _ _ HI) as HN. apply NoDup_cons in HN as [Hnot _].
  apply Inv_take in HI; [|done].
  destruct HI as [H1 H2 H3 H4 H4' H5 H6 H7 H8 H9 H10 H11 H12 H13 H14 H15 H16 H17 H18].
  assert (Hr : shutdown_requested s = false) by (destruct (shutdown_requested s); [by rewrite H5 in Hs|done]).
  assert (Hd : drained s = false) by (destruct (drained s); [by destruct (H4 eq_refl) as (_ & _ & ? & _); congruence|done]).
  assert (Hlc : listener_closed s = false) by (destruct (listener_closed s); [by rewrite H4' in Hd|done]).
  unfold run_start. rewrite El. destruct (BindAndListen_open l) as [Ec Eo].
  destruct (bind l) as [st l'] eqn:Eb. simpl in Ec, Eo. unfold with_lock. simpl. rewrite H1.
  split; simpl; try assumption; try done; try (intros; congruence).
  - intros Hok. split_and!; try done. exists l'. split_and!; auto. congruence.
  - intros id t Ht. destruct (H15 id t Ht) as (_ & ? & _). congruence.
  - intros _ -> _. by left.
  - intros _ _. apply H17; [|done]. destruct (listening s); [|done]. by destruct (H2 eq_refl) as (? & _); congruence.
Qed.

(** The idle connections are closed, the others kept. *)
Lemma close_idle_eq s :
  close_idle s = erase_conns (λ c, calls (conn c) = ∅) s
    <| sockets := sockets s ∖ list_to_set (omap socket (filter (λ c, calls (conn c) = ∅) (conns s))) |>.
Proof. unfold close_idle. by rewrite close_sockets_eq. Qed.

Lemma close_idle_Inv q s : Inv q s → Inv q (close_idle s).
Proof.
  intros HI. rewrite close_idle_eq. pose proof HI as HI0.
  apply (erase_conns_Inv (λ c, calls (conn c) = ∅)) in HI.
  destruct HI as [H1 H2 H3 H4 H4' H5 H6 H7 H8 H9 H10 H11 H12 H13 H14 H15 H16 H17 H18].
  split; simpl in *; try assumption.
  - intros c Hc. destruct (H6 c Hc) as (h & Eh & Hh). exists h. split; [done|].
    apply elem_of_difference. split; [done|]. intros (c' & Hc' & E')%elem_of_list_to_set%list_elem_of_omap.
    apply list_elem_of_filter in Hc as [Hn Hc]. apply list_elem_of_filter in Hc' as [Hy Hc'].
    apply Hn. assert (c = c') as ->; [|done].
    apply list_elem_of_lookup in Hc as [i Hi]. apply list_elem_of_lookup in Hc' as [j Hj].
    assert (i = j) as ->; [|congruence].
    pose proof (inv_distinct _ _ HI0) as HN. eapply (NoDup_lookup _ i j (socket c) HN); rewrite list_lookup_fmap.
    + by rewrite Hi.
    + rewrite Hj. simpl. congruence.
  - intros h Hh. apply H7. set_solver.
Qed.

Lemma run_shutdown_InvD q s :
  Inv (Posted TShutdown :: q) s → InvD q (run_shutdown shutdown_grace_ms s).
Proof.
  intros HI. assert (Hr : shutdown_requested (close_idle s) = true).
  { rewrite close_idle_eq. simpl. apply (inv_shutdown _ _ HI). left. }
  pose proof (close_idle_Inv _ _ HI) as HI2.
  intros Hdl. revert Hdl. unfold run_shutdown, with_lock, shutdown_locked. rewrite (inv_mu _ _ HI).
  assert (E : close_idle (s <| mu_held := true |>) = (close_idle s) <| mu_held := true |>)
    by by rewrite !close_idle_eq.
  cbv zeta. rewrite E. clear E HI. revert Hr HI2. generalize (close_idle s). clear s. intros s Hr HI.
  simpl conns. case_bool_decide as Ec; simpl negb; cbn match.
  - simpl listening. destruct (listening s) eqn:El; [|done]. intros _.
    destruct (inv_listening _ _ HI El) as (_ & _ & _ & l & Hl & E1 & E2).
    apply (same_server_Inv q (close_listener (s <| listening := false |>))).
    + rewrite !(close_listener_eq _ l) by done. split_and!; try done. simpl. by rewrite (inv_mu _ _ HI).
    + apply (Inv_take (Posted TShutdown)); [|by apply close_last_Inv].
      rewrite (close_listener_eq _ l) by done. done.
  - intros _. assert (Hok : ok (start_status s) = true).
    { destruct (listening s) eqn:El; [by destruct (inv_listening _ _ HI El) as (_ & ? & _)|].
      destruct (drained s) eqn:Ed; [by destruct (inv_drained _ _ HI Ed)|].
      by pose proof (inv_no_conns _ _ HI El Ed). }
    destruct (SetTimer_Inv _ shutdown_grace_ms s HI Hr Hok) as [HI' Ht].
    apply (Inv_take (Posted TShutdown)); [intros _ Hrun _; exact (Ht Hrun)|].
    revert HI'. apply same_server_Inv. split_and!; try done. simpl. by rewrite (inv_mu _ _ HI).
Qed.

(** Only what [FinishShutdown] and the loops over [conns] change: the handles. *)
Lemma drop_conns_Inv q l s :
  Inv q s → Inv q (s <| conns := [] |> <| sockets := sockets s ∖ l |>).
Proof.
  intros [H1 H2 H3 H4 H4' H5 H6 H7 H8 H9 H10 H11 H12 H13 H14 H15 H16 H17 H18].
  split; simpl; try assumption; try done.
  - intros Hd. by destruct (H4 Hd) as (_ & ?).
  - by intros c Hc%not_elem_of_nil.
  - intros h Hh. apply H7. set_solver.
  - constructor.
Qed.

Lemma FinishShutdown_InvD q s :
  Inv q s → shutdown_requested s = true → ok (start_status s) = true →
  (∀ l, listener s = Some l → closing l = true → listener_closed s = true) →
  InvD q (FinishShutdown oracle depth spin s).
Proof.
  intros HI Hr Hok Hcl Hdl. revert Hdl. unfold FinishShutdown. rewrite (inv_mu _ _ HI).
  destruct (drained s) eqn:Ed; [done|]. cbv zeta.
  destruct (finish_conns_eq oracle depth spin (conns s) (s <| mu_held := true |>)) as (g & d & ->).
  pose proof (drop_conns_Inv q (list_to_set (omap socket (conns s))) s HI) as HI2.
  simpl listening. destruct (listening s) eqn:El; intros _.
  - destruct (inv_listening _ _ HI El) as (_ & _ & _ & l & Hl & E1 & E2).
    pose proof (close_last_Inv q _ HI2 El eq_refl Hr) as HI3. revert HI3. apply same_server_Inv.
    rewrite !(close_listener_eq _ l) by done. split_and!; try done. simpl. by rewrite (inv_mu _ _ HI).
  - destruct (inv_started _ _ HI (inv_requested _ _ HI Hr) Hok Ed) as [?|(Hn & l & Hl & Hc & _)];
      [congruence|]. rewrite (Hcl l Hl Hc) in Hn. done.
Qed.

Lemma OnConnIdle_Inv q s : Inv q s → Inv q (OnConnIdle s).
Proof.
  intros HI. unfold OnConnIdle, with_lock. cbv zeta. rewrite (inv_mu _ _ HI).
  pose proof (erase_conns_Inv (λ c, conn_closed (conn c) = true) q s HI) as HI2.
  assert (E : (erase_conns (λ c, conn_closed (conn c) = true) (s <| mu_held := true |>)) <| mu_held := false |>
     = erase_conns (λ c, conn_closed (conn c) = true) s)
    by (unfold erase_conns; simpl; by rewrite <- (inv_mu _ _ HI)).
  rewrite E. revert HI2. generalize (erase_conns (λ c, conn_closed (conn c) = true) s). clear E HI s.
  intros s HI. destruct (_ && _) eqn:Eb; [|done].
  apply andb_true_iff in Eb as [[[Hr Hc%bool_decide_eq_true]%andb_true_iff Hd]%andb_true_iff Hl].
  by apply close_last_Inv.
Qed.

Lemma listener_closed_Inv q s l cb :
  Inv q s → listener s = Some l → closing l = true → listener_closed s = false → on_closed_ l = Some cb →
  Inv q (complete_drain (s <| listener := Some (l <| on_closed_ := None |>) |> <| listener_closed := true |>)).
Proof.
  intros HI Hl Hc Hn Hcb. unfold complete_drain, with_lock. simpl. rewrite (inv_mu _ _ HI).
  destruct (inv_closing _ _ HI l Hl Hc) as (Hli & Hs & Hr & Hls & Hok & _).
  assert (Hd : drained s = false).
  { destruct (drained s) eqn:E; [|done]. destruct (inv_drained _ _ HI E) as (_ & _ & _ & H & _). congruence. }
  rewrite Hd. pose proof (inv_no_conns _ _ HI Hli Hd) as Hco.
  destruct HI as [H1 H2 H3 H4 H4' H5 H6 H7 H8 H9 H10 H11 H12 H13 H14 H15 H16 H17 H18].
  split; simpl in *; try assumption; try done; try (intros; congruence).
  - intros l0 [= <-] _. split_and!; try done.
  - intros Hp. destruct (H10 Hp) as (? & _). congruence.
Qed.

(** *** Calls *)

(** A task in hand is posted. *)
Lemma lifecycle_post_Inv t s : Inv [Posted t] s → Inv [] (s <| srv_loop ::= Post t |>).
Proof.
  intros [H1 H2 H3 H4 H4' H5 H6 H7 H8 H9 H10 H11 H12 H13 H14 H15 H16 H17 H18].
  assert (Hp : pending_ (Post t (srv_loop s)) ≡ₚ Posted t :: pending_ (srv_loop s))
    by (unfold Post; simpl; destruct (running_ (srv_loop s)); simpl; by rewrite Permutation_app_comm).
  assert (Hr : running_ (Post t (srv_loop s)) = running_ (srv_loop s))
    by (unfold Post; simpl; by destruct (running_ (srv_loop s)) eqn:E).
  assert (Ht : timers_ (Post t (srv_loop s)) = timers_ (srv_loop s))
    by (unfold Post; simpl; by destruct (running_ (srv_loop s))).
  assert (Hw : running_ (srv_loop s) = true → woken (Post t (srv_loop s)) = true)
    by (unfold Post; simpl; by intros ->).
  split; simpl; rewrite ?Hp, ?Hr, ?Ht; auto.
Qed.

Lemma call_Start_Inv t s :
  Inv [] s → (listener s = None ∨ start_done s = true) → Inv [] (call_Start t s).
Proof.
  intros HI Hok. unfold call_Start. destruct (start_done s) eqn:Es; [revert HI; by apply same_server_Inv|].
  destruct Hok as [Hl|]; [|done].
  apply (same_server_Inv _ (s <| listener := Some newListener |> <| srv_loop ::= Post TStart |>)); [done|].
  apply lifecycle_post_Inv.
  assert (Hli : listening s = false)
    by (destruct (listening s) eqn:E; [destruct (inv_listening _ _ HI E); congruence|done]).
  assert (Hd : drained s = false).
  { destruct (drained s) eqn:E; [|done]. destruct (inv_drained _ _ HI E) as (_ & _ & Hr & _).
    by rewrite (inv_requested _ _ HI Hr) in Es. }
  destruct HI as [H1 H2 H3 H4 H4' H5 H6 H7 H8 H9 H10 H11 H12 H13 H14 H15 H16 H17 H18].
  split; simpl in *; try assumption; try (intros; congruence).
  - by intros l [= <-].
  - apply NoDup_cons. split; [|done]. intros Hp. destruct (H10 Hp) as (_ & l & ? & _). congruence.
  - intros _. split; [done|]. by eexists.
  - intros [|]%elem_of_cons; [done|auto].
  - intros [|]%elem_of_cons; [done|auto].
  - intros [|]%elem_of_cons; [done|auto].
Qed.

Lemma call_Shutdown_Inv t s : Inv [] s → Inv [] (call_Shutdown t s).
Proof.
  intros HI. unfold call_Shutdown. destruct (start_done s) eqn:Es; simpl negb; cbn match.
  2: revert HI; by apply same_server_Inv.
  destruct (shutdown_requested s) eqn:Er; [revert HI; by apply same_server_Inv|].
  apply (same_server_Inv _ (s <| shutdown_requested := true |> <| srv_loop ::= Post TShutdown |>)); [done|].
  apply lifecycle_post_Inv.
  destruct HI as [H1 H2 H3 H4 H4' H5 H6 H7 H8 H9 H10 H11 H12 H13 H14 H15 H16 H17 H18].
  split; simpl in *; try assumption; try (intros; congruence).
  - intros l Hl Hc. destruct (H3 l Hl Hc) as (? & ? & ? & ?). congruence.
  - intros Hd. destruct (H4 Hd) as (? & ? & ? & ?). congruence.
  - apply NoDup_cons. split; [|done]. intros Hp. specialize (H11 Hp). congruence.
  - intros [|Hp]%elem_of_cons; [done|]. by destruct (H10 Hp); congruence.
  - intros [|]%elem_of_cons; [done|auto].
  - intros [|]%elem_of_cons; [done|auto].
  - intros id x Hx. by destruct (H15 id x Hx) as (? & _ & ?).
  - intros _ _ _ _. left. left.
Qed.

(** *** The loop *)
Lemma quit_Inv q s :
  Inv (QuitTask :: q) s → Inv q (s <| srv_loop := CloseAllHandlesOnLoop (srv_loop s) |>).
Proof.
  intros HI. assert (Hr : running_ (srv_loop s) = false) by (apply (inv_quit _ _ HI); left).
  apply Inv_take in HI; [|done].
  destruct HI as [H1 H2 H3 H4 H4' H5 H6 H7 H8 H9 H10 H11 H12 H13 H14 H15 H16 H17 H18].
  split; simpl; try assumption; try (intros; congruence).
  intros id t. by rewrite lookup_empty.
Qed.

Lemma run_srv_task_InvD t q s :
  t ≠ TFinishShutdown → InvD (Posted t :: q) s →
  InvD q (run_srv_task oracle depth spin uv_ip4_addr uv_ip6_addr uv_strerror uv_tcp_bind uv_listen
            address shutdown_grace_ms t s).
Proof.
  intros Ht HI. unfold run_srv_task. destruct (deadlocked s) eqn:Ed; [by intros Hd; congruence|].
  specialize (HI Ed). destruct t; [|by apply run_shutdown_InvD|done].
  intros _. by apply run_start_Inv.
Qed.

#[local] Abbreviation host := (server_host oracle depth spin uv_ip4_addr uv_ip6_addr uv_strerror
  uv_tcp_bind uv_listen address shutdown_grace_ms).

Lemma run_queued_InvD x q s :
  x ≠ Posted TFinishShutdown → InvD (x :: q) s → InvD q (run_queued (LoopHost0 := host) x s).
Proof.
  intros Hx HI. destruct x as [t|]; [apply run_srv_task_InvD; [by intros ->|done]|].
  intros Hd. apply quit_Inv, HI, Hd.
Qed.

Lemma run_all_InvD q s : InvD q s → InvD [] (fold_left (λ s x, run_queued (LoopHost0 := host) x s) q s).
Proof.
  revert s. induction q as [|x q IH]; intros s HI; simpl; [done|].
  apply IH. destruct (decide (deadlocked s = true)) as [Hd|Hd%not_true_is_false].
  - intros Hd'. destruct x as [t|]; simpl in Hd'; [|congruence].
    unfold run_srv_task in Hd'. rewrite Hd in Hd'. congruence.
  - apply run_queued_InvD; [|done]. intros ->. apply (inv_finish _ _ (HI Hd)). left.
Qed.

(** The wake-up is delivered: the queue is in the loop's hands. *)
Lemma swap_Inv s :
  Inv [] s → woken (srv_loop s) = true →
  Inv (pending_ (srv_loop s)) (s <| srv_loop := (srv_loop s) <| woken := false |> <| pending_ := [] |> |>).
Proof.
  intros [H1 H2 H3 H4 H4' H5 H6 H7 H8 H9 H10 H11 H12 H13 H14 H15 H16 H17 H18] Hw.
  split; simpl in *; rewrite ?app_nil_r; try assumption. by intros _ ?.
Qed.

Lemma tasks_InvD s :
  Inv [] s → woken (srv_loop s) = true →
  InvD [] (DrainPending (LoopHost0 := host) (s <| srv_loop ::= λ l, l <| woken := false |> |>)).
Proof. intros HI Hw. apply (run_all_InvD (pending_ (srv_loop s))). intros _. exact (swap_Inv s HI Hw). Qed.

(** The loop is none of [FinishShutdown]'s business. *)
Lemma finish_conns_loop l cs s :
  foldl (λ s c, finish_conn oracle depth spin c s) (s <| srv_loop := l |>) cs =
    (foldl (λ s c, finish_conn oracle depth spin c s) s cs) <| srv_loop := l |>.
Proof.
  revert s. induction cs as [|c cs IH]; intros s; [done|]. cbn [foldl]. rewrite <- IH. f_equal.
  unfold finish_conn, close_socket. cbv zeta.
  destruct (destroyed _ && _); by destruct (socket c).
Qed.

Lemma FinishShutdown_loop l s :
  FinishShutdown oracle depth spin (s <| srv_loop := l |>) =
    (FinishShutdown oracle depth spin s) <| srv_loop := l |>.
Proof.
  unfold FinishShutdown. cbv zeta. simpl mu_held. simpl drained. simpl conns.
  destruct (mu_held s); [done|]. destruct (drained s); [done|].
  change (s <| srv_loop := l |> <| mu_held := true |>) with (s <| mu_held := true |> <| srv_loop := l |>).
  rewrite finish_conns_loop.
  match goal with |- context [foldl ?f ?a ?b] => generalize (foldl f a b) end. intros s1. simpl listening. destruct (listening s1); [|done].
  unfold close_listener. simpl listener. destruct (listener s1) as [li|]; [|done].
  unfold Close. destruct (loop_set li); [done|]. simpl. unfold complete_drain, with_lock. simpl.
  by destruct (drained s1).
Qed.

Lemma complete_drain_listening s : listening (complete_drain s) = listening s.
Proof.
  unfold complete_drain, with_lock. destruct (mu_held s); [done|]. simpl.
  by destruct (drained s).
Qed.

(** It ends the shutdown, or leaves that to the listener. *)
Lemma FinishShutdown_settles s :
  mu_held s = false → drained s = true ∨ listening (FinishShutdown oracle depth spin s) = false ∨
  drained (FinishShutdown oracle depth spin s) = true.
Proof.
  intros Hm. unfold FinishShutdown. rewrite Hm. destruct (drained s); [by left|right]. cbv zeta.
  match goal with |- context [foldl ?f ?a ?b] => generalize (foldl f a b) end. intros s1.
  simpl listening at 1. destruct (listening s1) eqn:El; simpl; rewrite El; [left|by right].
  unfold close_listener. simpl. destruct (listener s1) as [l|]; [|done]. destruct (Close _ l) as [now l'].
  induction now as [|x now IH]; simpl; [done|]. by rewrite complete_drain_listening.
Qed.

Lemma lifecycle_cancel_timer_Inv q id s :
  Inv q s → listening s = false ∨ drained s = true → Inv q (s <| srv_loop := CancelTimer id (srv_loop s) |>).
Proof.
  intros [H1 H2 H3 H4 H4' H5 H6 H7 H8 H9 H10 H11 H12 H13 H14 H15 H16 H17 H18] Hl.
  unfold CancelTimer. destruct (timers_ (srv_loop s) !! id) as [t|] eqn:Et; [|by split].
  split; simpl; try assumption.
  - intros id' t' [_ Ht']%lookup_delete_Some. by apply H15 in Ht'.
  - intros. destruct Hl; congruence.
Qed.

Lemma grace_InvD id s :
  Inv [] s → (∀ l, listener s = Some l → closing l = true → listener_closed s = true) →
  InvD [] (OnTimer (LoopHost0 := host) id s).
Proof.
  intros HI Hcl. unfold OnTimer. cbn [get_loop set_loop run_task server_host].
  destruct (timers_ (srv_loop s) !! id) as [t|] eqn:Et; [|by intros _].
  destruct (inv_timers _ _ HI id t Et) as (-> & Hr & Hok). unfold run_srv_task.
  change (deadlocked (s <| srv_loop := CancelTimer id (srv_loop s) |>)) with (deadlocked s).
  destruct (deadlocked s) eqn:Ed; [by intros Hd; simpl in Hd; congruence|].
  rewrite FinishShutdown_loop. intros Hd.
  pose proof (FinishShutdown_InvD [] s HI Hr Hok Hcl Hd) as HI'.
  assert (Es : srv_loop (FinishShutdown oracle depth spin s) = srv_loop s).
  { replace s with (s <| srv_loop := srv_loop s |>) at 1 by by destruct s. by rewrite FinishShutdown_loop. }
  rewrite <- Es. apply lifecycle_cancel_timer_Inv; [done|].
  destruct (FinishShutdown_settles s (inv_mu _ _ HI)) as [Hdr|[?|?]]; [|by left|by right].
  right. unfold FinishShutdown. by rewrite (inv_mu _ _ HI), Hdr.
Qed.

End Steps.

Lemma stop_Inv s : Inv [] s → Inv [] (s <| srv_loop ::= Stop |>).
Proof.
  intros HI. destruct (running_ (srv_loop s)) eqn:Er.
  2: { revert HI. apply same_server_Inv. unfold same_server, Stop. simpl. by rewrite Er. }
  assert (Hp : pending_ (Stop (srv_loop s)) = [QuitTask] ∧ running_ (Stop (srv_loop s)) = false ∧
    timers_ (Stop (srv_loop s)) = timers_ (srv_loop s))
    by (unfold Stop; rewrite Er; simpl; by destruct (wake_closed (srv_loop s))).
  destruct Hp as (Hp & Hr & Ht).
  destruct HI as [H1 H2 H3 H4 H4' H5 H6 H7 H8 H9 H10 H11 H12 H13 H14 H15 H16 H17 H18].
  split; simpl; rewrite ?Hp, ?Hr, ?Ht; try assumption; try (intros; congruence);
    try (intros E; by apply list_elem_of_singleton in E).
  apply NoDup_singleton.
Qed.

(** *** Connections *)
Lemma on_accept_Inv s : Inv [] s → listening s = true → Inv [] (on_accept s).
Proof.
  intros HI Hl. unfold on_accept, with_lock. simpl. rewrite (inv_mu _ _ HI).
  destruct HI as [H1 H2 H3 H4 H4' H5 H6 H7 H8 H9 H10 H11 H12 H13 H14 H15 H16 H17 H18].
  split; simpl in *; try assumption; try (intros; congruence).
  - intros Hd. destruct (H4 Hd) as (_ & ? & _). congruence.
  - intros c [Hc| ->%list_elem_of_singleton]%elem_of_app.
    + destruct (H6 c Hc) as (h & ? & ?). exists h. set_solver.
    + eexists. split; [reflexivity|]. set_solver.
  - intros h [->%elem_of_singleton|Hh]%elem_of_union; [lia|]. specialize (H7 h Hh). lia.
  - rewrite map_app. apply NoDup_app. split_and!; [done| |apply NoDup_singleton].
    intros x (c & -> & Hc)%list_elem_of_fmap. simpl. intros E%list_elem_of_singleton.
    destruct (H6 c Hc) as (h & Eh & Hh). specialize (H7 h Hh). rewrite Eh in E. injection E. lia.
Qed.

Lemma update_conn_Inv q i f s :
  Inv q s →
  Inv q (s <| conns ::= alter (λ c : SConn, c <| conn ::= f |>) i |>).
Proof.
  intros [H1 H2 H3 H4 H4' H5 H6 H7 H8 H9 H10 H11 H12 H13 H14 H15 H16 H17 H18].
  assert (Hm : map socket (alter (λ c : SConn, c <| conn ::= f |>) i (conns s)) = map socket (conns s)).
  { generalize (conns s). clear. intros l. revert i. induction l as [|c l IH]; intros [|i]; simpl; try done.
    f_equal. apply IH. }
  split; simpl; rewrite ?Hm; try assumption.
  - intros Hd. by destruct (H4 Hd) as (-> & ?).
  - intros c Hc. assert (Hs : socket c ∈ map socket (conns s))
      by (rewrite <- Hm; apply list_elem_of_fmap; eauto).
    apply list_elem_of_fmap in Hs as (c' & -> & Hc'). by apply H6.
  - exact (eq_ind_r NoDup H8 Hm).
  - intros Hl Hd. by rewrite H17.
Qed.

(** ** Runs *)
Section Runs.
Context (oracle : Out → World → list ReOp) (depth spin : nat).
Context (router : Router nat nat) (max_receive_size : Z).
Context {sockaddr : Type} (uv_ip4_addr uv_ip6_addr : string → Z → sockaddr + Z).
Context (uv_strerror : Z → string) (uv_tcp_bind : sockaddr → Z) (uv_listen : Z).
Context (address : string) (shutdown_grace_ms : Z).

#[local] Abbreviation step := (Lifecycle.step oracle depth spin router max_receive_size
  uv_ip4_addr uv_ip6_addr uv_strerror uv_tcp_bind uv_listen address shutdown_grace_ms).
#[local] Abbreviation run := (Lifecycle.run oracle depth spin router max_receive_size
  uv_ip4_addr uv_ip6_addr uv_strerror uv_tcp_bind uv_listen address shutdown_grace_ms).
#[local] Abbreviation reachable := (Lifecycle.reachable oracle depth spin router max_receive_size
  uv_ip4_addr uv_ip6_addr uv_strerror uv_tcp_bind uv_listen address shutdown_grace_ms).

Lemma step_InvD e s : InvD [] s → Lifecycle.ev_ok e s → InvD [] (step e s).
Proof.
  intros HI Hok. unfold Lifecycle.step. destruct (deadlocked s) eqn:Ed; [by intros Hd; congruence|].
  specialize (HI Ed). destruct e as [t|t|t|t|st ac|i e|i e| |id| |]; simpl in Hok.
  - intros _. apply call_Start_Inv; [done|apply Hok].
  - intros _. by apply call_Shutdown_Inv.
  - intros _. revert HI. by apply same_server_Inv.
  - intros _. revert HI. unfold return_call. cbv zeta.
    destruct (callers s !! t) as [[]|]; [destruct (start_done s)|destruct (drained s)|];
      try done; by apply same_server_Inv.
  - intros _. destruct (listener s) as [l|]; [|done]. destruct (OnConnection st ac l); [|done].
    by apply on_accept_Inv.
  - intros _. unfold conn_event. destruct (conns s !! i); [|done]. cbv zeta.
    assert (HI' := update_conn_Inv [] i (ServerRun.step oracle depth spin router max_receive_size e) s HI).
    destruct e; try exact HI'. by apply OnConnIdle_Inv.
  - intros _. revert HI. by apply same_server_Inv.
  - destruct (woken (srv_loop s)) eqn:Ew; [by apply tasks_InvD|by intros _].
  - by apply grace_InvD.
  - intros _. destruct (listener s) as [l|] eqn:El; [|done].
    destruct (closing l) eqn:Ec; [|done]. destruct (listener_closed s) eqn:En; [done|]. simpl.
    destruct (inv_closing _ _ HI l El Ec) as (_ & _ & _ & _ & _ & Hcb). destruct (Hcb En) as [cb Ecb].
    unfold OnClosedTramp. rewrite Ecb. simpl.
    exact (listener_closed_Inv [] s l cb HI El Ec En Ecb).
  - intros _. by apply stop_Inv.
Qed.

Lemma reachable_InvD s : reachable s → InvD [] s.
Proof. induction 1 as [|s e Hr IH He]; [intros _; apply new_server_Inv|by apply step_InvD]. Qed.
End Runs.

(** ** Quiet cancel callbacks *)

(** A callback that is told of a cancellation does not come back to the server
    before it returns. *)
Definition quiet_cancel (oracle : Out → World → list ReOp) : Prop :=
  ∀ cb w, oracle (UserCancel cb) w = [].

Section Quiet.
Context (oracle : Out → World → list ReOp) (depth spin : nat).
Hypothesis quiet : quiet_cancel oracle.
#[local] Set Default Proof Using "Type*".

Lemma env_quiet n cb w : env oracle spin n (UserCancel cb) w = w.
Proof. destruct n; simpl; [done|]. by rewrite quiet. Qed.

Lemma deref_destroyed sid w : destroyed (deref sid w) = destroyed w ∧ loop (deref sid w) = loop w.
Proof using Type. unfold deref. by destruct (calls w !! sid). Qed.

Lemma fire_cancel_cbs_quiet sid cbs w :
  let w' := fire_cancel_cbs (env oracle spin depth) sid cbs w in
  destroyed w' = destroyed w ∧ loop w' = loop w.
Proof.
  revert w. induction cbs as [|cb cbs IH]; intros w; simpl; [done|].
  destruct (IH (deref sid (call_out (env oracle spin depth) (UserCancel cb) w))) as [-> ->].
  unfold call_out. rewrite env_quiet. unfold deref. by case_match.
Qed.

Lemma fire_all_quiet sids w :
  let w' := fire_all oracle depth spin sids w in destroyed w' = destroyed w ∧ loop w' = loop w.
Proof.
  revert w. induction sids as [|sid sids IH]; intros w; simpl; [done|].
  destruct (IH (deref sid (FireCancel (env oracle spin depth) sid (deref sid w)))) as [-> ->].
  destruct (deref_destroyed sid (FireCancel (env oracle spin depth) sid (deref sid w))) as [-> ->].
  unfold FireCancel. destruct (calls (deref sid w) !! sid) as [c|]; [|apply deref_destroyed].
  destruct (cancel_fired c); [apply deref_destroyed|]. simpl.
  match goal with |- context [fire_cancel_cbs ?re ?sid ?cbs ?w0] =>
    destruct (fire_cancel_cbs_quiet sid cbs w0) as [-> ->] end.
  unfold deref. by case_match.
Qed.

Lemma finish_conns_quiet cs s :
  deadlocked (foldl (λ s c, finish_conn oracle depth spin c s) s cs) = deadlocked s.
Proof.
  revert s. induction cs as [|c cs IH]; intros s; simpl; [done|]. rewrite IH.
  unfold finish_conn. cbv zeta.
  destruct (fire_all_quiet (map_keys (calls (conn c))) ((conn c) <| conn_closed := true |>)) as [-> _].
  simpl. rewrite andb_negb_r. unfold close_socket. by destruct (socket c).
Qed.
End Quiet.

(** What [FinishShutdown] leaves alone. *)
Lemma FinishShutdown_frame oracle depth spin s l :
  mu_held s = false → listening s = true → listener s = Some l → loop_set l = true → closing l = false →
  let s' := FinishShutdown oracle depth spin s in
  start_done s' = start_done s ∧ start_status s' = start_status s ∧
  (quiet_cancel oracle → deadlocked s' = deadlocked s).
Proof.
  intros Hm Hli Hl E1 E2. unfold FinishShutdown. rewrite Hm. destruct (drained s); [done|]. cbv zeta.
  destruct (finish_conns_eq oracle depth spin (conns s) (s <| mu_held := true |>)) as (g & d & E).
  assert (Hq : quiet_cancel oracle → d = false ∨ deadlocked s = true).
  { intros Hq. pose proof (finish_conns_quiet oracle depth spin Hq (conns s) (s <| mu_held := true |>)) as H.
    pose proof (eq_trans (f_equal deadlocked (eq_sym E)) H) as H'. simpl in H'. destruct d; [right|by left]. by symmetry. }
  rewrite E. simpl listening. rewrite Hli. rewrite (close_listener_eq _ l) by done. simpl.
  split_and!; [done|done|]. intros H. destruct (Hq H) as [-> | ->]; [done|]. apply orb_true_r.
Qed.

(** ** The properties of every run *)
Section Theorems.
Context (oracle : Out → World → list ReOp) (depth spin : nat).
Context (router : Router nat nat) (max_receive_size : Z).
Context {sockaddr : Type} (uv_ip4_addr uv_ip6_addr : string → Z → sockaddr + Z).
Context (uv_strerror : Z → string) (uv_tcp_bind : sockaddr → Z) (uv_listen : Z).
Context (address : string) (shutdown_grace_ms : Z).

#[local] Abbreviation step := (Lifecycle.step oracle depth spin router max_receive_size
  uv_ip4_addr uv_ip6_addr uv_strerror uv_tcp_bind uv_listen address shutdown_grace_ms).
#[local] Abbreviation run := (Lifecycle.run oracle depth spin router max_receive_size
  uv_ip4_addr uv_ip6_addr uv_strerror uv_tcp_bind uv_listen address shutdown_grace_ms).
#[local] Abbreviation reachable := (Lifecycle.reachable oracle depth spin router max_receive_size
  uv_ip4_addr uv_ip6_addr uv_strerror uv_tcp_bind uv_listen address shutdown_grace_ms).

(** A drained server has let go of everything.  On every run, when [drained]
    is set, which is when [Shutdown] and [Wait] return, no connection is left,
    the server does not listen, and libuv has closed the listener's handle. *)
Theorem drained_means_closed s :
  reachable s → deadlocked s = false → drained s = true →
  conns s = [] ∧ listening s = false ∧ listener_closed s = true ∧ IsRunning s = false.
Proof.
  intros Hs Hd Hdr. pose proof (reachable_InvD _ _ _ _ _ _ _ _ _ _ _ _ s Hs Hd) as HI.
  destruct (inv_drained _ _ HI Hdr) as (? & ? & _ & ? & _). unfold IsRunning. by rewrite Hdr.
Qed.

(** The events are ones that libuv may report. *)
Fixpoint run_ok (es : list Event) (s : Server) : Prop :=
  match es with
  | [] => True
  | e :: es => Lifecycle.ev_ok e s ∧ run_ok es (step e s)
  end.
Definition loop_event (e : Event) : Prop :=
  match e with EvTasks | EvGrace _ | EvListenerClosed => True | _ => False end.

(** The loop alone brings the server to its drain in [n] events. *)
Definition drains (n : nat) (s : Server) : Prop :=
  ∃ es, (length es ≤ n)%nat ∧ Forall loop_event es ∧ run_ok es s ∧
    drained (run es s) = true ∧ deadlocked (run es s) = false.

Lemma drains_step n e s :
  loop_event e → Lifecycle.ev_ok e s → drains n (step e s) → drains (S n) s.
Proof.
  intros He Hok (es & Hn & HF & Hr & H1 & H2). exists (e :: es).
  split_and!; simpl; [lia|by constructor|done|done|done].
Qed.

Lemma drains_0 n s : drained s = true → deadlocked s = false → drains n s.
Proof. intros. exists []. by split_and!; [simpl; lia|constructor|..]. Qed.

(** Once the listener is closing, its report is enough. *)
Lemma drains_closing s :
  Inv [] s → deadlocked s = false → start_done s = true → ok (start_status s) = true →
  listening s = false → drains 1 s.
Proof.
  intros HI Hd Hs Hok Hl. destruct (drained s) eqn:Edr; [by apply drains_0|].
  destruct (inv_started _ _ HI Hs Hok Edr) as [?|(Hn & l & El & Ec & _ & cb & Ecb)]; [congruence|].
  apply (drains_step 0 EvListenerClosed); [done|done|].
  unfold Lifecycle.step. rewrite Hd, El, Ec, Hn. simpl. unfold OnClosedTramp. rewrite Ecb. simpl.
  unfold complete_drain, with_lock. simpl. rewrite (inv_mu _ _ HI), Edr. by apply drains_0.
Qed.

(** Once the grace timer runs out, two events are. *)
Lemma drains_grace s id t :
  quiet_cancel oracle → Inv [] s → deadlocked s = false → listening s = true →
  timers_ (srv_loop s) !! id = Some t → drains 2 s.
Proof.
  intros Hq HI Hd Hl Ht. destruct (inv_listening _ _ HI Hl) as (Hs & Hok & _ & l & El & E1 & E2).
  assert (Hcl : Lifecycle.ev_ok (EvGrace id) s) by (intros l0; rewrite El; intros [= <-]; congruence).
  apply (drains_step 1 (EvGrace id)); [done|exact Hcl|].
  pose proof (step_InvD oracle depth spin router max_receive_size uv_ip4_addr uv_ip6_addr uv_strerror
    uv_tcp_bind uv_listen address shutdown_grace_ms (EvGrace id) s (λ _, HI) Hcl) as HI'.
  destruct (inv_timers _ _ HI id t Ht) as (Et & _ & _).
  assert (Es : step (EvGrace id) s =
    (FinishShutdown oracle depth spin s) <| srv_loop := CancelTimer id (srv_loop s) |>).
  { unfold Lifecycle.step. rewrite Hd. unfold OnTimer. cbn [get_loop set_loop run_task server_host].
    rewrite Ht, Et. unfold run_srv_task.
    change (deadlocked (s <| srv_loop := CancelTimer id (srv_loop s) |>)) with (deadlocked s).
    by rewrite Hd, FinishShutdown_loop. }
  rewrite Es in *. destruct (FinishShutdown_frame oracle depth spin s l (inv_mu _ _ HI) Hl El E1 E2) as (F1 & F2 & F3).
  specialize (F3 Hq). rewrite Hd in F3.
  destruct (FinishShutdown_settles oracle depth spin s (inv_mu _ _ HI)) as [Hdr|[Hli|Hdr]].
  - destruct (inv_drained _ _ HI Hdr) as (_ & ? & _). congruence.
  - apply drains_closing; simpl; [by apply HI'|done|by rewrite F1|by rewrite F2|done].
  - by apply drains_0.
Qed.

(** The posted task, on a server that listens. *)
Lemma run_shutdown_listening s l :
  mu_held s = false → listening s = true → listener s = Some l → loop_set l = true → closing l = false →
  let s' := run_shutdown shutdown_grace_ms s in
  deadlocked s' = deadlocked s ∧ start_done s' = start_done s ∧ start_status s' = start_status s ∧
  (listening s' = false ∨
   listening s' = true ∧ srv_loop s' = (SetTimer shutdown_grace_ms TFinishShutdown (srv_loop s)).2).
Proof.
  intros Hm Hl El E1 E2. unfold run_shutdown, with_lock, shutdown_locked. rewrite Hm, close_idle_eq.
  cbv zeta. destruct (bool_decide _); simpl negb; cbn match.
  - simpl. rewrite Hl, !(close_listener_eq _ l) by done. split_and!; try done. by left.
  - simpl. rewrite Hl. split_and!; try done. by right.
Qed.

Lemma only_element {A} (a : A) l : NoDup l → (∀ x, x ∈ l → x = a) → a ∈ l → l = [a].
Proof.
  intros HN Hall Ha. destruct l as [|x [|y l]]; [by inversion Ha|f_equal; apply Hall; left|].
  apply NoDup_cons in HN as [Hx _]. destruct Hx.
  rewrite (Hall x), (Hall y); [left|right; left|left].
Qed.

(** The wake-up, when the task of [Shutdown] is what was posted. *)
Definition in_hand (s : Server) : Server :=
  s <| srv_loop := (srv_loop s) <| woken := false |> <| pending_ := [] |> |>.

Lemma tasks_shutdown s :
  Inv [] s → deadlocked s = false → pending_ (srv_loop s) = [Posted TShutdown] →
  running_ (srv_loop s) = true → step EvTasks s = run_shutdown shutdown_grace_ms (in_hand s).
Proof.
  intros HI Hd Hpe Hrun.
  assert (Hw : woken (srv_loop s) = true) by (apply (inv_woken _ _ HI); [done|by rewrite Hpe]).
  unfold Lifecycle.step. rewrite Hd, Hw.
  transitivity (fold_left (λ s x, run_queued (LoopHost0 := server_host oracle depth spin uv_ip4_addr
    uv_ip6_addr uv_strerror uv_tcp_bind uv_listen address shutdown_grace_ms) x s)
    (pending_ (srv_loop s)) (in_hand s)); [reflexivity|].
  rewrite Hpe. cbn [fold_left run_queued run_task server_host]. unfold run_srv_task.
  change (deadlocked (in_hand s)) with (deadlocked s). by rewrite Hd.
Qed.

(** Once the task of [Shutdown] is posted, three events are. *)
Lemma drains_posted s :
  quiet_cancel oracle → Inv [] s → deadlocked s = false → shutdown_requested s = true →
  running_ (srv_loop s) = true → listening s = true →
  Posted TShutdown ∈ pending_ (srv_loop s) → drains 3 s.
Proof.
  intros Hq HI Hd Hr Hrun Hl Hp. destruct (inv_listening _ _ HI Hl) as (Hs & Hok & _ & l & El & E1 & E2).
  assert (Hpe : pending_ (srv_loop s) = [Posted TShutdown]).
  { apply only_element; [apply (inv_tasks _ _ HI)| |done]. intros [[| |]|] Hx; try done.
    - destruct (inv_start _ _ HI Hx). congruence.
    - by destruct (inv_finish _ _ HI).
    - pose proof (inv_quit _ _ HI Hx). congruence. }
  apply (drains_step 2 EvTasks); [done|done|].
  pose proof (step_InvD oracle depth spin router max_receive_size uv_ip4_addr uv_ip6_addr uv_strerror
    uv_tcp_bind uv_listen address shutdown_grace_ms EvTasks s (λ _, HI) I) as HI'.
  set (s1 := in_hand s). assert (Es := tasks_shutdown s HI Hd Hpe Hrun). fold s1 in Es.
  rewrite Es in *.
  destruct (run_shutdown_listening s1 l (inv_mu _ _ HI) Hl El E1 E2) as (F1 & F2 & F3 & [F4|[F4 F5]]);
    specialize (HI' (eq_trans F1 Hd)).
  - destruct (drains_closing _ HI') as (es & ? & ?); [by rewrite F1|by rewrite F2|by rewrite F3|done|].
    exists es. split; [lia|done].
  - unfold SetTimer in F5. simpl in F5. rewrite Hrun in F5. simpl in F5.
    eapply drains_grace; [done|done|by rewrite F1|done|]. rewrite F5. apply lookup_insert_eq.
Qed.

(** C31: A shutdown completes within its grace time.  From any state that a run
    reaches after [Shutdown] was called on a server that had started, at most
    three events of the loop, the wake-up, the grace timer and the report that
    the listener's handle is closed, drain it, whatever calls are in flight:
    provided the server's mutex was not locked twice, the loop runs, the cancel
    callbacks do not come back to the server, and the listener was not closed
    before the posted task ran.  Peers are told nothing but that their sockets
    close: the contracts ask for GOAWAY, and for UNAVAILABLE to the streams that
    the grace time cuts. *)
Theorem shutdown_completes s :
  reachable s → deadlocked s = false →
  shutdown_requested s = true → ok (start_status s) = true → running_ (srv_loop s) = true →
  quiet_cancel oracle →
  (listening s = true ∨ Posted TShutdown ∉ pending_ (srv_loop s)) →
  drains 3 s.
Proof.
  intros Hs Hd Hr Hok Hrun Hq Hrace.
  pose proof (reachable_InvD _ _ _ _ _ _ _ _ _ _ _ _ s Hs Hd) as HI.
  assert (Hmono : ∀ n, (n ≤ 3)%nat → drains n s → drains 3 s)
    by (intros n Hn (es & ? & ?); exists es; split; [lia|done]).
  destruct (listening s) eqn:Hl.
  2: { apply (Hmono 1%nat); [lia|]. apply drains_closing; try done. by apply (inv_requested _ _ HI). }
  destruct (drained s) eqn:Hdr; [by apply drains_0|].
  destruct (inv_grace _ _ HI Hr Hrun Hdr Hl) as [Hp|(id & t & Ht)].
  - by apply drains_posted.
  - apply (Hmono 2%nat); [lia|]. by apply (drains_grace s id t).
Qed.

(** A shutdown spares the work in flight.  When the posted task runs on a
    server with busy connections, exactly the connections without calls are
    closed and forgotten, the others are as they were, with their handles, the
    listener stays, nothing is drained, and the grace timer is armed. *)
Theorem shutdown_spares_busy s c :
  reachable s → deadlocked s = false → running_ (srv_loop s) = true →
  pending_ (srv_loop s) = [Posted TShutdown] → c ∈ conns s → calls (conn c) ≠ ∅ →
  let s' := step EvTasks s in
  conns s' = filter (λ c, calls (conn c) ≠ ∅) (conns s) ∧
  sockets s' = sockets s ∖ list_to_set (omap socket (filter (λ c, calls (conn c) = ∅) (conns s))) ∧
  (∀ c', c' ∈ conns s' → ∃ h, socket c' = Some h ∧ h ∈ sockets s') ∧
  listening s' = listening s ∧ drained s' = drained s ∧ deadlocked s' = false ∧
  ∃ id t, timers_ (srv_loop s') !! id = Some t ∧ task t = TFinishShutdown ∧ delay_ms t = shutdown_grace_ms.
Proof.
  intros Hs Hd Hrun Hpe Hc Hbusy s'.
  pose proof (reachable_InvD _ _ _ _ _ _ _ _ _ _ _ _ s Hs Hd) as HI.
  assert (Es : s' = (close_idle (in_hand s))
     <| srv_loop := (SetTimer shutdown_grace_ms TFinishShutdown (srv_loop (in_hand s))).2 |>).
  { subst s'. rewrite (tasks_shutdown s HI Hd Hpe Hrun). unfold run_shutdown, with_lock, shutdown_locked.
    change (mu_held (in_hand s)) with (mu_held s). rewrite (inv_mu _ _ HI), !close_idle_eq. simpl.
    rewrite bool_decide_false; [simpl; by rewrite (inv_mu _ _ HI)|].
    intros E. assert (Hin : c ∈ filter (λ c, calls (conn c) ≠ ∅) (conns s)) by by apply list_elem_of_filter.
    rewrite E in Hin. by inversion Hin. }
  assert (HI' : Inv [] s').
  { apply (step_InvD oracle depth spin router max_receive_size uv_ip4_addr uv_ip6_addr uv_strerror
      uv_tcp_bind uv_listen address shutdown_grace_ms EvTasks s (λ _, HI) I).
    fold s'. by rewrite Es, close_idle_eq. }
  rewrite Es, close_idle_eq in HI' |- *. unfold SetTimer in *. simpl in *. rewrite Hrun in *. simpl in *.
  split_and!; try done; [exact (inv_conns _ _ HI')|].
  do 2 eexists. split; [apply lookup_insert_eq|done].
Qed.

(** A server whose start failed can not be shut down.  [Shutdown] of it waits
    for ever: no run drains it, and the posted task, which finds nothing to
    close, locks the mutex that it holds. *)
Theorem failed_start_never_drains s :
  reachable s → deadlocked s = false → start_done s = true → ok (start_status s) = false →
  drained s = false ∧ (∀ t, callers s !! t = Some InDrain → return_call t s = s) ∧
  (running_ (srv_loop s) = true → pending_ (srv_loop s) = [Posted TShutdown] →
    deadlocked (step EvTasks s) = true).
Proof.
  intros Hs Hd Hst Hok. pose proof (reachable_InvD _ _ _ _ _ _ _ _ _ _ _ _ s Hs Hd) as HI.
  assert (Hdr : drained s = false)
    by (destruct (drained s) eqn:E; [destruct (inv_drained _ _ HI E) as (_ & _ & _ & _ & ?); congruence|done]).
  assert (Hl : listening s = false)
    by (destruct (listening s) eqn:E; [destruct (inv_listening _ _ HI E) as (_ & ? & _); congruence|done]).
  split_and!; [done| |].
  - intros t Ht. unfold return_call. by rewrite Ht, Hdr.
  - intros Hrun Hpe. rewrite (tasks_shutdown s HI Hd Hpe Hrun). unfold run_shutdown, with_lock, shutdown_locked.
    change (mu_held (in_hand s)) with (mu_held s). rewrite (inv_mu _ _ HI), close_idle_eq. simpl.
    rewrite (inv_no_conns _ _ HI Hl Hdr), Hl. done.
Qed.

(** A connection without calls is lost. *)
Lemma lost_idle_closed w :
  conn_closed w = false → calls w = ∅ → conn_closed (OnReadError (env oracle spin depth) spin w) = true.
Proof.
  intros Hcl Hca. unfold OnReadError. rewrite Hcl. change (calls (w <| conn_closed := true |>)) with (calls w).
  by rewrite Hca.
Qed.

(** The last connection is erased during a shutdown. *)
Lemma OnConnIdle_last s c l :
  conns s = [c] → conn_closed (conn c) = true → mu_held s = false → shutdown_requested s = true →
  drained s = false → listening s = true → listener s = Some l → loop_set l = true → closing l = false →
  let s' := OnConnIdle s in
  deadlocked s' = deadlocked s ∧ srv_loop s' = srv_loop s ∧ conns s' = [] ∧ listening s' = false.
Proof.
  intros Hc Hcl Hm Hr Hd Hl El E1 E2. unfold OnConnIdle, with_lock. rewrite Hm. cbv zeta.
  assert (E : conns ((erase_conns (λ c, conn_closed (conn c) = true) (s <| mu_held := true |>)) <| mu_held := false |>) = []).
  { simpl. rewrite Hc, filter_cons_False by (intros H; by destruct H). done. }
  rewrite E, bool_decide_true by done. simpl. rewrite Hr, Hd, Hl. simpl.
  rewrite (close_listener_eq _ l) by done. simpl. split_and!; try done.
Qed.

(** A shutdown can deadlock.  When the last connection is lost between the
    call of [Shutdown] and the task it posts, the loss closes the listener, and
    the task then locks the mutex that it holds. *)
Theorem lost_connection_deadlocks_shutdown s c :
  reachable s → deadlocked s = false → running_ (srv_loop s) = true → listening s = true →
  pending_ (srv_loop s) = [Posted TShutdown] → conns s = [c] →
  conn_closed (conn c) = false → calls (conn c) = ∅ → destroyed (conn c) = false →
  deadlocked (step EvTasks (step (EvConn 0 EvReadError) s)) = true.
Proof.
  intros Hs Hd Hrun Hl Hpe Hc Hcl Hca Hde.
  pose proof (reachable_InvD _ _ _ _ _ _ _ _ _ _ _ _ s Hs Hd) as HI.
  assert (Hok : Lifecycle.ev_ok (EvConn 0 EvReadError) s) by (intros c0; rewrite Hc; by intros [= <-]).
  pose proof (reachable_InvD _ _ _ _ _ _ _ _ _ _ _ _ _
    (srv_step _ _ _ _ _ _ _ _ _ _ _ _ s (EvConn 0 EvReadError) Hs Hok)) as HI1.
  assert (Hr : shutdown_requested s = true) by (apply (inv_shutdown _ _ HI); rewrite Hpe; left).
  destruct (inv_listening _ _ HI Hl) as (_ & _ & _ & l & El & E1 & E2).
  assert (Hdr : drained s = false)
    by (destruct (drained s) eqn:E; [destruct (inv_drained _ _ HI E) as (_ & ? & _); congruence|done]).
  set (s1 := step (EvConn 0 EvReadError) s) in *.
  assert (E : deadlocked s1 = false ∧ srv_loop s1 = srv_loop s ∧ conns s1 = [] ∧ listening s1 = false).
  { subst s1. unfold Lifecycle.step. rewrite Hd. unfold conn_event. rewrite Hc. cbn [lookup list_lookup].
    set (f := λ c : SConn, c <| conn ::= ServerRun.step oracle depth spin router max_receive_size EvReadError |>).
    destruct (OnConnIdle_last (s <| conns ::= alter f 0%nat |>) (f c) l) as (D1 & D2 & D3 & D4);
      try done; simpl; [by rewrite Hc|by apply lost_idle_closed|apply (inv_mu _ _ HI)|].
    by split_and!; [exact (eq_trans D1 Hd)|..]. }
  destruct E as (D1 & D2 & D3 & D4). specialize (HI1 D1).
  rewrite (tasks_shutdown s1 HI1 D1) by by rewrite D2.
  unfold run_shutdown, with_lock, shutdown_locked.
  change (mu_held (in_hand s1)) with (mu_held s1). rewrite (inv_mu _ _ HI1), close_idle_eq. simpl.
  by rewrite D3, D4.
Qed.

(** *** What is left behind *)

(** The connections' own events, a loss apart, and their outcome. *)
Definition own_event (e : Event) : Prop :=
  match e with EvConn _ e => e ≠ EvReadError | _ => False end.

(** A connection that becomes idle does not end the drain.  Whatever the
    connections do during a shutdown, short of being lost, every one of them
    stays, and the drain does not move: it waits for the grace timer even when
    the last call has ended. *)
Theorem idle_connection_not_drained es s :
  Forall own_event es →
  let s' := run es s in
  length (conns s') = length (conns s) ∧ drained s' = drained s ∧ listening s' = listening s ∧
  listener s' = listener s ∧ srv_loop s' = srv_loop s.
Proof.
  intros Hes. cbv zeta. unfold Lifecycle.run. revert s. induction Hes as [|e es He Hes IH]; intros s; [done|].
  cbn [fold_left]. destruct (IH (step e s)) as (-> & -> & -> & -> & ->).
  unfold Lifecycle.step. destruct (deadlocked s); [done|]. destruct e as [| | | | |i e| | | | |]; try done.
  simpl in He. unfold conn_event. destruct (conns s !! i); [|done].
  destruct e; try done; simpl; by rewrite length_alter.
Qed.

End Theorems.

(** What [FinishShutdown] does with the connections: their loops' timers stay. *)
Lemma finish_conns_gone oracle depth spin cs s c :
  quiet_cancel oracle → c ∈ cs →
  ∃ w, w ∈ gone (foldl (λ s c, finish_conn oracle depth spin c s) s cs) ∧
    destroyed w = true ∧ loop w = loop (conn c).
Proof.
  intros Hq Hc. revert s. induction Hc as [c cs|c c' cs Hc IH]; intros s; cbn [foldl]; [|apply IH].
  destruct (finish_conns_eq oracle depth spin cs (finish_conn oracle depth spin c s)) as (g & d & ->).
  set (w := fire_all oracle depth spin (map_keys (calls (conn c))) ((conn c) <| conn_closed := true |>)).
  exists (erase w). simpl. split_and!; [|done|].
  - apply elem_of_app. left. unfold finish_conn. cbv zeta. fold w. apply elem_of_app. right. by left.
  - exact (proj2 (fire_all_quiet oracle depth spin Hq _ _)).
Qed.

(** The end of the grace time leaves the deadline timers of the calls it
    cuts.  The connection is erased, its timer is not cancelled, and when that
    expires its task uses the connection. *)
Theorem cut_calls_keep_timers oracle depth spin router mrs s c id t sid :
  quiet_cancel oracle → mu_held s = false → drained s = false → listening s = false ∨ (∃ l,
    listener s = Some l ∧ loop_set l = true ∧ closing l = false) →
  c ∈ conns s → timers_ (loop (conn c)) !! id = Some t → task t = TDeadline sid →
  ∃ w, w ∈ gone (FinishShutdown oracle depth spin s) ∧ destroyed w = true ∧
    ub (ServerRun.step oracle depth spin router mrs (EvTimer id) w) = true.
Proof.
  intros Hq Hm Hd Hl Hc Ht Htk.
  destruct (finish_conns_gone oracle depth spin (conns s) (s <| mu_held := true |>) c Hq Hc)
    as (w & Hw & Hdw & Hlw).
  exists w. split_and!; [|done|].
  - unfold FinishShutdown. rewrite Hm, Hd. cbv zeta.
    destruct (finish_conns_eq oracle depth spin (conns s) (s <| mu_held := true |>)) as (g & d & E).
    assert (Hw' := eq_rect _ (λ x, w ∈ gone x) Hw _ E). simpl in Hw'. rewrite E. simpl listening.
    destruct (listening s) eqn:Eli; [|exact Hw'].
    destruct Hl as [?|(l & El & E1 & E2)]; [done|]. by rewrite (close_listener_eq _ l).
  - unfold ServerRun.step, OnTimer. cbn [get_loop conn_host]. rewrite Hlw, Ht, Htk. simpl. by rewrite Hdw.
Qed.

(** ** A server, for the witnesses *)
Module SrvDemo.
Definition oracle (_ : Out) (_ : World) : list ReOp := [].
Definition router : Router nat nat := (RegisterUnary "/s/m" (Some 7%nat) newRouter).2.
(** libuv: every address resolves; [bind] is its answer to [uv_tcp_bind]. *)
Definition ip (_ : string) (_ : Z) : unit + Z := inl ().
Definition err (_ : Z) : string := "EADDRINUSE".
Definition step (bind : Z) : Event → Server → Server :=
  Lifecycle.step oracle 2 9 router 100 ip ip err (λ _, bind) 0 "h:1" 50.
Definition run (bind : Z) : list Event → Server → Server :=
  Lifecycle.run oracle 2 9 router 100 ip ip err (λ _, bind) 0 "h:1" 50.

(** A request with a deadline: its call is in flight. *)
Definition request : gmap string string :=
  {[":path" := "/s/m"; "content-type" := "application/grpc"; "grpc-timeout" := "9S"]}.
Definition started : list Event := [EvStart 1; EvTasks; EvReturn 1].
Definition busy : list Event :=
  started ++ [EvAccept 0 0; EvAccept 0 0; EvConn 0 (EvHeaders 1 request false)].
Definition failed : list Event := started ++ [EvShutdown 1].
End SrvDemo.

Section DemoRuns.
Context (bind : Z).
#[local] Abbreviation reachable := (Lifecycle.reachable SrvDemo.oracle 2 9 SrvDemo.router 100 SrvDemo.ip
  SrvDemo.ip SrvDemo.err (λ _, bind) 0 "h:1" 50).
#[local] Abbreviation run_ok := (run_ok SrvDemo.oracle 2 9 SrvDemo.router 100 SrvDemo.ip
  SrvDemo.ip SrvDemo.err (λ _, bind) 0 "h:1" 50).

Lemma lifecycle_demo_reachable es s : reachable s → run_ok es s → reachable (SrvDemo.run bind es s).
Proof.
  revert s. induction es as [|e es IH]; intros s Hs Hok; [done|]. destruct Hok as [He Hok].
  exact (IH _ (srv_step _ _ _ _ _ _ _ _ _ _ _ _ s e Hs He) Hok).
Qed.
End DemoRuns.

(** Discharges the conditions of a concrete run. *)
Ltac demo_conn :=
  let c := fresh in let Hc := fresh in
  intros c Hc; vm_compute in Hc; injection Hc as <-; split; [reflexivity|left; apply not_elem_of_empty].
Ltac demo_run :=
  apply lifecycle_demo_reachable; [apply srv_new|];
  repeat (split; [first [exact I | vm_compute; reflexivity | split; [vm_compute; reflexivity|left; reflexivity]
                        | demo_conn]|]);
  exact I.

Lemma shutdown_completes_witness :
  let s := SrvDemo.run 0 (SrvDemo.busy ++ [EvShutdown 1]) new_server in
  conns s ≠ [] ∧
  drains SrvDemo.oracle 2 9 SrvDemo.router 100 SrvDemo.ip SrvDemo.ip SrvDemo.err (λ _, 0) 0 "h:1" 50 3 s.
Proof.
  split; [vm_compute; discriminate|].
  apply (shutdown_completes SrvDemo.oracle 2 9 SrvDemo.router 100 SrvDemo.ip SrvDemo.ip SrvDemo.err
    (λ _, 0) 0 "h:1" 50); [demo_run|vm_compute; reflexivity..|intros ? ?; reflexivity|].
  left. vm_compute. reflexivity.
Defined.

Lemma drained_means_closed_witness :
  let s := SrvDemo.run 0 (SrvDemo.started ++ [EvAccept 0 0; EvShutdown 1; EvTasks; EvListenerClosed]) new_server in
  conns s = [] ∧ listener_closed s = true.
Proof.
  destruct (drained_means_closed SrvDemo.oracle 2 9 SrvDemo.router 100 SrvDemo.ip SrvDemo.ip SrvDemo.err
    (λ _, 0) 0 "h:1" 50
    (SrvDemo.run 0 (SrvDemo.started ++ [EvAccept 0 0; EvShutdown 1; EvTasks; EvListenerClosed]) new_server))
    as (H1 & _ & H2 & _); [demo_run|vm_compute; reflexivity..|]. by split.
Defined.

Lemma shutdown_spares_busy_witness :
  let s := SrvDemo.run 0 (SrvDemo.busy ++ [EvShutdown 1]) new_server in
  length (conns s) = 2%nat ∧ sockets (SrvDemo.step 0 EvTasks s) = sockets s ∖ {[1%nat]}.
Proof.
  split; [vm_compute; reflexivity|].
  destruct (conns (SrvDemo.run 0 (SrvDemo.busy ++ [EvShutdown 1]) new_server) !! 0%nat) as [c|] eqn:E;
    [|vm_compute in E; discriminate].
  destruct (shutdown_spares_busy SrvDemo.oracle 2 9 SrvDemo.router 100 SrvDemo.ip SrvDemo.ip SrvDemo.err
    (λ _, 0) 0 "h:1" 50 (SrvDemo.run 0 (SrvDemo.busy ++ [EvShutdown 1]) new_server) c) as (_ & H & _).
  - demo_run.
  - vm_compute. reflexivity.
  - vm_compute. reflexivity.
  - vm_compute. reflexivity.
  - by apply list_elem_of_lookup_2 in E.
  - vm_compute in E. injection E as <-. vm_compute. discriminate.
  - unfold SrvDemo.step. rewrite H. vm_compute. reflexivity.
Defined.

Lemma failed_start_never_drains_witness :
  deadlocked (SrvDemo.step (-98) EvTasks (SrvDemo.run (-98) SrvDemo.failed new_server)) = true.
Proof.
  apply (failed_start_never_drains SrvDemo.oracle 2 9 SrvDemo.router 100 SrvDemo.ip SrvDemo.ip SrvDemo.err
    (λ _, -98) 0 "h:1" 50 (SrvDemo.run (-98) SrvDemo.failed new_server));
    [demo_run|vm_compute; reflexivity..].
Defined.

Lemma lost_connection_deadlocks_shutdown_witness :
  deadlocked (SrvDemo.run 0 [EvConn 0 EvReadError; EvTasks]
    (SrvDemo.run 0 (SrvDemo.started ++ [EvAccept 0 0; EvShutdown 1]) new_server)) = true.
Proof.
  apply (lost_connection_deadlocks_shutdown SrvDemo.oracle 2 9 SrvDemo.router 100 SrvDemo.ip SrvDemo.ip
    SrvDemo.err (λ _, 0) 0 "h:1" 50
    (SrvDemo.run 0 (SrvDemo.started ++ [EvAccept 0 0; EvShutdown 1]) new_server)
    (mkSConn (Some 0%nat) new_world)); [demo_run|vm_compute; reflexivity..].
Defined.

Lemma idle_connection_not_drained_witness :
  let s := SrvDemo.run 0 (SrvDemo.busy ++ [EvShutdown 1; EvTasks]) new_server in
  let s' := SrvDemo.run 0 [EvConn 0 (EvOp (H2Close 1 [true]))] s in
  map (λ c, map fst (map_to_list (calls (conn c)))) (conns s) = [[1]] ∧
  map (λ c, map fst (map_to_list (calls (conn c)))) (conns s') = [[]] ∧
  length (conns s') = length (conns s).
Proof.
  split_and!; [vm_compute; reflexivity..|].
  apply (idle_connection_not_drained SrvDemo.oracle 2 9 SrvDemo.router 100 SrvDemo.ip SrvDemo.ip
    SrvDemo.err (λ _, 0) 0 "h:1" 50).
  repeat constructor. discriminate.
Defined.

Lemma cut_calls_keep_timers_witness :
  let s := SrvDemo.run 0 SrvDemo.busy new_server in
  ∃ w, w ∈ gone (FinishShutdown SrvDemo.oracle 2 9 s) ∧ destroyed w = true ∧
    ub (ServerRun.step SrvDemo.oracle 2 9 SrvDemo.router 100 (EvTimer 1) w) = true.
Proof.
  intros s. destruct (conns s !! 0%nat) as [c|] eqn:E; [|vm_compute in E; discriminate].
  apply (cut_calls_keep_timers SrvDemo.oracle 2 9 SrvDemo.router 100 s c 1 (mkTimer 9000 (TDeadline 1)) 1).
  - intros ? ?. reflexivity.
  - vm_compute. reflexivity.
  - vm_compute. reflexivity.
  - right. destruct (listener s) as [l|] eqn:El; [|vm_compute in El; discriminate].
    exists l. vm_compute in El. injection El as <-. by split_and!.
  - by apply list_elem_of_lookup_2 in E.
  - vm_compute in E. injection E as <-. vm_compute. reflexivity.
  - reflexivity.
Defined.

(** The handle of a lost connection outlives even the drain. *)
Example leaked_handle :
  let s := SrvDemo.run 0 (SrvDemo.started ++
    [EvAccept 0 0; EvConn 0 EvReadError; EvShutdown 1; EvTasks; EvListenerClosed]) new_server in
  drained s = true ∧ conns s = [] ∧ sockets s = {[0%nat]}.
Proof. vm_compute. done. Qed.
