(* ===== verification/Facade.v ===== *)
(** * The server facade (api/include/urpc/server.h, api/source/urpc_api_impl.cc)

    [ServerContext], what a typed handler sees of its call, and [Server]: it
    owns a loop, a router and a core server, starts them, and shuts the core
    down when it is destroyed. *)
From S2P Require Import Prelude Status CxxString Wire Codec Router Loop Platform ServerConn ServerRun Lifecycle LifecycleRun.

(** ** ServerContext

    It wraps the core's context of the stream [sid]; a default one wraps none. *)
Definition ServerContext : Type := option Z.

Definition IsCancelled (ctx : ServerContext) (w : World) : bool :=
  match ctx with Some sid => ctx_IsCancelled sid w | None => false end.
Definition OnCancel (ctx : ServerContext) (cb : closure) (w : World) : bool * World :=
  match ctx with Some sid => ctx_OnCancel sid cb w | None => (false, w) end.
Definition TimeRemainingMs (ctx : ServerContext) (w : World) : Z :=
  match ctx with Some sid => ctx_TimeRemainingMs sid w | None => 0 end.
Definition method_path (ctx : ServerContext) (w : World) : string :=
  match ctx with Some sid => ctx_path sid w | None => "" end.

(** What a handler is told of its call is consistent: a callback is taken
    exactly when the call is not cancelled and still known; a call that counts
    as cancelled has no time left. *)
Lemma context_consistent sid cb w :
  (OnCancel (Some sid) cb w).1 = negb (IsCancelled (Some sid) w) ∧
  (IsCancelled (Some sid) w = true → TimeRemainingMs (Some sid) w = 0) ∧
  (calls w !! sid = None → IsCancelled (Some sid) w = true ∧ method_path (Some sid) w = "").
Proof.
  unfold OnCancel, IsCancelled, TimeRemainingMs, method_path, ctx_OnCancel, ctx_IsCancelled,
    ctx_TimeRemainingMs, ctx_path.
  destruct (calls w !! sid) as [c|]; [|done]. destruct (cancel_fired c); done.
Qed.

(** ** Server *)
Definition loop_start_failed : Status := mkStatus kInternal "loop start failed".

Section Facade.
Context (oracle : Out → World → list ReOp) (depth spin : nat).
Context (router : Router nat nat) (max_receive_size : Z).
Context {sockaddr : Type} (uv_ip4_addr uv_ip6_addr : string → Z → sockaddr + Z).
Context (uv_strerror : Z → string) (uv_tcp_bind : sockaddr → Z) (uv_listen : Z).
Context (address : string) (shutdown_grace_ms : Z).

#[local] Abbreviation step := (Lifecycle.step oracle depth spin router max_receive_size uv_ip4_addr uv_ip6_addr
  uv_strerror uv_tcp_bind uv_listen address shutdown_grace_ms).
#[local] Abbreviation run := (Lifecycle.run oracle depth spin router max_receive_size uv_ip4_addr uv_ip6_addr
  uv_strerror uv_tcp_bind uv_listen address shutdown_grace_ms).
#[local] Abbreviation reachable := (Lifecycle.reachable oracle depth spin router max_receive_size uv_ip4_addr
  uv_ip6_addr uv_strerror uv_tcp_bind uv_listen address shutdown_grace_ms).
#[local] Abbreviation run_ok := (LifecycleRun.run_ok oracle depth spin router max_receive_size uv_ip4_addr
  uv_ip6_addr uv_strerror uv_tcp_bind uv_listen address shutdown_grace_ms).
#[local] Abbreviation bind_status := (BindAndListen uv_ip4_addr uv_ip6_addr uv_strerror uv_tcp_bind uv_listen
  address 0%nat newListener).1.

(** [Shutdown], [Wait] and [IsRunning] of a server whose core exists or not;
    [~Server] is [Shutdown]. *)
Definition Shutdown (t : nat) (s : option Server) : option Server := call_Shutdown t <$> s.
Definition Wait (t : nat) (s : option Server) : option Server := call_Wait t <$> s.
Definition IsRunning (s : option Server) : bool :=
  match s with Some s => Lifecycle.IsRunning s | None => false end.

(** What [BuildAndStart] comes to: a server; null, with a status; or the
    destructor of a server that it gives up, entered by its own thread. *)
Inductive Built :=
  | Started (s : Server)
  | NoServer (error : Status)
  | Destroying (error : Status) (s : Server).

(** [Start] returns when the loop has run its task; [loop.Stop()] returns when
    the loop's thread has taken the quit task and ended. *)
Definition BuildAndStart (loop_starts : bool) (t : nat) : Built :=
  if negb loop_starts then NoServer loop_start_failed
  else
    let s := run [EvStart t; EvTasks; EvReturn t] new_server in
    let st := start_status s in
    if negb (ok st) then
      let s := run [EvStopLoop; EvTasks] s in
      match Shutdown t (Some s) with
      | Some s => Destroying st s
      | None => NoServer st
      end
    else Started s.

(** *** A server that can not go away *)

(** Its loop has ended, nothing listens, and thread [t] waits for the drain. *)
Record stranded (t : nat) (s : Server) : Prop := {
  sd_caller : callers s !! t = Some InDrain;
  sd_drained : drained s = false;
  sd_started : start_done s = true;
  sd_requested : shutdown_requested s = true;
  sd_listening : listening s = false;
  sd_conns : conns s = [];
  sd_loop : running_ (srv_loop s) = false ∧ woken (srv_loop s) = false ∧ timers_ (srv_loop s) = ∅;
  sd_listener : ∀ l, listener s = Some l → closing l = false
}.

Lemma stranded_step t e s : Lifecycle.ev_ok e s → stranded t s → stranded t (step e s).
Proof.
  intros He Hs. pose proof Hs as [Hc Hd Hst Hr Hl Hco (Hrun & Hw & Ht) Hcl].
  unfold Lifecycle.step. destruct (deadlocked s); [done|].
  destruct e as [t'|t'|t'|t'|st acc|i e|i e| |id| |]; simpl in He.
  - unfold call_Start. rewrite Hst. by split.
  - unfold call_Shutdown. rewrite Hst, Hr. simpl. split; try done. simpl.
    rewrite lookup_insert_ne; [done|]. intros ->. congruence.
  - split; try done. simpl. rewrite lookup_insert_ne; [done|]. intros ->. congruence.
  - unfold return_call. destruct (callers s !! t') as [[]|] eqn:E; [|by rewrite Hd|done].
    rewrite Hst. split; try done. simpl. rewrite lookup_delete_ne; [done|]. intros ->. congruence.
  - congruence.
  - unfold conn_event. by rewrite Hco.
  - by split.
  - by rewrite Hw.
  - unfold OnTimer. simpl. by rewrite Ht.
  - destruct (listener s) as [l|] eqn:El; [|done]. by rewrite (Hcl l eq_refl).
  - assert (E : Stop (srv_loop s) = srv_loop s) by (unfold Stop; by rewrite Hrun).
    split; simpl; rewrite ?E; done.
Qed.

Lemma stranded_run t es s : run_ok es s → stranded t s → stranded t (run es s).
Proof.
  revert s. induction es as [|e es IH]; intros s Hok Hs; [done|]. destruct Hok as [He Hok].
  apply (IH (step e s) Hok). by apply stranded_step.
Qed.

(** What [Start] leaves behind, on every outcome of the bind. *)
Lemma started_eq t :
  let s := run [EvStart t; EvTasks; EvReturn t] new_server in
  s = new_server
    <| listener := Some (BindAndListen uv_ip4_addr uv_ip6_addr uv_strerror uv_tcp_bind uv_listen
                           address 0%nat newListener).2 |>
    <| listening := ok bind_status |> <| start_status := bind_status |> <| start_done := true |>
    <| returned := [(t, bind_status)] |>.
Proof.
  cbv zeta. unfold Lifecycle.run. cbn [fold_left].
  assert (E : step EvTasks (step (EvStart t) new_server) =
    run_start uv_ip4_addr uv_ip6_addr uv_strerror uv_tcp_bind uv_listen address
      (new_server <| listener := Some newListener |> <| callers := {[t := InStart]} |>)) by reflexivity.
  rewrite E. clear E. unfold run_start. simpl listener.
  destruct (BindAndListen _ _ _ _ _ _ _ _) as [st l] eqn:E. simpl. rewrite E. simpl.
  unfold Lifecycle.step, return_call. simpl.
  rewrite lookup_singleton_eq. simpl. by rewrite delete_singleton_eq.
Qed.

Lemma given_up_stranded t st l r :
  closing l = false →
  stranded t (call_Shutdown t (run [EvStopLoop; EvTasks]
    (new_server <| listener := Some l |> <| listening := false |> <| start_status := st |>
       <| start_done := true |> <| returned := r |>))).
Proof.
  intros Hl. unfold Lifecycle.run. cbn [fold_left].
  match goal with |- context [step EvTasks ?x] => assert (E : step EvTasks x =
    new_server <| srv_loop := (CloseAllHandlesOnLoop (Stop (srv_loop new_server)))
                    <| pending_ := [] |> <| woken := false |> |>
      <| listener := Some l |> <| start_status := st |> <| start_done := true |> <| returned := r |>)
    by reflexivity; rewrite E end.
  split; try done; [by apply lookup_insert_eq|]. by intros ? [= <-].
Qed.

Lemma started_reachable t : reachable (run [EvStart t; EvTasks; EvReturn t] new_server).
Proof.
  repeat apply srv_step; try done; [apply srv_new|]. split; [by apply lookup_empty|by left].
Qed.

(** [BuildAndStart], on every outcome.  When the address resolves and can be
    bound and listened on, it returns a server that runs and listens, in a state
    that the runs of the core start from.  When the loop does not start, it
    returns null with INTERNAL.  When the address fails, its status is what the
    bind gave, but the caller never gets it: the destructor of the server that
    is given up waits for a drain on a loop that has ended, whatever happens
    afterwards. *)
Theorem build_and_start loop_starts t :
  match BuildAndStart loop_starts t with
  | Started s =>
      loop_starts = true ∧ ok bind_status = true ∧ reachable s ∧ listening s = true ∧
      deadlocked s = false ∧ IsRunning (Some s) = true ∧ callers s = ∅ ∧ start_status s = bind_status
  | NoServer st => loop_starts = false ∧ st = loop_start_failed
  | Destroying st s =>
      loop_starts = true ∧ st = bind_status ∧ ok st = false ∧
      ∀ es, run_ok es s → callers (run es s) !! t = Some InDrain
  end.
Proof.
  unfold BuildAndStart. destruct loop_starts; [|done]. cbn [negb].
  pose proof (started_reachable t) as Hr. pose proof (started_eq t) as E. cbv zeta in E.
  set (s := run _ new_server) in *. clearbody s.
  assert (Est : start_status s = bind_status) by by rewrite E. rewrite Est.
  destruct (ok bind_status) eqn:Hok; cbn [negb].
  - split_and!; try done; rewrite E; by try rewrite <-Hok.
  - cbn [Shutdown fmap option_fmap option_map]. split_and!; try done. intros es Hes.
    apply sd_caller. apply stranded_run; [done|]. rewrite E.
    apply given_up_stranded. by apply BindAndListen_open.
Qed.
End Facade.
