(* ===== verification/Api.v ===== *)
(** * The typed API over the core (api/source/urpc_api_impl.cc, api/include/urpc)

    The bridge between the typed API and the core.  This file holds the
    registration of handlers: the path that a service and a method name make,
    and the two functions through which every typed registration goes. *)
From S2P Require Import Prelude Status CxxString Router.

(** The API's own enumeration of call shapes (service.h). *)
Module Service.
Inductive MethodForm := kUnary | kServerStreaming | kClientStreaming | kBidi.
End Service.

(** The path of a method, made the same way by clients and servers. *)
Definition api_path (service method : string) : string := "/" +:+ service +:+ "/" +:+ method.

Section Registration.
Context {UH SH : Type}.

(** [RegisterUnaryRaw]: the handler is wrapped in a lambda, so it is never null. *)
Definition RegisterUnaryRaw (service method : string) (raw_handler : UH) (router : Router UH SH)
    : Status * Router UH SH :=
  let path := api_path service method in
  RegisterUnary path (Some raw_handler) router.

Definition null_server : Status := mkStatus kInternal "null server".
Definition not_a_stream : Status := mkStatus kInternal "RegisterStreamRaw requires a streaming form".

(** [RegisterStreamRaw]; the server is [None] when it, or its implementation, is
    null. *)
Definition RegisterStreamRaw (service method : string) (form : Service.MethodForm) (body : SH)
    (server : option (Router UH SH)) : Status * option (Router UH SH) :=
  match server with
  | None => (null_server, None)
  | Some router =>
      let register core_form :=
        let path := api_path service method in
        let '(st, router) := RegisterStream path core_form (Some body) router in
        (st, Some router) in
      match form with
      | Service.kServerStreaming => register kServerStreaming
      | Service.kClientStreaming => register kClientStreaming
      | Service.kBidi => register kBidi
      | Service.kUnary => (not_a_stream, server)
      end
  end.
End Registration.
