(* ===== verification/Arena.v ===== *)
(** * Arenas, messages and method traits (api/include/urpc/unary.h, client.h)

    What the typed API uses of upb.  A message lives in an arena; the code gets
    arenas, frees them, and hands some of them to the owners of a message.  upb
    itself is a parameter: [oom] says which allocations fail, [MethodTraits] has
    its parser and its encoder for the types of a method.  The rest is the ledger
    of what the code does with the arenas, numbered in the order of their
    allocation; using or freeing one that is not alive sets [fault]. *)
From S2P Require Import Prelude.

(** The traits of a method ([URPC_UNARY_METHOD], or generated): [None] is the null
    pointer of a parser, and a status other than [kUpb_EncodeStatus_Ok]. *)
Class MethodTraits : Type := {
  ReqType : Type;
  ResType : Type;
  ParseRequest : bytes → option ReqType;
  ParseResponse : bytes → option ResType;
  EncodeRequest : ReqType → option bytes;        (* upb_Encode with ReqTable() *)
  EncodeResponse : ResType → option bytes;       (* upb_Encode with ResTable() *)
  service_name : string;
  method_name : string
}.

Record Arenas := mkArenas {
  news : nat;                        (* how often upb_Arena_New was called *)
  live : gset nat;
  refs : gmap nat nat;               (* the shared_ptrs to the message of an arena *)
  fault : bool
}.
#[export] Instance eta_Arenas : EtaRecord Arenas := λ a,
  mkArenas (news a) (live a) (refs a) (fault a).

Definition no_arenas : Arenas := mkArenas 0 ∅ ∅ false.

Definition upb_Arena_New (oom : nat → bool) (a : Arenas) : option nat * Arenas :=
  let p := news a in
  let a := a <| news ::= S |> in
  if oom p then (None, a) else (Some p, a <| live ::= λ l, {[p]} ∪ l |>).

Definition upb_Arena_Free (p : nat) (a : Arenas) : Arenas :=
  if decide (p ∈ live a) then a <| live ::= λ l, l ∖ {[p]} |> else a <| fault := true |>.

(** Reading or writing in an arena. *)
Definition use_arena (p : nat) (a : Arenas) : Arenas :=
  if decide (p ∈ live a) then a else a <| fault := true |>.

(** A [shared_ptr] whose deleter frees the arena: made, copied, and gone. *)
Definition own (p : nat) (a : Arenas) : Arenas := a <| refs ::= <[p := 1%nat]> |>.
Definition share (p : nat) (a : Arenas) : Arenas := a <| refs ::= alter S p |>.
Definition release (p : nat) (a : Arenas) : Arenas :=
  match refs a !! p with
  | None => a
  | Some (S (S n)) => a <| refs ::= <[p := S n]> |>
  | Some _ => upb_Arena_Free p (a <| refs ::= delete p |>)
  end.

(** ** What the ledger keeps *)

(** Arenas are numbered as they come, and owners own what is alive. *)
Record arenas_wf (a : Arenas) : Prop := {
  aw_old : ∀ p, p ∈ live a → (p < news a)%nat;
  aw_refs : ∀ p n, refs a !! p = Some n → (0 < n)%nat
}.

(** No fault, and what is alive is owned or in the hands of the code. *)
Record accounted (hands : gset nat) (a : Arenas) : Prop := {
  acc_wf : arenas_wf a;
  acc_fault : fault a = false;
  acc_live : live a = dom (refs a) ∪ hands;
  acc_disj : dom (refs a) ## hands
}.

Lemma no_arenas_accounted : accounted ∅ no_arenas.
Proof.
  split; [split|..]; simpl; rewrite ?dom_empty_L; try done; set_solver.
Qed.

(** What an allocation does. *)
Definition skipped (a : Arenas) : Arenas := a <| news ::= S |>.
Definition allocated (a : Arenas) : Arenas := (skipped a) <| live ::= λ l, {[news a]} ∪ l |>.

Lemma new_eq oom a :
  upb_Arena_New oom a = if oom (news a) then (None, skipped a) else (Some (news a), allocated a).
Proof. reflexivity. Qed.

Lemma new_cases oom a o a' :
  upb_Arena_New oom a = (o, a') →
  (o = None ∧ a' = skipped a) ∨ (o = Some (news a) ∧ a' = allocated a).
Proof. rewrite new_eq. destruct (oom (news a)); intros; simplify_eq; auto. Qed.

Lemma skipped_wf a : arenas_wf a → arenas_wf (skipped a).
Proof. intros [Ho Hr]. split; simpl; [|done]. intros p Hp%Ho. lia. Qed.
Lemma allocated_wf a : arenas_wf a → arenas_wf (allocated a).
Proof.
  intros [Ho Hr]. split; simpl; [|done].
  intros p [->%elem_of_singleton|Hp%Ho]%elem_of_union; lia.
Qed.
Lemma free_wf p a : arenas_wf a → arenas_wf (upb_Arena_Free p a).
Proof.
  intros [Ho Hr]. unfold upb_Arena_Free. case_decide; split; simpl; try done.
  intros q Hq. apply Ho. set_solver.
Qed.
Lemma use_wf p a : arenas_wf a → arenas_wf (use_arena p a).
Proof. intros []. unfold use_arena. case_decide; by split. Qed.
Lemma fresh_dead a : arenas_wf a → news a ∉ live a.
Proof. intros [Ho _] Hn%Ho. lia. Qed.

Lemma skipped_accounted hands a : accounted hands a → accounted hands (skipped a).
Proof. intros []. split; simpl; try done. by apply skipped_wf. Qed.

Lemma allocated_accounted hands a :
  accounted hands a → accounted ({[news a]} ∪ hands) (allocated a).
Proof.
  intros [Hwf Hf Hl Hd]. pose proof (fresh_dead a Hwf) as Hn. rewrite Hl in Hn.
  split; simpl; [by apply allocated_wf|done| |].
  - rewrite Hl. set_solver.
  - set_solver.
Qed.

(** The next arena has no owner yet. *)
Lemma accounted_fresh_refs hands a : accounted hands a → refs a !! news a = None.
Proof.
  intros [Hwf _ Hl _]. apply not_elem_of_dom. pose proof (fresh_dead _ Hwf) as Hf.
  rewrite Hl in Hf. set_solver.
Qed.

(** An arena that is freed at once leaves only its number behind. *)
Lemma free_allocated a : arenas_wf a → upb_Arena_Free (news a) (allocated a) = skipped a.
Proof.
  intros Hwf%fresh_dead. unfold upb_Arena_Free, allocated, skipped. simpl.
  rewrite decide_True by set_solver. destruct a; simpl in *. f_equal. set_solver.
Qed.

Lemma free_accounted hands p a :
  accounted hands a → p ∈ hands → accounted (hands ∖ {[p]}) (upb_Arena_Free p a).
Proof.
  intros [[Ho Hr] Hf Hl Hd] Hp. unfold upb_Arena_Free. rewrite decide_True by set_solver.
  split; [split|..]; simpl; try done.
  - intros q Hq. apply Ho. set_solver.
  - rewrite Hl. set_solver.
  - set_solver.
Qed.

Lemma free_news p a : news (upb_Arena_Free p a) = news a.
Proof. unfold upb_Arena_Free. by case_decide. Qed.
Lemma free_refs p a : refs (upb_Arena_Free p a) = refs a.
Proof. unfold upb_Arena_Free. by case_decide. Qed.
Lemma free_dead p q a : q ∉ live a → q ∉ live (upb_Arena_Free p a).
Proof. unfold upb_Arena_Free. case_decide; simpl; set_solver. Qed.
Lemma free_fault p a : fault a = true → fault (upb_Arena_Free p a) = true.
Proof. unfold upb_Arena_Free. by case_decide. Qed.

Lemma use_live p a :
  p ∈ live a → use_arena p a = a.
Proof. intros Hp. unfold use_arena. by rewrite decide_True. Qed.

Lemma own_accounted hands p a :
  accounted hands a → p ∈ hands → accounted (hands ∖ {[p]}) (own p a).
Proof.
  intros [[Ho Hr] Hf Hl Hd] Hp. split; [split|..]; simpl; try done.
  - intros q n Hq. apply lookup_insert_Some in Hq as [[<- <-]|[_ Hq]]; [lia|by eapply Hr].
  - rewrite Hl, dom_insert_L. apply set_eq. intros q. destruct (decide (q = p)); set_solver.
  - rewrite dom_insert_L. set_solver.
Qed.

Lemma share_accounted hands p a :
  accounted hands a → accounted hands (share p a).
Proof.
  intros [[Ho Hr] Hf Hl Hd]. unfold share.
  split; [split|..]; simpl; rewrite ?dom_alter_L; try done.
  intros q n Hq. apply lookup_alter_Some in Hq as [(<- & m & Hm & ->)|[_ Hq]]; [lia|by eapply Hr].
Qed.

Lemma release_accounted hands p a :
  accounted hands a → accounted hands (release p a).
Proof.
  intros [[Ho Hr] Hf Hl Hd]. unfold release.
  destruct (refs a !! p) as [[|[|n]]|] eqn:Hp; [by specialize (Hr _ _ Hp); lia| | |by split].
  - assert (p ∈ dom (refs a)) as Hdom by by apply elem_of_dom_2 in Hp.
    unfold upb_Arena_Free. simpl. rewrite decide_True by set_solver.
    split; [split|..]; simpl; try done.
    + intros q Hq. apply Ho. set_solver.
    + intros q m Hq. apply lookup_delete_Some in Hq as [_ Hq]. by eapply Hr.
    + rewrite Hl, dom_delete_L. apply set_eq. intros q. destruct (decide (q = p)); set_solver.
    + rewrite dom_delete_L. set_solver.
  - split; [split|..]; simpl; try done.
    + intros q m Hq. apply lookup_insert_Some in Hq as [[<- <-]|[_ Hq]]; [lia|by eapply Hr].
    + rewrite dom_insert_lookup_L by done. done.
    + by rewrite dom_insert_lookup_L.
Qed.
#[export] Hint Resolve share_accounted release_accounted : urpc.

(** ** Traits for the witnesses

    A message is a byte string; on the wire it follows a tag.  The empty response
    does not encode. *)
Definition demo_parse (data : bytes) : option bytes :=
  match data with
  | c :: m => if decide (c = chr 10) then Some m else None
  | [] => None
  end.
Definition demo_traits : MethodTraits := {|
  ReqType := bytes;
  ResType := bytes;
  ParseRequest := demo_parse;
  ParseResponse := demo_parse;
  EncodeRequest m := Some (chr 10 :: m);
  EncodeResponse m := match m with [] => None | _ => Some (chr 10 :: m) end;
  service_name := "a.S";
  method_name := "M"
|}.
