(* ===== verification/UnaryServer.v ===== *)
(** * Typed unary handlers (api/include/urpc/unary.h)

    [Server::RegisterUnaryFor] wraps a typed handler into one on bytes: it parses
    the request in an arena of its own, runs the handler, and gives it a
    [typed_done] that encodes the response in that arena, answers and frees it.
    The handler may call [typed_done] before it returns, later, never, or more
    than once; answering can make the core and the user run other code. *)
From S2P Require Import Prelude Status Arena.

Definition arena_failed : Status := mkStatus kInternal "arena alloc failed".
Definition request_decode_failed : Status := mkStatus kDataLoss "request decode failed".
Definition response_encode_failed : Status := mkStatus kInternal "response encode failed".

Section Unary.
Context {M : MethodTraits}.

(** ** State *)

(** What the wrapper calls: [done] of a call, and the handler, whose
    [typed_done] has captured the arena [p]. *)
Inductive Out :=
  | Done (sid : Z) (st : Status) (payload : bytes)
  | Handler (sid : Z) (req : ReqType) (p : nat).

Record World := mkWorld {
  arenas : Arenas;
  dones : gmap nat Z;                (* the typed_done closures, by their arena *)
  called : list nat;                 (* ghost: those that were called *)
  trace : list Out
}.
#[export] Instance eta_World : EtaRecord World := λ w,
  mkWorld (arenas w) (dones w) (called w) (trace w).

Definition new_world : World := mkWorld no_arenas ∅ [] [].

(** ** Operations *)
Section Ops.
Context (oom : nat → bool) (reenter : Out → World → World).

Definition call_out (o : Out) (w : World) : World :=
  reenter o (w <| trace ::= λ t, t ++ [o] |>).

Definition typed_done (sid : Z) (p : nat) (st : Status) (res : option ResType) (w : World) : World :=
  let w := w <| called ::= λ l, l ++ [p] |> in
  let answer st payload w :=
    (call_out (Done sid st payload) w) <| arenas ::= upb_Arena_Free p |> in
  match (if ok st then res else None) with
  | None => answer st [] w
  | Some r =>
      let w := w <| arenas ::= use_arena p |> in
      match EncodeResponse r with
      | None => answer response_encode_failed [] w
      | Some buf => answer st buf w
      end
  end.

(** The lambda [raw]. *)
Definition raw_handler (sid : Z) (data : bytes) (w : World) : World :=
  let '(arena, a) := upb_Arena_New oom (arenas w) in
  let w := w <| arenas := a |> in
  match arena with
  | None => call_out (Done sid arena_failed []) w
  | Some p =>
      match ParseRequest data with
      | None => call_out (Done sid request_decode_failed []) (w <| arenas ::= upb_Arena_Free p |>)
      | Some req => call_out (Handler sid req p) (w <| dones ::= <[p := sid]> |>)
      end
  end.

(** A request that the core dispatches, and a [typed_done] that user code calls. *)
Inductive Op :=
  | OpRequest (sid : Z) (data : bytes)
  | OpDone (p : nat) (st : Status) (res : option ResType).

Definition do_op (op : Op) (w : World) : World :=
  match op with
  | OpRequest sid data => raw_handler sid data w
  | OpDone p st res =>
      match dones w !! p with
      | Some sid => typed_done sid p st res w
      | None => w
      end
  end.
End Ops.

(** ** What every operation keeps *)

(** The arenas of the closures that were not called, and those in the [hand] of
    a [typed_done] that has not returned. *)
Definition held (hand : gset nat) (w : World) : gset nat :=
  (dom (dones w) ∖ list_to_set (called w)) ∪ hand.

Record Inv (hand : gset nat) (w : World) : Prop := {
  inv_wf : arenas_wf (arenas w);
  inv_old : ∀ p sid, dones w !! p = Some sid → (p < news (arenas w))%nat;
  inv_called : list_to_set (called w) ⊆ dom (dones w);
  inv_hand : hand ⊆ list_to_set (called w);
  inv_refs : refs (arenas w) = ∅;
  inv_acc : NoDup (called w) → accounted (held hand w) (arenas w)
}.

(** With [K] in hand, at least. *)
Record keeps (K : gset nat) (w w' : World) : Prop := {
  kp_inv : ∀ hand, K ⊆ hand → Inv hand w → Inv hand w';
  kp_called : called w `prefix_of` called w';
  kp_news : (news (arenas w) ≤ news (arenas w'))%nat;
  kp_dead : ∀ p, (p < news (arenas w))%nat → p ∉ live (arenas w) → p ∉ live (arenas w');
  kp_fault : fault (arenas w) = true → fault (arenas w') = true
}.

#[local] Instance keeps_preorder K : PreOrder (keeps K).
Proof.
  split; [by split|]. intros w1 w2 w3 [H1 H2 H3 H4 H5] [K1 K2 K3 K4 K5].
  split; [auto|by etrans|by etrans| |auto].
  intros p Hp Hn. apply K4; [lia|auto].
Qed.

Lemma keeps_more K w w' : keeps ∅ w w' → keeps K w w'.
Proof. intros [H1 H2 H3 H4 H5]. split; [|done..]. intros hand _. apply H1. apply empty_subseteq. Qed.

Lemma keeps_same K w w' :
  arenas w' = arenas w → dones w' = dones w → called w' = called w → keeps K w w'.
Proof.
  intros Ha Hd Hc. split; rewrite ?Ha, ?Hc; try done.
  intros hand _ []. split; unfold held in *; by rewrite ?Ha, ?Hd, ?Hc.
Qed.

Lemma called_Inv hand p sid w :
  Inv hand w → dones w !! p = Some sid → Inv ({[p]} ∪ hand) (w <| called ::= λ l, l ++ [p] |>).
Proof.
  intros [Hwf Ho Hc Hh Hr Ha] Hp. apply elem_of_dom_2 in Hp as Hd.
  split; simpl; rewrite ?list_to_set_app_L; simpl; try done; [set_solver..|].
  intros [Hnd [Hn _]]%NoDup_app. specialize (Ha Hnd). unfold held in *. simpl.
  replace (_ ∪ ({[p]} ∪ hand)) with (dom (dones w) ∖ list_to_set (called w) ∪ hand); [done|].
  rewrite list_to_set_app_L. simpl. apply set_eq. intros q.
  assert (p ∉ (list_to_set (called w) : gset nat)).
  { rewrite elem_of_list_to_set. intros Hq. apply (Hn p Hq). by constructor. }
  destruct (decide (q = p)); set_solver.
Qed.

Lemma freed_Inv hand p w :
  Inv ({[p]} ∪ hand) w → (NoDup (called w) → p ∉ hand) → Inv hand (w <| arenas ::= upb_Arena_Free p |>).
Proof.
  intros [Hwf Ho Hc Hh Hr Ha] Hp. 
  split; simpl; rewrite ?free_news, ?free_refs; try done; [by apply free_wf|set_solver|].
  intros Hnd. specialize (Ha Hnd). specialize (Hp Hnd).
  replace (held hand _) with (held ({[p]} ∪ hand) w ∖ {[p]}).
  { apply free_accounted; [done|]. unfold held. set_solver. }
  unfold held. simpl. apply set_eq. intros q. destruct (decide (q = p)); set_solver.
Qed.

Lemma use_keeps p w : keeps {[p]} w (w <| arenas ::= use_arena p |>).
Proof.
  assert (H : ∀ a, news (use_arena p a) = news a ∧ live (use_arena p a) = live a ∧
    (fault a = true → fault (use_arena p a) = true)) by (intros a; unfold use_arena; by case_decide).
  destruct (H (arenas w)) as (Hn & Hl & Hf). split; simpl; rewrite ?Hn, ?Hl; try done.
  intros hand Hp [Hwf Ho Hc Hh Hr Ha]. unfold use_arena. simpl. case_decide as Hli; [by split|].
  split; simpl; try done; [by destruct Hwf|]. intros Hnd. destruct (Ha Hnd) as [_ _ Hlive _].
  destruct Hli. rewrite Hlive. unfold held. set_solver.
Qed.

Lemma skipped_keeps K w : keeps K w (w <| arenas ::= skipped |>).
Proof.
  split; simpl; try done; [|lia].
  intros hand _ [Hwf Ho Hc Hh Hr Ha]. split; simpl; try done.
  - by apply skipped_wf.
  - intros q s Hq%Ho. lia.
  - intros Hnd. by apply skipped_accounted, Ha.
Qed.

Lemma handed_keeps K sid w :
  keeps K w (w <| arenas ::= allocated |> <| dones ::= <[news (arenas w) := sid]> |>).
Proof.
  split; simpl; try done; [|lia|].
  - intros hand _ [Hwf Ho Hc Hh Hr Ha].
    assert (news (arenas w) ∉ dom (dones w)).
    { intros [x Hx%Ho]%elem_of_dom. lia. }
    split; unfold held in *; simpl; rewrite ?dom_insert_L; try done; [by apply allocated_wf| |set_solver|].
    + intros q s. rewrite lookup_insert_Some. intros [[<- _]|[_ Hq%Ho]]; lia.
    + intros Hnd. specialize (Ha Hnd). apply allocated_accounted in Ha.
      replace (_ ∖ _ ∪ _) with
        ({[news (arenas w)]} ∪ (dom (dones w) ∖ list_to_set (called w) ∪ hand)); [done|].
      apply set_eq. intros q. destruct (decide (q = news (arenas w))); set_solver.
  - intros q Hq Hl. rewrite not_elem_of_union, not_elem_of_singleton. split; [lia|done].
Qed.

Section Keeps.
Context (oom : nat → bool) (reenter : Out → World → World) (Hre : ∀ o w, keeps ∅ w (reenter o w)).
#[local] Set Default Proof Using "Type*".

Lemma call_out_keeps o w : keeps ∅ w (call_out reenter o w).
Proof. unfold call_out. etransitivity; [|apply Hre]. by apply keeps_same. Qed.

(** Answering and freeing, from a world in which [p] is in hand. *)
Lemma answer_keeps p o w w1 sid :
  dones w !! p = Some sid → keeps {[p]} (w <| called ::= λ l, l ++ [p] |>) w1 →
  keeps ∅ w ((call_out reenter o w1) <| arenas ::= upb_Arena_Free p |>).
Proof.
  intros Hp H1. pose proof (keeps_more {[p]} _ _ (call_out_keeps o w1)) as H2.
  assert (H : keeps {[p]} (w <| called ::= λ l, l ++ [p] |>) (call_out reenter o w1)) by by etransitivity.
  clear H1 H2. set (w2 := call_out reenter o w1) in *.
  destruct H as [Hi Hc Hn Hd Hf]. simpl in *. split; simpl.
  - intros hand _ HI. apply freed_Inv; [by eapply Hi, called_Inv; [apply union_subseteq_l|..]|].
    intros Hnd Hin. destruct HI as [_ _ _ Hh _ _]. apply Hh in Hin. apply elem_of_list_to_set in Hin.
    destruct Hc as [k Hk]. rewrite Hk, <-(assoc_L (++)) in Hnd. apply NoDup_app in Hnd as (_ & Hq & _).
    apply (Hq p Hin). by constructor.
  - destruct Hc as [k ->]. exists ([p] ++ k). by rewrite (assoc_L (++)).
  - by rewrite free_news.
  - intros q Hq Hl. by apply free_dead, Hd.
  - intros Hft. by apply free_fault, Hf.
Qed.

Lemma typed_done_keeps sid p st res w :
  dones w !! p = Some sid → keeps ∅ w (typed_done reenter sid p st res w).
Proof.
  intros Hp. unfold typed_done. destruct (if ok st then res else None) as [r|].
  - destruct (EncodeResponse r); eapply answer_keeps; try done; apply use_keeps.
  - eapply answer_keeps; [done|]. reflexivity.
Qed.

Lemma raw_handler_keeps sid data w : keeps ∅ w (raw_handler oom reenter sid data w).
Proof.
  unfold raw_handler. destruct (upb_Arena_New oom (arenas w)) as [arena a] eqn:E.
  apply new_cases in E as [[-> ->]|[-> ->]]; [|destruct (ParseRequest data) as [req|]];
    (etransitivity; [|apply call_out_keeps]).
  - apply (skipped_keeps ∅ w).
  - apply (handed_keeps ∅ sid w).
  - split; simpl; rewrite ?free_news; simpl; try done; [|lia| |].
    + intros hand Hk HI. pose proof (inv_wf _ _ HI) as Hwf.
      rewrite free_allocated by done. by apply (skipped_keeps ∅ w).
    + intros q Hq Hl. apply free_dead. simpl. rewrite not_elem_of_union, not_elem_of_singleton.
      split; [lia|done].
    + intros ?. by apply free_fault.
Qed.

Lemma do_op_keeps op w : keeps ∅ w (do_op oom reenter op w).
Proof.
  destruct op as [sid data|p st res]; simpl; [apply raw_handler_keeps|].
  destruct (dones w !! p) as [sid|] eqn:Hp; [by apply typed_done_keeps|reflexivity].
Qed.
End Keeps.

Lemma new_world_Inv_unary : Inv ∅ new_world.
Proof. by split. Qed.

(** ** Runs *)
Section Runs.
Context (oom : nat → bool) (oracle : Out → World → list Op) (depth : nat).

#[local] Abbreviation re := (reenter_to (do_op oom) oracle depth).

Definition step (op : Op) (w : World) : World := do_op oom re op w.
Definition run (ops : list Op) (w : World) : World := fold_left (λ w op, step op w) ops w.

Lemma re_keeps o w : keeps ∅ w (re o w).
Proof. apply (reenter_to_keeps _ _ (keeps ∅)). intros r Hr op w'. by apply do_op_keeps. Qed.

Lemma run_keeps ops w : keeps ∅ w (run ops w).
Proof. apply (fold_left_keeps (keeps ∅)). intros w' op. apply do_op_keeps, re_keeps. Qed.

Lemma run_Inv ops : Inv ∅ (run ops new_world).
Proof. apply (kp_inv ∅ new_world); [apply run_keeps|done|apply new_world_Inv_unary]. Qed.

(** C25: The arenas of typed unary calls are accounted for.  On every run, with
    handlers that answer before they return, later or never, as long as no
    [typed_done] is called twice, no arena is used or freed after it was freed,
    and the arenas that are alive are exactly those of the requests whose
    handler has not answered. *)
Theorem unary_arenas_accounted ops :
  let w := run ops new_world in
  NoDup (called w) →
  fault (arenas w) = false ∧ live (arenas w) = dom (dones w) ∖ list_to_set (called w).
Proof.
  intros w Hnd. destruct (run_Inv ops) as [_ _ _ _ Hr Ha]. fold w in Hr, Ha.
  destruct (Ha Hnd) as [_ Hf Hl _]. split; [done|].
  rewrite Hl, Hr, dom_empty_L. unfold held. set_solver.
Qed.

(** A [typed_done] that is called a second time frees its arena again: after
    any run in which the calls were single, and whatever its answer makes
    others do. *)
Theorem second_done_faults ops p sid st res :
  let w := run ops new_world in
  NoDup (called w) → p ∈ called w → dones w !! p = Some sid →
  fault (arenas (typed_done re sid p st res w)) = true.
Proof.
  intros w Hnd Hp Hd. pose proof (run_Inv ops) as HI. fold w in HI.
  destruct HI as [Hwf Ho _ _ Hr Ha]. destruct (Ha Hnd) as [_ Hf Hl _].
  assert (Hdead : p ∉ live (arenas w)).
  { rewrite Hl, Hr, dom_empty_L. unfold held. set_solver. }
  specialize (Ho _ _ Hd).
  assert (H : ∀ o w1, arenas w1 = arenas w ∨ fault (arenas w1) = true →
    fault (arenas ((call_out re o w1) <| arenas ::= upb_Arena_Free p |>)) = true).
  { intros o w1 H1. destruct (call_out_keeps re re_keeps o w1) as [_ _ _ Hdd Hff]. simpl.
    destruct H1 as [H1|H1]; [|by apply free_fault, Hff].
    rewrite H1 in Hdd. specialize (Hdd p Ho Hdead). unfold upb_Arena_Free. by rewrite decide_False. }
  unfold typed_done. destruct (if ok st then res else None) as [r|]; [|by apply H; left].
  assert (fault (use_arena p (arenas w)) = true) by (unfold use_arena; by rewrite decide_False).
  destruct (EncodeResponse r); apply H; by right.
Qed.
End Runs.

(** ** What a handler's answer becomes *)

(** The reply to [data] when the allocation goes as [alloc] says and the handler
    answers with [g]. *)
Definition unary_reply (g : ReqType → Status * option ResType) (alloc : bool) (data : bytes)
    : Status * bytes :=
  if negb alloc then (arena_failed, [])
  else match ParseRequest data with
  | None => (request_decode_failed, [])
  | Some req =>
      let '(st, res) := g req in
      match (if ok st then res else None) with
      | None => (st, [])
      | Some r =>
          match EncodeResponse r with
          | None => (response_encode_failed, [])
          | Some buf => (st, buf)
          end
      end
  end.

(** A handler that answers with [g] before it returns; the core is quiet. *)
Definition answers (g : ReqType → Status * option ResType) (o : Out) (w : World) : list Op :=
  match o with
  | Handler sid req p => let '(st, res) := g req in [OpDone p st res]
  | Done _ _ _ => []
  end.

(** The handler ran, if it was reached. *)
Definition handler_ran (sid : Z) (p : nat) (alloc : bool) (data : bytes) : list Out :=
  if negb alloc then [] else match ParseRequest data with
  | None => []
  | Some req => [Handler sid req p]
  end.

(** C24: A typed unary handler that answers before it returns is answered for
    exactly once, on every branch.  Out of memory, a request that does not
    parse, a handler's error, a missing response, a response that does not
    encode: each gives the one reply that [unary_reply] states, after the
    handler ran, if it was reached; and no arena is left behind or freed twice. *)
Theorem unary_reply_on_every_branch oom g depth sid data w :
  arenas_wf (arenas w) →
  let p := news (arenas w) in
  let w' := raw_handler oom (reenter_to (do_op oom) (answers g) (S depth)) sid data w in
  let '(st, payload) := unary_reply g (negb (oom p)) data in
  trace w' = trace w ++ handler_ran sid p (negb (oom p)) data ++ [Done sid st payload] ∧
  live (arenas w') = live (arenas w) ∧ fault (arenas w') = fault (arenas w).
Proof.
  intros Hwf p w'. subst w' p. unfold raw_handler, unary_reply, handler_ran. rewrite new_eq.
  destruct (oom (news (arenas w))); [done|]. cbn match.
  assert (Huse : use_arena (news (arenas w)) (allocated (arenas w)) = allocated (arenas w)).
  { apply use_live. simpl. set_solver. }
  pose proof (free_allocated _ Hwf) as Hfree.
  set (a := allocated (arenas w)) in *. clearbody a.
  destruct (ParseRequest data) as [req|].
  - destruct (g req) as [st res] eqn:Hg. unfold call_out, answers. simpl. rewrite Hg. simpl.
    rewrite lookup_insert_eq. unfold typed_done. simpl.
    destruct (if ok st then res else None) as [r|]; [destruct (EncodeResponse r)|];
      unfold call_out; simpl; destruct depth; simpl; rewrite ?Huse; rewrite Hfree;
      rewrite <-(assoc_L (++)); split_and!; done.
  - unfold call_out. simpl. by rewrite Hfree.
Qed.
End Unary.

(** ** Witnesses *)
Section Demo.
#[local] Existing Instance demo_traits.

(** Two requests; the first is answered twice at most, the second never. *)
Definition demo_ops (again : bool) : list Op :=
  [OpRequest 1 [chr 10; chr 1]; OpRequest 3 [chr 10; chr 2]; OpDone 0 Ok (Some [chr 7 : ascii])] ++
  (if again then [OpDone 0 Ok (None : option (list ascii))] else []).

Lemma unary_arenas_accounted_witness :
  let w := run (λ _, false) (λ _ _, []) 1 (demo_ops false) new_world in
  live (arenas w) = {[1%nat]} ∧ length (trace w) = 3%nat ∧ fault (arenas w) = false.
Proof.
  intros w. destruct (unary_arenas_accounted (λ _, false) (λ _ _, []) 1 (demo_ops false)) as [H1 H2].
  - vm_compute. repeat constructor. set_solver.
  - fold w in H1, H2. split; [|by vm_compute]. rewrite H2. by vm_compute.
Defined.

Lemma second_done_faults_witness :
  let w := run (λ _, false) (λ _ _, []) 1 (demo_ops false) new_world in
  fault (arenas w) = false ∧
  fault (arenas (run (λ _, false) (λ _ _, []) 1 (demo_ops true) new_world)) = true.
Proof.
  intros w. split; [by vm_compute|].
  apply (second_done_faults (λ _, false) (λ _ _, []) 1 (demo_ops false) 0 1 Ok None).
  - vm_compute. repeat constructor. set_solver.
  - vm_compute. constructor.
  - by vm_compute.
Defined.

(** The response is empty, and does not encode. *)
Definition demo_answer (m : bytes) : Status * option bytes := (Ok, Some []).

Lemma unary_reply_on_every_branch_witness :
  trace (raw_handler (λ _, false)
      (reenter_to (do_op (λ _, false)) (answers (M := demo_traits) demo_answer) 1) 1 [chr 10; chr 5] new_world) =
  [Handler 1 [chr 5] 0; Done 1 response_encode_failed []].
Proof.
  destruct (unary_reply_on_every_branch (M := demo_traits) (λ _, false) demo_answer 0 1 [chr 10; chr 5] new_world)
    as [H _]; [by apply no_arenas_accounted|exact H].
Defined.
End Demo.
