(* ===== verification/UnaryClient.v ===== *)
(** * Typed unary calls (api/include/urpc/client.h, proxy.h)

    [Channel::CallAsync] encodes the request and gives the core a lambda that
    turns the raw response into a [Result]; [Call] waits for it; the generated
    proxies go through a weak reference to the channel.  The core below is the
    environment: it runs a lambda it was given once, later, or drops it when the
    channel is closed or destroyed.  [oracle] is what user code does in a
    callback. *)
From S2P Require Import Prelude Status Codec Arena Api UnaryServer.

Definition channel_closed : Status := mkStatus kUnavailable "channel closed".
Definition request_encode_failed : Status := mkStatus kInternal "request encode failed".
Definition response_decode_failed : Status := mkStatus kDataLoss "response decode failed".
Definition sync_on_loop : Status :=
  mkStatus kInternal "sync Call() is not allowed on the urpc event-loop thread".

(** [Result<Res>]: the value is a [shared_ptr] to a message in the arena [p]. *)
Record Result (A : Type) := mkResult { status_ : Status; value_ : option (A * nat) }.
Arguments mkResult {A} _ _.
Arguments status_ {A} _.
Arguments value_ {A} _.

Definition result_ok {A} (r : Result A) : bool :=
  ok (status_ r) && match value_ r with Some _ => true | None => false end.
Definition failed {A} (st : Status) : Result A := mkResult st None.

(** The [std::function] that a call is given: empty, the user's, or the lambda
    of [Call] that sets its promise. *)
Inductive DoneFn := NullFn | UserFn (cb : nat) | SetPromise (p : nat).

Section Client.
Context {M : MethodTraits} (oom : nat → bool).

(** A list without one [x]. *)
Fixpoint remove_one (x : nat) (l : list nat) : list nat :=
  match l with
  | [] => []
  | y :: l => if decide (y = x) then l else y :: remove_one x l
  end.

(** ** State *)
Inductive Out :=
  | CoreCall (tok : nat) (path : string) (framed : bytes) (timeout_ms : Z)
  | CoreSetMax (n : Z)
  | UserResult (cb : nat) (r : Result ResType).

Record World := mkWorld {
  arenas : Arenas;
  copies : list nat;                         (* the user's copies of results, by arena *)
  channel_alive : bool;                      (* the weak_ptr can be locked *)
  closed_ : bool;
  max_receive_message_size : Z;
  waiting : gmap nat DoneFn;                 (* the lambdas that the core holds *)
  made : list DoneFn;                        (* ghost: the calls, and their functions *)
  answered : list (nat * DoneFn);            (* ghost: calls whose function was run *)
  abandoned : list nat;                      (* ghost: lambdas that were dropped *)
  promises : gmap nat (option (Result ResType));
  blocked : gmap nat nat;                    (* threads in Call, and their promise *)
  returned : list (nat * Result ResType);    (* what Call returned to its thread *)
  threw : bool;                              (* an empty std::function was called *)
  trace : list Out
}.
#[export] Instance eta_ClientWorld : EtaRecord World := λ w,
  mkWorld (arenas w) (copies w) (channel_alive w) (closed_ w) (max_receive_message_size w)
    (waiting w) (made w) (answered w) (abandoned w) (promises w) (blocked w) (returned w)
    (threw w) (trace w).

(** [Channel::Connect], on a loop that starts. *)
Definition new_channel : World :=
  mkWorld no_arenas [] true false (4 * 1024 * 1024) ∅ [] [] [] ∅ ∅ [] false [].

Definition record_out (o : Out) (w : World) : World := w <| trace ::= λ t, t ++ [o] |>.

(** ** Operations *)
Section Ops.
Context (reenter : Out → World → World).

(** The end of a [Result] that nobody copied, or of a copy. *)
Definition drop_result (r : Result ResType) (w : World) : World :=
  match value_ r with
  | Some (_, p) => w <| arenas ::= release p |>
  | None => w
  end.

(** [done(result)]: the argument lives until the function returns. *)
Definition run_done (fn : DoneFn) (r : Result ResType) (w : World) : World :=
  match fn with
  | NullFn => drop_result r (w <| threw := true |>)
  | UserFn cb => drop_result r (reenter (UserResult cb r) (record_out (UserResult cb r) w))
  | SetPromise p => w <| promises ::= <[p := Some r]> |>
  end.

(** [Channel::Fail]: [if (done) done(...)]. *)
Definition Fail (k : nat) (fn : DoneFn) (st : Status) (w : World) : World :=
  let w := w <| answered ::= λ l, l ++ [(k, fn)] |> in
  match fn with NullFn => w | _ => run_done fn (failed st) w end.

(** The lambda given to the core. *)
Definition OnResponse (fn : DoneFn) (st : Status) (payload : bytes) (w : World) : World :=
  if negb (ok st) then run_done fn (failed st) w
  else
    let '(ra, a) := upb_Arena_New oom (arenas w) in
    let w := w <| arenas := a |> in
    match ra with
    | None => run_done fn (failed arena_failed) w
    | Some p =>
        match ParseResponse payload with
        | None => run_done fn (failed response_decode_failed) (w <| arenas ::= upb_Arena_Free p |>)
        | Some res => run_done fn (mkResult st (Some (res, p))) (w <| arenas ::= own p |>)
        end
    end.

(** A number for the call, as the ghost fields know it. *)
Definition new_call (fn : DoneFn) (w : World) : nat * World :=
  (length (made w), w <| made ::= λ l, l ++ [fn] |>).

Definition CallAsync (service method : string) (request : ReqType) (timeout_ms : Z) (fn : DoneFn)
    (w : World) : World :=
  let '(k, w) := new_call fn w in
  if closed_ w then Fail k fn channel_closed w
  else
    let '(arena, a) := upb_Arena_New oom (arenas w) in
    let w := w <| arenas := a |> in
    match arena with
    | None => Fail k fn arena_failed w
    | Some p =>
        match EncodeRequest request with
        | None => Fail k fn request_encode_failed (w <| arenas ::= upb_Arena_Free p |>)
        | Some buf =>
            let framed := EncodeFrame buf [] in
            let w := w <| arenas ::= upb_Arena_Free p |> in
            record_out (CoreCall k (api_path service method) framed timeout_ms)
              (w <| waiting ::= <[k := fn]> |>)
        end
    end.

(** [Channel::Call] on thread [t]; [fut.get()] is the event [EvReturn] below. *)
Definition Call (t : nat) (on_loop : bool) (service method : string) (request : ReqType)
    (timeout_ms : Z) (w : World) : World :=
  let return_now st := w <| returned ::= λ l, l ++ [(t, failed st)] |> in
  if closed_ w then return_now channel_closed
  else if on_loop then return_now sync_on_loop
  else
    let p := length (made w) in
    CallAsync service method request timeout_ms (SetPromise p)
      (w <| promises ::= <[p := None]> |> <| blocked ::= <[t := p]> |>).

(** [detail::ProxyCallAsync] and [detail::ProxyCall]. *)
Definition ProxyCallAsync (request : ReqType) (timeout_ms : Z) (fn : DoneFn) (w : World) : World :=
  if negb (channel_alive w) || closed_ w then
    let '(k, w) := new_call fn w in Fail k fn channel_closed w
  else CallAsync service_name method_name request timeout_ms fn w.

Definition ProxyCall (t : nat) (on_loop : bool) (request : ReqType) (timeout_ms : Z) (w : World)
    : World :=
  if negb (channel_alive w) || closed_ w
  then w <| returned ::= λ l, l ++ [(t, failed channel_closed)] |>
  else Call t on_loop service_name method_name request timeout_ms w.

(** The core channel is destroyed: its lambdas go without being run. *)
Definition reset_core (w : World) : World :=
  w <| abandoned ::= λ l, l ++ map fst (map_to_list (waiting w)) |> <| waiting := ∅ |>.

Definition Close (w : World) : World :=
  if closed_ w then w else reset_core (w <| closed_ := true |>).
Definition closed (w : World) : bool := closed_ w.

Definition set_max_receive_message_size (n : Z) (w : World) : World :=
  let w := w <| max_receive_message_size := n |> in
  if closed_ w then w else record_out (CoreSetMax n) w.

(** The last owner of the channel lets it go. *)
Definition destroy_channel (w : World) : World :=
  if channel_alive w then reset_core (w <| channel_alive := false |>) else w.

(** [Client]: a weak reference to a channel. *)
Definition Client_new (n : Z) (w : World) : World :=
  if channel_alive w then set_max_receive_message_size n w else w.
Definition Client_Close (w : World) : World := if channel_alive w then Close w else w.

(** What user code can do, in a callback too. *)
Inductive Op :=
  | OpCallAsync (service method : string) (request : ReqType) (timeout_ms : Z) (done : option nat)
  | OpProxyCallAsync (request : ReqType) (timeout_ms : Z) (done : option nat)
  | OpCopy (p : nat)                         (* copies a Result that is alive *)
  | OpDrop (p : nat)                         (* destroys one of its copies *)
  | OpSetMax (n : Z).

Definition user_fn (done : option nat) : DoneFn :=
  match done with Some cb => UserFn cb | None => NullFn end.

Definition do_op (op : Op) (w : World) : World :=
  match op with
  | OpCallAsync service method request timeout_ms done =>
      if channel_alive w then CallAsync service method request timeout_ms (user_fn done) w else w
  | OpProxyCallAsync request timeout_ms done => ProxyCallAsync request timeout_ms (user_fn done) w
  | OpCopy p =>
      match refs (arenas w) !! p with
      | Some _ => w <| arenas ::= share p |> <| copies ::= λ l, p :: l |>
      | None => w
      end
  | OpDrop p =>
      if decide (p ∈ copies w) then
        w <| arenas ::= release p |> <| copies ::= remove_one p |>
      else w
  | OpSetMax n => Client_new n w
  end.

(** ** Events *)
Inductive Event :=
  | EvOp (op : Op)
  | EvCall (t : nat) (on_loop : bool) (service method : string) (request : ReqType) (timeout_ms : Z)
  | EvProxyCall (t : nat) (on_loop : bool) (request : ReqType) (timeout_ms : Z)
  | EvAnswer (k : nat) (st : Status) (payload : bytes)   (* the core runs a lambda *)
  | EvReturn (t : nat)                                   (* fut.get() of a thread *)
  | EvClose
  | EvDestroy.

(** The promise is set: [Call] returns its result to the caller. *)
Definition return_call (t : nat) (w : World) : World :=
  match blocked w !! t with
  | Some p =>
      match promises w !! p with
      | Some (Some r) =>
          w <| blocked ::= delete t |> <| promises ::= delete p |>
            <| returned ::= λ l, l ++ [(t, r)] |>
            <| copies ::= match value_ r with Some (_, p) => cons p | None => id end |>
      | _ => w
      end
  | None => w
  end.

Definition do_event (e : Event) (w : World) : World :=
  match e with
  | EvOp op => do_op op w
  | EvCall t on_loop service method request timeout_ms =>
      if channel_alive w then Call t on_loop service method request timeout_ms w else w
  | EvProxyCall t on_loop request timeout_ms => ProxyCall t on_loop request timeout_ms w
  | EvAnswer k st payload =>
      match waiting w !! k with
      | Some fn =>
          OnResponse fn st payload
            (w <| waiting ::= delete k |> <| answered ::= λ l, l ++ [(k, fn)] |>)
      | None => w
      end
  | EvReturn t => return_call t w
  | EvClose => Client_Close w
  | EvDestroy => destroy_channel w
  end.
End Ops.

(** ** Invariant *)

(** The arenas of results in promises that were not fetched. *)
Definition result_arena (r : option (Result ResType)) : option nat :=
  match r with
  | Some r => match value_ r with Some (_, p) => Some p | None => None end
  | None => None
  end.
Definition stored (w : World) : list nat := omap (λ x : nat * option (Result ResType), result_arena x.2) (map_to_list (promises w)).

(** The functions of the user that were run, in order. *)
Definition user_cb (fn : DoneFn) : option nat :=
  match fn with UserFn cb => Some cb | _ => None end.
Definition out_cb (o : Out) : option nat :=
  match o with UserResult cb _ => Some cb | _ => None end.

(** [h]: the arenas of the results that running callbacks were given; [due]: a
    function that is about to be run; [opn]: a call that is being made. *)
Record InvAt (h due opn : list nat) (w : World) : Prop := {
  inv_acc : accounted ∅ (arenas w);
  inv_refs : ∀ p, default 0%nat (refs (arenas w) !! p) = count_by Some p (copies w ++ stored w ++ h);
  inv_once : map fst (answered w) ++ abandoned w ++ map fst (map_to_list (waiting w)) ++ opn ≡ₚ
             seq 0 (length (made w));
  inv_fns : ∀ k fn, waiting w !! k = Some fn ∨ (k, fn) ∈ answered w → made w !! k = Some fn;
  inv_promise : ∀ k p, waiting w !! k = Some (SetPromise p) → p = k ∧ promises w !! p = Some None;
  inv_fresh : ∀ p r, promises w !! p = Some r → (p < length (made w))%nat;
  inv_run : omap out_cb (trace w) ++ due = omap (user_cb ∘ snd) (answered w)
}.
Abbreviation Inv h := (InvAt h [] []).

Definition keeps (w w' : World) : Prop := ∀ h, Inv h w → Inv h w'.
#[local] Instance client_keeps_preorder : PreOrder keeps.
Proof. split; [by intros w h|]. intros w1 w2 w3 H1 H2 h HI. by apply H2, H1. Qed.

(** The arena of a result. *)
Definition arena_of (r : Result ResType) : list nat := option_list (result_arena (Some r)).

(** ** Owners *)
Lemma default_refs_own p q a : refs a !! p = None →
  default 0%nat (refs (own p a) !! q) = ((if decide (p = q) then 1 else 0) + default 0%nat (refs a !! q))%nat.
Proof.
  intros Hp. simpl. destruct (decide (p = q)) as [<-|]; [by rewrite lookup_insert_eq, Hp|].
  by rewrite lookup_insert_ne.
Qed.

Lemma default_refs_share p q a : is_Some (refs a !! p) →
  default 0%nat (refs (share p a) !! q) =
    ((if decide (p = q) then 1 else 0) + default 0%nat (refs a !! q))%nat.
Proof.
  intros [n Hp]. simpl. destruct (decide (p = q)) as [<-|]; [by rewrite lookup_alter_eq, Hp|].
  by rewrite lookup_alter_ne.
Qed.

Lemma default_refs_release p q a : arenas_wf a →
  default 0%nat (refs (release p a) !! q) =
    (default 0%nat (refs a !! q) - (if decide (p = q) then 1 else 0))%nat.
Proof.
  intros [_ Hr]. unfold release. destruct (refs a !! p) as [[|[|n]]|] eqn:Hp.
  - by apply Hr in Hp; lia.
  - rewrite free_refs. simpl. destruct (decide (p = q)) as [<-|];
      [by rewrite lookup_delete_eq, Hp|rewrite lookup_delete_ne by done; lia].
  - simpl. destruct (decide (p = q)) as [<-|];
      [rewrite lookup_insert_eq, Hp; simpl; lia|rewrite lookup_insert_ne by done; lia].
  - destruct (decide (p = q)) as [<-|]; [by rewrite Hp|lia].
Qed.

(** A step that only changes the arenas and their owners. *)
Definition same_calls (w w' : World) : Prop :=
  promises w' = promises w ∧ waiting w' = waiting w ∧ made w' = made w ∧
  answered w' = answered w ∧ abandoned w' = abandoned w ∧ trace w' = trace w.

Lemma InvAt_arenas h h' due opn w w' :
  InvAt h due opn w → same_calls w w' → accounted ∅ (arenas w') →
  (∀ p, default 0%nat (refs (arenas w') !! p) = count_by Some p (copies w' ++ stored w' ++ h')) →
  InvAt h' due opn w'.
Proof.
  intros [] (Ep & Ew & Em & Ea & Eb & Et) Hacc Hrefs.
  split; rewrite ?Ep, ?Ew, ?Em, ?Ea, ?Eb, ?Et; done.
Qed.

Lemma count_cons (p q : nat) l :
  count_by Some q (p :: l) = ((if decide (p = q) then 1 else 0) + count_by Some q l)%nat.
Proof. rewrite count_by_cons. repeat case_decide; try lia; congruence. Qed.

Lemma count_pos (q : nat) l : q ∈ l ↔ (0 < count_by Some q l)%nat.
Proof.
  induction l as [|p l IH]; [rewrite count_by_nil, elem_of_nil; lia|].
  rewrite elem_of_cons, count_cons, IH. destruct (decide (p = q)) as [->|Hne].
  - split; [lia|by left].
  - split; [intros [->|?]; [done|lia]|intros ?; right; lia].
Qed.

Lemma drop_result_Inv r h due opn w :
  InvAt (arena_of r ++ h) due opn w → InvAt h due opn (drop_result r w).
Proof.
  intros HI. unfold drop_result, arena_of in *. simpl in *.
  destruct (value_ r) as [[x p]|]; simpl in *; [|done].
  pose proof (inv_acc _ _ _ _ HI) as Hacc.
  apply (InvAt_arenas _ _ _ _ _ _ HI); simpl; [done|by apply release_accounted|].
  intros q. rewrite default_refs_release by apply Hacc. rewrite (inv_refs _ _ _ _ HI).
  unfold stored. simpl. rewrite !count_by_app, count_cons. lia.
Qed.

(** The cell of a promise is filled. *)
Lemma stored_set p r w : promises w !! p = Some None →
  stored (w <| promises ::= <[p := Some r]> |>) ≡ₚ arena_of r ++ stored w.
Proof.
  intros Hp. unfold stored, arena_of. simpl.
  pose proof (lookup_delete_eq (promises w) p) as Hd.
  pose proof (map_to_list_insert (delete p (promises w)) p (Some r) Hd) as H1.
  pose proof (map_to_list_insert (delete p (promises w)) p None Hd) as H2.
  rewrite insert_delete_eq in H1. rewrite insert_delete_id in H2 by done.
  rewrite H1, H2. simpl. by destruct (value_ r) as [[x q]|].
Qed.

Lemma InvAt_promise p w k fn h due : InvAt h due [k] w → (∀ q, fn = SetPromise q → q = k) →
  fn = SetPromise p → ∀ k', waiting w !! k' ≠ Some (SetPromise p).
Proof.
  intros [] Hfn ->  k' Hk'. destruct (inv_promise0 _ _ Hk') as [-> _].
  rewrite (Hfn k') in * by done. pose proof (NoDup_seq 0 (length (made w))) as Hnd.
  rewrite <-inv_once0 in Hnd. apply NoDup_app in Hnd as (_ & _ & Hnd).
  apply NoDup_app in Hnd as (_ & _ & Hnd). apply NoDup_app in Hnd as (_ & Hnd & _).
  apply (Hnd k); [|by constructor]. apply list_elem_of_fmap. exists (k, SetPromise k).
  split; [done|]. by apply elem_of_map_to_list.
Qed.

(** The goal's arenas, folded. *)
Ltac arenas_are a :=
  match goal with |- default _ (refs ?b !! _) = _ => change b with a end.

Section Keeps.
Context (reenter : Out → World → World) (Hre : ∀ o w, keeps w (reenter o w)).
#[local] Set Default Proof Using "Type*".

(** A function that may be run: a promise of its own call, still empty. *)
Definition runnable (k : nat) (fn : DoneFn) (w : World) : Prop :=
  ∀ p, fn = SetPromise p → p = k ∧ promises w !! p = Some None ∧
    ∀ k', waiting w !! k' ≠ Some (SetPromise p).

Lemma run_done_Inv k fn r h w :
  InvAt (arena_of r ++ h) (option_list (user_cb fn)) [] w → runnable k fn w →
  Inv h (run_done reenter fn r w).
Proof.
  intros HI Hfn. destruct fn as [|cb|p]; simpl in *.
  - apply drop_result_Inv. by destruct HI.
  - apply drop_result_Inv, Hre. destruct HI. split; simpl; try done.
    rewrite omap_app, app_nil_r. simpl. done.
  - destruct (Hfn p eq_refl) as (-> & Hp & Hn). pose proof (stored_set k r w Hp) as Hs.
    destruct HI. split; simpl; try done.
    + intros q. rewrite inv_refs0, !count_by_app, Hs, !count_by_app. lia.
    + intros k' p Hk'. destruct (inv_promise0 _ _ Hk') as [-> Hp']. split; [done|].
      rewrite lookup_insert_ne; [done|]. intros ->. by eapply Hn.
    + intros q s. rewrite lookup_insert_Some. intros [[<- _]|[_ Hq]]; by eapply inv_fresh0.
Qed.

Lemma typed_Fail_Inv k fn st h w :
  InvAt h [] [k] w → made w !! k = Some fn → runnable k fn w → Inv h (Fail reenter k fn st w).
Proof.
  intros HI Hk Hfn.
  assert (H : InvAt h (option_list (user_cb fn)) [] (w <| answered ::= λ l, l ++ [(k, fn)] |>)).
  { destruct HI. split; simpl; try done.
    - rewrite map_app, <-inv_once0. simpl. rewrite app_nil_r. solve_Permutation.
    - intros k' fn' [H|H]; [by apply inv_fns0; left|].
      apply elem_of_app in H as [H|H%list_elem_of_singleton]; [by apply inv_fns0; right|congruence].
    - rewrite omap_app, <-inv_run0, app_nil_r. simpl. by destruct (user_cb fn). }
  unfold Fail. destruct fn; [done|..]; by eapply run_done_Inv.
Qed.

Lemma OnResponse_Inv k fn st payload h w :
  InvAt h (option_list (user_cb fn)) [] w → runnable k fn w →
  Inv h (OnResponse reenter fn st payload w).
Proof.
  intros HI Hfn. unfold OnResponse. destruct (negb (ok st)); [by eapply run_done_Inv|].
  rewrite new_eq. pose proof (inv_acc _ _ _ _ HI) as Hacc. pose proof (acc_wf _ _ Hacc) as Hwf.
  assert (Hskip : InvAt h (option_list (user_cb fn)) [] (w <| arenas ::= skipped |>)).
  { apply (InvAt_arenas _ _ _ _ _ _ HI); simpl; [done|by apply skipped_accounted|apply HI]. }
  destruct (oom _); [by eapply run_done_Inv|]. cbn match.
  destruct (ParseResponse payload) as [res|].
  - eapply run_done_Inv; [|done]. apply (InvAt_arenas _ _ _ _ _ _ HI); [done|..].
    + replace ∅ with (({[news (arenas w)]} ∪ ∅) ∖ {[news (arenas w)]} : gset nat) by set_solver.
      apply own_accounted; [by apply allocated_accounted|set_solver].
    + intros q.
      arenas_are (own (news (arenas w)) (allocated (arenas w))).
      rewrite default_refs_own.
      * pose proof (inv_refs _ _ _ _ HI q) as Hq. unfold stored in *. simpl in *. rewrite Hq.
        unfold arena_of. simpl. rewrite !count_by_app, count_cons. lia.
      * exact (accounted_fresh_refs _ _ Hacc).
  - eapply run_done_Inv; [|done]. simpl.
    replace (upb_Arena_Free _ _) with (skipped (arenas w)) by by rewrite free_allocated.
    done.
Qed.

(** A call's function, before the call is made. *)
Definition callable (fn : DoneFn) (w : World) : Prop :=
  ∀ p, fn = SetPromise p → p = length (made w) ∧ promises w !! p = Some None.

(** All but the promise of the call that is being made is old. *)
Lemma new_call_Inv fn h w :
  accounted ∅ (arenas w) →
  (∀ p, default 0%nat (refs (arenas w) !! p) = count_by Some p (copies w ++ stored w ++ h)) →
  map fst (answered w) ++ abandoned w ++ map fst (map_to_list (waiting w)) ≡ₚ seq 0 (length (made w)) →
  (∀ k fn, waiting w !! k = Some fn ∨ (k, fn) ∈ answered w → made w !! k = Some fn) →
  (∀ k p, waiting w !! k = Some (SetPromise p) → p = k ∧ promises w !! p = Some None) →
  (∀ p r, promises w !! p = Some r → (p ≤ length (made w))%nat) →
  omap out_cb (trace w) = omap (user_cb ∘ snd) (answered w) →
  InvAt h [] [length (made w)] (new_call fn w).2.
Proof.
  intros H1 H2 H3 H4 H5 H6 H7. split; simpl; rewrite ?length_app; simpl; try done.
  - rewrite Nat.add_1_r, seq_S, <-H3. simpl. by rewrite <-!(assoc_L (++)).
  - intros k f Hk%H4. apply lookup_app_l_Some, Hk.
  - intros p r Hp%H6. lia.
  - by rewrite app_nil_r.
Qed.

Lemma CallAsync_Inv service method request timeout_ms fn h w :
  InvAt h [] [length (made w)] (new_call fn w).2 → callable fn w →
  Inv h (CallAsync reenter service method request timeout_ms fn w).
Proof.
  intros HI Hfn. unfold CallAsync.
  set (k := length (made w)) in *. set (w1 := (new_call fn w).2) in *.
  change (new_call fn w) with (k, w1). cbv beta iota.
  assert (Hk : made w1 !! k = Some fn) by (apply list_lookup_middle; done).
  assert (Hr : ∀ w', promises w' = promises w1 → waiting w' = waiting w1 → runnable k fn w').
  { intros w' E1 E2 p ->. destruct (Hfn p eq_refl) as [-> Hp]. rewrite E1, E2.
    split_and!; [done|done|]. eapply (InvAt_promise _ _ _ (SetPromise k)); [exact HI|congruence|done]. }
  clearbody w1. destruct (closed_ w1); [apply typed_Fail_Inv; auto|]. rewrite new_eq.
  pose proof (inv_acc _ _ _ _ HI) as Hacc. pose proof (acc_wf _ _ Hacc) as Hwf.
  assert (Hskip : InvAt h [] [k] (w1 <| arenas ::= skipped |>)).
  { apply (InvAt_arenas _ _ _ _ _ _ HI); simpl; [done|by apply skipped_accounted|apply HI]. }
  destruct (oom _); [apply typed_Fail_Inv; auto|]. cbn match.
  assert (Hfree : InvAt h [] [k]
    (w1 <| arenas := allocated (arenas w1) |> <| arenas ::= upb_Arena_Free (news (arenas w1)) |>)).
  { eapply InvAt_arenas; [exact HI|done|..]; simpl; rewrite free_allocated by done;
      [by apply skipped_accounted|apply HI]. }
  destruct (EncodeRequest request); [|apply typed_Fail_Inv; auto].
  destruct Hfree. split; simpl in *; try done.
  - rewrite <-inv_once0.
    rewrite map_to_list_insert; [simpl; solve_Permutation|].
    apply eq_None_not_Some. intros [f Hf].
    pose proof (NoDup_seq 0 (length (made w1))) as Hnd. rewrite <-inv_once0 in Hnd.
    apply NoDup_app in Hnd as (_ & _ & Hnd). apply NoDup_app in Hnd as (_ & _ & Hnd).
    apply NoDup_app in Hnd as (_ & Hnd & _). apply (Hnd k); [|by constructor].
    apply list_elem_of_fmap. exists (k, f). split; [done|]. by apply elem_of_map_to_list.
  - intros k' f [Hf|Hf]; [|by apply inv_fns0; right].
    apply lookup_insert_Some in Hf as [[<- <-]|[_ Hf]]; [done|by apply inv_fns0; left].
  - intros k' p. rewrite lookup_insert_Some. intros [[<- ->]|[_ Hp]]; [|by apply inv_promise0].
    by destruct (Hr w1 eq_refl eq_refl p eq_refl) as (-> & ? & _).
  - rewrite omap_app. simpl. by rewrite app_nil_r.
Qed.

Lemma user_fn_callable done w : callable (user_fn done) w.
Proof. intros p. by destruct done. Qed.

Lemma Inv_new_call fn h w : Inv h w → InvAt h [] [length (made w)] (new_call fn w).2.
Proof.
  intros []. apply new_call_Inv; try done; rewrite ?app_nil_r in *; try done.
  intros p r Hp%inv_fresh0. lia.
Qed.

Lemma Call_Inv t on_loop service method request timeout_ms h w :
  Inv h w → Inv h (Call reenter t on_loop service method request timeout_ms w).
Proof.
  intros HI. unfold Call. destruct (closed_ w); [by destruct HI|]. destruct on_loop; [by destruct HI|].
  apply CallAsync_Inv.
  - assert (Hp : promises w !! length (made w) = None).
    { apply eq_None_not_Some. intros [x Hx%(inv_fresh _ _ _ _ HI)]. lia. }
    destruct HI. rewrite !app_nil_r in *. apply new_call_Inv; simpl; try done.
    + intros p. unfold stored. simpl. by rewrite map_to_list_insert.
    + intros k p Hk. destruct (inv_promise0 _ _ Hk) as [-> Hn]. split; [done|].
      rewrite lookup_insert_ne; [done|congruence].
    + intros p r. rewrite lookup_insert_Some. intros [[<- _]|[_ Hr%inv_fresh0]]; lia.
  - intros p [= <-]. simpl. by rewrite lookup_insert_eq.
Qed.

(** The proxy's own refusal. *)
Lemma proxy_refusal_Inv fn h w : Inv h w → callable fn w →
  Inv h (Fail reenter (length (made w)) fn channel_closed (new_call fn w).2).
Proof.
  intros HI Hfn. pose proof (Inv_new_call fn h w HI) as HI1. apply typed_Fail_Inv; [done|..].
  - by apply list_lookup_middle.
  - intros p ->. destruct (Hfn p eq_refl) as [-> Hp]. split_and!; [done|done|].
    eapply (InvAt_promise _ _ _ (SetPromise (length (made w)))); [exact HI1|congruence|done].
Qed.

Lemma ProxyCallAsync_Inv request timeout_ms fn h w : Inv h w → callable fn w →
  Inv h (ProxyCallAsync reenter request timeout_ms fn w).
Proof.
  intros HI Hfn. unfold ProxyCallAsync. destruct (_ || _); [by apply proxy_refusal_Inv|].
  apply CallAsync_Inv; [by apply Inv_new_call|done].
Qed.

Lemma set_max_Inv n h w : Inv h w → Inv h (set_max_receive_message_size n w).
Proof.
  intros []. unfold set_max_receive_message_size. simpl. destruct (closed_ w); split; simpl; try done.
  rewrite omap_app. simpl. by rewrite app_nil_r.
Qed.

Lemma count_remove_one p q l : p ∈ l →
  count_by Some q l = ((if decide (p = q) then 1 else 0) + count_by Some q (remove_one p l))%nat.
Proof.
  induction l as [|x l IH]; [by intros ?%not_elem_of_nil|]. simpl. intros [->|Hp]%elem_of_cons.
  - destruct (decide (x = x)) as [_|?]; [by rewrite count_cons|done].
  - destruct (decide (x = p)) as [->|]; [by rewrite count_cons|].
    rewrite !count_cons, IH by done. lia.
Qed.

Lemma client_do_op_Inv op h w : Inv h w → Inv h (do_op reenter op w).
Proof.
  intros HI. pose proof (inv_acc _ _ _ _ HI) as Hacc.
  destruct op as [service method request tm d|request tm d|p|p|n]; simpl.
  - destruct (channel_alive w); [|done].
    apply CallAsync_Inv; [by apply Inv_new_call|apply user_fn_callable].
  - apply ProxyCallAsync_Inv; [done|apply user_fn_callable].
  - destruct (refs (arenas w) !! p) eqn:Hp; [|done].
    apply (InvAt_arenas _ _ _ _ _ _ HI); [done|by apply share_accounted|]. intros q.
    arenas_are (share p (arenas w)). rewrite default_refs_share by done.
    rewrite (inv_refs _ _ _ _ HI). simpl. by rewrite count_cons.
  - case_decide as Hp; [|done].
    apply (InvAt_arenas _ _ _ _ _ _ HI); [done|by apply release_accounted|]. intros q.
    arenas_are (release p (arenas w)). rewrite default_refs_release by apply Hacc.
    rewrite (inv_refs _ _ _ _ HI). unfold stored. simpl.
    rewrite !count_by_app, (count_remove_one p q (copies w)) by done. lia.
  - unfold Client_new. destruct (channel_alive w); [by apply set_max_Inv|done].
Qed.

Lemma reset_core_Inv h w : Inv h w → Inv h (reset_core w).
Proof.
  intros []. split; simpl; try done.
  - rewrite <-inv_once0, map_to_list_empty. simpl. by rewrite !app_nil_r.
  - intros k fn [Hk|Hk]; [by rewrite lookup_empty in Hk|by apply inv_fns0; right].
Qed.

Lemma do_event_Inv e w : Inv [] w → Inv [] (do_event reenter e w).
Proof.
  intros HI. destruct e as [op|t l s m r tm|t l r tm|k st payload|t| |]; simpl.
  - by apply client_do_op_Inv.
  - destruct (channel_alive w); [by apply Call_Inv|done].
  - unfold ProxyCall. destruct (_ || _); [by destruct HI|by apply Call_Inv].
  - destruct (waiting w !! k) as [fn|] eqn:Hk; [|done].
    apply (OnResponse_Inv k).
    + destruct HI. rewrite !app_nil_r in *. split; simpl; rewrite ?app_nil_r; try done.
      * rewrite <-inv_once0, map_app, <-(map_to_list_delete _ _ _ Hk). simpl. solve_Permutation.
      * intros k' f [Hf|Hf].
        -- apply lookup_delete_Some in Hf as [_ Hf]. apply inv_fns0. by left.
        -- apply elem_of_app in Hf as [Hf|Hf%list_elem_of_singleton]; [by apply inv_fns0; right|].
           simplify_eq. apply inv_fns0. by left.
      * intros k' p [_ Hp]%lookup_delete_Some. by apply inv_promise0.
      * rewrite omap_app, inv_run0. simpl. by destruct (user_cb fn).
    + intros p ->. destruct (inv_promise _ _ _ _ HI _ _ Hk) as [-> Hp]. split_and!; [done|done|].
      intros k' Hk'. simpl in Hk'. apply lookup_delete_Some in Hk' as [Hne Hk']. by destruct (inv_promise _ _ _ _ HI _ _ Hk').
  - unfold return_call. destruct (blocked w !! t) as [p|]; [|done].
    destruct (promises w !! p) as [[r|]|] eqn:Hp; [|done|done].
    assert (Hs : stored w ≡ₚ arena_of r ++ omap (λ x : nat * option (Result ResType), result_arena x.2)
                   (map_to_list (delete p (promises w)))).
    { unfold stored. rewrite <-(map_to_list_delete _ _ _ Hp).
      unfold arena_of. simpl. by destruct (value_ r) as [[x q]|]. }
    destruct HI. split; simpl; try done.
    + intros q. rewrite inv_refs0, !count_by_app, Hs, !count_by_app. unfold stored, arena_of. simpl.
      destruct (value_ r) as [[x q']|]; simpl;
        rewrite ?count_cons, ?count_by_nil; lia.
    + intros k q Hk. destruct (inv_promise0 _ _ Hk) as [-> Hq]. split; [done|].
      rewrite lookup_delete_ne; [done|]. intros ->. congruence.
    + intros q s [_ Hq]%lookup_delete_Some. by eapply inv_fresh0.
  - unfold Client_Close, Close. destruct (channel_alive w); [|done]. destruct (closed_ w); [done|].
    apply reset_core_Inv. by destruct HI.
  - unfold destroy_channel. destruct (channel_alive w); [|done]. apply reset_core_Inv. by destruct HI.
Qed.
End Keeps.

Lemma new_channel_Inv : Inv [] new_channel.
Proof.
  split; simpl; try done.
  intros k fn [Hk|Hk]; [by rewrite lookup_empty in Hk|by apply not_elem_of_nil in Hk].
Qed.

(** ** Runs *)
Section Runs.
Context (oracle : Out → World → list Op) (depth : nat).

#[local] Abbreviation re := (reenter_to do_op oracle depth).

Definition step (e : Event) (w : World) : World := do_event re e w.
Definition run (es : list Event) (w : World) : World := fold_left (λ w e, step e w) es w.

Lemma re_client_keeps o w : keeps w (re o w).
Proof. apply (reenter_to_keeps _ _ keeps). intros r Hr op w' h. by apply client_do_op_Inv. Qed.

Lemma client_run_Inv es w : Inv [] w → Inv [] (run es w).
Proof.
  revert w. induction es as [|e es IH]; intros w HI; simpl; [done|].
  apply IH, do_event_Inv; [apply re_client_keeps|done].
Qed.

(** C19: A typed call is answered once.  On every run, each call that was made is
    in exactly one place: its function was run, once; or its lambda was dropped,
    when the channel was closed or destroyed; or the core still holds it.  And
    the results that callbacks received are those of the functions run, in the
    order in which they were run. *)
Theorem typed_calls_answered_once es :
  let w := run es new_channel in
  map fst (answered w) ++ abandoned w ++ map fst (map_to_list (waiting w)) ≡ₚ seq 0 (length (made w)) ∧
  (∀ k fn, (k, fn) ∈ answered w → made w !! k = Some fn) ∧
  omap out_cb (trace w) = omap (user_cb ∘ snd) (answered w).
Proof.
  intros w. destruct (client_run_Inv es new_channel new_channel_Inv) as [_ _ Ho Hf _ _ Hr].
  fold w in Ho, Hf, Hr. rewrite !app_nil_r in *. split_and!; [done| |done]. intros k fn Hk. auto.
Qed.

(** C26: A result keeps its message alive, and nothing else does.  On every run
    no arena is used or freed after it was freed, and the arenas that are alive
    are those of the results that user code holds and of those a blocked call
    has not fetched. *)
Theorem results_own_arenas es :
  let w := run es new_channel in
  fault (arenas w) = false ∧ ∀ p, p ∈ live (arenas w) ↔ p ∈ copies w ++ stored w.
Proof.
  intros w. destruct (client_run_Inv es new_channel new_channel_Inv) as [Ha Hr _ _ _ _ _].
  fold w in Ha, Hr. destruct Ha as [[_ Hpos] Hf Hl _]. split; [done|]. intros p.
  specialize (Hr p). rewrite app_nil_r in Hr. rewrite Hl, union_empty_r_L, elem_of_dom.
  rewrite count_pos, <-Hr. destruct (refs (arenas w) !! p) as [n|] eqn:Hp; simpl.
  - apply Hpos in Hp. split; [done|]. by eexists.
  - split; [by intros [? ?]|lia].
Qed.

(** ** What is lost at a close *)

(** A thread that waits for a promise that nobody will set. *)
Definition stuck (t p : nat) (w : World) : Prop :=
  closed_ w = true ∧ waiting w = ∅ ∧ (p < length (made w))%nat ∧
  promises w !! p = Some None ∧ blocked w !! t = Some p.
Definition stays_stuck (w w' : World) : Prop := ∀ t p, stuck t p w → stuck t p w'.
#[local] Instance stays_stuck_preorder : PreOrder stays_stuck.
Proof. split; [by intros w t p|]. intros w1 w2 w3 H1 H2 t p H. by apply H2, H1. Qed.

Lemma Fail_stuck re' k fn st w t p :
  (∀ o w, stays_stuck w (re' o w)) → (∀ q, fn = SetPromise q → q ≠ p) →
  stuck t p w → stuck t p (Fail re' k fn st w).
Proof.
  intros Hre Hfn Hs. unfold Fail. destruct fn as [|cb|q]; simpl; [done| |].
  - unfold drop_result. simpl. by apply Hre.
  - destruct Hs as (?&?&?&?&?). split_and!; simpl; try done.
    rewrite lookup_insert_ne; [done|]. by apply Hfn.
Qed.

Lemma do_op_stuck re' op w : (∀ o w, stays_stuck w (re' o w)) → stays_stuck w (do_op re' op w).
Proof.
  intros Hre t p Hs.
  assert (Hf : ∀ d q, user_fn d = SetPromise q → q ≠ p) by (intros d q; by destruct d).
  assert (Hs' : ∀ d, stuck t p (w <| made ::= λ l, l ++ [user_fn d] |>)).
  { intros d. destruct Hs as (?&?&?&?&?). split_and!; simpl; try done. rewrite length_app. simpl. lia. }
  destruct op as [service method request tm d|request tm d|q|q|n]; simpl.
  - destruct (channel_alive w); [|done]. unfold CallAsync, new_call.
    cbv beta iota zeta. change (closed_ (w <| made ::= λ l, l ++ [user_fn d] |>)) with (closed_ w).
    rewrite (proj1 Hs). apply Fail_stuck; eauto.
  - unfold ProxyCallAsync, new_call. rewrite (proj1 Hs), orb_true_r. apply Fail_stuck; eauto.
  - by destruct (refs (arenas w) !! q).
  - by case_decide.
  - unfold Client_new, set_max_receive_message_size. destruct (channel_alive w); [|done]. simpl.
    destruct Hs as [-> ?]. by split.
Qed.

Lemma re_stays_stuck o w : stays_stuck w (re o w).
Proof. apply (reenter_to_keeps _ _ stays_stuck). intros r Hr op w'. by apply do_op_stuck. Qed.

Lemma do_event_stuck e w : stays_stuck w (do_event re e w).
Proof.
  intros t p Hs. pose proof Hs as (Hc & Hw & Hl & Hp & Hb).
  destruct e as [op|t' l s m r tm|t' l r tm|k st payload|t'| |]; simpl.
  - by apply do_op_stuck; [apply re_stays_stuck|].
  - destruct (channel_alive w); [|done]. unfold Call. by rewrite Hc.
  - unfold ProxyCall. by rewrite Hc, orb_true_r.
  - by rewrite Hw, lookup_empty.
  - unfold return_call. destruct (blocked w !! t') as [p'|] eqn:Hb'; [|done].
    destruct (promises w !! p') as [[r|]|] eqn:Hp'; [|done|done].
    split_and!; simpl; try done.
    + rewrite lookup_delete_ne; [done|congruence].
    + rewrite lookup_delete_ne; [done|congruence].
  - unfold Client_Close, Close. rewrite Hc. by destruct (channel_alive w).
  - unfold destroy_channel, reset_core. destruct (channel_alive w); [|done].
    by split_and!.
Qed.

(** Closing a channel strands the blocked calls.  A thread that waits in
    [Call] when the channel is closed never returns, whatever happens later:
    the core drops its lambda without running it, so nobody sets the promise. *)
Theorem close_strands_call t p w es :
  channel_alive w = true → closed_ w = false → (p < length (made w))%nat →
  blocked w !! t = Some p → promises w !! p = Some None →
  blocked (run es (Client_Close w)) !! t = Some p.
Proof.
  intros Ha Hc Hl Hb Hp.
  assert (H : stuck t p (Client_Close w)).
  { unfold Client_Close, Close. rewrite Ha, Hc. by split_and!. }
  revert H. generalize (Client_Close w). clear -es.
  induction es as [|e es IH]; intros w H; simpl; [apply H|]. by apply IH, do_event_stuck.
Qed.

(** An empty function is called all the same when the response arrives, on the
    loop's thread; only the failures that [CallAsync] finds itself check it. *)
Lemma empty_function_throws k st payload w :
  waiting w !! k = Some NullFn → ok st = false → threw (step (EvAnswer k st payload) w) = true.
Proof. intros Hk Hst. unfold step. simpl. rewrite Hk. unfold OnResponse. by rewrite Hst. Qed.
End Runs.

(** ** What the answer of the core becomes *)
Definition typed_result (alloc : bool) (st : Status) (payload : bytes) : Status * option ResType :=
  if negb (ok st) then (st, None)
  else if negb alloc then (arena_failed, None)
  else match ParseResponse payload with
  | None => (response_decode_failed, None)
  | Some res => (st, Some res)
  end.
Definition shown (r : Result ResType) : Status * option ResType := (status_ r, fst <$> value_ r).

(** Callbacks that do nothing. *)
#[local] Abbreviation quiet := (reenter_to do_op (λ _ _, []) 0).

Lemma OnResponse_result re' fn st payload w :
  arenas_wf (arenas w) → refs (arenas w) !! news (arenas w) = None →
  ∃ r w1, OnResponse re' fn st payload w = run_done re' fn r w1 ∧
    shown r = typed_result (negb (oom (news (arenas w)))) st payload ∧
    same_calls w w1 ∧ blocked w1 = blocked w ∧ returned w1 = returned w ∧
    match value_ r with
    | Some (_, p) => p = news (arenas w) ∧ arenas w1 = own p (allocated (arenas w))
    | None => arenas w1 = arenas w ∨ arenas w1 = skipped (arenas w)
    end.
Proof.
  intros Hwf Hn. unfold OnResponse, typed_result. destruct (ok st); simpl negb; cbn match.
  - rewrite new_eq. destruct (oom _); cbn match; simpl negb; cbn match.
    + do 2 eexists. split_and!; [done..|]. by right.
    + destruct (ParseResponse payload) as [res|].
      * do 2 eexists. by split_and!.
      * do 2 eexists. split_and!; [done..|]. right. simpl. by rewrite free_allocated.
  - do 2 eexists. split_and!; [done..|]. by left.
Qed.

(** The world in which the core has a call. *)
Definition sent (k : nat) (path : string) (buf : bytes) (tm : Z) (fn : DoneFn) (w : World) : World :=
  record_out (CoreCall k path (EncodeFrame buf []) tm)
    (w <| made ::= λ l, l ++ [fn] |> <| arenas ::= skipped |> <| waiting ::= <[k := fn]> |>).

Lemma CallAsync_sent re' service method request tm fn w buf :
  closed_ w = false → arenas_wf (arenas w) → oom (news (arenas w)) = false →
  EncodeRequest request = Some buf →
  CallAsync re' service method request tm fn w =
    sent (length (made w)) (api_path service method) buf tm fn w.
Proof.
  intros Hc Hwf Ho He. unfold CallAsync, new_call. cbv beta iota zeta.
  change (closed_ (w <| made ::= λ l, l ++ [fn] |>)) with (closed_ w). rewrite Hc.
  change (arenas (w <| made ::= λ l, l ++ [fn] |>)) with (arenas w). rewrite new_eq, Ho, He.
  unfold sent. simpl. by rewrite free_allocated.
Qed.

(** The core answers a call of the user. *)
Lemma answer_user k cb st payload w :
  waiting w !! k = Some (UserFn cb) → arenas_wf (arenas w) → refs (arenas w) !! news (arenas w) = None →
  ∃ r, shown r = typed_result (negb (oom (news (arenas w)))) st payload ∧
    trace (do_event quiet (EvAnswer k st payload) w) = trace w ++ [UserResult cb r] ∧
    live (arenas (do_event quiet (EvAnswer k st payload) w)) = live (arenas w) ∧
    fault (arenas (do_event quiet (EvAnswer k st payload) w)) = fault (arenas w).
Proof.
  intros Hk Hwf Hn. simpl do_event. rewrite Hk.
  match goal with |- context [OnResponse ?re' _ _ _ ?x] => set (w1 := x); set (re := re') end.
  destruct (OnResponse_result re (UserFn cb) st payload w1 Hwf Hn)
    as (r & w2 & -> & Hr & (Hp & Hw & Hm & Hans & Hab & Ht) & _ & _ & Ha).
  exists r. simpl run_done. unfold drop_result. split; [exact Hr|].
  split. { simpl. by destruct (value_ r) as [[x q]|]; simpl; rewrite Ht. }
  destruct (value_ r) as [[x q]|]; simpl.
  - destruct Ha as [-> ->]. unfold release. simpl refs. rewrite lookup_insert_eq.
    unfold upb_Arena_Free. simpl. rewrite decide_True by set_solver. simpl.
    pose proof (fresh_dead _ Hwf) as Hf. split; [set_solver|done].
  - by destruct Ha as [-> | ->].
Qed.

(** A typed call gets what the core answers.  On an open channel, after any
    run, a call whose request encodes hands the core one framed request for the
    method's path, and when the core answers with [st] and [payload] its
    callback runs once with the result that [typed_result] states: an error
    unchanged, a payload that does not parse as DATA_LOSS, and the parsed
    message otherwise; the message is freed when the callback returns, unless
    it copied the result. *)
Theorem typed_call_result es service method request tm cb buf st payload :
  let w := fold_left (λ w e, do_event quiet e w) es new_channel in
  let k := length (made w) in
  closed_ w = false → oom (news (arenas w)) = false → EncodeRequest request = Some buf →
  let w' := do_event quiet (EvAnswer k st payload)
              (CallAsync quiet service method request tm (UserFn cb) w) in
  ∃ r, shown r = typed_result (negb (oom (S (news (arenas w))))) st payload ∧
    trace w' = trace w ++ [CoreCall k (api_path service method) (EncodeFrame buf []) tm;
                           UserResult cb r] ∧
    live (arenas w') = live (arenas w) ∧ fault (arenas w') = false.
Proof.
  intros w k Hc Ho He w'.
  pose proof (client_run_Inv (λ _ _, []) 0 es new_channel new_channel_Inv) as HI.
  change (run _ _ es new_channel) with w in HI. clearbody w.
  pose proof (inv_acc _ _ _ _ HI) as Hacc. pose proof (acc_wf _ _ Hacc) as Hwf.
  subst w'. rewrite (CallAsync_sent _ _ _ _ _ _ _ buf) by done. fold k.
  set (w1 := sent _ _ _ _ _ _).
  destruct (answer_user k cb st payload w1) as (r & Hr & Ht & Hli & Hfa).
  - simpl. by rewrite lookup_insert_eq.
  - by apply skipped_wf.
  - by apply (accounted_fresh_refs ∅ (skipped (arenas w))), skipped_accounted.
  - exists r. split; [exact Hr|]. rewrite Ht, Hli, Hfa. simpl. rewrite <-(assoc_L (++)).
    split_and!; try done. apply Hacc.
Qed.

(** The blocking form returns the same.  [Call] off the loop's thread sends
    the request and blocks; when the core answers, it returns the typed result
    to its caller, who then owns the message. *)
Theorem sync_call_returns es t service method request tm buf st payload :
  let w := fold_left (λ w e, do_event quiet e w) es new_channel in
  let k := length (made w) in
  channel_alive w = true → closed_ w = false → oom (news (arenas w)) = false →
  EncodeRequest request = Some buf →
  let w1 := do_event quiet (EvCall t false service method request tm) w in
  let w2 := do_event quiet (EvReturn t) (do_event quiet (EvAnswer k st payload) w1) in
  trace w1 = trace w ++ [CoreCall k (api_path service method) (EncodeFrame buf []) tm] ∧
  returned w1 = returned w ∧
  ∃ r, shown r = typed_result (negb (oom (S (news (arenas w))))) st payload ∧
    returned w2 = returned w ++ [(t, r)] ∧ blocked w2 !! t = None.
Proof.
  intros w k Hal Hc Ho He w1 w2.
  pose proof (client_run_Inv (λ _ _, []) 0 es new_channel new_channel_Inv) as HI.
  change (run _ _ es new_channel) with w in HI. clearbody w.
  pose proof (inv_acc _ _ _ _ HI) as Hacc. pose proof (acc_wf _ _ Hacc) as Hwf.
  set (wp := w <| promises ::= <[k := None]> |> <| blocked ::= <[t := k]> |>).
  assert (Hw1 : w1 = sent k (api_path service method) buf tm (SetPromise k) wp).
  { subst w1. simpl. rewrite Hal. unfold Call. rewrite Hc. fold k wp.
    by rewrite (CallAsync_sent _ _ _ _ _ _ wp buf). }
  subst w2. rewrite Hw1. split; [done|]. split; [done|].
  simpl do_event. rewrite lookup_insert_eq.
  match goal with |- context [OnResponse ?re' _ _ _ ?x] => set (w3 := x); set (re := re') end.
  assert (Hwf3 : arenas_wf (arenas w3)) by by apply skipped_wf.
  assert (Hn3 : refs (arenas w3) !! news (arenas w3) = None).
  { by apply (accounted_fresh_refs ∅ (skipped (arenas w))), skipped_accounted. }
  destruct (OnResponse_result re (SetPromise k) st payload w3 Hwf3 Hn3)
    as (r & w4 & -> & Hr & (Hp & Hw & Hm & Hans & Hab & Ht) & Hb & Hret & Ha).
  exists r. split; [exact Hr|]. unfold return_call. simpl. rewrite Hb. simpl. rewrite lookup_insert_eq.
  rewrite lookup_insert_eq. simpl. rewrite Hret. split; [done|]. by rewrite lookup_delete_eq.
Qed.

(** A closed channel refuses.  Calls on a closed channel, and calls of a
    proxy whose channel is closed or gone, fail at once with UNAVAILABLE, the
    blocking ones too; nothing is given to the core. *)
Theorem closed_channel_refuses w cb t on_loop request tm :
  channel_alive w = false ∨ closed_ w = true →
  trace (ProxyCallAsync quiet request tm (UserFn cb) w) =
    trace w ++ [UserResult cb (failed channel_closed)] ∧
  waiting (ProxyCallAsync quiet request tm (UserFn cb) w) = waiting w ∧
  ProxyCall quiet t on_loop request tm w =
    w <| returned ::= λ l, l ++ [(t, failed channel_closed)] |> ∧
  (closed_ w = true → ∀ service method,
    trace (CallAsync quiet service method request tm (UserFn cb) w) =
      trace w ++ [UserResult cb (failed channel_closed)] ∧
    waiting (CallAsync quiet service method request tm (UserFn cb) w) = waiting w ∧
    Call quiet t on_loop service method request tm w =
      w <| returned ::= λ l, l ++ [(t, failed channel_closed)] |>).
Proof.
  intros H. unfold ProxyCallAsync, ProxyCall.
  assert (negb (channel_alive w) || closed_ w = true) as ->.
  { destruct H as [-> | ->]; [done|]. by rewrite orb_true_r. }
  split_and!; try done. intros Hc service method. unfold CallAsync, Call, new_call. simpl. by rewrite Hc.
Qed.
End Client.

(** ** Witnesses *)
Section Demo.
#[local] Existing Instance demo_traits.

#[local] Abbreviation demo_run := (run (M := demo_traits) (λ _, false) (λ _ _, []) 0).

(** A call that is answered and one that waits, on a channel. *)
Definition demo_req : list (Event (M := demo_traits)) :=
  [EvOp (OpCallAsync "a.S" "M" ([chr 1] : bytes) 0 (Some 7%nat)); EvAnswer 0 Ok [chr 10; chr 2];
   EvOp (OpProxyCallAsync ([chr 3] : bytes) 0 (Some 8%nat))].

Lemma typed_call_result_witness :
  ∃ r, shown r = (Ok, Some ([chr 2 ; chr 3] : bytes)) ∧
  trace (do_event (λ _, false) (reenter_to (do_op (λ _, false)) (λ _ _, []) 0) (EvAnswer 2 Ok [chr 10; chr 2; chr 3])
    (CallAsync (λ _, false) (reenter_to (do_op (λ _, false)) (λ _ _, []) 0) "a.S" "M" ([chr 1] : bytes) 0
       (UserFn 9) (demo_run demo_req new_channel))) =
  trace (demo_run demo_req new_channel) ++
    [CoreCall 2 "/a.S/M" (EncodeFrame [chr 10; chr 1] []) 0; UserResult 9 r].
Proof.
  destruct (typed_call_result (M := demo_traits) (λ _, false) demo_req "a.S" "M" [chr 1] 0 9
    [chr 10; chr 1] Ok [chr 10; chr 2; chr 3]) as (r & Hr & Ht & _); [done..|].
  exists r. split; [exact Hr|exact Ht].
Defined.

Lemma sync_call_returns_witness :
  ∃ r, shown r = (response_decode_failed, None) ∧
  returned (demo_run (demo_req ++ [EvCall 1 false "a.S" "M" ([] : bytes) 0; EvAnswer 2 Ok []; EvReturn 1])
    new_channel) = [(1%nat, r)].
Proof.
  destruct (sync_call_returns (M := demo_traits) (λ _, false) demo_req 1 "a.S" "M" [] 0
    [chr 10] Ok []) as (_ & _ & r & Hr & Ht & _); [done..|].
  exists r. split; [exact Hr|exact Ht].
Defined.

Lemma close_strands_call_witness :
  let w := demo_run [EvCall 1 false "a.S" "M" ([] : bytes) 0] new_channel in
  blocked (demo_run [EvAnswer 0 Ok [chr 10]; EvReturn 1] (Client_Close w)) !! 1%nat = Some 0%nat.
Proof.
  intros w. apply (close_strands_call (M := demo_traits)); [reflexivity..| |reflexivity|reflexivity].
  vm_compute. lia.
Defined.

Lemma closed_channel_refuses_witness :
  trace (ProxyCallAsync (λ _, false) (reenter_to (do_op (λ _, false)) (λ _ _, []) 0) ([] : bytes) 0
    (UserFn 3) (Client_Close (new_channel (M := demo_traits)))) =
  [UserResult 3 (failed channel_closed)].
Proof.
  apply (closed_channel_refuses (M := demo_traits) (λ _, false)
    (Client_Close new_channel) 3 1 false [] 0). by right.
Defined.
End Demo.
