(* ===== verification/StreamServer.v ===== *)
(** * Typed server streams (api/include/urpc/stream.h, the server side)

    One stream of a method that streams: the typed writer with its shared
    [ServerWriteState], the typed reader, and the wrappers that
    [RegisterServerStreamingFor], [RegisterClientStreamingFor] and
    [RegisterBidiFor] put around a handler.

    The core's context of the stream is the environment: it is given lambdas to
    read and write with, and runs each of them once, at once or later, with a
    status of its choice.  The handler, its callbacks and the copies they keep
    of the writer and the reader are the environment, too.  A handler may throw;
    callbacks that throw, and contexts that outlive their stream, are not
    modelled here. *)
From S2P Require Import Prelude Status Arena Api UnaryServer.

Definition null_message : Status := mkStatus kInternal "null message".
Definition already_finished : Status := mkStatus kInternal "stream already finished".
Definition no_responses : Status :=
  mkStatus kUnimplemented "method not implemented: no responses written".
Definition handler_raised : Status := mkStatus kInternal "service handler raised an exception".
Definition missing_response : Status := mkStatus kInternal "missing response message".

(** The lambdas given to the core: the wrapper's read of the one request, a
    typed read, a typed write, and the write of a client stream's response. *)
Inductive ReadFn := RequestFn | UserReadFn (cb : nat).
Inductive WriteFn := CountedFn (delivered : option nat) | ResponseFn.

(** Who finishes the stream. *)
Inductive Finisher := ByWrapper | ByWriter | ByAuto | ByDone | ByCatch.
#[export] Instance Finisher_eq_dec : EqDecision Finisher.
Proof. solve_decision. Defined.

Section Stream.
Context {M : MethodTraits} (oom : nat → bool) (form : Service.MethodForm).

(** ** State *)

(** Calls of the core's context and of user code; [WriteAnswered] marks that the
    core runs the lambda of a write. *)
Inductive Out :=
  | CoreRead (tok : nat)
  | CoreWrite (tok : nat) (payload : bytes)
  | CoreFinish (by_ : Finisher) (st : Status)
  | WriteAnswered (tok : nat)
  | ServerStreamingHandler (req : ReqType) (p : nat)
  | ClientStreamingHandler
  | BidiHandler
  | UserDelivered (cb : nat) (st : Status)
  | UserRead (cb : nat) (st : Status) (eos : bool) (msg : option (ReqType * nat)).

Record World := mkWorld {
  (* ServerWriteState *)
  wrote : bool;
  finished : bool;
  in_flight : nat;
  handler_returned : bool;
  finish_ctx : bool;                       (* not null *)
  (* the environment *)
  arenas : Arenas;
  view_arena : option nat;                 (* the arena that the reader is made with *)
  views : bool;                            (* the handler has been given its views *)
  reads : gmap nat ReadFn;                 (* lambdas that the core holds *)
  writes : gmap nat WriteFn;
  next_tok : nat;
  freed_null : bool;                       (* upb_Arena_Free(nullptr) was called *)
  ctx_alive : bool;                        (* the ServerContext, a local of the core's lambda *)
  dangling : bool;                         (* it was used after it had gone *)
  throwing : bool;                         (* an exception of a handler unwinds *)
  leaked : gset nat;                       (* arenas whose upb_Arena_Free was skipped *)
  trace : list Out;
  started : bool;                          (* ghost: the stream's body was run *)
  served : bool;                           (* ghost: the request's lambda got a message, and is done *)
  asked : list nat;                        (* ghost: the callbacks given to Write *)
  asked_reads : list nat                   (* ghost: the callbacks given to ReadMessage *)
}.
#[export] Instance eta_StreamWorld : EtaRecord World := λ w,
  mkWorld (wrote w) (finished w) (in_flight w) (handler_returned w) (finish_ctx w) (arenas w)
    (view_arena w) (views w) (reads w) (writes w) (next_tok w) (freed_null w)
    (ctx_alive w) (dangling w) (throwing w) (leaked w) (trace w) (started w)
    (served w) (asked w) (asked_reads w).

Definition new_stream : World :=
  mkWorld false false 0 false false no_arenas None false ∅ ∅ 0 false false false false ∅ [] false false [] [].

(** ** Operations *)
Section Ops.
(** [throws] says which handlers end with an exception. *)
Context (throws : Out → World → bool) (reenter : Out → World → World).

Definition call_out (o : Out) (w : World) : World :=
  reenter o (w <| trace ::= λ t, t ++ [o] |>).
Definition free (p : nat) (w : World) : World := w <| arenas ::= upb_Arena_Free p |>.

Definition raise (o : Out) (w : World) : World :=
  if throws o w then w <| throwing := true |> else w.

(** [ServerWriteState::MaybeAutoFinish] and [OnDelivered]. *)
Definition MaybeAutoFinish (w : World) : World :=
  if negb (in_flight w =? 0)%nat then w
  else if negb (handler_returned w) || negb (finish_ctx w) then w
  else if finished w then w
  else call_out (CoreFinish ByAuto Ok) (w <| finished := true |>).

Definition OnDelivered (w : World) : World :=
  let before := in_flight w in
  let w := w <| in_flight ::= pred |> in
  if (before =? 1)%nat then MaybeAutoFinish w else w.

(** [if (delivered) delivered(...)] *)
Definition tell (delivered : option nat) (st : Status) (w : World) : World :=
  match delivered with Some cb => call_out (UserDelivered cb st) w | None => w end.

(** [ctx_->WriteMessage], with a lambda. *)
Definition core_write (fn : WriteFn) (payload : bytes) (w : World) : World :=
  let tok := next_tok w in
  call_out (CoreWrite tok payload)
    (w <| next_tok ::= S |> <| writes ::= <[tok := fn]> |>).

(** [ServerWriter::Write]; the message is [None] when the pointer is null. *)
Definition Write (msg : option ResType) (delivered : option nat) (w : World) : bool * World :=
  let w := match delivered with Some cb => w <| asked ::= λ l, l ++ [cb] |> | None => w end in
  let fail st w := (false, tell delivered st w) in
  match msg with
  | None => fail null_message w
  | Some m =>
      if finished w then fail already_finished w
      else
        let '(arena, a) := upb_Arena_New oom (arenas w) in
        let w := w <| arenas := a |> in
        match arena with
        | None => fail arena_failed w
        | Some p =>
            match EncodeResponse m with
            | None => fail response_encode_failed (free p w)
            | Some payload =>
                let w := free p w in
                (true, core_write (CountedFn delivered) payload
                         (w <| wrote := true |> <| in_flight ::= S |>))
            end
        end
  end.

(** The lambda of a write, run by the core. *)
Definition run_write (tok : nat) (fn : WriteFn) (st : Status) (w : World) : World :=
  let w := w <| writes ::= delete tok |> <| trace ::= λ t, t ++ [WriteAnswered tok] |> in
  match fn with
  | CountedFn delivered => OnDelivered (tell delivered st w)
  | ResponseFn => w
  end.

(** [ServerWriter::Finish] *)
Definition Finish (st : Status) (w : World) : bool * World :=
  if finished w then (false, w)
  else (true, call_out (CoreFinish ByWriter st) (w <| finished := true |>)).

(** [ctx_->ReadMessage], with a lambda. *)
Definition core_read (fn : ReadFn) (w : World) : World :=
  let tok := next_tok w in
  call_out (CoreRead tok) (w <| next_tok ::= S |> <| reads ::= <[tok := fn]> |>).

(** [ServerReader::ReadMessage] *)
Definition ReadMessage (cb : nat) (w : World) : World :=
  core_read (UserReadFn cb) (w <| asked_reads ::= λ l, l ++ [cb] |>).

(** Its lambda.  The message's arena belongs to the lambda, which goes when it
    has been run; a null arena is freed, too. *)
Definition run_user_read (cb : nat) (st : Status) (eos : bool) (data : bytes) (w : World) : World :=
  if eos || negb (ok st) then call_out (UserRead cb st eos None) w
  else
    let '(arena, a) := upb_Arena_New oom (arenas w) in
    let w := w <| arenas := a |> in
    match arena with
    | None => (call_out (UserRead cb request_decode_failed false None) w) <| freed_null := true |>
    | Some p =>
        match ParseRequest data with
        | None => free p (call_out (UserRead cb request_decode_failed false None) w)
        | Some req => free p (call_out (UserRead cb st false (Some (req, p))) w)
        end
    end.

(** The reference to the [ServerContext] that the server-streaming lambda has
    captured. *)
Definition use_ctx (w : World) : World := if ctx_alive w then w else w <| dangling := true |>.

(** The lambda of the server-streaming wrapper, past the handler. *)
Definition after_handler (w : World) : World :=
  if finished w then w
  else if negb (wrote w) then call_out (CoreFinish ByWrapper no_responses) w
  else MaybeAutoFinish (w <| handler_returned := true |> <| finish_ctx := true |>).

Definition run_request (st : Status) (eos : bool) (data : bytes) (w : World) : World :=
  if negb (ok st) || eos then w
  else
    let '(arena, a) := upb_Arena_New oom (arenas w) in
    let w := w <| arenas := a |> in
    let w :=
      match arena with
      | None => call_out (CoreFinish ByWrapper arena_failed) w
      | Some p =>
          match ParseRequest data with
          | None => call_out (CoreFinish ByWrapper request_decode_failed) (free p w)
          | Some req =>
              let o := ServerStreamingHandler req p in
              let w := raise o (call_out o (use_ctx (w <| views := true |>))) in
              if throwing w then w <| leaked ::= λ l, {[p]} ∪ l |>
              else after_handler (free p w)
          end
      end in
    if throwing w then w else w <| served := true |>.

Definition run_read (tok : nat) (fn : ReadFn) (st : Status) (eos : bool) (data : bytes) (w : World)
    : World :=
  let w := w <| reads ::= delete tok |> in
  match fn with
  | RequestFn => run_request st eos data w
  | UserReadFn cb => run_user_read cb st eos data w
  end.

(** [ServerReader]'s constructor. *)
Definition make_reader (w : World) : World :=
  let '(arena, a) := upb_Arena_New oom (arenas w) in
  w <| arenas := a |> <| view_arena := arena |>.

(** The lambdas given to [RegisterStreamRaw]: the stream's body. *)
Definition server_streaming_body (w : World) : World := core_read RequestFn w.
Definition client_streaming_body (w : World) : World :=
  raise ClientStreamingHandler
    (call_out ClientStreamingHandler (use_ctx ((make_reader w) <| views := true |>))).
Definition bidi_body (w : World) : World :=
  raise BidiHandler (call_out BidiHandler (use_ctx ((make_reader w) <| views := true |>))).

Definition form_body (w : World) : World :=
  match form with
  | Service.kServerStreaming => server_streaming_body w
  | Service.kClientStreaming => client_streaming_body w
  | Service.kBidi => bidi_body w
  | Service.kUnary => w                      (* refused by RegisterStreamRaw *)
  end.

(** The lambda that [RegisterStreamRaw] gives to the core: [ctx] is its local, and
    an exception ends here. *)
Definition contain (w : World) : World :=
  if throwing w then call_out (CoreFinish ByCatch handler_raised) (w <| throwing := false |>) else w.
Definition body (w : World) : World :=
  (contain (form_body (w <| ctx_alive := true |>))) <| ctx_alive := false |>.

(** [done] of a client-streaming handler. *)
Definition typed_done (st : Status) (res : option ResType) (w : World) : World :=
  let w := w <| finished := true |> in
  match (if ok st then res else None) with
  | None => call_out (CoreFinish ByDone (if ok st then missing_response else st)) w
  | Some r =>
      let '(arena, a) := upb_Arena_New oom (arenas w) in
      let w := w <| arenas := a |> in
      match arena with
      | None => call_out (CoreFinish ByDone arena_failed) w
      | Some p =>
          match EncodeResponse r with
          | None => call_out (CoreFinish ByDone response_encode_failed) (free p w)
          | Some payload =>
              let w := free p w in
              let w := core_write ResponseFn payload (w <| wrote := true |>) in
              call_out (CoreFinish ByDone Ok) w
          end
      end
  end.

(** What user code, with the views it was given, and the core can do. *)
Inductive Op :=
  | OpBody                                   (* the core dispatches the stream, once *)
  | OpWrite (msg : option ResType) (delivered : option nat)
  | OpFinish (st : Status)
  | OpRead (cb : nat)
  | OpDone (st : Status) (res : option ResType)
  | OpAnswerWrite (tok : nat) (st : Status)
  | OpAnswerRead (tok : nat) (st : Status) (eos : bool) (data : bytes).

Definition has_writer : bool :=
  match form with Service.kServerStreaming | Service.kBidi => true | _ => false end.
Definition has_reader : bool :=
  match form with Service.kClientStreaming | Service.kBidi => true | _ => false end.
Definition has_done : bool :=
  match form with Service.kClientStreaming => true | _ => false end.

(** While an exception unwinds nothing else runs on the thread; one that is not
    caught ends the program. *)
Definition do_op (op : Op) (w : World) : World :=
  if throwing w then w else
  match op with
  | OpBody => if started w then w else body (w <| started := true |>)
  | OpWrite msg delivered => if has_writer && views w then (Write msg delivered w).2 else w
  | OpFinish st => if has_writer && views w then (Finish st w).2 else w
  | OpRead cb => if has_reader && views w then ReadMessage cb w else w
  | OpDone st res => if has_done && views w then typed_done st res w else w
  | OpAnswerWrite tok st =>
      match writes w !! tok with Some fn => run_write tok fn st w | None => w end
  | OpAnswerRead tok st eos data =>
      match reads w !! tok with Some fn => run_read tok fn st eos data w | None => w end
  end.
End Ops.
End Stream.
