(* ===== verification/StreamServerRun.v ===== *)
(** * Runs of a typed server stream

    The invariant of StreamServer.v, for every handler and every behaviour of
    the core; and what it means for a stream: writes and reads are answered
    once, the automatic finish comes and comes last, and arenas are freed. *)
From S2P Require Import Prelude Status Arena Api UnaryServer StreamServer.

Section Inv.
Context {M : MethodTraits} (form : Service.MethodForm).

(** ** What the trace says *)
Definition writer_finish (o : Out) : bool :=
  match o with CoreFinish (ByWriter | ByAuto) _ => true | _ => false end.
Definition any_finish (o : Out) : bool :=
  match o with CoreFinish _ _ => true | _ => false end.
Definition writer_finishes (t : list Out) : nat := length (filter (λ o, writer_finish o = true) t).
Definition told (o : Out) : option nat :=
  match o with UserDelivered cb _ => Some cb | _ => None end.
Definition read_told (o : Out) : option nat :=
  match o with UserRead cb _ _ _ => Some cb | _ => None end.

(** Every write of [t] has been answered in [t]. *)
Definition all_answered (t : list Out) : Prop :=
  ∀ tok payload, CoreWrite tok payload ∈ t → WriteAnswered tok ∈ t.

(** After the writer's finish nothing is written; the automatic one is OK and
    comes when every write has been answered. *)
Definition trace_ok (t : list Out) : Prop :=
  ∀ l1 b st l2, t = l1 ++ CoreFinish b st :: l2 → writer_finish (CoreFinish b st) = true →
    (∀ tok payload, CoreWrite tok payload ∉ l2) ∧
    (b = ByAuto → st = Ok ∧ all_answered l1).

Lemma trace_ok_snoc o t :
  trace_ok t →
  (∀ tok payload, o = CoreWrite tok payload → writer_finishes t = 0%nat) →
  (∀ st, o = CoreFinish ByAuto st → st = Ok ∧ all_answered t) →
  trace_ok (t ++ [o]).
Proof.
  intros Ht Hw Ha l1 b st l2 E Hb. destruct (decide (l2 = [])) as [->|Hne].
  - apply app_inj_tail in E as [-> ->]. split; [intros ? ? H; by apply elem_of_nil in H|].
    intros ->. by apply Ha.
  - destruct (exists_last Hne) as (l2' & o' & ->).
    rewrite app_comm_cons, (assoc_L (++)) in E. apply app_inj_tail in E as [-> ->].
    destruct (Ht l1 b st l2' eq_refl Hb) as [H1 H2]. split; [|done].
    intros tok p [H|H%list_elem_of_singleton]%elem_of_app; [by eapply H1|].
    specialize (Hw _ _ (eq_sym H)). unfold writer_finishes in Hw.
    rewrite filter_app, filter_cons, Hb in Hw. case_decide; [|done].
    rewrite length_app in Hw. simpl in Hw. lia.
Qed.

Lemma writer_finishes_snoc o t :
  writer_finishes (t ++ [o]) = (writer_finishes t + if writer_finish o then 1 else 0)%nat.
Proof.
  unfold writer_finishes. rewrite filter_app, length_app, filter_cons, filter_nil.
  by destruct (writer_finish o); case_decide.
Qed.

Lemma writer_finish_in t : (0 < writer_finishes t)%nat → ∃ b st, CoreFinish b st ∈ t.
Proof.
  unfold writer_finishes. destruct (filter _ t) as [|o l] eqn:E; [simpl; lia|]. intros _.
  assert (o ∈ filter (λ o, writer_finish o = true) t) as Hin by (rewrite E; by constructor).
  apply list_elem_of_filter in Hin as [Ho Hin]. destruct o; try done. by do 2 eexists.
Qed.

(** ** What the core holds *)
Definition is_counted (fn : WriteFn) : nat := match fn with CountedFn _ => 1 | ResponseFn => 0 end.
Definition counted (m : gmap nat WriteFn) : nat :=
  length (filter (λ x : nat * WriteFn, is_counted x.2 = 1%nat) (map_to_list m)).
Definition pending_cb (x : nat * WriteFn) : option nat :=
  match x.2 with CountedFn d => d | ResponseFn => None end.
Definition pending_read (x : nat * ReadFn) : option nat :=
  match x.2 with UserReadFn cb => Some cb | RequestFn => None end.

Lemma counted_insert m tok fn :
  m !! tok = None → counted (<[tok := fn]> m) = (is_counted fn + counted m)%nat.
Proof.
  intros H. unfold counted. rewrite (map_to_list_insert m tok fn H), filter_cons.
  by destruct fn; case_decide.
Qed.
Lemma counted_delete m tok fn :
  m !! tok = Some fn → counted m = (is_counted fn + counted (delete tok m))%nat.
Proof.
  intros H. rewrite <-(insert_delete_id m tok fn H) at 1. by rewrite counted_insert by apply lookup_delete_eq.
Qed.
Lemma counted_zero m tok fn : counted m = 0%nat → m !! tok = Some fn → fn = ResponseFn.
Proof. intros H0 Hm. rewrite (counted_delete _ _ _ Hm) in H0. by destruct fn. Qed.

(** ** The invariant

    [k]: lambdas of writes that are being run; [H]: arenas in the hands of
    running code; [dd], [dr]: callbacks of writes and reads about to be run; [lv]:
    a stream whose handler returned is waiting for a delivery; [seen]: the
    wrapper is past the request. *)
Definition view_set (w : World) : gset nat :=
  match view_arena w with Some p => {[p]} | None => ∅ end.
(** Those that stay: the reader's, and those that an exception has leaked. *)
Definition kept (w : World) : gset nat := view_set w ∪ leaked w.

(** The stream has been finished, or will be by the last delivery. *)
Definition ending (w : World) : Prop :=
  (∃ o, o ∈ trace w ∧ any_finish o = true) ∨ handler_returned w = true.

Record InvAt (lv seen : bool) (k : nat) (H : gset nat) (dd dr : list nat) (w : World) : Prop := {
  i_acc : accounted (kept w ∪ H) (arenas w);
  i_refs : refs (arenas w) = ∅;
  i_view : started w = false → view_arena w = None;
  i_disj : kept w ## H;
  i_flight : in_flight w = (counted (writes w) + k)%nat;
  i_wtok : ∀ tok fn, writes w !! tok = Some fn → (tok < next_tok w)%nat;
  i_rtok : ∀ tok fn, reads w !! tok = Some fn → (tok < next_tok w)%nat;
  i_resp : ∀ tok, writes w !! tok = Some ResponseFn → has_writer form = false;
  i_request : ∀ tok, reads w !! tok = Some RequestFn → form = Service.kServerStreaming;
  i_returned : handler_returned w = true → has_writer form = true ∧ finish_ctx w = true;
  i_fin : writer_finishes (trace w) = if finished w && has_writer form then 1%nat else 0%nat;
  i_trace : trace_ok (trace w);
  i_written : ∀ tok payload, CoreWrite tok payload ∈ trace w →
              WriteAnswered tok ∈ trace w ∨ is_Some (writes w !! tok);
  i_told : asked w ≡ₚ omap told (trace w) ++ omap pending_cb (map_to_list (writes w)) ++ dd;
  i_rtold : asked_reads w ≡ₚ omap read_told (trace w) ++ omap pending_read (map_to_list (reads w)) ++ dr;
  i_live : lv = true → handler_returned w = true → finished w = true ∨ (0 < in_flight w)%nat;
  i_served : served w = true → ending w;
  i_seen : seen = true → ending w
}.
Abbreviation Inv seen k H := (InvAt true seen k H [] []).

Definition keeps (w w' : World) : Prop := ∀ seen k H, Inv seen k H w → Inv seen k H w'.
#[local] Instance stream_keeps_preorder : PreOrder keeps.
Proof. split; [by intros w seen k H|]. intros w1 w2 w3 H1 H2 s k H HI. by apply H2, H1. Qed.

(** Records that say nothing about writes, reads and finishes of the writer. *)
Definition neutral (o : Out) : Prop :=
  told o = None ∧ read_told o = None ∧ writer_finish o = false ∧
  (∀ tok payload, o ≠ CoreWrite tok payload).

Lemma ending_snoc o w : ending w → ending (w <| trace ::= λ t, t ++ [o] |>).
Proof. intros [(o' & Hin & Ho)|?]; [left|by right]. exists o'. split; [|done]. apply elem_of_app. auto. Qed.

Lemma record_neutral o lv seen k H dd dr w :
  neutral o → InvAt lv seen k H dd dr w → InvAt lv seen k H dd dr (w <| trace ::= λ t, t ++ [o] |>).
Proof.
  intros (Ht & Hr & Hf & Hw) []. split; simpl; try done.
  - rewrite writer_finishes_snoc, Hf, i_fin0. lia.
  - apply trace_ok_snoc; [done| |].
    + intros tok p E. by destruct (Hw tok p).
    + intros st E. by rewrite E in Hf.
  - intros tok p [Hin|Hin%list_elem_of_singleton]%elem_of_app; [|by destruct (Hw tok p)].
    destruct (i_written0 _ _ Hin); [left; apply elem_of_app|]; auto.
  - rewrite omap_app. simpl. by rewrite Ht, app_nil_r.
  - rewrite omap_app. simpl. by rewrite Hr, app_nil_r.
  - intros Hs. by apply ending_snoc, i_served0.
  - intros Hs. by apply ending_snoc, i_seen0.
Qed.

(** ** Steps *)

(** The writer's finish, or the automatic one. *)
Lemma record_finish b st lv seen k H w :
  writer_finish (CoreFinish b st) = true → has_writer form = true → finished w = false →
  (b = ByAuto → st = Ok ∧ in_flight w = 0%nat) →
  InvAt lv seen k H [] [] w →
  Inv seen k H (w <| finished := true |> <| trace ::= λ t, t ++ [CoreFinish b st] |>).
Proof.
  intros Hb Hw Hf Ha []. split; simpl; try done.
  - rewrite writer_finishes_snoc, i_fin0, Hf, Hw, Hb. done.
  - apply trace_ok_snoc; [done..|]. intros st' [= -> ->]. destruct (Ha eq_refl) as [-> H0].
    split; [done|]. intros tok p Hin. destruct (i_written0 _ _ Hin) as [|[fn Hfn]]; [done|].
    assert (Hc : counted (writes w) = 0%nat) by lia.
    pose proof (counted_zero _ _ _ Hc Hfn) as ->. apply i_resp0 in Hfn. congruence.
  - intros tok p [Hin|Hin%list_elem_of_singleton]%elem_of_app; [|done].
    destruct (i_written0 _ _ Hin); [left; apply elem_of_app|]; auto.
  - by rewrite omap_app, app_nil_r.
  - by rewrite omap_app, app_nil_r.
  - by left.
  - intros Hs. apply ending_snoc. by destruct (i_served0 Hs); [left|right].
  - intros Hs. apply ending_snoc. by destruct (i_seen0 Hs); [left|right].
Qed.

(** Any finish ends the stream. *)
Lemma record_seen b st seen k H w :
  Inv seen k H (w <| trace ::= λ t, t ++ [CoreFinish b st] |>) →
  Inv true k H (w <| trace ::= λ t, t ++ [CoreFinish b st] |>).
Proof.
  intros []. split; try done. intros _. left. exists (CoreFinish b st). split; [|done].
  simpl. apply elem_of_app. right. by constructor.
Qed.

Lemma record_told cb st lv seen k H dr w :
  InvAt lv seen k H [cb] dr w →
  InvAt lv seen k H [] dr (w <| trace ::= λ t, t ++ [UserDelivered cb st] |>).
Proof.
  intros []. split; simpl; try done.
  - rewrite writer_finishes_snoc, i_fin0. simpl. lia.
  - by apply trace_ok_snoc.
  - intros tok p [Hin|Hin%list_elem_of_singleton]%elem_of_app; [|done].
    destruct (i_written0 _ _ Hin); [left; apply elem_of_app|]; auto.
  - rewrite i_told0, omap_app. simpl. solve_Permutation.
  - by rewrite omap_app, app_nil_r.
  - intros Hs. by apply ending_snoc, i_served0.
  - intros Hs. by apply ending_snoc, i_seen0.
Qed.

Lemma record_read cb st eos msg lv seen k H dd w :
  InvAt lv seen k H dd [cb] w →
  InvAt lv seen k H dd [] (w <| trace ::= λ t, t ++ [UserRead cb st eos msg] |>).
Proof.
  intros []. split; simpl; try done.
  - rewrite writer_finishes_snoc, i_fin0. simpl. lia.
  - by apply trace_ok_snoc.
  - intros tok p [Hin|Hin%list_elem_of_singleton]%elem_of_app; [|done].
    destruct (i_written0 _ _ Hin); [left; apply elem_of_app|]; auto.
  - by rewrite omap_app, app_nil_r.
  - rewrite i_rtold0, omap_app. simpl. solve_Permutation.
  - intros Hs. by apply ending_snoc, i_served0.
  - intros Hs. by apply ending_snoc, i_seen0.
Qed.

(** A lambda is given to the core. *)
Lemma record_write fn payload d lv seen k H w :
  writer_finishes (trace w) = 0%nat →
  (fn = ResponseFn → has_writer form = false) →
  d = match fn with CountedFn d => option_list d | ResponseFn => [] end →
  InvAt lv seen k H d [] w →
  InvAt lv seen k H [] []
    (w <| in_flight ::= plus (is_counted fn) |> <| next_tok ::= S |>
       <| writes ::= <[next_tok w := fn]> |>
       <| trace ::= λ t, t ++ [CoreWrite (next_tok w) payload] |>).
Proof.
  intros Hwf Hfn -> [].
  assert (Hn : writes w !! next_tok w = None).
  { apply eq_None_not_Some. intros [f Hf%i_wtok0]. lia. }
  split; simpl; try done.
  - rewrite counted_insert by done. lia.
  - intros tok f. rewrite lookup_insert_Some. intros [[<- _]|[_ Hf%i_wtok0]]; lia.
  - intros tok f Hf%i_rtok0. lia.
  - intros tok. rewrite lookup_insert_Some. intros [[<- ->]|[_ Hf]]; [by apply Hfn|by eapply i_resp0].
  - rewrite writer_finishes_snoc, i_fin0. simpl. lia.
  - apply trace_ok_snoc; [done..|]. done.
  - intros tok p [Hin|Hin%list_elem_of_singleton]%elem_of_app.
    + destruct (i_written0 _ _ Hin) as [?|[f Hf]]; [left; apply elem_of_app; auto|right].
      destruct (decide (next_tok w = tok)) as [<-|]; [by rewrite lookup_insert_eq|].
      by rewrite lookup_insert_ne.
    + simplify_eq. right. by rewrite lookup_insert_eq.
  - rewrite i_told0, omap_app, map_to_list_insert by done. simpl.
    destruct fn as [[d|]|]; simpl; solve_Permutation.
  - by rewrite omap_app, app_nil_r.
  - intros Hl Hr. destruct (i_live0 Hl Hr); [auto|right; lia].
  - intros Hs. by apply ending_snoc, i_served0.
  - intros Hs. by apply ending_snoc, i_seen0.
Qed.

Lemma record_core_read fn d lv seen k H w :
  (fn = RequestFn → form = Service.kServerStreaming) →
  d = match fn with UserReadFn cb => [cb] | RequestFn => [] end →
  InvAt lv seen k H [] d w →
  InvAt lv seen k H [] []
    (w <| next_tok ::= S |> <| reads ::= <[next_tok w := fn]> |>
       <| trace ::= λ t, t ++ [CoreRead (next_tok w)] |>).
Proof.
  intros Hfn Hd HI. apply record_neutral; [done|]. destruct HI.
  assert (Hn : reads w !! next_tok w = None).
  { apply eq_None_not_Some. intros [f Hf%i_rtok0]. lia. }
  split; simpl; try done.
  - intros tok f Hf%i_wtok0. lia.
  - intros tok f. rewrite lookup_insert_Some. intros [[<- _]|[_ Hf%i_rtok0]]; lia.
  - intros tok. rewrite lookup_insert_Some. intros [[<- ->]|[_ Hf]]; [by apply Hfn|by eapply i_request0].
  - rewrite i_rtold0, map_to_list_insert by done. simpl. subst d.
    destruct fn; simpl; solve_Permutation.
Qed.

(** The core runs one. *)
Lemma answer_write tok fn seen k H w :
  writes w !! tok = Some fn → Inv seen k H w →
  InvAt true seen (is_counted fn + k) H (match fn with CountedFn d => option_list d | ResponseFn => [] end) []
    (w <| writes ::= delete tok |> <| trace ::= λ t, t ++ [WriteAnswered tok] |>).
Proof.
  intros Hfn []. split; simpl; try done.
  - rewrite i_flight0, (counted_delete _ _ _ Hfn). lia.
  - intros tok' f [_ Hf]%lookup_delete_Some. by eapply i_wtok0.
  - intros tok' [_ Hf]%lookup_delete_Some. by eapply i_resp0.
  - rewrite writer_finishes_snoc, i_fin0. simpl. lia.
  - by apply trace_ok_snoc.
  - intros tok' p [Hin|Hin%list_elem_of_singleton]%elem_of_app; [|done].
    destruct (decide (tok' = tok)) as [->|]; [left; apply elem_of_app; right; by constructor|].
    rewrite lookup_delete_ne by done.
    destruct (i_written0 _ _ Hin); [left; apply elem_of_app|]; auto.
  - rewrite i_told0, omap_app, <-(map_to_list_delete _ _ _ Hfn). simpl.
    destruct fn as [[d|]|]; simpl; solve_Permutation.
  - by rewrite omap_app, app_nil_r.
  - intros Hs. by apply ending_snoc, i_served0.
  - intros Hs. by apply ending_snoc, i_seen0.
Qed.

Lemma answer_read tok fn seen k H w :
  reads w !! tok = Some fn → Inv seen k H w →
  InvAt true seen k H [] (match fn with UserReadFn cb => [cb] | RequestFn => [] end)
    (w <| reads ::= delete tok |>).
Proof.
  intros Hfn []. split; simpl; try done.
  - intros tok' f [_ Hf]%lookup_delete_Some. by eapply i_rtok0.
  - intros tok' [_ Hf]%lookup_delete_Some. by eapply i_request0.
  - rewrite i_rtold0, <-(map_to_list_delete _ _ _ Hfn). simpl. destruct fn; simpl; solve_Permutation.
Qed.

(** The arenas change. *)
Lemma set_arenas lv seen k H H' dd dr w a :
  InvAt lv seen k H dd dr w → accounted (kept w ∪ H') a → refs a = ∅ → kept w ## H' →
  InvAt lv seen k H' dd dr (w <| arenas := a |>).
Proof. intros [] Ha Hr Hd. by split. Qed.

Lemma skip_Inv lv seen k H dd dr w :
  InvAt lv seen k H dd dr w → InvAt lv seen k H dd dr (w <| arenas := skipped (arenas w) |>).
Proof. intros HI. eapply set_arenas; [done|apply skipped_accounted|..]; apply HI. Qed.

Lemma alloc_Inv lv seen k H dd dr w :
  InvAt lv seen k H dd dr w →
  InvAt lv seen k ({[news (arenas w)]} ∪ H) dd dr (w <| arenas := allocated (arenas w) |>) ∧
  news (arenas w) ∉ H.
Proof.
  intros HI. pose proof (i_acc _ _ _ _ _ _ _ HI) as Ha.
  pose proof (fresh_dead _ (acc_wf _ _ Ha)) as Hf. rewrite (acc_live _ _ Ha) in Hf.
  pose proof (i_disj _ _ _ _ _ _ _ HI) as Hd. split; [|set_solver].
  eapply set_arenas; [done| |apply HI|set_solver].
  replace (_ ∪ _) with ({[news (arenas w)]} ∪ (kept w ∪ H)) by set_solver.
  by apply allocated_accounted.
Qed.

Lemma free_Inv p lv seen k H dd dr w :
  p ∉ H → InvAt lv seen k ({[p]} ∪ H) dd dr w → InvAt lv seen k H dd dr (free p w).
Proof.
  intros Hp HI. pose proof (i_acc _ _ _ _ _ _ _ HI) as Ha.
  pose proof (i_disj _ _ _ _ _ _ _ HI) as Hd. unfold free.
  eapply (set_arenas _ _ _ _ H _ _ w (upb_Arena_Free p (arenas w))); [done| | |set_solver].
  - replace (kept w ∪ H) with ((kept w ∪ ({[p]} ∪ H)) ∖ {[p]}).
    + apply free_accounted; [done|set_solver].
    + apply set_eq. intros q. destruct (decide (q = p)); set_solver.
  - rewrite free_refs. apply HI.
Qed.

(** An arena that is freed before anything else happens. *)
Lemma alloc_free_Inv lv seen k H dd dr w :
  InvAt lv seen k H dd dr w →
  InvAt lv seen k H dd dr (free (news (arenas w)) (w <| arenas := allocated (arenas w) |>)).
Proof. intros HI. destruct (alloc_Inv _ _ _ _ _ _ _ HI). by apply free_Inv. Qed.

Lemma leak_Inv p seen k H w :
  p ∉ H → Inv seen k ({[p]} ∪ H) w → Inv seen k H (w <| leaked ::= λ l, {[p]} ∪ l |>).
Proof.
  intros Hp []. assert (E : kept (w <| leaked ::= λ l, {[p]} ∪ l |>) = {[p]} ∪ kept w).
  { unfold kept, view_set. simpl. set_solver. }
  split; try done; rewrite E; [|set_solver].
  replace ({[p]} ∪ kept w ∪ H) with (kept w ∪ ({[p]} ∪ H)) by set_solver. done.
Qed.

(** ** Operations *)
Section Keeps.
Context (oom : nat → bool) (throws : Out → World → bool) (reenter : Out → World → World) (Hre : ∀ o w, keeps w (reenter o w)).
#[local] Set Default Proof Using "Type*".

Lemma call_neutral o seen k H w : neutral o → Inv seen k H w → Inv seen k H (call_out reenter o w).
Proof. intros Ho HI. by apply Hre, record_neutral. Qed.

Lemma tell_Inv d st seen k H w :
  InvAt true seen k H (option_list d) [] w → Inv seen k H (tell reenter d st w).
Proof. intros HI. destruct d as [cb|]; [by apply Hre, record_told|done]. Qed.

Lemma core_write_Inv fn payload d seen k H w :
  writer_finishes (trace w) = 0%nat →
  (fn = ResponseFn → has_writer form = false) →
  d = match fn with CountedFn d => option_list d | ResponseFn => [] end →
  InvAt true seen k H d [] w →
  Inv seen k H (core_write reenter fn payload (w <| in_flight ::= plus (is_counted fn) |>)).
Proof. intros H1 H2 H3 HI. apply Hre. by apply (record_write fn payload d true seen k H w). Qed.

Lemma core_read_Inv fn d seen k H w :
  (fn = RequestFn → form = Service.kServerStreaming) →
  d = match fn with UserReadFn cb => [cb] | RequestFn => [] end →
  InvAt true seen k H [] d w → Inv seen k H (core_read reenter fn w).
Proof. intros H1 H2 HI. apply Hre. by apply (record_core_read fn d true seen k H w). Qed.

(** The automatic finish puts a waiting stream in order again. *)
Lemma MaybeAutoFinish_Inv seen k H w :
  InvAt false seen k H [] [] w → Inv seen k H (MaybeAutoFinish reenter w).
Proof.
  intros HI. unfold MaybeAutoFinish.
  destruct (Nat.eqb_spec (in_flight w) 0) as [H0|H0]; simpl negb; cbn match.
  - destruct (handler_returned w) eqn:Hr; cbn [negb orb]; [|by destruct HI; split; try done; congruence].
    destruct (i_returned _ _ _ _ _ _ _ HI Hr) as [Hw Hc]. rewrite Hc. cbn [negb orb].
    destruct (finished w) eqn:Hf; [destruct HI; split; try done; by left|].
    apply Hre. by apply (record_finish _ _ false).
  - destruct HI. split; try done. intros _ _. right. lia.
Qed.

Lemma OnDelivered_Inv seen k H w :
  Inv seen (S k) H w → Inv seen k H (OnDelivered reenter w).
Proof.
  intros HI. unfold OnDelivered.
  assert (HI' : InvAt false seen k H [] [] (w <| in_flight ::= pred |>)).
  { destruct HI. split; simpl; try done. lia. }
  destruct (Nat.eqb_spec (in_flight w) 1) as [H1|H1]; [by apply MaybeAutoFinish_Inv|].
  destruct HI'. split; try done. intros _ _. right. simpl.
  pose proof (i_flight _ _ _ _ _ _ _ HI). lia.
Qed.

Lemma run_write_Inv tok fn st seen k H w :
  writes w !! tok = Some fn → Inv seen k H w → Inv seen k H (run_write reenter tok fn st w).
Proof.
  intros Hfn HI. pose proof (answer_write _ _ _ _ _ _ Hfn HI) as HI1. unfold run_write.
  destruct fn as [d|]; [|done]. by apply OnDelivered_Inv, tell_Inv.
Qed.

(** A write of the writer, past its checks. *)
Lemma Write_Inv msg delivered seen k H w :
  has_writer form = true → Inv seen k H w → Inv seen k H (Write oom reenter msg delivered w).2.
Proof.
  intros Hw HI. unfold Write.
  set (w0 := match delivered with Some cb => w <| asked ::= λ l, l ++ [cb] |> | None => w end).
  assert (H0 : InvAt true seen k H (option_list delivered) [] w0).
  { subst w0. destruct delivered as [cb|]; [|done]. destruct HI. split; simpl; try done.
    rewrite i_told0. simpl. solve_Permutation. }
  assert (Hfin : writer_finishes (trace w0) = if finished w0 then 1%nat else 0%nat).
  { rewrite (i_fin _ _ _ _ _ _ _ H0), Hw, andb_true_r. done. }
  clearbody w0. clear HI w. destruct msg as [m|]; cbv beta iota zeta; [|by apply tell_Inv].
  destruct (finished w0) eqn:Hf0; [by apply tell_Inv|]. rewrite new_eq.
  destruct (oom _); [by apply tell_Inv, skip_Inv|].
  destruct (EncodeResponse m) as [payload|]; cbn [snd]; [|by apply tell_Inv, alloc_free_Inv].
  pose proof (alloc_free_Inv _ _ _ _ _ _ _ H0) as H1.
  match goal with |- context [core_write _ _ _ ?x] => set (w2 := x) end.
  change w2 with ((free (news (arenas w0)) (w0 <| arenas := allocated (arenas w0) |>) <| wrote := true |>)
    <| in_flight ::= plus (is_counted (CountedFn delivered)) |>).
  apply (core_write_Inv _ _ (option_list delivered)); [done..|]. by destruct H1.
Qed.

Lemma Finish_Inv st seen k H w :
  has_writer form = true → Inv seen k H w → Inv seen k H (Finish reenter st w).2.
Proof.
  intros Hw HI. unfold Finish. destruct (finished w) eqn:Hf; [done|].
  apply Hre. by apply (record_finish _ _ true).
Qed.

Lemma run_user_read_Inv cb st eos data seen k H w :
  InvAt true seen k H [] [cb] w → Inv seen k H (run_user_read oom reenter cb st eos data w).
Proof.
  intros HI. unfold run_user_read.
  destruct (eos || negb (ok st)); [by apply Hre, record_read|]. rewrite new_eq.
  destruct (oom _).
  - assert (HI' : Inv seen k H (call_out reenter (UserRead cb request_decode_failed false None)
      (w <| arenas := skipped (arenas w) |>))) by by apply Hre, record_read, skip_Inv.
    by destruct HI'.
  - destruct (alloc_Inv _ _ _ _ _ _ _ HI) as [HI1 Hp].
    destruct (ParseRequest data); apply free_Inv; try done; by apply Hre, record_read.
Qed.

Lemma after_handler_Inv seen k H w :
  form = Service.kServerStreaming → Inv seen k H w → Inv true k H (after_handler reenter w).
Proof.
  intros Hform HI. unfold after_handler.
  assert (Hw : has_writer form = true) by by rewrite Hform.
  destruct (finished w) eqn:Hf.
  - assert (Hend : ending w).
    { destruct (writer_finish_in (trace w)) as (b & st & Hin); [|left; by eexists].
      rewrite (i_fin _ _ _ _ _ _ _ HI), Hf, Hw. simpl. lia. }
    destruct HI. by split.
  - destruct (wrote w); simpl; [|apply Hre; eapply record_seen; by apply record_neutral].
    apply MaybeAutoFinish_Inv. destruct HI. split; simpl; try done; intros _; by right.
Qed.

Lemma use_ctx_Inv seen k H w : Inv seen k H w → Inv seen k H (use_ctx w).
Proof. intros []. unfold use_ctx. destruct (ctx_alive w); by split. Qed.

(** The request's lambda is done, or an exception unwinds through it. *)
Lemma served_Inv seen k H w :
  Inv true k H w → Inv seen k H (if throwing w then w else w <| served := true |>).
Proof. intros []. destruct (throwing w); split; try done; intros _; by apply i_seen0. Qed.

Lemma raise_Inv o seen k H w : Inv seen k H w → Inv seen k H (raise throws o w).
Proof. intros []. unfold raise. destruct (throws o w); by split. Qed.

Lemma run_request_Inv st eos data seen k H w :
  form = Service.kServerStreaming → Inv seen k H w →
  Inv seen k H (run_request oom throws reenter st eos data w).
Proof.
  intros Hform HI. unfold run_request. destruct (negb (ok st) || eos); [done|]. rewrite new_eq.
  destruct (oom _); cbv beta iota zeta.
  - apply served_Inv, Hre. eapply record_seen. by apply record_neutral, skip_Inv.
  - destruct (ParseRequest data) as [req|].
    + destruct (alloc_Inv _ _ _ _ _ _ _ HI) as [HI1 Hp].
      match goal with |- context [raise throws ?o ?x] => set (w2 := raise throws o x) end.
      assert (H2 : Inv seen k ({[news (arenas w)]} ∪ H) w2).
      { apply raise_Inv, call_neutral; [done|]. apply use_ctx_Inv. by destruct HI1. }
      clearbody w2. destruct (throwing w2) eqn:Ht.
      * match goal with |- context [throwing ?x] => change (throwing x) with (throwing w2) end.
        rewrite Ht. by apply leak_Inv.
      * eapply served_Inv, after_handler_Inv; [done|]. by apply free_Inv.
    + apply served_Inv, Hre. eapply record_seen. by apply record_neutral, alloc_free_Inv.
Qed.

Lemma run_read_Inv tok fn st eos data seen k H w :
  reads w !! tok = Some fn → Inv seen k H w →
  Inv seen k H (run_read oom throws reenter tok fn st eos data w).
Proof.
  intros Hfn HI. pose proof (answer_read _ _ _ _ _ _ Hfn HI) as HI1. unfold run_read.
  destruct fn as [|cb]; [|by apply run_user_read_Inv].
  apply run_request_Inv; [exact (i_request _ _ _ _ _ _ _ HI _ Hfn)|done].
Qed.

Lemma set_view seen k H w a v :
  Inv seen k H w → started w = true → refs a = ∅ →
  (let V := (match v with Some p => {[p]} | None => ∅ end ∪ leaked w) : gset nat in
   accounted (V ∪ H) a ∧ V ## H) →
  Inv seen k H (w <| arenas := a |> <| view_arena := v |> <| views := true |>).
Proof. intros [] Hs Hr [Ha Hd]. split; try done. simpl. by rewrite Hs. Qed.

Lemma make_reader_Inv seen k H w :
  view_arena w = None → started w = true → Inv seen k H w →
  Inv seen k H ((make_reader oom w) <| views := true |>).
Proof.
  intros Hv Hs HI. unfold make_reader. rewrite new_eq.
  pose proof (i_acc _ _ _ _ _ _ _ HI) as Ha. pose proof (i_disj _ _ _ _ _ _ _ HI) as Hd.
  unfold kept, view_set in Ha, Hd. rewrite Hv, (left_id_L ∅ (∪)) in Ha, Hd.
  pose proof (i_refs _ _ _ _ _ _ _ HI) as Hr. destruct (alloc_Inv _ _ _ _ _ _ _ HI) as [_ Hp].
  destruct (oom _); apply set_view; try done; simpl.
  - rewrite (left_id_L ∅ (∪)). split; [by apply skipped_accounted|done].
  - split; [|set_solver]. rewrite <-(assoc_L (∪)). by apply allocated_accounted.
Qed.

(** The exception of a handler ends the stream. *)
Lemma contain_Inv seen k H w : Inv seen k H w → Inv seen k H (contain reenter w).
Proof. intros HI. unfold contain. destruct (throwing w); [|done]. apply call_neutral; [done|]. by destruct HI. Qed.

Lemma body_Inv seen k H w :
  view_arena w = None → started w = true → Inv seen k H w → Inv seen k H (body oom form throws reenter w).
Proof.
  intros Hv Hs HI. unfold body. set (w0 := w <| ctx_alive := true |>).
  assert (H0 : Inv seen k H w0) by by destruct HI.
  assert (H1 : view_arena w0 = None ∧ started w0 = true) by done. destruct H1 as [Hv0 Hs0].
  clearbody w0.
  match goal with |- Inv _ _ _ (?x <| ctx_alive := false |>) => cut (Inv seen k H x); [by intros []|] end.
  apply contain_Inv. unfold form_body. destruct form eqn:Hform.
  - done.
  - by apply (core_read_Inv RequestFn []).
  - apply raise_Inv, call_neutral; [done|]. by apply use_ctx_Inv, make_reader_Inv.
  - apply raise_Inv, call_neutral; [done|]. by apply use_ctx_Inv, make_reader_Inv.
Qed.

Lemma typed_done_Inv st res seen k H w :
  form = Service.kClientStreaming → Inv seen k H w →
  Inv seen k H (typed_done oom reenter st res w).
Proof.
  intros Hform HI. assert (Hw : has_writer form = false) by by rewrite Hform.
  unfold typed_done. set (w1 := w <| finished := true |>).
  assert (H1 : Inv seen k H w1).
  { destruct HI. split; simpl; try done; [|by left].
    rewrite i_fin0, Hw. by rewrite !andb_false_r. }
  assert (Hfin : writer_finishes (trace w1) = 0%nat).
  { rewrite (i_fin _ _ _ _ _ _ _ H1), Hw. by rewrite andb_false_r. }
  clearbody w1. destruct (if ok st then res else None) as [r|]; [|by apply call_neutral].
  rewrite new_eq. destruct (oom _); [by apply call_neutral, skip_Inv|].
  pose proof (alloc_free_Inv _ _ _ _ _ _ _ H1) as H2.
  destruct (EncodeResponse r) as [payload|]; [|by apply call_neutral].
  apply call_neutral; [done|].
  apply (core_write_Inv ResponseFn payload [] seen k H
    ((free (news (arenas w1)) (w1 <| arenas := allocated (arenas w1) |>)) <| wrote := true |>));
    [done..|]. by destruct H2.
Qed.

Lemma stream_do_op_Inv op seen k H w : Inv seen k H w → Inv seen k H (do_op oom form throws reenter op w).
Proof.
  intros HI. unfold do_op. destruct (throwing w); [done|].
  destruct op as [|msg d|st|cb|st res|tok st|tok st eos data].
  - destruct (started w) eqn:Hs; [done|]. pose proof (i_view _ _ _ _ _ _ _ HI Hs) as Hv.
    apply body_Inv; [done..|]. destruct HI. split; simpl; try done.
  - destruct (has_writer form) eqn:Hw; [|done]. destruct (views w); [by apply Write_Inv|done].
  - destruct (has_writer form) eqn:Hw; [|done]. destruct (views w); [by apply Finish_Inv|done].
  - destruct (has_reader form && views w); [|done]. unfold ReadMessage.
    apply (core_read_Inv (UserReadFn cb) [cb]); [done..|]. destruct HI. split; simpl; try done.
    rewrite i_rtold0. simpl. solve_Permutation.
  - destruct form eqn:Hf; try done. simpl. destruct (views w); [|done].
    apply typed_done_Inv; [done|]. done.
  - destruct (writes w !! tok) as [fn|] eqn:Hfn; [by apply run_write_Inv|done].
  - destruct (reads w !! tok) as [fn|] eqn:Hfn; [by apply run_read_Inv|done].
Qed.
End Keeps.

(** ** What only the wrappers touch

    A relation on worlds that does not look past the context, the exception and
    the leaks is kept by every operation, if the few that touch these keep it. *)
Definition same_frame (w w' : World) : Prop :=
  ctx_alive w' = ctx_alive w ∧ dangling w' = dangling w ∧ throwing w' = throwing w ∧ leaked w' = leaked w.

Section Frame.
Context (oom : nat → bool) (throws : Out → World → bool) (reenter : Out → World → World).
Context (R : World → World → Prop) `{!PreOrder R}.
Hypothesis R_set : ∀ w w', same_frame w w' → R w w'.
Hypothesis R_call : ∀ o w, R w (reenter o w).
Hypothesis R_use : ∀ w, R w (use_ctx w).
Hypothesis R_raise : ∀ o w, R w (raise throws o w).
Hypothesis R_leak : ∀ p w, throwing w = true → R w (w <| leaked ::= λ l, {[p]} ∪ l |>).
#[local] Set Default Proof Using "Type*".

Lemma set_frame w w1 w2 : same_frame w1 w2 → R w w1 → R w w2.
Proof. intros Hs H. etrans; [exact H|by apply R_set]. Qed.
Lemma call_frame o w w' : R w w' → R w (call_out reenter o w').
Proof. intros H. etrans; [exact H|]. etrans; [|apply R_call]. by apply R_set. Qed.
Lemma use_frame w w' : R w w' → R w (use_ctx w').
Proof. intros H. etrans; [exact H|apply R_use]. Qed.
Lemma raise_frame o w w' : R w w' → R w (raise throws o w').
Proof. intros H. etrans; [exact H|apply R_raise]. Qed.

Ltac frame :=
  repeat first
    [ apply call_frame | apply use_frame | apply raise_frame | assumption | apply R_set; by split_and!
    | progress rewrite new_eq; cbv beta iota zeta | case_match; simplify_eq
    | match goal with |- R ?w ?y =>
        match y with context [call_out reenter ?o ?x] =>
          apply (set_frame w (call_out reenter o x)); [by split_and!|] end end ].

(** A request's lambda, from its handler on. *)
Lemma handler_frame o p w :
  let w2 := raise throws o (call_out reenter o w) in
  let w3 := if throwing w2 then w2 <| leaked ::= λ l, {[p]} ∪ l |> else after_handler reenter (free p w2) in
  R w (if throwing w3 then w3 else w3 <| served := true |>).
Proof.
  intros w2 w3. assert (H2 : R w w2) by (unfold w2; frame). clearbody w2.
  assert (H3 : R w w3).
  { unfold w3. destruct (throwing w2) eqn:Ht; (etrans; [exact H2|]); [by apply R_leak|].
    unfold after_handler, MaybeAutoFinish. frame. }
  destruct (throwing w3); [done|]. by apply (set_frame w w3).
Qed.

Lemma run_request_frame st eos data w : R w (run_request oom throws reenter st eos data w).
Proof.
  unfold run_request. case_match; [done|]. rewrite new_eq. destruct (oom _); cbv beta iota zeta.
  - match goal with |- R w (if throwing ?x then _ else _) => assert (H1 : R w x) by frame; set (w1 := x) in * end.
    clearbody w1. destruct (throwing w1); [done|]. by apply (set_frame w w1).
  - destruct (ParseRequest data) as [req|].
    + etrans; [|apply handler_frame]. frame.
    + match goal with |- R w (if throwing ?x then _ else _) => assert (H1 : R w x) by frame; set (w1 := x) in * end.
      clearbody w1. destruct (throwing w1); [done|]. by apply (set_frame w w1).
Qed.

Lemma form_body_frame w : R w (form_body oom form throws reenter w).
Proof.
  unfold form_body, server_streaming_body, client_streaming_body, bidi_body, make_reader, core_read.
  destruct form; frame.
Qed.

Lemma do_op_frame op w :
  (∀ w, R w (body oom form throws reenter w)) → R w (do_op oom form throws reenter op w).
Proof.
  intros Hbody. unfold do_op. destruct (throwing w); [done|].
  destruct op; simpl; unfold Write, Finish, ReadMessage, run_write, run_read, run_user_read,
    OnDelivered, MaybeAutoFinish, typed_done, core_write, core_read, tell; cbv beta iota zeta.
  1: case_match; [done|]; etrans; [|apply Hbody]; by apply R_set.
  all: frame.
  etrans; [|apply run_request_frame]. by apply R_set.
Qed.
End Frame.

(** A context that is gone stays gone, and using one is not undone. *)
Definition ctx_gone (w w' : World) : Prop :=
  (ctx_alive w = false → ctx_alive w' = false) ∧ (dangling w = true → dangling w' = true).
#[local] Instance ctx_gone_preorder : PreOrder ctx_gone.
Proof. split; [by split|]. intros w1 w2 w3 [] []. split; auto. Qed.
Lemma same_frame_gone w w' : same_frame w w' → ctx_gone w w'.
Proof. intros (Ha & Hd & _). unfold ctx_gone. by rewrite Ha, Hd. Qed.
Lemma use_ctx_gone w : ctx_gone w (use_ctx w).
Proof. unfold use_ctx. by destruct (ctx_alive w) eqn:E; split. Qed.

(** Without an exception there is none, and nothing leaks. *)
Definition calm (w w' : World) : Prop :=
  throwing w = false → throwing w' = false ∧ leaked w' = leaked w.
#[local] Instance calm_preorder : PreOrder calm.
Proof. split; [by split|]. intros w1 w2 w3 H1 H2 H. destruct (H1 H) as [H' <-]. auto. Qed.
Lemma same_frame_calm w w' : same_frame w w' → calm w w'.
Proof. intros (_ & _ & Ht & Hl). unfold calm. by rewrite Ht, Hl. Qed.
Lemma use_ctx_calm w : calm w (use_ctx w).
Proof. unfold use_ctx. by destruct (ctx_alive w). Qed.

Section Frames.
Context (oom : nat → bool) (throws : Out → World → bool) (reenter : Out → World → World).

Lemma raise_gone o w : ctx_gone w (raise throws o w).
Proof. unfold raise. by destruct (throws o w). Qed.
Lemma do_op_gone op w :
  (∀ o w, ctx_gone w (reenter o w)) → ctx_gone w (do_op oom form throws reenter op w).
Proof.
  intros Hre. apply (do_op_frame oom throws reenter ctx_gone); try done; [apply same_frame_gone|apply use_ctx_gone|apply raise_gone|].
  intros w1. split; [done|]. intros Hd. unfold body, contain.
  set (w2 := form_body _ _ _ _ _).
  assert (H2 : dangling w2 = true).
  { apply (form_body_frame oom throws reenter ctx_gone); try done;
      [apply same_frame_gone|apply use_ctx_gone|apply raise_gone]. }
  destruct (throwing w2); [|done]. apply Hre. done.
Qed.

Lemma do_op_calm op w :
  (∀ o w, throws o w = false) → (∀ o w, calm w (reenter o w)) →
  calm w (do_op oom form throws reenter op w).
Proof.
  intros Hth Hre.
  assert (Hra : ∀ o w, calm w (raise throws o w)) by (intros o w1; unfold raise; by rewrite Hth).
  assert (Hle : ∀ p w, throwing w = true → calm w (w <| leaked ::= λ l, {[p]} ∪ l |>)) by (intros p w1 H ?; congruence).
  apply (do_op_frame oom throws reenter calm); try done; [apply same_frame_calm|apply use_ctx_calm|].
  intros w1 H1. unfold body, contain. set (w2 := form_body _ _ _ _ _).
  assert (H2 : throwing w2 = false ∧ leaked w2 = leaked w1).
  { pose proof (form_body_frame oom throws reenter calm same_frame_calm Hre use_ctx_calm Hra Hle
      (w1 <| ctx_alive := true |>)) as Hf. by apply Hf. }
  destruct H2 as [H2 H2']. rewrite H2. by simpl.
Qed.
End Frames.

Lemma new_stream_Inv : Inv false 0 ∅ new_stream.
Proof.
  split; simpl; try done.
  - intros l1 b st l2 E. by destruct l1.
  - intros tok p H. by apply elem_of_nil in H.
Qed.

(** ** The properties of every run *)
Section Runs.
Context (oom : nat → bool) (throws : Out → World → bool) (oracle : Out → World → list Op) (depth : nat).

#[local] Abbreviation re := (reenter_to (do_op oom form throws) oracle depth).
Definition step (op : Op) (w : World) : World := do_op oom form throws re op w.
Definition run (ops : list Op) (w : World) : World := fold_left (λ w op, step op w) ops w.

Lemma stream_run_Inv ops : Inv false 0 ∅ (run ops new_stream).
Proof.
  apply (fold_left_keeps keeps); [|apply new_stream_Inv]. intros w op s k H.
  apply stream_do_op_Inv. intros o w'.
  apply (reenter_to_keeps _ _ keeps). intros r Hr op' w'' s' k' H'. by apply stream_do_op_Inv.
Qed.

Lemma re_gone o w : ctx_gone w (re o w).
Proof. apply (reenter_to_keeps _ _ ctx_gone). intros r Hr op w'. by apply do_op_gone. Qed.

Lemma run_gone ops w : ctx_gone w (run ops w).
Proof. apply (fold_left_keeps ctx_gone). intros w' op. apply do_op_gone. intros o. apply re_gone. Qed.

Lemma re_calm o w :
  (∀ o w, throws o w = false) → calm w (re o w).
Proof. intros Hth. apply (reenter_to_keeps _ _ calm). intros r Hr op w1. by apply do_op_calm. Qed.

Lemma run_request_calm st eos data w :
  (∀ o w, throws o w = false) → calm w (run_request oom throws re st eos data w).
Proof.
  intros Hth. apply (run_request_frame oom throws re calm).
  - apply same_frame_calm.
  - intros o w1. by apply re_calm.
  - apply use_ctx_calm.
  - intros o w1. unfold raise. by rewrite Hth.
  - intros p w1 H ?. congruence.
Qed.

Lemma run_calm ops w : (∀ o w, throws o w = false) → calm w (run ops w).
Proof.
  intros Hth. apply (fold_left_keeps calm). intros w' op. apply do_op_calm; [done|]. intros o w1.
  by apply re_calm.
Qed.

(** What the wrapper relies on.  The request's lambda captures the
    [ServerContext] of [RegisterStreamRaw] by reference, and that is a local of
    the lambda which dispatches the stream: if the core delivered the request
    after the stream's body has returned, the handler would be given a context
    that is gone. *)
Theorem request_outlives_context ops tok st data :
  let w := run ops new_stream in
  throwing w = false → reads w !! tok = Some RequestFn → ok st = true → oom (news (arenas w)) = false →
  is_Some (ParseRequest data) → dangling (step (OpAnswerRead tok st false data) w) = true.
Proof.
  intros w Hth Hr Hst Hoom [req Hreq].
  pose proof (run_gone ops new_stream) as Ha. fold w in Ha.
  destruct Ha as [Ha _]. specialize (Ha eq_refl). clearbody w.
  unfold step, do_op. rewrite Hth, Hr. unfold run_read, run_request. rewrite Hst. cbn [negb orb].
  rewrite new_eq. simpl arenas. rewrite Hoom. cbv beta iota zeta. rewrite Hreq.
  refine (proj2 (handler_frame throws re ctx_gone same_frame_gone re_gone use_ctx_gone (raise_gone throws)
    (λ _ _ _, conj (λ H, H) (λ H, H)) _ _ _) _).
  unfold use_ctx. simpl ctx_alive. by rewrite Ha.
Qed.

(** C20: A server-streaming call ends.  On every run, once the request has been
    delivered and its handler has returned, the stream has been finished, or
    writes still wait for the core: when none does, the finish has been made. *)
Theorem served_stream_ends ops :
  let w := run ops new_stream in
  served w = true →
  (∃ b st, CoreFinish b st ∈ trace w) ∨
  (handler_returned w = true ∧ ∃ tok d, writes w !! tok = Some (CountedFn d)).
Proof.
  intros w Hs. pose proof (stream_run_Inv ops) as HI. fold w in HI. clearbody w.
  destruct (i_served _ _ _ _ _ _ _ HI Hs) as [(o & Hin & Ho)|Hr].
  { left. destruct o; try done. by do 2 eexists. }
  destruct (i_live _ _ _ _ _ _ _ HI eq_refl Hr) as [Hf|Hf].
  - left. apply writer_finish_in. rewrite (i_fin _ _ _ _ _ _ _ HI), Hf.
    rewrite (proj1 (i_returned _ _ _ _ _ _ _ HI Hr)). simpl. lia.
  - right. split; [done|]. rewrite (i_flight _ _ _ _ _ _ _ HI) in Hf. unfold counted in Hf.
    destruct (filter _ _) as [|[tok fn] l] eqn:E; [simpl in Hf; lia|].
    assert ((tok, fn) ∈ filter (λ x : nat * WriteFn, is_counted x.2 = 1%nat) (map_to_list (writes w)))
      as Hin by (rewrite E; by constructor).
    apply list_elem_of_filter in Hin as [Ho Hin%elem_of_map_to_list]. exists tok.
    destruct fn as [d|]; [by exists d|done].
Qed.

(** C22: The finish comes once, and last.  On every run the writer's [Finish] and
    the automatic finish together happen at most once; nothing is written after
    that; and the automatic one has status OK and comes when every write before
    it has been answered by the core. *)
Theorem finish_comes_last ops l1 b st l2 :
  let w := run ops new_stream in
  trace w = l1 ++ CoreFinish b st :: l2 → b = ByWriter ∨ b = ByAuto →
  (∀ b' st', CoreFinish b' st' ∈ l1 ++ l2 → b' ≠ ByWriter ∧ b' ≠ ByAuto) ∧
  (∀ tok payload, CoreWrite tok payload ∉ l2) ∧
  (b = ByAuto → st = Ok ∧ ∀ tok payload, CoreWrite tok payload ∈ l1 → WriteAnswered tok ∈ l1).
Proof.
  intros w E Hb. pose proof (stream_run_Inv ops) as HI. fold w in HI. clearbody w.
  assert (Hw : writer_finish (CoreFinish b st) = true) by (by destruct Hb as [-> | ->]).
  destruct (i_trace _ _ _ _ _ _ _ HI l1 b st l2 E Hw) as [H1 H2]. split; [|by split].
  pose proof (i_fin _ _ _ _ _ _ _ HI) as Hn. rewrite E in Hn. unfold writer_finishes in Hn.
  rewrite filter_app, filter_cons in Hn. rewrite decide_True in Hn by done.
  rewrite length_app in Hn. simpl in Hn.
  assert (H0 : filter (λ o, writer_finish o = true) (l1 ++ l2) = []).
  { apply length_zero_iff_nil. rewrite filter_app, length_app. destruct (_ && _); lia. }
  assert (Hno : ∀ o, writer_finish o = true → o ∉ l1 ++ l2).
  { intros o Ho. by apply (filter_nil_not_elem_of (λ o, writer_finish o = true) (l1 ++ l2) o H0). }
  intros b' st' Hin. split; intros ->; (eapply Hno; [|exact Hin]; done).
Qed.

(** Callbacks run once.  On every run, the callbacks given to the writer's
    [Write] are those that have been run and those of the writes that the core
    still holds; and so are the callbacks given to the reader's [ReadMessage]. *)
Theorem stream_callbacks_once ops :
  let w := run ops new_stream in
  asked w ≡ₚ omap told (trace w) ++ omap pending_cb (map_to_list (writes w)) ∧
  asked_reads w ≡ₚ omap read_told (trace w) ++ omap pending_read (map_to_list (reads w)).
Proof.
  intros w. destruct (stream_run_Inv ops). fold w in i_told0, i_rtold0.
  by rewrite !app_nil_r in *.
Qed.

(** The arenas of a stream are freed.  On every run no arena is used or freed
    after it was freed, and between callbacks none is alive but the one that
    the reader was made with, and those of requests whose handler has thrown,
    which are lost: a message that was read is gone when its callback has
    returned. *)
Theorem stream_arenas_freed ops :
  let w := run ops new_stream in
  fault (arenas w) = false ∧ live (arenas w) = view_set w ∪ leaked w ∧
  in_flight w = counted (writes w) ∧ ((∀ o w, throws o w = false) → leaked w = ∅).
Proof.
  intros w. destruct (stream_run_Inv ops). fold w in i_acc0, i_refs0, i_flight0.
  destruct i_acc0 as [_ Hf Hl _]. split_and!; [done| |lia|].
  - rewrite Hl, i_refs0, dom_empty_L. unfold kept. set_solver.
  - intros Hth. by apply (run_calm ops new_stream Hth).
Qed.

End Runs.
End Inv.

(** ** A server-streaming call, from its request to its finish *)
Section Served.
Context {M : MethodTraits}.

(** A handler that writes [ms], then finishes the stream itself if it has a
    status for that, and returns.  The core has the request when it dispatches
    the stream, so it answers the read before [ReadMessage] returns; it holds
    the writes. *)
Definition writing (st : Status) (eos : bool) (data : bytes) (ms : list ResType) (fin : option Status)
    (o : Out) (w : World) : list Op :=
  match o with
  | CoreRead tok => [OpAnswerRead tok st eos data]
  | ServerStreamingHandler _ _ => map (λ m, OpWrite (Some m) None) ms ++ map OpFinish (option_list fin)
  | _ => []
  end.

(** The writes, and their answers by the core. *)
Fixpoint written (tok : nat) (ps : list bytes) : list Out :=
  match ps with
  | [] => []
  | p :: ps => CoreWrite tok p :: written (S tok) ps
  end.
Fixpoint answering (tok : nat) (sts : list Status) : list Op :=
  match sts with
  | [] => []
  | st :: sts => OpAnswerWrite tok st :: answering (S tok) sts
  end.

(** The messages that [Write] hands to the core, each with an allocation of its
    own: those that get an arena and encode. *)
Fixpoint sendable (oom : nat → bool) (n : nat) (ms : list ResType) : list bytes :=
  match ms with
  | [] => []
  | m :: ms => (if oom n then [] else option_list (EncodeResponse m)) ++ sendable oom (S n) ms
  end.

Lemma sendable_all n ms ps : mapM EncodeResponse ms = Some ps → sendable (λ _, false) n ms = ps.
Proof.
  intros H%mapM_Some. revert n. induction H as [|m p ms ps Hm _ IH]; intros n; [done|].
  simpl. by rewrite Hm, IH.
Qed.

Section Handler.
Context (oom : nat → bool) (st : Status) (eos : bool) (data : bytes) (ms : list ResType) (fin : option Status).
#[local] Abbreviation re := (reenter_to (do_op oom Service.kServerStreaming (λ _ _, false)) (writing st eos data ms fin)).
#[local] Abbreviation op d := (do_op oom Service.kServerStreaming (λ _ _, false) (re d)).

Lemma writing_quiet d o w :
  (∀ req p, o ≠ ServerStreamingHandler req p) → (∀ tok, o ≠ CoreRead tok) → re d o w = w.
Proof.
  intros Ho Hr. destruct d; [done|]. destruct o; try done; [by destruct (Hr tok)|by destruct (Ho req p)].
Qed.

(** A world of a stream whose handler is writing. *)
Definition writable (w : World) : Prop :=
  arenas_wf (arenas w) ∧ finished w = false ∧ views w = true ∧ throwing w = false.

(** A write that fails, and one that the core is given. *)
Definition wrote_none (w : World) : World := w <| arenas := skipped (arenas w) |>.
Definition wrote_one (p : bytes) (w : World) : World :=
  wrote_none w <| wrote := true |> <| in_flight ::= S |>
    <| next_tok ::= S |> <| writes ::= <[next_tok w := CountedFn None]> |>
    <| trace ::= λ t, t ++ [CoreWrite (next_tok w) p] |>.

Lemma write_one d m w :
  writable w →
  op d (OpWrite (Some m) None) w =
    match (if oom (news (arenas w)) then None else EncodeResponse m) with
    | Some p => wrote_one p w
    | None => wrote_none w
    end.
Proof.
  intros (Hwf & Hf & Hv & Hth). unfold do_op. rewrite Hth, Hv. simpl has_writer. cbn [andb]. unfold Write.
  cbv beta iota zeta. rewrite Hf, new_eq. destruct (oom _); [done|]. cbn match.
  destruct (EncodeResponse m) as [p|]; cbn [snd]; unfold core_write, call_out.
  - rewrite writing_quiet by done. unfold wrote_one, wrote_none, free. simpl. by rewrite free_allocated.
  - unfold wrote_none, free, tell. simpl. by rewrite free_allocated.
Qed.

Lemma write_all d ks w :
  writable w →
  let ps := sendable oom (news (arenas w)) ks in
  let w' := fold_left (λ w o, op d o w) (map (λ m, OpWrite (Some m) None) ks) w in
  dangling w' = dangling w ∧
  writable w' ∧ trace w' = trace w ++ written (next_tok w) ps ∧
  (∀ tok, writes w' !! tok =
    if decide (next_tok w ≤ tok < next_tok w + length ps)%nat then Some (CountedFn None)
    else writes w !! tok) ∧
  in_flight w' = (length ps + in_flight w)%nat ∧
  wrote w' = (negb (length ps =? 0)%nat || wrote w) ∧
  handler_returned w' = handler_returned w ∧ finish_ctx w' = finish_ctx w.
Proof.
  revert w. induction ks as [|m ks IH]; intros w Hw.
  - simpl. rewrite app_nil_r. split_and!; try done.
    intros tok. rewrite decide_False by lia. done.
  - cbn [map fold_left]. rewrite (write_one d m) by done. cbn [sendable].
    assert (Ew : writable (wrote_none w)).
    { destruct Hw as (?&?&?&?). split_and!; simpl; [by apply skipped_wf|done..]. }
    assert (E : (if oom (news (arenas w)) then [] else option_list (EncodeResponse m)) =
      option_list (if oom (news (arenas w)) then None else EncodeResponse m)) by by destruct (oom _).
    rewrite E. destruct (if oom (news (arenas w)) then None else EncodeResponse m) as [p|];
      cbn [option_list app].
    + assert (Hw1 : writable (wrote_one p w)) by exact Ew.
      destruct (IH (wrote_one p w) Hw1) as (H0 & H1 & H2 & H3 & H4 & H5 & H6 & H7).
      cbv zeta in *. change (news (arenas (wrote_one p w))) with (S (news (arenas w))) in *.
      split_and!; try done.
      * rewrite H2. simpl. by rewrite <-(assoc_L (++)).
      * intros tok. rewrite H3. simpl.
        destruct (decide (tok = next_tok w)) as [->|].
        -- rewrite decide_False by lia. rewrite lookup_insert_eq, decide_True by lia. done.
        -- rewrite lookup_insert_ne by done. repeat case_decide; try done; lia.
      * rewrite H4. simpl. lia.
      * rewrite H5. simpl. by rewrite orb_true_r.
    + exact (IH (wrote_none w) Ew).
Qed.

(** The handler's own finish. *)
Definition finished_by (w : World) : World :=
  match fin with
  | Some fst => w <| finished := true |> <| trace ::= λ t, t ++ [CoreFinish ByWriter fst] |>
  | None => w
  end.
Lemma own_finish d w :
  writable w → fold_left (λ w o, op d o w) (map OpFinish (option_list fin)) w = finished_by w.
Proof.
  intros (_ & Hf & Hv & Hth). unfold finished_by.
  assert (E : ∀ fst, op d (OpFinish fst) w = (Finish (re d) fst w).2).
  { intros fst. unfold do_op. by rewrite Hth, Hv. }
  assert (Eq : ∀ fst, (Finish (re d) fst w).2 =
    w <| finished := true |> <| trace ::= λ t, t ++ [CoreFinish ByWriter fst] |>).
  { intros fst. unfold Finish. rewrite Hf. cbn [snd]. unfold call_out. by rewrite writing_quiet. }
  destruct fin as [fst|]; [|done]. exact (eq_trans (E fst) (Eq fst)).
Qed.

(** Answers to writes only count, and the last finishes the stream, when that is
    left to it. *)
Definition auto (w : World) : bool := handler_returned w && finish_ctx w && negb (finished w).
Lemma answer_some d tok sts w :
  (∀ t, (tok ≤ t < tok + length sts)%nat → writes w !! t = Some (CountedFn None)) →
  (length sts ≤ in_flight w)%nat → throwing w = false → sts ≠ [] →
  trace (fold_left (λ w o, op d o w) (answering tok sts) w) =
    trace w ++ map WriteAnswered (seq tok (length sts)) ++
    (if (in_flight w =? length sts)%nat && auto w then [CoreFinish ByAuto Ok] else []).
Proof.
  revert tok w. induction sts as [|st0 sts IH]; [done|]. intros tok w Hw Hi Hth _.
  cbn [answering fold_left].
  assert (E : op d (OpAnswerWrite tok st0) w = run_write (re d) tok (CountedFn None) st0 w).
  { unfold do_op. by rewrite Hth, (Hw tok) by (simpl; lia). }
  rewrite E. clear E.
  unfold run_write, OnDelivered, tell. cbv beta iota zeta. simpl length in *. cbn [in_flight].
  assert (Hin : ∃ n, in_flight w = S n ∧ (length sts ≤ n)%nat).
  { destruct (in_flight w) as [|n]; [lia|]. exists n. split; [done|lia]. }
  destruct Hin as (n & En & Hn).
  destruct sts as [|st' sts].
  - simpl. rewrite En. destruct n as [|n]; simpl.
    + unfold MaybeAutoFinish, auto. simpl.
      destruct (handler_returned w), (finish_ctx w), (finished w); simpl; rewrite ?app_nil_r; try done.
      unfold call_out. rewrite writing_quiet by done. simpl. by rewrite <-(assoc_L (++)).
    + by rewrite ?app_nil_r.
  - simpl in Hn. match goal with |- context [if ?b then _ else ?x] =>
      assert (b = false) as -> by (simpl; rewrite En; destruct n; [lia|done]) end.
    rewrite IH; simpl; try done.
    + rewrite En. simpl. by rewrite <-!(assoc_L (++)).
    + intros t Ht. rewrite lookup_delete_ne by lia. apply Hw. simpl. lia.
    + rewrite En. simpl. lia.
Qed.
End Handler.

(** The trace of a stream when its request arrives. *)
Definition request_trace (alloc : bool) (st : Status) (eos : bool) (data : bytes) (ps : list bytes)
    (fin : option Status) : list Out :=
  CoreRead 0 ::
  if negb (ok st) || eos then []
  else if negb alloc then [CoreFinish ByWrapper arena_failed]
  else match ParseRequest data with
  | None => [CoreFinish ByWrapper request_decode_failed]
  | Some req => ServerStreamingHandler req 0 :: written 1 ps ++
      match fin, ps with
      | Some fst, _ => [CoreFinish ByWriter fst]
      | None, [] => [CoreFinish ByWrapper no_responses]
      | None, _ => []
      end
  end.

(** What the last answer adds. *)
Definition auto_finish (ps : list bytes) (fin : option Status) : list Out :=
  match fin, ps with None, _ :: _ => [CoreFinish ByAuto Ok] | _, _ => [] end.

(** The wrapper's lambda, when its request comes while the stream's body runs. *)
Lemma request_served oom st eos data ms fin d w0 :
  w0 = new_stream <| started := true |> <| ctx_alive := true |> <| next_tok := 1%nat |>
    <| trace := [CoreRead 0] |> →
  let re := reenter_to (do_op oom Service.kServerStreaming (λ _ _, false)) (writing st eos data ms fin) (S d) in
  let w := run_request oom (λ _ _, false) re st eos data w0 in
  let ps := sendable oom 1 ms in
  trace w = request_trace (negb (oom 0%nat)) st eos data ps fin ∧ dangling w = false ∧ throwing w = false ∧
  (ok st = true → eos = false → oom 0%nat = false → is_Some (ParseRequest data) →
   (∀ t, (1 ≤ t < 1 + length ps)%nat → writes w !! t = Some (CountedFn None)) ∧
   in_flight w = length ps ∧ (ps ≠ [] → auto w = match fin with None => true | _ => false end)).
Proof.
  intros -> re w ps. subst w. unfold run_request, request_trace.
  destruct (ok st) eqn:Hst, eos eqn:Heos; try done; cbn [negb orb]. rewrite new_eq. simpl news.
  cbv beta iota zeta. destruct (oom 0%nat) eqn:Hoom; cbn [negb]; cbn match.
  { unfold call_out, re. rewrite writing_quiet by done. by split_and!. }
  destruct (ParseRequest data) as [req|].
  2:{ unfold call_out, re. rewrite writing_quiet by done. split_and!; [done..|].
      by intros _ _ _ [? ?]. }
  unfold call_out.
  match goal with |- context [re (ServerStreamingHandler req ?p) ?x] => set (w1 := x) end.
  change (re (ServerStreamingHandler req 0%nat) w1) with (fold_left (λ w o,
    do_op oom Service.kServerStreaming (λ _ _, false) (reenter_to (do_op oom Service.kServerStreaming (λ _ _, false))
      (writing st false data ms fin) d) o w)
    (map (λ m, OpWrite (Some m) None) ms ++ map OpFinish (option_list fin)) w1).
  assert (Hw1 : writable w1) by (split_and!; try done; apply allocated_wf; apply no_arenas_accounted).
  destruct (write_all oom st false data ms fin d ms w1 Hw1) as (Hdg & Hwr2 & Ht & Hws & Hi & Hwr & Hhr & Hfc).
  cbv zeta in *. change (news (arenas w1)) with 1%nat in *. fold ps in Ht, Hws, Hi, Hwr.
  rewrite fold_left_app. set (w2 := fold_left _ (map _ ms) w1) in *. clearbody w2.
  rewrite own_finish by done. destruct Hwr2 as (_ & Hf & _ & Hth).
  unfold raise, finished_by. cbn match. destruct fin as [fst|]; simpl throwing; rewrite Hth.
  - unfold after_handler. simpl finished. cbn match. simpl throwing. rewrite ?Hth. simpl. rewrite Ht.
    split_and!; [by rewrite <-(assoc_L (++))|exact Hdg|done|]. intros _ _ _ _.
    split_and!; [|by rewrite Hi; simpl; lia|by unfold auto; simpl; rewrite andb_false_r].
    intros t Hlt. rewrite Hws, decide_True; [done|]. simpl in *. lia.
  - set (w3 := free _ w2).
    assert (E : after_handler re w3 = if (length ps =? 0)%nat
      then w3 <| trace ::= λ t, t ++ [CoreFinish ByWrapper no_responses] |>
      else w3 <| handler_returned := true |> <| finish_ctx := true |>).
    { unfold after_handler. change (finished w3) with (finished w2). change (wrote w3) with (wrote w2).
      rewrite Hf, Hwr, orb_false_r, negb_involutive. destruct ps; simpl.
      - unfold call_out, re. by rewrite writing_quiet by done.
      - unfold MaybeAutoFinish. simpl. by rewrite Hi. }
    rewrite E. clear E. clearbody ps. destruct ps as [|p ps]; simpl; rewrite Hth; simpl; rewrite Ht.
    + split_and!; [done|exact Hdg|done|]. intros _ _ _ _.
      split_and!; [simpl; lia|by rewrite Hi|done].
    + split_and!; [by rewrite app_nil_r|exact Hdg|done|]. intros _ _ _ _.
      split_and!; [|by rewrite Hi; simpl; lia|by intros _; unfold auto; simpl; rewrite Hf].
      intros t Hlt. rewrite Hws, decide_True; [done|]. simpl in *. lia.
Qed.

(** A stream from its request on: what the core is given, and what the answers
    to any number of the writes add. *)
Lemma serve_stream oom st eos data ms fin d :
  let run := run Service.kServerStreaming oom (λ _ _, false) (writing st eos data ms fin) (S (S d)) in
  let w := run [OpBody] new_stream in
  let ps := sendable oom 1 ms in
  trace w = request_trace (negb (oom 0%nat)) st eos data ps fin ∧ dangling w = false ∧
  ∀ sts, ok st = true → eos = false → oom 0%nat = false → is_Some (ParseRequest data) →
   (length sts ≤ length ps)%nat →
   trace (run (answering 1 sts) w) = trace w ++ map WriteAnswered (seq 1 (length sts)) ++
     (if (length ps =? length sts)%nat then auto_finish ps fin else []).
Proof.
  intros run w ps. subst run w. unfold run, step. cbn [fold_left].
  set (re2 := reenter_to _ (writing st eos data ms fin) (S (S d))).
  set (re := reenter_to (do_op oom Service.kServerStreaming (λ _ _, false)) (writing st eos data ms fin) (S d)).
  set (w0 := new_stream <| started := true |> <| ctx_alive := true |> <| next_tok := 1%nat |>
      <| trace := [CoreRead 0] |>).
  destruct (request_served oom st eos data ms fin d w0 eq_refl) as (Htr & Hdg & Hth & Hrest).
  cbv zeta in *. fold re ps in Htr, Hdg, Hth, Hrest. set (w1 := run_request _ _ _ _ _ _ _) in *.
  assert (E : do_op oom Service.kServerStreaming (λ _ _, false) re2 OpBody new_stream =
    (contain re2 w1) <| ctx_alive := false |>) by reflexivity.
  rewrite E. unfold contain. rewrite Hth. clearbody w1. split_and!; [exact Htr|exact Hdg|].
  intros sts Hst Heos Hoom Hp Hlen. destruct (Hrest Hst Heos Hoom Hp) as (Hws & Hi & Ha).
  destruct sts as [|st0 sts].
  { simpl. destruct ps; simpl; [|by rewrite app_nil_r]. by destruct fin; rewrite app_nil_r. }
  assert (Hne : ps ≠ []) by (intros H0; rewrite H0 in Hlen; simpl in Hlen; lia).
  unfold re2. rewrite answer_some; [..|done].
  - simpl trace. do 2 f_equal. change (auto (w1 <| ctx_alive := false |>)) with (auto w1).
    simpl in_flight. rewrite Hi, (Ha Hne). unfold auto_finish.
    destruct (_ =? _)%nat, fin, ps; done.
  - intros t Ht. apply Hws. lia.
  - simpl in_flight. by rewrite Hi.
  - done.
Qed.

(** C18: A server-streaming call runs from its request to its finish, for a
    handler that writes any messages and then returns or finishes the stream
    itself, whatever allocations fail.  The wrapper reads once, and the core
    answers at once; a read that fails or ends does nothing; no arena for the
    request finishes the stream with INTERNAL; a request that does not parse,
    with DATA_LOSS; a handler that hands no message to the core and does not
    finish, with UNIMPLEMENTED.  The messages that get an arena and encode go to
    the core, in order; then the handler's own finish ends the stream, or, when
    the core has answered the last message, whatever the answers, the automatic
    finish with OK.  There is no other finish, and the handler's context is
    alive when it is used.  (The specification of streams wants a handler that
    gives no response to end with OK; the code and the interface's contract have
    UNIMPLEMENTED.) *)
Theorem server_streaming_served oom st eos data ms fin sts d :
  length sts = length (sendable oom 1 ms) →
  let run := run Service.kServerStreaming oom (λ _ _, false) (writing st eos data ms fin) (S (S d)) in
  let w := run [OpBody] new_stream in
  let ps := sendable oom 1 ms in
  trace w = request_trace (negb (oom 0%nat)) st eos data ps fin ∧ dangling w = false ∧
  (ok st = true → eos = false → oom 0%nat = false → is_Some (ParseRequest data) →
   trace (run (answering 1 sts) w) =
     trace w ++ map WriteAnswered (seq 1 (length ps)) ++ auto_finish ps fin).
Proof.
  intros Hlen run w ps. destruct (serve_stream oom st eos data ms fin d) as (H1 & H2 & H3).
  split_and!; [exact H1|exact H2|]. intros Hst Heos Hoom Hp. subst run w.
  rewrite H3, Hlen, Nat.eqb_refl by (done || by rewrite Hlen). done.
Qed.

(** ** The response of a client-streaming call *)

(** What [done] gives the core: a write of the response or none, and a finish. *)
Definition done_outs (alloc : bool) (tok : nat) (st : Status) (res : option ResType) : list Out :=
  match (if ok st then res else None) with
  | None => [CoreFinish ByDone (if ok st then missing_response else st)]
  | Some r =>
      if negb alloc then [CoreFinish ByDone arena_failed]
      else match EncodeResponse r with
      | None => [CoreFinish ByDone response_encode_failed]
      | Some payload => [CoreWrite tok payload; CoreFinish ByDone Ok]
      end
  end.

(** A client-streaming handler that calls [done] finishes the stream, on
    every branch, when the core is quiet: an error is passed on; OK without a
    response, a response that does not encode and a lack of memory are INTERNAL;
    and a response is written before the stream is finished with OK.  No arena
    is left behind. *)
Theorem client_stream_done oom st res w :
  arenas_wf (arenas w) →
  let w' := typed_done oom (λ _ w, w) st res w in
  trace w' = trace w ++ done_outs (negb (oom (news (arenas w)))) (next_tok w) st res ∧
  finished w' = true ∧ live (arenas w') = live (arenas w) ∧ fault (arenas w') = fault (arenas w).
Proof.
  intros Hwf. unfold typed_done, done_outs, call_out. cbv beta iota zeta.
  destruct (if ok st then res else None) as [r|]; [|done].
  change (arenas (w <| finished := true |>)) with (arenas w). rewrite new_eq.
  destruct (oom _); [done|]. cbn [negb]. cbn match.
  pose proof (free_allocated _ Hwf) as Hfree. unfold free.
  set (a := allocated (arenas w)) in *. clearbody a.
  destruct (EncodeResponse r); simpl; rewrite Hfree; split_and!; try done.
  by rewrite <-(assoc_L (++)).
Qed.

(** ** A handler that throws *)

Definition is_handler (o : Out) : bool :=
  match o with ServerStreamingHandler _ _ | ClientStreamingHandler | BidiHandler => true | _ => false end.

(** The calls before the handler does anything, and the arenas that nobody
    frees. *)
Definition before_exception (form : Service.MethodForm) (req : ReqType) : list Out :=
  match form with
  | Service.kUnary => []
  | Service.kServerStreaming => [CoreRead 0; ServerStreamingHandler req 0]
  | Service.kClientStreaming => [ClientStreamingHandler]
  | Service.kBidi => [BidiHandler]
  end.
Definition lost_arenas (form : Service.MethodForm) : gset nat :=
  match form with Service.kServerStreaming => {[0%nat]} | _ => ∅ end.

(** User code that may finish the stream, if [own] says so, and what it makes
    of the stream before and after an exception: reads, writes, callbacks, and
    no finish but its own. *)
Definition finishing (op : Op) : bool :=
  match op with OpFinish _ | OpDone _ _ => true | _ => false end.
Definition by_user (own : bool) (o : Out) : Prop :=
  match o with
  | CoreFinish b _ => own = true ∧ (b = ByWriter ∨ b = ByDone)
  | ServerStreamingHandler _ _ | ClientStreamingHandler | BidiHandler => False
  | _ => True
  end.

Section Throwing.
Context (oom : nat → bool) (form : Service.MethodForm) (throws : Out → World → bool) (own : bool).

(** Past the handler's call. *)
Definition handling (w : World) : Prop :=
  started w = true ∧ handler_returned w = false ∧ throwing w = false ∧
  ∀ tok, reads w !! tok ≠ Some RequestFn.
Definition acted (w w' : World) : Prop :=
  handling w →
  handling w' ∧ leaked w' = leaked w ∧ ctx_alive w' = ctx_alive w ∧
  ∃ l, trace w' = trace w ++ l ∧ Forall (by_user own) l.
#[local] Instance acted_preorder : PreOrder acted.
Proof.
  split.
  - intros w Hw. split_and!; try done. exists []. by rewrite app_nil_r.
  - intros w1 w2 w3 H12 H23 H1. destruct (H12 H1) as (H2 & E1 & E2 & l & El & Hl).
    destruct (H23 H2) as (H3 & E3 & E4 & l' & El' & Hl').
    split_and!; [done|congruence..|]. exists (l ++ l'). rewrite El', El, (assoc_L (++)).
    split; [done|by apply Forall_app].
Qed.

(** Steps that record nothing, and one call. *)
Definition silent (w w' : World) : Prop :=
  started w' = started w ∧ handler_returned w' = handler_returned w ∧ throwing w' = throwing w ∧
  leaked w' = leaked w ∧ ctx_alive w' = ctx_alive w ∧ trace w' = trace w ∧
  (∀ tok, reads w' !! tok = Some RequestFn → reads w !! tok = Some RequestFn).
Lemma silent_acted w w' : silent w w' → acted w w'.
Proof.
  intros (E1 & E2 & E3 & E4 & E5 & E6 & E7) (H1 & H2 & H3 & H4). unfold handling.
  rewrite E1, E2, E3. split_and!; try done; [by intros tok ?%E7%H4|].
  exists []. by rewrite E6, app_nil_r.
Qed.
Lemma silent_refl w : silent w w.
Proof. by split_and!. Qed.

Section Acts.
Context (reenter : Out → World → World) (Hre : ∀ o w, acted w (reenter o w)).
#[local] Set Default Proof Using "Type Hre".

Lemma call_acted o w w1 w2 : silent w w1 → by_user own o → silent (call_out reenter o w1) w2 → acted w w2.
Proof.
  intros H1 Ho H2. etrans; [by apply silent_acted|]. etrans; [|by apply silent_acted].
  etrans; [|apply Hre]. intros Hw. split_and!; try done. exists [o]. auto.
Qed.

(** A callback of the writer, and the core's answer to a write. *)
Lemma tell_acted delivered st w : acted w (tell reenter delivered st w).
Proof. destruct delivered; simpl; [|done]. by eapply call_acted; [apply silent_refl| |apply silent_refl]. Qed.

Ltac act_call :=
  lazymatch goal with |- acted ?w ?w2 =>
    lazymatch w2 with context [call_out reenter ?o ?x] =>
      apply (call_acted o w x w2); [|simpl; by auto|by split_and!] end end.
Ltac act := first [ reflexivity | solve [apply silent_acted; by split_and!] | act_call; by split_and! ].

Lemma Write_acted msg delivered w : acted w (Write oom reenter msg delivered w).2.
Proof.
  unfold Write. set (w1 := match delivered with Some _ => _ | None => _ end).
  assert (H1 : acted w w1) by (apply silent_acted; by destruct delivered).
  etrans; [exact H1|]. clearbody w1. destruct msg as [m|]; [|apply tell_acted].
  destruct (finished w1); [apply tell_acted|]. rewrite new_eq. cbv zeta.
  destruct (oom _).
  { etrans; [|apply tell_acted]. act. }
  destruct (EncodeResponse m); [|etrans; [|apply tell_acted]; act]. cbn [snd]. unfold core_write. act.
Qed.

Lemma no_auto w : handling w → MaybeAutoFinish reenter w = w.
Proof using Type.
  intros (_ & Hr & _). unfold MaybeAutoFinish. rewrite Hr. by destruct (negb _).
Qed.

Lemma run_write_acted tok fn st w : acted w (run_write reenter tok fn st w).
Proof.
  unfold run_write. set (w1 := w <| writes ::= _ |> <| trace ::= _ |>).
  assert (H1 : acted w w1).
  { intros Hw. split_and!; try done. exists [WriteAnswered tok].
    split; [done|by repeat constructor]. }
  etrans; [exact H1|]. clearbody w1. destruct fn as [d|]; [|done].
  etrans; [apply (tell_acted d st)|]. set (w2 := tell _ _ _ _). clearbody w2.
  intros H2. unfold OnDelivered. cbv zeta.
  assert (H3 : acted w2 (w2 <| in_flight ::= pred |>)) by act.
  destruct (H3 H2) as [H4 _]. case_match; [rewrite no_auto by exact H4|]; exact (H3 H2).
Qed.

Lemma run_user_read_acted cb st eos data w : acted w (run_user_read oom reenter cb st eos data w).
Proof.
  unfold run_user_read. case_match; [act|]. rewrite new_eq. destruct (oom _); [act|].
  case_match; act.
Qed.

Lemma typed_done_acted st res w : own = true → acted w (typed_done oom reenter st res w).
Proof.
  intros Ho. unfold typed_done. cbv zeta. destruct (if ok st then res else None); [|act].
  rewrite new_eq. destruct (oom _); [act|]. destruct (EncodeResponse _); [|act].
  unfold core_write. cbv zeta. set (w1 := call_out reenter (CoreWrite _ _) _).
  assert (H1 : acted w w1) by (unfold w1; act). etrans; [exact H1|]. clearbody w1. act.
Qed.

Lemma do_op_acted op w : (finishing op = true → own = true) → acted w (do_op oom form throws reenter op w).
Proof.
  intros Hop Hw. pose proof Hw as (Hs & Hr & Hth & Hq). revert Hw.
  change (acted w (do_op oom form throws reenter op w)). unfold do_op. rewrite Hth.
  destruct op as [|msg d|st|cb|st res|tok st|tok st eos data].
  - by rewrite Hs.
  - case_match; [apply Write_acted|done].
  - case_match; [|reflexivity]. unfold Finish. case_match; [reflexivity|]. act.
  - case_match; [|done]. unfold ReadMessage, core_read. cbv zeta.
    act_call. split_and!; try done.
    simpl. intros tok. by rewrite lookup_insert_Some; intros [[_ ?]|[_ ?]].
  - case_match; [by apply typed_done_acted, Hop|done].
  - case_match; [apply run_write_acted|done].
  - destruct (reads w !! tok) as [[|cb]|] eqn:E; [by destruct (Hq tok)| |done].
    unfold run_read. etrans; [|apply run_user_read_acted]. apply silent_acted.
    split_and!; try done. simpl. intros tok'. by rewrite lookup_delete_Some; intros [_ ?].
Qed.
End Acts.

Lemma env_acted oracle d o w :
  (∀ o w op, op ∈ oracle o w → finishing op = true → own = true) →
  acted w (reenter_to (do_op oom form throws) oracle d o w).
Proof.
  intros Hor. revert o w. induction d as [|d IH]; intros o w; simpl; [done|].
  assert (H : ∀ op, op ∈ oracle o w → finishing op = true → own = true) by apply Hor.
  revert H. generalize (oracle o w). intros ops. revert w.
  induction ops as [|op ops IHops]; intros w H; simpl; [done|].
  etrans; [apply do_op_acted; [exact IH|apply H; by constructor]|].
  apply IHops. intros op' Hin. apply H. by constructor.
Qed.
End Throwing.

(** The call of a handler that throws. *)
Lemma raise_acted throws own re o w :
  (∀ o w, acted own w (re o w)) → throws o (call_out re o w) = true → handling w →
  let w1 := raise throws o (call_out re o w) in
  throwing w1 = true ∧ handling (w1 <| throwing := false |>) ∧ leaked w1 = leaked w ∧
  ∃ l, trace w1 = trace w ++ [o] ++ l ∧ Forall (by_user own) l.
Proof.
  intros Hre Hth Hw w1. unfold w1, raise. rewrite Hth.
  assert (Hw' : handling (w <| trace ::= λ t, t ++ [o] |>)) by exact Hw.
  destruct (Hre o _ Hw') as (H1 & H2 & _ & l & Hl & Hf).
  split; [done|]. split; [destruct H1 as (?&?&?&?); by split_and!|]. split; [exact H2|].
  exists l. split; [|done]. simpl. unfold call_out. rewrite Hl. simpl. by rewrite <-(assoc_L (++)).
Qed.

(** C23: An exception of a handler stays inside of the library, whatever the
    handler, its callbacks and the core have done before it was thrown, and
    whatever they do when the stream is finished.  The stream is finished with
    INTERNAL, once, when the handler's frame is gone, and nothing unwinds
    further.  A handler that finishes the stream itself before it throws ([own])
    has its finish handed to the core first; no other finish is made.  The arena
    of a server-streaming request is lost on the way. *)
Theorem handler_exception_contained form oom data req oracle own d throws :
  form ≠ Service.kUnary → ParseRequest data = Some req → oom 0%nat = false →
  (form = Service.kServerStreaming → ∀ w, oracle (CoreRead 0) w = [OpAnswerRead 0 Ok false data]) →
  (∀ o w op, op ∈ oracle o w → finishing op = true → own = true) →
  (∀ o w, throws o w = is_handler o) →
  let w := run form oom throws oracle (S (S d)) [OpBody] new_stream in
  ∃ l l', trace w = before_exception form req ++ l ++ CoreFinish ByCatch handler_raised :: l' ∧
    Forall (by_user own) l ∧ Forall (by_user own) l' ∧
    throwing w = false ∧ leaked w = lost_arenas form ∧ ctx_alive w = false.
Proof.
  intros Hform Hreq Hoom Hread Hown Hth. unfold run, step. cbn [fold_left]. set (f := do_op oom form throws).
  set (re1 := reenter_to f oracle (S d)). set (re2 := reenter_to f oracle (S (S d))).
  assert (Hre : ∀ n o w, acted own w (reenter_to f oracle n o w)) by (intros; by apply env_acted).
  set (w0 := new_stream <| started := true |> <| ctx_alive := true |>).
  change (f re2 OpBody new_stream) with ((contain re2 (form_body oom form throws re2 w0)) <| ctx_alive := false |>).
  assert (HV : ∀ o, is_handler o = true →
      ∃ w1 l, raise throws o (call_out re2 o (use_ctx ((make_reader oom w0) <| views := true |>))) = w1 ∧
        throwing w1 = true ∧ handling (w1 <| throwing := false |>) ∧ trace w1 = [o] ++ l ∧
        Forall (by_user own) l ∧ leaked w1 = ∅).
  { intros o Ho. set (w1 := use_ctx ((make_reader oom w0) <| views := true |>)).
    assert (Hh : handling w1 ∧ trace w1 = [] ∧ leaked w1 = ∅).
    { unfold w1, make_reader. rewrite new_eq. destruct (oom _); split_and!; try done;
        intros tok; simpl; by rewrite lookup_empty. }
    destruct Hh as (Hh & Ht & Hk).
    destruct (raise_acted throws own re2 o w1) as (H1 & H2 & H3 & l & H4 & H5);
      [apply Hre|by rewrite Hth|done|].
    eexists _, l. split; [reflexivity|]. rewrite Ht in H4. rewrite Hk in H3. by split_and!. }
  assert (Hbody : ∃ w1 l, form_body oom form throws re2 w0 = w1 ∧ throwing w1 = true ∧
      handling (w1 <| throwing := false |>) ∧
      trace w1 = before_exception form req ++ l ∧ Forall (by_user own) l ∧ leaked w1 = lost_arenas form).
  { destruct form; [done| | |]; cbn [form_body before_exception lost_arenas].
    - assert (E : server_streaming_body re2 w0 =
        run_request oom throws re1 Ok false data (w0 <| next_tok := 1%nat |> <| reads := ∅ |>
          <| trace := [CoreRead 0] |>)).
      { unfold server_streaming_body, core_read, call_out, re2. cbn [reenter_to].
        change (next_tok w0) with 0%nat. rewrite (Hread eq_refl). reflexivity. }
      rewrite E. unfold run_request. cbn [ok code negb orb]. rewrite new_eq. simpl news. rewrite Hoom.
      cbv beta iota zeta. rewrite Hreq. set (w1 := use_ctx _).
      assert (Hh : handling w1) by (split_and!; try done; intros tok; simpl; by rewrite lookup_empty).
      destruct (raise_acted throws own re1 (ServerStreamingHandler req 0%nat) w1)
        as (H1 & H2 & H3 & l & H4 & H5); [apply Hre|by rewrite Hth|done|].
      rewrite H1. simpl throwing. rewrite H1. eexists _, l. split; [reflexivity|].
      split_and!; [exact H1|exact H2|exact H4|done|]. simpl leaked. rewrite H3. simpl. set_solver.
    - by apply (HV ClientStreamingHandler).
    - by apply (HV BidiHandler). }
  destruct Hbody as (w1 & l & -> & Ht & Hh & Htr & Hl & Hlk). unfold contain. rewrite Ht.
  set (w2 := w1 <| throwing := false |> <| trace ::= λ t, t ++ [CoreFinish ByCatch handler_raised] |>).
  assert (H2 : handling w2) by exact Hh.
  destruct (Hre (S (S d)) (CoreFinish ByCatch handler_raised) w2 H2) as ((_ & _ & Hth3 & _) & Hlk3 & _ & l' & Ht3 & Hl').
  exists l, l'. unfold call_out. fold w2. fold re2 in Hth3, Hlk3, Ht3.
  split_and!; try done.
  - simpl. rewrite Ht3. unfold w2. simpl. rewrite Htr, <-!(assoc_L (++)). done.
  - simpl. rewrite Hlk3. exact Hlk.
Qed.
End Served.

(** ** Witnesses *)
Section Demo.
#[local] Existing Instance demo_traits.

(** The handler writes two messages, the first with a callback; the core sends
    the first before the handler returns. *)
Definition demo_env (o : Out) (w : World) : list Op :=
  match o with
  | ServerStreamingHandler _ _ =>
      [OpWrite (Some [chr 1 : ascii]) (Some 5%nat); OpWrite (Some [chr 2 : ascii]) None]
  | CoreWrite 1 _ => [OpAnswerWrite 1 Ok]
  | _ => []
  end.
#[local] Abbreviation demo_run :=
  (run (M := demo_traits) Service.kServerStreaming (λ _, false) (λ _ _, false) demo_env 3).
Definition demo_begin : list (Op (M := demo_traits)) := [OpBody; OpAnswerRead 0 Ok false [chr 10; chr 9]].

Lemma served_stream_ends_witness :
  handler_returned (demo_run demo_begin new_stream) = true ∧
  ∃ b st, CoreFinish b st ∈ trace (demo_run (demo_begin ++ [OpAnswerWrite 2 Ok]) new_stream).
Proof.
  split; [by vm_compute|].
  destruct (served_stream_ends (M := demo_traits) Service.kServerStreaming (λ _, false) (λ _ _, false) demo_env 3
    (demo_begin ++ [OpAnswerWrite 2 Ok])) as [H|(_ & tok & d & H)].
  - by vm_compute.
  - exact H.
  - exfalso. revert H.
    replace (writes _) with (∅ : gmap nat WriteFn) by by vm_compute. by rewrite lookup_empty.
Defined.

Lemma finish_comes_last_witness :
  let w := demo_run (demo_begin ++ [OpAnswerWrite 2 Ok]) new_stream in
  last (trace w) = Some (CoreFinish ByAuto Ok) ∧
  ∀ tok payload, CoreWrite tok payload ∈ removelast (trace w) → WriteAnswered tok ∈ removelast (trace w).
Proof.
  intros w. split; [by vm_compute|].
  destruct (finish_comes_last (M := demo_traits) Service.kServerStreaming (λ _, false) (λ _ _, false) demo_env 3
    (demo_begin ++ [OpAnswerWrite 2 Ok]) (removelast (trace w)) ByAuto Ok []) as (_ & _ & H).
  - by vm_compute.
  - by right.
  - by apply H.
Defined.

Lemma request_outlives_context_witness :
  reads (demo_run [OpBody] new_stream) !! 0%nat = Some RequestFn ∧
  dangling (demo_run demo_begin new_stream) = true.
Proof.
  split; [by vm_compute|].
  apply (request_outlives_context (M := demo_traits) Service.kServerStreaming (λ _, false) (λ _ _, false) demo_env 3
    [OpBody] 0 Ok [chr 10; chr 9]); [by vm_compute|by vm_compute|done|done|]. by eexists.
Defined.

(** The second message gets no arena, the third is sent. *)
Lemma server_streaming_served_witness :
  let oom := λ n, (n =? 2)%nat in
  let run := run (M := demo_traits) Service.kServerStreaming oom (λ _ _, false)
    (writing (M := demo_traits) Ok false [chr 10] [[chr 1 : ascii]; [chr 2 : ascii]; [chr 3 : ascii]] None) 2 in
  trace (run (answering 1 [Ok; mkStatus kUnavailable ""]) (run [OpBody] new_stream)) =
  [CoreRead 0; ServerStreamingHandler [] 0; CoreWrite 1 [chr 10; chr 1]; CoreWrite 2 [chr 10; chr 3];
   WriteAnswered 1; WriteAnswered 2; CoreFinish ByAuto Ok].
Proof.
  intros oom run.
  destruct (server_streaming_served (M := demo_traits) oom Ok false [chr 10]
    [[chr 1 : ascii]; [chr 2 : ascii]; [chr 3 : ascii]] None [Ok; mkStatus kUnavailable ""] 0)
    as (H1 & _ & H2); [done|].
  unfold run. rewrite H2; [by rewrite H1|done..|by eexists].
Defined.

Lemma client_stream_done_witness :
  trace (typed_done (M := demo_traits) (λ _, false) (λ _ w, w) Ok (Some [chr 3 : ascii]) new_stream) =
  [CoreWrite 0 [chr 10; chr 3]; CoreFinish ByDone Ok].
Proof.
  destruct (client_stream_done (M := demo_traits) (λ _, false) Ok (Some [chr 3 : ascii]) new_stream)
    as [H _]; [by apply no_arenas_accounted|exact H].
Defined.
(** A handler that writes, finishes the stream itself, and throws. *)
Definition throwing_env (o : Out) (w : World) : list Op :=
  match o with
  | CoreRead 0 => [OpAnswerRead 0 Ok false [chr 10; chr 9]]
  | ServerStreamingHandler _ _ => [OpWrite (Some [chr 1 : ascii]) None; OpFinish Ok]
  | _ => []
  end.
Lemma handler_exception_contained_witness :
  let w := run (M := demo_traits) Service.kServerStreaming (λ _, false) (λ o _, is_handler o)
    throwing_env 2 [OpBody] new_stream in
  trace w = [CoreRead 0; ServerStreamingHandler [chr 9 : ascii] 0; CoreWrite 1 [chr 10; chr 1];
             CoreFinish ByWriter Ok; CoreFinish ByCatch handler_raised] ∧
  throwing w = false ∧ leaked w = {[0%nat]}.
Proof.
  intros w. split; [by vm_compute|].
  destruct (handler_exception_contained (M := demo_traits) Service.kServerStreaming (λ _, false)
    [chr 10; chr 9] [chr 9 : ascii] throwing_env true 0 (λ o _, is_handler o))
    as (l & l' & _ & _ & _ & H1 & H2 & _); [done..|by split].
Defined.
End Demo.
