(* ===== verification/StreamChain.v ===== *)
(** * Typed handlers that chain their writes

    A server-streaming handler that writes one message and, each time the core
    has delivered one, the next: the shape that keeps a stream of any length
    within the bounded send queue. *)
From S2P Require Import Prelude Status Arena Api UnaryServer StreamServer StreamServerRun.

Section Chain.
Context {M : MethodTraits} (oracle : Out → World → list Op).
(** The core only holds the lambdas of the writes it is given. *)
Context (Hwrite : ∀ tok p w, oracle (CoreWrite tok p) w = []).
Context (Hfinish : ∀ b st w, oracle (CoreFinish b st) w = []).
#[local] Set Default Proof Using "Hwrite Hfinish".

#[local] Abbreviation dop re := (do_op (λ _, false) Service.kServerStreaming (λ _ _, false) re).
#[local] Abbreviation re := (reenter_to (do_op (λ _, false) Service.kServerStreaming (λ _ _, false)) oracle).
#[local] Abbreviation op d := (dop (re d)).
#[local] Abbreviation run d := (run Service.kServerStreaming (λ _, false) (λ _ _, false) oracle d).

Lemma re_ops d o l w : oracle o w = l → re (S d) o w = fold_left (λ w o, op d o w) l w.
Proof using Type. by intros <-. Qed.

Lemma write_quiet d tok p w : re d (CoreWrite tok p) w = w.
Proof using Hwrite. destruct d; [done|]. simpl. by rewrite Hwrite. Qed.
Lemma finish_quiet d b st w : re d (CoreFinish b st) w = w.
Proof using Hfinish. destruct d; [done|]. simpl. by rewrite Hfinish. Qed.

Definition wrote_with (cb : nat) (p : bytes) (w : World) : World :=
  w <| asked ::= λ l, l ++ [cb] |> <| arenas := skipped (arenas w) |> <| wrote := true |>
    <| in_flight ::= S |> <| next_tok ::= S |> <| writes ::= <[next_tok w := CountedFn (Some cb)]> |>
    <| trace ::= λ t, t ++ [CoreWrite (next_tok w) p] |>.

Lemma write_with d m cb p w :
  EncodeResponse m = Some p → writable w → op d (OpWrite (Some m) (Some cb)) w = wrote_with cb p w.
Proof using Hwrite.
  intros Hm (Hwf & Hf & Hv & Hth). unfold do_op. rewrite Hth, Hv. simpl has_writer. cbn [andb]. unfold Write.
  cbv beta iota zeta. simpl finished. rewrite Hf. simpl arenas. rewrite new_eq. cbn match. rewrite Hm. cbn [snd].
  unfold core_write, call_out. rewrite write_quiet. unfold wrote_with, free. simpl. by rewrite free_allocated.
Qed.

(** A stream whose handler has returned and whose last write the core holds. *)
Definition chaining (tok cb : nat) (w : World) : Prop :=
  writable w ∧ writes w !! tok = Some (CountedFn (Some cb)) ∧ next_tok w = S tok ∧ in_flight w = 1%nat ∧
  handler_returned w = true ∧ finish_ctx w = true.

Lemma answer_next d tok cb m cb' p w :
  chaining tok cb w → (∀ w, oracle (UserDelivered cb Ok) w = [OpWrite (Some m) (Some cb')]) →
  EncodeResponse m = Some p →
  let w' := op (S d) (OpAnswerWrite tok Ok) w in
  chaining (S tok) cb' w' ∧
  trace w' = trace w ++ [WriteAnswered tok; UserDelivered cb Ok; CoreWrite (S tok) p].
Proof using Hwrite.
  intros (Hw & Hws & Hn & Hi & Hr & Hc) Hor Hm. cbv zeta.
  pose proof Hw as (Hwf & Hf & Hv & Hth). unfold do_op at 1 3. rewrite Hth, Hws.
  unfold run_write, tell, call_out. cbn [reenter_to]. rewrite Hor. cbn [fold_left].
  match goal with |- context [op d _ ?x] => set (w1 := x) end.
  assert (Hw1 : writable w1) by done.
  rewrite (write_with d m cb' p w1 Hm Hw1). unfold OnDelivered, wrote_with. simpl. rewrite Hi, Hn. simpl. 
  split.
  - split; [split_and!; try done; by apply skipped_wf|]. split_and!; try done. apply lookup_insert_eq.
  - by rewrite <-!(assoc_L (++)).
Qed.

Lemma answer_last d tok cb w :
  chaining tok cb w → (∀ w, oracle (UserDelivered cb Ok) w = []) →
  trace (op (S d) (OpAnswerWrite tok Ok) w) =
    trace w ++ [WriteAnswered tok; UserDelivered cb Ok; CoreFinish ByAuto Ok].
Proof using Hfinish.
  intros (Hw & Hws & Hn & Hi & Hr & Hc) Hor.
  pose proof Hw as (Hwf & Hf & Hv & Hth). unfold do_op at 1. rewrite Hth, Hws.
  unfold run_write, tell, call_out. cbn [reenter_to]. rewrite Hor. cbn [fold_left].
  unfold OnDelivered. simpl. rewrite Hi. simpl. unfold MaybeAutoFinish. simpl. rewrite Hr, Hc, Hf. simpl.
  unfold call_out. simpl. rewrite Hfinish. simpl. by rewrite <-!(assoc_L (++)).
Qed.

(** ** The stream of such a handler *)

(** The core answers the read of the request at once; the messages, with the
    callbacks of their writes, and their encodings. *)
Context (q : ReqType) (data : bytes) (Hq : ParseRequest data = Some q).
Context (Hread : ∀ tok w, oracle (CoreRead tok) w = [OpAnswerRead tok Ok false data]).
Context (L : list (ResType * nat)) (ps : list bytes).
Context (Hps : mapM EncodeResponse L.*1 = Some ps).
Definition next_write (k : nat) : list Op :=
  match L !! k with Some (m, cb) => [OpWrite (Some m) (Some cb)] | None => [] end.
Context (Hstart : ∀ p w, oracle (ServerStreamingHandler q p) w = next_write 0).
Context (Hnext : ∀ k m cb w, L !! k = Some (m, cb) → oracle (UserDelivered cb Ok) w = next_write (S k)).
Context (d : nat).

Definition chain_begin : World := run (S (S d)) [OpBody] new_stream.
(** The same when [k] writes have been answered. *)
Definition chain_answered (k : nat) : World :=
  run (S (S d)) (answering 1 (replicate k Ok)) chain_begin.

Lemma begin_request :
  chain_begin = (run_request (λ _, false) (λ _ _, false) (re (S d)) Ok false data
    (new_stream <| started := true |> <| ctx_alive := true |> <| next_tok := 1%nat |>
      <| trace := [CoreRead 0] |>)) <| ctx_alive := false |>.
Proof using Hread.
  unfold chain_begin, StreamServerRun.run, step. cbn [fold_left].
  set (w0 := new_stream <| started := true |> <| ctx_alive := true |> <| next_tok := 1%nat |>
      <| reads := {[0%nat := RequestFn]} |> <| trace := [CoreRead 0] |>).
  assert (E0 : op (S (S d)) OpBody new_stream =
    (contain (re (S (S d))) (re (S (S d)) (CoreRead 0) w0)) <| ctx_alive := false |>) by reflexivity.
  rewrite E0, (re_ops (S d) _ _ _ (Hread 0 w0)). cbn [fold_left].
  assert (E2 : op (S d) (OpAnswerRead 0 Ok false data) w0 =
    run_request (λ _, false) (λ _ _, false) (re (S d)) Ok false data (w0 <| reads := ∅ |>)) by done.
  rewrite E2. unfold contain.
  assert (E3 : throwing (run_request (λ _, false) (λ _ _, false) (re (S d)) Ok false data
    (w0 <| reads := ∅ |>)) = false) by by apply run_request_calm.
  by rewrite E3.
Qed.

Lemma begins m cb p :
  L !! 0%nat = Some (m, cb) → EncodeResponse m = Some p →
  chaining 1 cb chain_begin ∧ trace chain_begin = [CoreRead 0; ServerStreamingHandler q 0; CoreWrite 1 p].
Proof using Hread Hq Hstart Hwrite.
  intros Hm Hp. rewrite begin_request. unfold run_request. cbn [ok negb orb]. 
  change (negb (ok Ok) || false) with false. cbn match. rewrite new_eq. cbv beta iota zeta. rewrite Hq.
  unfold call_out. rewrite (re_ops d _ _ _ (Hstart _ _)). unfold next_write. rewrite Hm. cbn [fold_left].
  match goal with |- context [op d _ ?x] => set (w1 := x) end.
  assert (Hw1 : writable w1) by (split_and!; try done; apply allocated_wf; apply no_arenas_accounted).
  rewrite (write_with d m cb p w1 Hp Hw1). split.
  - split; [split_and!; done|split_and!; done].
  - done.
Qed.

(** The writes that the core was given and has answered, with what each answer
    did before the next write. *)
Fixpoint chain_trace (tok : nat) (l : list (bytes * nat)) : list Out :=
  match l with
  | [] => []
  | (p, cb) :: l => CoreWrite tok p :: WriteAnswered tok :: UserDelivered cb Ok :: chain_trace (S tok) l
  end.

Lemma chain_trace_snoc tok l p cb :
  chain_trace tok (l ++ [(p, cb)]) = chain_trace tok l ++
    [CoreWrite (tok + length l) p; WriteAnswered (tok + length l); UserDelivered cb Ok].
Proof using Type.
  revert tok. induction l as [|[p' cb'] l IH]; intros tok; simpl; [by rewrite Nat.add_0_r|].
  rewrite IH. by rewrite Nat.add_succ_comm.
Qed.

#[local] Abbreviation sent := (zip ps L.*2).

Lemma nth_write k m cb : L !! k = Some (m, cb) → ∃ p, ps !! k = Some p ∧ EncodeResponse m = Some p.
Proof using Hps.
  intros Hk. apply mapM_Some in Hps. eapply Forall2_lookup_l in Hps as (p & Hp & Hm).
  - by exists p.
  - by rewrite list_lookup_fmap, Hk.
Qed.

Lemma nth_sent k m cb p : L !! k = Some (m, cb) → ps !! k = Some p → sent !! k = Some (p, cb).
Proof using Type.
  intros Hk Hp. apply lookup_zip_with_Some. exists p, cb. split_and!; [done|done|].
  by rewrite list_lookup_fmap, Hk.
Qed.

Lemma answered_S k :
  chain_answered (S k) = op (S (S d)) (OpAnswerWrite (S k) Ok) (chain_answered k).
Proof using Type.
  unfold chain_answered, StreamServerRun.run. rewrite replicate_S_end.
  assert (E : ∀ n tok w, fold_left (λ w o, step Service.kServerStreaming (λ _, false) (λ _ _, false) oracle (S (S d)) o w)
      (answering tok (replicate n Ok ++ [Ok])) w =
    op (S (S d)) (OpAnswerWrite (tok + n) Ok)
      (fold_left (λ w o, step Service.kServerStreaming (λ _, false) (λ _ _, false) oracle (S (S d)) o w)
        (answering tok (replicate n Ok)) w)).
  { induction n as [|n IH]; intros tok w; cbn [replicate answering fold_left app].
    - by rewrite Nat.add_0_r.
    - rewrite IH. by rewrite Nat.add_succ_comm. }
  apply (E k 1%nat).
Qed.

(** When [k] writes have been answered, the next is with the core. *)
Lemma chain_runs k m cb p :
  L !! k = Some (m, cb) → ps !! k = Some p →
  chaining (S k) cb (chain_answered k) ∧
  trace (chain_answered k) = [CoreRead 0; ServerStreamingHandler q 0] ++
    chain_trace 1 (take k sent) ++ [CoreWrite (S k) p].
Proof using Hps Hread Hq Hstart Hwrite Hnext.
  revert m cb p. induction k as [|k IH]; intros m cb p Hk Hp.
  - destruct (nth_write 0 m cb Hk) as (p' & Hp' & Hm). simplify_eq.
    by apply (begins m cb p).
  - assert (∃ m0 cb0, L !! k = Some (m0, cb0)) as (m0 & cb0 & Hk0).
    { destruct (lookup_lt_is_Some_2 L k) as [[m0 cb0] ?]; [|by exists m0, cb0].
      apply lookup_lt_Some in Hk. lia. }
    destruct (nth_write k m0 cb0 Hk0) as (p0 & Hp0 & Hm0).
    destruct (nth_write (S k) m cb Hk) as (p' & Hp' & Hm). simplify_eq.
    destruct (IH m0 cb0 p0 Hk0 Hp0) as [Hch Ht]. rewrite answered_S.
    destruct (answer_next (S d) (S k) cb0 m cb p _ Hch) as [Hch' Ht']; [|done|].
    { intros w. rewrite (Hnext k m0 cb0 w Hk0). unfold next_write. by rewrite Hk. }
    split; [exact Hch'|]. etrans; [exact Ht'|]. rewrite Ht.
    rewrite (take_S_r _ _ _ (nth_sent k m0 cb0 p0 Hk0 Hp0)), chain_trace_snoc, length_take_le.
    + by rewrite <-!(assoc_L (++)).
    + pose proof (lookup_lt_Some _ _ _ (nth_sent k m0 cb0 p0 Hk0 Hp0)). lia.
Qed.

(** The last answer finishes the stream. *)
Lemma chain_finishes k m cb p :
  L !! k = Some (m, cb) → ps !! k = Some p → S k = length L →
  trace (chain_answered (S k)) = [CoreRead 0; ServerStreamingHandler q 0] ++
    chain_trace 1 sent ++ [CoreFinish ByAuto Ok].
Proof using Hps Hread Hq Hstart Hwrite Hnext Hfinish.
  intros Hk Hp Hlast. destruct (chain_runs k m cb p Hk Hp) as [Hch Ht]. rewrite answered_S.
  rewrite (answer_last (S d) (S k) cb _ Hch).
  - rewrite Ht. pose proof (nth_sent k m cb p Hk Hp) as Hz.
    assert (length sent = S k) as Hlen.
    { pose proof (Forall2_length _ _ _ (proj1 (mapM_Some _ _ _) Hps)) as Hl.
      rewrite length_zip_with, !length_fmap in *. lia. }
    rewrite <-(firstn_all sent) at 2. rewrite Hlen, (take_S_r _ _ _ Hz), chain_trace_snoc, length_take_le by lia.
    by rewrite <-!(assoc_L (++)).
  - intros w. rewrite (Hnext k m cb w Hk). unfold next_write. by rewrite Hlast, (lookup_ge_None_2 L) by lia.
Qed.
End Chain.

(** ** A handler, and the core that serves it *)
Section Handler.
Context {M : MethodTraits} (handler : Out → World → list Op).

(** The core answers the read of the request at once, with what it has, and
    holds the writes. *)
Definition with_core (st : Status) (eos : bool) (data : bytes) (o : Out) (w : World) : list Op :=
  match o with
  | CoreRead tok => [OpAnswerRead tok st eos data]
  | CoreWrite _ _ | CoreFinish _ _ => []
  | _ => handler o w
  end.

(** The stream when its body has been run, and after the first [k] answers. *)
Definition typed_begin (st : Status) (eos : bool) (data : bytes) : World :=
  chain_begin (with_core st eos data) 0.
Definition typed_answered (data : bytes) (k : nat) : World :=
  chain_answered (with_core Ok false data) 0 k.

(** The handler writes the messages of [L] for the request [q]: the first at
    once, and each other one in the callback of the one before. *)
Definition chains (q : ReqType) (L : list (ResType * nat)) : Prop :=
  (∀ p w, handler (ServerStreamingHandler q p) w = next_write L 0) ∧
  (∀ k m cb w, L !! k = Some (m, cb) → handler (UserDelivered cb Ok) w = next_write L (S k)).

Context (q : ReqType) (data : bytes) (Hq : ParseRequest data = Some q).
Context (L : list (ResType * nat)) (ps : list bytes) (Hps : mapM EncodeResponse L.*1 = Some ps).
Context (HL : chains q L).

Lemma typed_runs k m cb p :
  L !! k = Some (m, cb) → ps !! k = Some p →
  trace (typed_answered data k) = [CoreRead 0; ServerStreamingHandler q 0] ++
    chain_trace 1 (take k (zip ps L.*2)) ++ [CoreWrite (S k) p].
Proof using Hq Hps HL.
  intros Hk Hp. destruct HL as [H1 H2].
  by apply (chain_runs (with_core Ok false data) (λ _ _ _, eq_refl) q data Hq (λ _ _, eq_refl) L ps Hps H1 H2 0 k m cb p).
Qed.

Lemma typed_finishes k m cb p :
  L !! k = Some (m, cb) → ps !! k = Some p → S k = length L →
  trace (typed_answered data (S k)) = [CoreRead 0; ServerStreamingHandler q 0] ++
    chain_trace 1 (zip ps L.*2) ++ [CoreFinish ByAuto Ok].
Proof using Hq Hps HL.
  intros Hk Hp Hl. destruct HL as [H1 H2].
  by apply (chain_finishes (with_core Ok false data) (λ _ _ _, eq_refl) (λ _ _ _, eq_refl) q data Hq
    (λ _ _, eq_refl) L ps Hps H1 H2 0 k m cb p).
Qed.

Lemma typed_empty :
  L = [] → trace (typed_begin Ok false data) =
    [CoreRead 0; ServerStreamingHandler q 0; CoreFinish ByWrapper no_responses].
Proof using Hq HL.
  intros HLe. unfold typed_begin. rewrite (begin_request (with_core Ok false data) data (λ _ _, eq_refl) 0).
  unfold run_request. change (negb (ok Ok) || false) with false. cbn match.
  rewrite new_eq. cbv beta iota zeta. rewrite Hq. unfold call_out.
  rewrite (re_ops (with_core Ok false data) 0 _ [] _); [done|]. simpl. rewrite (proj1 HL). by rewrite HLe.
Qed.

Lemma typed_full :
  L ≠ [] → trace (typed_answered data (length L)) =
    [CoreRead 0; ServerStreamingHandler q 0] ++ chain_trace 1 (zip ps L.*2) ++ [CoreFinish ByAuto Ok].
Proof using Hq Hps HL.
  intros HLe. destruct (length L) as [|k] eqn:El; [by apply nil_length_inv in El|].
  destruct (lookup_lt_is_Some_2 L k) as [[m cb] Hk]; [lia|].
  destruct (nth_write L ps Hps k m cb Hk) as (p & Hp & _).
  by apply (typed_finishes k m cb p).
Qed.

(** A handler that chains its writes is served to the end, however many
    messages it writes.  With nothing to write, the stream is finished with
    UNIMPLEMENTED; otherwise the core is given one message at a time, each in the
    callback of the one before, which is told of its delivery, and the stream is
    finished with OK when the last was delivered. *)
Theorem typed_chain_served :
  (L = [] → trace (typed_begin Ok false data) =
     [CoreRead 0; ServerStreamingHandler q 0; CoreFinish ByWrapper no_responses]) ∧
  (L ≠ [] → trace (typed_answered data (length L)) =
     [CoreRead 0; ServerStreamingHandler q 0] ++ chain_trace 1 (zip ps L.*2) ++ [CoreFinish ByAuto Ok]).
Proof using Hq Hps HL. split; [apply typed_empty|apply typed_full]. Qed.
End Handler.

(** ** A concrete handler *)
Section Demo.
#[local] Existing Instance demo_traits.

(** It writes two messages, whatever the request. *)
Definition demo_chain (o : Out (M := demo_traits)) (w : World (M := demo_traits)) : list (Op (M := demo_traits)) :=
  match o with
  | ServerStreamingHandler _ _ => [OpWrite (Some [chr 1]) (Some 0%nat)]
  | UserDelivered O _ => [OpWrite (Some [chr 2; chr 3]) (Some 1%nat)]
  | _ => []
  end.

Lemma demo_chains q : chains (M := demo_traits) demo_chain q [([chr 1], 0%nat); ([chr 2; chr 3], 1%nat)].
Proof.
  split; [done|]. intros k m cb w Hk. destruct k as [|[|k]]; [| |done]; by injection Hk as <- <-.
Qed.

Lemma typed_chain_served_witness :
  trace (typed_answered (M := demo_traits) demo_chain [chr 10; chr 9] 2) =
    [CoreRead 0; ServerStreamingHandler (M := demo_traits) [chr 9] 0] ++
    chain_trace (M := demo_traits) 1 [([chr 10; chr 1], 0%nat); ([chr 10; chr 2; chr 3], 1%nat)] ++
    [CoreFinish ByAuto Ok].
Proof.
  apply (typed_chain_served (M := demo_traits) demo_chain [chr 9] [chr 10; chr 9] eq_refl
    [([chr 1], 0%nat); ([chr 2; chr 3], 1%nat)] [[chr 10; chr 1]; [chr 10; chr 2; chr 3]] eq_refl (demo_chains _)).
  discriminate.
Defined.
End Demo.
