(* ===== verification/StreamClient.v ===== *)
(** * Typed client streams (api/include/urpc/stream.h, the client side)

    The shared state of a client stream, the blocking views [ClientReader],
    [ClientWriter] and [ClientReaderWriter], the functions that open a stream,
    and the bridge to the channel below them (api/source/urpc_api_impl.cc).

    The core is the environment: it delivers messages, the end of the stream and
    the flushing of a message, on its loop's thread.  A view's method that waits
    is a function that has no result as long as it waits.  Using a null pointer,
    as the core channel of a closed [Channel] is, sets [ub]. *)
From S2P Require Import Prelude Status Codec Arena Api UnaryServer UnaryClient.

Definition sync_finish_on_loop : Status :=
  mkStatus kInternal "sync Finish() is not allowed on the urpc event-loop thread".
Definition decode_failed : Status := mkStatus kDataLoss "decode failed".
Definition missing_reply : Status := mkStatus kDataLoss "missing response".

(** The [Channel*] of a stream: null, closed (its core channel is gone), open. *)
Inductive Chan := NullChan | ClosedChan | OpenChan.
#[export] Instance Chan_eq_dec : EqDecision Chan.
Proof. solve_decision. Defined.

Section Client.
Context {M : MethodTraits} (oom : nat → bool).
(** [getenv("URPC_WIRE_DEBUG")] is set; whether the caller is on the channel's
    loop; and the id that the core gives a stream. *)
Context (wire_debug on_loop : bool) (new_id : Z).

(** ** State *)
Inductive Out :=
  | CoreOpenStream (path : string) (timeout_ms : Z)
  | CoreStreamSend (id : Z) (framed : bytes) (tok : option nat) (close : bool)
  | CoreStreamCloseSend (id : Z).

Record World := mkWorld {
  chan : Chan;
  id : Z;
  (* ClientStreamState *)
  messages : list bytes;
  terminated : bool;
  terminal : Status;
  (* ClientWriter *)
  writes_done_ : bool;
  flushes : gmap nat (option Status);      (* the promises of the writes *)
  next_tok : nat;
  arenas : Arenas;
  trace : list Out;
  ub : bool
}.
#[export] Instance eta_ClientStreamWorld : EtaRecord World := λ w,
  mkWorld (chan w) (id w) (messages w) (terminated w) (terminal w) (writes_done_ w) (flushes w)
    (next_tok w) (arenas w) (trace w) (ub w).

Definition new_impl (c : Chan) : World :=
  mkWorld c 0 [] false Ok false ∅ 0 no_arenas [] false.

Definition record_out (o : Out) (w : World) : World := w <| trace ::= λ t, t ++ [o] |>.

(** ** The callbacks of the core *)

(** The lambda given as [on_message]. *)
Definition OnMessage (st : Status) (payload : bytes) (w : World) : World :=
  if negb (ok st) then w else w <| messages ::= λ q, q ++ [payload] |>.
Definition NotifyTerminal (st : Status) (w : World) : World :=
  w <| terminal := st |> <| terminated := true |>.
(** The lambda that sets the promise of a write. *)
Definition OnFlushed (tok : nat) (st : Status) (w : World) : World :=
  w <| flushes ::= alter (λ _, Some st) tok |>.

(** ** The bridge *)

(** The check is guarded by the debug variable. *)
Definition ChannelOpenStreamRaw (path : string) (timeout_ms : Z) (w : World) : Z * World :=
  if wire_debug && negb (bool_decide (chan w = OpenChan)) then
    (0, NotifyTerminal channel_closed w)
  else
    match chan w with
    | OpenChan => (new_id, record_out (CoreOpenStream path timeout_ms) w)
    | _ => (0, w <| ub := true |>)
    end.

(** [on_flushed] of a null channel is called at once. *)
Definition ChannelStreamSendRaw (sid : Z) (framed : bytes) (tok : option nat) (close : bool)
    (w : World) : World :=
  match chan w with
  | NullChan => match tok with Some t => OnFlushed t channel_closed w | None => w end
  | ClosedChan => w <| ub := true |>
  | OpenChan => record_out (CoreStreamSend sid framed tok close) w
  end.

Definition ChannelStreamCloseSendRaw (sid : Z) (w : World) : World :=
  match chan w with
  | NullChan => w
  | ClosedChan => w <| ub := true |>
  | OpenChan => record_out (CoreStreamCloseSend sid) w
  end.

Definition ChannelOnLoopThreadRaw (w : World) : bool * World :=
  match chan w with
  | NullChan => (false, w)
  | ClosedChan => (false, w <| ub := true |>)
  | OpenChan => (on_loop, w)
  end.

(** ** Opening *)
Definition Open (c : Chan) (service method : string) (timeout_ms : Z) : World :=
  let w := new_impl c in
  let '(i, w) := ChannelOpenStreamRaw (api_path service method) timeout_ms w in
  w <| id := i |>.

Definition SendSingleRequest (request : ReqType) (w : World) : World :=
  let '(arena, a) := upb_Arena_New oom (arenas w) in
  let w := w <| arenas := a |> in
  match arena with
  | None => w
  | Some p =>
      match EncodeRequest request with
      | None => w <| arenas ::= upb_Arena_Free p |>
      | Some buf =>
          let framed := EncodeFrame buf [] in
          ChannelStreamSendRaw (id w) framed None true (w <| arenas ::= upb_Arena_Free p |>)
      end
  end.

Definition OpenClientReader (c : Chan) (service method : string) (request : ReqType)
    (timeout_ms : Z) : World :=
  SendSingleRequest request (Open c service method timeout_ms).
(** [OpenClientWriter] and [OpenClientReaderWriter] differ in the view only. *)
Definition OpenClientWriter (c : Chan) (service method : string) (timeout_ms : Z) : World :=
  Open c service method timeout_ms.

(** ** The views *)

(** [Decode], and the end of [ClientWriter::Finish]. *)
Definition Decode (payload : bytes) (w : World) : Result ResType * World :=
  let '(arena, a) := upb_Arena_New oom (arenas w) in
  let w := w <| arenas := a |> in
  match arena with
  | None => (failed arena_failed, w)
  | Some p =>
      match ParseResponse payload with
      | None => (failed decode_failed, w <| arenas ::= upb_Arena_Free p |>)
      | Some res => (mkResult Ok (Some (res, p)), w <| arenas ::= own p |>)
      end
  end.

(** [ClientReader::Read]: waits for a message or the end. *)
Definition Read (w : World) : option (Result ResType * World) :=
  match messages w with
  | payload :: q => Some (Decode payload (w <| messages := q |>))
  | [] =>
      if terminated w then
        Some (if ok (terminal w) then (mkResult Ok None, w) else (failed (terminal w), w))
      else None
  end.

(** [ClientReader::Finish]: waits for the end. *)
Definition ReaderFinish (w : World) : option (Status * World) :=
  let '(l, w) := ChannelOnLoopThreadRaw w in
  if l then Some (sync_finish_on_loop, w)
  else if terminated w then Some (terminal w, w) else None.

(** [ClientWriter::Write], up to [fut.get()]: an answer, or the promise that it
    waits for. *)
Definition Write (req : option ReqType) (w : World) : (bool + nat) * World :=
  match req with
  | None => (inl false, w)
  | Some req =>
      if terminated w then (inl false, w)
      else
        let '(l, w) := ChannelOnLoopThreadRaw w in
        if l then (inl false, w)
        else
          let '(arena, a) := upb_Arena_New oom (arenas w) in
          let w := w <| arenas := a |> in
          match arena with
          | None => (inl false, w)
          | Some p =>
              match EncodeRequest req with
              | None => (inl false, w <| arenas ::= upb_Arena_Free p |>)
              | Some buf =>
                  let framed := EncodeFrame buf [] in
                  let w := w <| arenas ::= upb_Arena_Free p |> in
                  let tok := next_tok w in
                  (inr tok,
                   ChannelStreamSendRaw (id w) framed (Some tok) false
                     (w <| next_tok ::= S |> <| flushes ::= <[tok := None]> |>))
              end
          end
  end.
(** [return fut.get().ok()] *)
Definition Write_get (tok : nat) (w : World) : option bool :=
  match flushes w !! tok with Some (Some st) => Some (ok st) | _ => None end.

Definition WritesDone (w : World) : World :=
  if writes_done_ w then w else ChannelStreamCloseSendRaw (id w) (w <| writes_done_ := true |>).

(** [ClientWriter::Finish], past the half-close: the single response. *)
Definition finish_response (w : World) : Result ResType * World :=
  if negb (ok (terminal w)) then (failed (terminal w), w)
  else
    match messages w with
    | [] => (failed missing_reply, w)
    | payload :: _ => Decode payload (w <| messages := [] |>)
    end.

(** [WritesDone] has an effect before the method waits. *)
Definition WriterFinish (w : World) : World * option (Result ResType * World) :=
  let w := WritesDone w in
  let '(l, w) := ChannelOnLoopThreadRaw w in
  (w, if l then Some (failed sync_finish_on_loop, w)
      else if terminated w then Some (finish_response w) else None).

(** [ClientReaderWriter::Finish] *)
Definition ReaderWriterFinish (w : World) : World * option (Status * World) :=
  let w := WritesDone w in
  let '(l, w) := ChannelOnLoopThreadRaw w in
  (w, if l then Some (sync_finish_on_loop, w)
      else if terminated w then Some (terminal w, w) else None).

(** ** What a stream's reader gets *)

(** The core's events for a stream. *)
Inductive Event :=
  | EvMessage (st : Status) (payload : bytes)
  | EvComplete (st : Status)
  | EvFlushed (tok : nat) (st : Status).
Definition deliver (e : Event) (w : World) : World :=
  match e with
  | EvMessage st payload => OnMessage st payload w
  | EvComplete st => NotifyTerminal st w
  | EvFlushed tok st => OnFlushed tok st w
  end.
Definition deliver_all (es : list Event) (w : World) : World := fold_left (λ w e, deliver e w) es w.

(** [n] reads in a row, and their results; none when one of them waits. *)
Fixpoint read_n (n : nat) (w : World) : option (list (Result ResType) * World) :=
  match n with
  | O => Some ([], w)
  | S n =>
      '(r, w) ← Read w; '(rs, w) ← read_n n w; Some (r :: rs, w)
  end.

(** The result of a message, by the allocation of its arena. *)
Definition decoded (alloc : bool) (payload : bytes) : Status * option ResType :=
  if negb alloc then (arena_failed, None)
  else match ParseResponse payload with
  | None => (decode_failed, None)
  | Some res => (Ok, Some res)
  end.
Definition end_result (st : Status) : Status * option ResType := (if ok st then Ok else st, None).

(** ** Reading *)
Lemma Decode_shown payload w :
  arenas_wf (arenas w) → refs (arenas w) !! news (arenas w) = None →
  ∃ r a, Decode payload w = (r, w <| arenas := a |>) ∧
    shown r = decoded (negb (oom (news (arenas w)))) payload ∧
    news a = S (news (arenas w)) ∧ fault a = fault (arenas w) ∧
    live a = match value_ r with Some (_, p) => {[p]} ∪ live (arenas w) | None => live (arenas w) end.
Proof.
  intros Hwf Hn. unfold Decode, decoded. rewrite new_eq.
  destruct (oom _); cbv beta iota zeta; cbn [negb]; [by do 2 eexists|].
  destruct (ParseResponse payload) as [res|].
  - do 2 eexists. by split_and!.
  - do 2 eexists. split; [done|]. simpl. by rewrite free_allocated.
Qed.

(** What reading needs of the arenas, and keeps. *)
Definition arenas_fine (a : Arenas) : Prop :=
  arenas_wf a ∧ ∀ p, is_Some (refs a !! p) → (p < news a)%nat.

Lemma Decode_fine payload w r w' :
  Decode payload w = (r, w') → arenas_fine (arenas w) → arenas_fine (arenas w').
Proof.
  intros E [Hwf Hr]. unfold Decode in E. rewrite new_eq in E.
  destruct (oom _); simplify_eq; simpl.
  - split; [by apply skipped_wf|]. intros p Hp%Hr. simpl. lia.
  - destruct (ParseResponse payload); simplify_eq; simpl.
    + destruct (allocated_wf _ Hwf) as [H1 H2]. split; [split; simpl; [done|]|].
      * intros p n. rewrite lookup_insert_Some. intros [[_ <-]|[_ Hp]]; [lia|by eapply H2].
      * intros p. simpl. rewrite lookup_insert_is_Some. intros [->|[_ Hp%Hr]]; lia.
    + rewrite free_allocated by done. split; [by apply skipped_wf|]. intros p Hp%Hr. simpl. lia.
Qed.

Lemma fine_fresh a : arenas_fine a → refs a !! news a = None.
Proof. intros [_ Hr]. apply eq_None_not_Some. intros Hp%Hr. lia. Qed.

Lemma read_n_S n w :
  read_n (S n) w = ('(r, w) ← Read w; '(rs, w) ← read_n n w; Some (r :: rs, w)).
Proof. done. Qed.

(** Reading all the messages, and then the end. *)
(** Reads change neither the channel nor the end. *)
Definition same_end (w w' : World) : Prop :=
  chan w' = chan w ∧ terminated w' = terminated w ∧ terminal w' = terminal w.

Lemma Read_end w r w' : Read w = Some (r, w') → same_end w w'.
Proof.
  unfold Read, Decode. destruct (messages w) as [|payload q].
  - destruct (terminated w) eqn:Ht; [|done].
    destruct (ok (terminal w)) eqn:Hok; intros [= <- <-]; by split_and!.
  - destruct (upb_Arena_New _ _) as [[p|] a]; [destruct (ParseResponse payload)|];
      intros [= <- <-]; by split_and!.
Qed.

Lemma read_n_end n w rs w' : read_n n w = Some (rs, w') → same_end w w'.
Proof.
  revert w rs. induction n as [|n IH]; intros w rs.
  - by intros [= <- <-].
  - rewrite read_n_S. destruct (Read w) as [[r w1]|] eqn:Hr; [|done]. cbn [mbind option_bind].
    destruct (read_n n w1) as [[rs1 w2]|] eqn:Hn; [|done]. intros [= <- <-].
    destruct (Read_end _ _ _ Hr) as (?&?&?). destruct (IH _ _ Hn) as (?&?&?). split_and!; congruence.
Qed.

(** The loop that reads until a result has no value, as callers write it: the
    number of values. *)
Fixpoint read_values (fuel : nat) (w : World) : option (nat * World) :=
  match fuel with
  | O => None
  | S fuel =>
      '(r, w) ← Read w;
      match value_ r with
      | None => Some (0%nat, w)
      | Some _ => '(n, w) ← read_values fuel w; Some (S n, w)
      end
  end.

Lemma read_values_S n w :
  read_values (S n) w =
    '(r, w) ← Read w;
    match value_ r with
    | None => Some (0%nat, w)
    | Some _ => '(k, w) ← read_values n w; Some (S k, w)
    end.
Proof. reflexivity. Qed.

Lemma read_values_all {A} (f : A → ResType) xs st w rs w' :
  read_n (S (length xs)) w = Some (rs, w') →
  map shown rs = map (λ x, (Ok, Some (f x))) xs ++ [(st, None)] →
  read_values (S (length xs)) w = Some (length xs, w').
Proof.
  revert w rs. induction xs as [|x xs IH]; intros w rs; cbn [length]; rewrite read_n_S.
  - rewrite read_values_S. destruct (Read w) as [[r w1]|]; [|done]. cbn [mbind option_bind read_n].
    intros [= <- <-]. simpl. unfold shown. destruct (value_ r); [done|]. done.
  - rewrite read_values_S. destruct (Read w) as [[r w1]|]; [|done]. cbn [mbind option_bind].
    destruct (read_n (S (length xs)) w1) as [[rs1 w2]|] eqn:Hn; [|done]. cbn [mbind option_bind].
    intros [= <- <-] [= Hr Hs Hrs]. destruct (value_ r); [|done].
    by rewrite (IH w1 rs1 Hn Hrs).
Qed.

Lemma read_all ms w :
  messages w = ms → terminated w = true → arenas_fine (arenas w) →
  ∃ rs w', read_n (S (length ms)) w = Some (rs, w') ∧
    map shown rs = imap (λ i m, decoded (negb (oom (news (arenas w) + i))) m) ms ++
                   [end_result (terminal w)] ∧
    Read w' = Some (mkResult (end_result (terminal w)).1 None, w').
Proof.
  revert w. induction ms as [|m ms IH]; intros w Hm Ht Hf.
  - simpl. unfold Read. rewrite Hm, Ht. unfold end_result.
    destruct (ok (terminal w)) eqn:Hok; simpl; do 2 eexists; (split; [done|]); rewrite Hm, Ht, Hok; done.
  - set (w0 := w <| messages := ms |>).
    destruct (Decode_shown m w0 (proj1 Hf) (fine_fresh _ Hf)) as (r & a & E & Hr & Hn & _ & _).
    pose proof (Decode_fine _ _ _ _ E Hf) as Hf'.
    assert (E0 : Read w = Some (r, w0 <| arenas := a |>)) by (unfold Read; rewrite Hm; by rewrite <-E).
    destruct (IH (w0 <| arenas := a |>)) as (rs & w' & E' & Hrs & Hend); [done..|].
    cbn [length]. rewrite read_n_S, E0. cbn [mbind option_bind]. rewrite E'. cbn [mbind option_bind].
    do 2 eexists. split; [done|]. split; [|done].
    simpl. rewrite Hr, Hrs. simpl. rewrite Nat.add_0_r, Hn. simpl. f_equal.
    f_equal. apply imap_ext. intros i x _. simpl. by rewrite Nat.add_succ_r.
Qed.

Lemma deliver_messages_all ms w :
  deliver_all (map (EvMessage Ok) ms) w = w <| messages ::= λ q, q ++ ms |>.
Proof.
  revert w. induction ms as [|m ms IH]; intros w; simpl.
  - destruct w; simpl. by rewrite app_nil_r.
  - unfold deliver_all in IH. rewrite IH. unfold OnMessage. simpl. by rewrite <-(assoc_L (++)).
Qed.

(** The stream once its messages and its end were delivered. *)
Lemma deliver_to_end ms st w : messages w = [] →
  let w1 := deliver_all (map (EvMessage Ok) ms ++ [EvComplete st]) w in
  messages w1 = ms ∧ terminated w1 = true ∧ terminal w1 = st ∧ arenas w1 = arenas w.
Proof.
  intros Hm. unfold deliver_all. rewrite fold_left_app.
  pose proof (deliver_messages_all ms w) as E. unfold deliver_all in E. rewrite E. simpl.
  by rewrite Hm.
Qed.

Lemma deliver_all_chan es w : chan (deliver_all es w) = chan w.
Proof.
  revert w. induction es as [|e es IH]; intros w; [done|]. unfold deliver_all in *. cbn [fold_left].
  rewrite IH. destruct e; try done. simpl. unfold OnMessage. by destruct (ok st).
Qed.

(** A client stream's messages are read in order, then its status.  After the
    core has delivered messages and the end of a stream, reads return without
    waiting: each message in order, decoded, and then the end, as often as it is
    asked for. *)
Theorem client_stream_reads ms st w :
  messages w = [] → arenas_fine (arenas w) →
  let w1 := deliver_all (map (EvMessage Ok) ms ++ [EvComplete st]) w in
  ∃ rs w2, read_n (S (length ms)) w1 = Some (rs, w2) ∧
    map shown rs = imap (λ i m, decoded (negb (oom (news (arenas w) + i))) m) ms ++ [end_result st] ∧
    Read w2 = Some (mkResult (end_result st).1 None, w2).
Proof.
  intros Hm Hf w1. destruct (deliver_to_end ms st w Hm) as (H1 & H2 & H3 & H4). fold w1 in H1, H2, H3, H4.
  clearbody w1. rewrite <-H4 in Hf |- *. rewrite <-H3. by apply read_all.
Qed.

(** ** Writing *)

(** A write waits until its message has left.  On an open channel, off the
    loop's thread, a write of a message that encodes gives the core the framed
    message and waits; events of the core that are not about it do not end the
    wait; and when the core reports the message as flushed the write returns
    whether the report was OK.  On a stream that has ended it returns false and
    nothing is sent. *)
Theorem client_write_waits_for_flush req buf w es st :
  chan w = OpenChan → on_loop = false → oom (news (arenas w)) = false →
  EncodeRequest req = Some buf → (∀ st', EvFlushed (next_tok w) st' ∉ es) →
  let '(r, w1) := Write (Some req) w in
  if terminated w then r = inl false ∧ w1 = w
  else
    r = inr (next_tok w) ∧
    trace w1 = trace w ++ [CoreStreamSend (id w) (EncodeFrame buf []) (Some (next_tok w)) false] ∧
    Write_get (next_tok w) (deliver_all es w1) = None ∧
    Write_get (next_tok w) (deliver (EvFlushed (next_tok w) st) (deliver_all es w1)) = Some (ok st).
Proof.
  intros Hc Hl Ho He Hes. unfold Write. destruct (terminated w); [done|].
  unfold ChannelOnLoopThreadRaw. rewrite Hc, Hl, new_eq, Ho, He. cbv beta iota zeta.
  unfold ChannelStreamSendRaw. simpl. rewrite Hc. split; [done|]. split; [done|].
  match goal with |- context [deliver_all es ?x] => set (w1 := x) end.
  assert (H1 : flushes w1 !! next_tok w = Some None) by (simpl; by rewrite lookup_insert_eq).
  assert (H : flushes (deliver_all es w1) !! next_tok w = Some None).
  { clearbody w1. revert w1 H1. induction es as [|e es IH]; intros w1 H1; [done|]. simpl.
    apply IH; [intros st' Hin; by apply (Hes st'); constructor|].
    destruct e as [st' m|st'|tok st']; simpl; [unfold OnMessage; by destruct (negb _)|done|].
    rewrite lookup_alter_ne; [done|]. intros ->. apply (Hes st'). by constructor. }
  unfold Write_get. rewrite H. split; [done|]. simpl. by rewrite lookup_alter_eq, H.
Qed.

(** A second [Finish], after one that found a stream without failure. *)
Lemma WriterFinish_again w :
  chan w = OpenChan → on_loop = false → terminated w = true → ok (terminal w) = true →
  messages w = [] → writes_done_ w = true →
  WriterFinish w = (w, Some (failed missing_reply, w)).
Proof.
  intros Hc Hl Ht Hok Hm Hd. unfold WriterFinish, WritesDone. rewrite Hd. cbv zeta.
  unfold ChannelOnLoopThreadRaw. rewrite Hc, Hl, Ht. unfold finish_response. by rewrite Hok, Hm.
Qed.

(** The single response.  [ClientWriter::Finish] of a stream that has ended
    closes the sending side, once, and returns the status of a stream that
    failed, DATA_LOSS when there is no response, and else the first message
    decoded; further messages are dropped, and so a second [Finish] finds no
    response. *)
Theorem writer_finish_response w :
  chan w = OpenChan → on_loop = false → terminated w = true → arenas_fine (arenas w) →
  ∃ r w', WriterFinish w = (WritesDone w, Some (r, w')) ∧
    trace w' = trace w ++ (if writes_done_ w then [] else [CoreStreamCloseSend (id w)]) ∧
    shown r =
      (if negb (ok (terminal w)) then (terminal w, None)
       else match messages w with
       | [] => (missing_reply, None)
       | m :: _ => decoded (negb (oom (news (arenas w)))) m
       end) ∧
    (ok (terminal w) = true →
     ∃ w'', WriterFinish w' = (w', Some (failed missing_reply, w'')) ∧ trace w'' = trace w').
Proof.
  intros Hc Hl Ht Hf. unfold WriterFinish at 1.
  set (w1 := WritesDone w).
  assert (H1 : chan w1 = OpenChan ∧ terminated w1 = true ∧ terminal w1 = terminal w ∧
    messages w1 = messages w ∧ arenas w1 = arenas w ∧ writes_done_ w1 = true ∧
    trace w1 = trace w ++ (if writes_done_ w then [] else [CoreStreamCloseSend (id w)])).
  { unfold w1, WritesDone, ChannelStreamCloseSendRaw. simpl. rewrite Hc.
    destruct (writes_done_ w) eqn:Hd; simpl; rewrite ?app_nil_r; by split_and!. }
  destruct H1 as (Hc1 & Ht1 & Hst & Hm & Ha & Hd & Htr). clearbody w1.
  unfold ChannelOnLoopThreadRaw at 1. rewrite Hc1, Hl, Ht1. unfold finish_response at 1. rewrite Hst, Hm.
  destruct (ok (terminal w)) eqn:Hok; cbn [negb].
  - destruct (messages w) as [|m q].
    + do 2 eexists. split; [done|]. split; [done|]. split; [done|]. intros _.
      exists w1. split; [apply WriterFinish_again; by rewrite ?Hst|done].
    + set (w2 := w1 <| messages := [] |>).
      destruct (Decode_shown m w2) as (r & a & E & Hr & Hn & _ & _);
        [unfold w2; simpl; rewrite Ha; by destruct Hf|unfold w2; simpl; rewrite Ha; by apply fine_fresh|].
      rewrite E. do 2 eexists. split; [done|]. split; [done|]. rewrite Hr. unfold w2. simpl. rewrite Ha.
      split; [done|]. intros _. exists (w2 <| arenas := a |>). split; [|done].
      apply WriterFinish_again; simpl; try done. by rewrite Hst.
  - do 2 eexists. split; [done|]. split; [done|]. by split.
Qed.

(** ** What goes wrong *)

(** A request that does not encode opens a mute stream.  The stream of a
    server-streaming call is opened before its request is encoded; when that
    fails, nothing is sent and the sending side stays open; and the reader
    waits until the core ends the stream. *)
Theorem unencoded_request_waits service method request tm es :
  EncodeRequest request = None →
  (∀ e, e ∈ es → ∃ tok st, e = EvFlushed tok st) →
  let w := deliver_all es (OpenClientReader OpenChan service method request tm) in
  trace w = [CoreOpenStream (api_path service method) tm] ∧ Read w = None.
Proof.
  intros He Hes. unfold OpenClientReader.
  set (w0 := SendSingleRequest _ _).
  assert (H0 : trace w0 = [CoreOpenStream (api_path service method) tm] ∧ messages w0 = [] ∧ terminated w0 = false).
  { unfold w0, SendSingleRequest, Open, ChannelOpenStreamRaw. simpl.
    rewrite andb_false_r. simpl. unfold upb_Arena_New. simpl. destruct (oom 0); simpl; [done|].
    by rewrite He. }
  clearbody w0. revert w0 H0. induction es as [|e es IH]; intros w0 (H1 & H2 & H3); simpl.
  - unfold Read. by rewrite H2, H3.
  - apply IH; [intros e' He'; apply Hes; by constructor|].
    destruct (Hes e) as (tok & st & ->); [by constructor|]. done.
Qed.

(** Streams of a closed channel use what is gone.  Once the channel is
    closed, opening a stream without the debug variable, writing to one, and
    closing its sending side use the null core channel. *)
Theorem closed_channel_streams_ub w service method tm req :
  chan w = ClosedChan →
  (wire_debug = false → ub (Open ClosedChan service method tm) = true) ∧
  (terminated w = false → ub (Write (Some req) w).2 = true) ∧
  (writes_done_ w = false → ub (WritesDone w) = true).
Proof.
  intros Hc. split_and!.
  - intros Hd. unfold Open, ChannelOpenStreamRaw. by rewrite Hd.
  - intros Ht. unfold Write. rewrite Ht. unfold ChannelOnLoopThreadRaw. rewrite Hc.
    cbv beta iota zeta. destruct (upb_Arena_New _ _) as [[p|] a]; [|done]. simpl.
    destruct (EncodeRequest req); [|done]. unfold ChannelStreamSendRaw. simpl. by rewrite Hc.
  - intros Hd. unfold WritesDone. rewrite Hd. unfold ChannelStreamCloseSendRaw. simpl. by rewrite Hc.
Qed.
End Client.

(** ** Witnesses *)
Section Demo.
#[local] Existing Instance demo_traits.

(** A stream that is open. *)
Definition demo_stream : World :=
  OpenClientReader (M := demo_traits) (λ _, false) false 7 OpenChan "a.S" "M" ([chr 1] : bytes) 0.

Lemma demo_fine : arenas_fine (arenas demo_stream).
Proof.
  replace (arenas demo_stream) with (skipped no_arenas) by by vm_compute.
  split; [apply skipped_wf, no_arenas_accounted|]. intros p [n Hp]. simpl in Hp. by rewrite lookup_empty in Hp.
Qed.

Lemma client_stream_reads_witness :
  ∃ rs w2, read_n (λ _, false) 3 (deliver_all
      [EvMessage Ok [chr 10; chr 1]; EvMessage Ok [chr 11]; EvComplete (mkStatus kDeadlineExceeded "")] demo_stream) = Some (rs, w2) ∧
    map (shown (M := demo_traits)) rs =
      [(Ok, Some ([chr 1] : bytes)); (decode_failed, None); ((mkStatus kDeadlineExceeded ""), None)].
Proof.
  destruct (client_stream_reads (M := demo_traits) (λ _, false) [[chr 10; chr 1]; [chr 11]]
    (mkStatus kDeadlineExceeded "") demo_stream) as (rs & w2 & E & Hrs & _).
  - done.
  - apply demo_fine.
  - exists rs, w2. split; [exact E|exact Hrs].
Defined.

Lemma client_write_waits_for_flush_witness :
  let '(r, w1) := Write (M := demo_traits) (λ _, false) false (Some ([chr 2] : bytes)) demo_stream in
  r = inr 0%nat ∧ Write_get 0 (deliver (EvFlushed 0 Ok) (deliver_all [EvMessage Ok []] w1)) = Some true.
Proof.
  pose proof (client_write_waits_for_flush (M := demo_traits) (λ _, false) false [chr 2] [chr 10; chr 2]
    demo_stream [EvMessage Ok []] Ok eq_refl eq_refl eq_refl eq_refl) as H.
  destruct H as (H1 & _ & _ & H2).
  - intros st' [? | ?%not_elem_of_nil]%elem_of_cons; done.
  - split; [exact H1|exact H2].
Defined.

Lemma writer_finish_response_witness :
  let w := deliver_all [EvMessage Ok [chr 10; chr 4]; EvComplete Ok] demo_stream in
  ∃ r w', WriterFinish (M := demo_traits) (λ _, false) false w = (WritesDone w, Some (r, w')) ∧
    shown r = (Ok, Some ([chr 4] : bytes)).
Proof.
  intros w. destruct (writer_finish_response (M := demo_traits) (λ _, false) false w)
    as (r & w' & E & _ & Hr & _); [done..| |].
  - apply demo_fine.
  - exists r, w'. split; [exact E|exact Hr].
Defined.

Lemma closed_channel_streams_ub_witness :
  ub (WritesDone (new_impl ClosedChan)) = true.
Proof.
  destruct (closed_channel_streams_ub (M := demo_traits) (λ _, false) false false 7 (new_impl ClosedChan)
    "a.S" "M" 0 [] eq_refl) as (_ & _ & H). by apply H.
Defined.
End Demo.

(** Traits whose requests never encode. *)
Definition mute_traits : MethodTraits := {|
  ReqType := bytes; ResType := bytes; ParseRequest := demo_parse; ParseResponse := demo_parse;
  EncodeRequest _ := None; EncodeResponse := Some; service_name := "a.S"; method_name := "M"
|}.

Lemma unencoded_request_waits_witness :
  Read (M := mute_traits) (λ _, false) (deliver_all [EvFlushed 0 Ok]
    (OpenClientReader (M := mute_traits) (λ _, false) false 7 OpenChan "a.S" "M" ([] : bytes) 0)) = None.
Proof.
  apply (unencoded_request_waits (M := mute_traits) (λ _, false) false 7 "a.S" "M" [] 0 [EvFlushed 0 Ok]).
  - done.
  - intros e [-> | ?%not_elem_of_nil]%elem_of_cons; [by do 2 eexists|done].
Defined.
