(* ===== verification/Codegen.v ===== *)
(** * The code generator (generator/codegen_model.cc, codegen_emit.cc, urpc_codegen.cc)

    protoc-gen-urpc: the model of a .proto file that the plugin fills from
    protoc's descriptors, the emitters that turn it into a header and a source
    file, and the plugin's [Generate].  A descriptor is a record of what the
    plugin reads of it; the output stream of protoc is the sequence of buffers
    it will give.  A [std::string*] that an emitter appends to is its first
    argument, and the text is written as lines of pieces. *)
From S2P Require Import Prelude Status CxxString.

Definition dq : string := Eval cbv in String (Ascii.ascii_of_nat 34) EmptyString.
Definition nl : string := Eval cbv in String (Ascii.ascii_of_nat 10) EmptyString.

(** The concatenation of pieces, and of lines of them. *)
Definition cat (ps : list string) : string := foldr String.append EmptyString ps.
Definition lines (ls : list (list string)) : string := cat (map (λ l, cat l +:+ nl) ls).

(** ** The model (codegen_model.h) *)
Inductive MethodForm := kUnary | kServerStreaming | kClientStreaming | kBidi.

Record MethodModel := mkMethod {
  name : string;
  service_full_name : string;
  request_type : string;
  response_type : string;
  request_init : string;
  response_init : string;
  path : string;
  form : MethodForm
}.

Record ServiceModel := mkService {
  s_name : string;
  full_name : string;
  methods : list MethodModel
}.

Record FileModel := mkFile {
  package : string;
  source_file : string;
  services : list ServiceModel
}.

(** ** Names (codegen_model.cc) *)
Fixpoint ReplaceAll (s : string) (from to : ascii) : string :=
  match s with
  | EmptyString => EmptyString
  | String c s => String (if Ascii.eqb c from then to else c) (ReplaceAll s from to)
  end.

Definition CppTypeOf (full_name : string) : string := ReplaceAll full_name "." "_".

(** [rest.rfind(package + ".", 0) == 0] *)
Definition MsgInitOf (package full_name : string) : string :=
  let prefix := package +:+ "." in
  let rest :=
    if negb (bool_decide (package = EmptyString)) && String.prefix prefix full_name
    then String.substring (String.length package + 1) (String.length full_name) full_name
    else full_name in
  package +:+ "__" +:+ ReplaceAll rest "." "_" +:+ "_msg_init".

Definition MethodPath (service_full_name method_name : string) : string :=
  "/" +:+ service_full_name +:+ "/" +:+ method_name.

Definition FormName (form : MethodForm) : string :=
  match form with
  | kServerStreaming => "::urpc::MethodForm::kServerStreaming"
  | kClientStreaming => "::urpc::MethodForm::kClientStreaming"
  | kBidi => "::urpc::MethodForm::kBidi"
  | kUnary => "::urpc::MethodForm::kUnary"
  end.

(** ** The emitters (codegen_emit.cc) *)
Definition EmitTraits (m : MethodModel) : string :=
  lines [
    ["struct "; name m; "Method {"];
    ["  using ReqType = "; request_type m; ";"];
    ["  using ResType = "; response_type m; ";"];
    ["  static constexpr ::urpc::MethodForm kForm = "; FormName (form m); ";"];
    [];
    ["  static const char* service_name() { return "; dq; service_full_name m; dq; "; }"];
    ["  static const char* method_name() { return "; dq; name m; dq; "; }"];
    ["  static const char* path() { return "; dq; path m; dq; "; }"];
    [];
    ["  static ReqType* ParseRequest(const char* data, size_t size,"];
    ["                               upb_Arena* arena) {"];
    ["    return "; request_type m; "_parse(data, size, arena);"];
    ["  }"];
    ["  static ResType* ParseResponse(const char* data, size_t size,"];
    ["                                upb_Arena* arena) {"];
    ["    return "; response_type m; "_parse(data, size, arena);"];
    ["  }"];
    ["  static const upb_MiniTable* ReqTable() { return &"; request_init m; "; }"];
    ["  static const upb_MiniTable* ResTable() { return &"; response_init m; "; }"];
    ["};"];
    []].

(** The text that declares one method of the interface. *)
Definition interface_method (m : MethodModel) : string :=
  match form m with
  | kUnary => lines [
        ["  virtual void "; name m; "(::urpc::ServerContext& ctx,"];
        ["                    const "; request_type m; "* request,"];
        ["                    ::urpc::UnaryDone<"; response_type m; "> done) {"];
        ["    (void)ctx;"];
        ["    (void)request;"];
        ["    done(::urpc::Status(::urpc::StatusCode::kUnimplemented,"];
        ["                        "; dq; "method not implemented: "; name m; dq; "),"];
        ["         nullptr);"];
        ["  }"]]
  | kServerStreaming => lines [
        ["  virtual void "; name m; "(::urpc::ServerContext& ctx,"];
        ["                    const "; request_type m; "* request,"];
        ["                    ::urpc::ServerWriter<"; response_type m; ">& writer) {"];
        ["    (void)ctx;"];
        ["    (void)request;"];
        ["    writer.Finish(::urpc::Status("];
        ["        ::urpc::StatusCode::kUnimplemented,"];
        ["        "; dq; "method not implemented: "; name m; dq; "));"];
        ["  }"]]
  | kClientStreaming => lines [
        ["  virtual void "; name m; "(::urpc::ServerContext& ctx,"];
        ["                    ::urpc::ServerReader<"; request_type m; ">& reader,"];
        ["                    ::urpc::UnaryDone<"; response_type m; "> done) {"];
        ["    (void)ctx;"];
        ["    (void)reader;"];
        ["    done(::urpc::Status(::urpc::StatusCode::kUnimplemented,"];
        ["                        "; dq; "method not implemented: "; name m; dq; "),"];
        ["         nullptr);"];
        ["  }"]]
  | kBidi => lines [
        ["  virtual void "; name m; "(::urpc::ServerContext& ctx,"];
        ["                    ::urpc::ServerReaderWriter<"; request_type m; ", "; response_type m; ">& stream) {"];
        ["    (void)ctx;"];
        ["    (void)stream;"];
        ["    stream.Finish(::urpc::Status("];
        ["        ::urpc::StatusCode::kUnimplemented,"];
        ["        "; dq; "method not implemented: "; name m; dq; "));"];
        ["  }"]]
  end.
Definition EmitInterfaceMethod (out : string) (m : MethodModel) : string :=
  out +:+ interface_method m.

Definition proxy_method (m : MethodModel) : string :=
  match form m with
  | kUnary => lines [
        ["  // "; name m; ": async form (callback fires exactly once;"];
        ["  // returns the call id, see Channel)."];
        ["  uint64_t "; name m; "Async(const "; request_type m; "* request,"];
        ["                         uint64_t timeout_ms,"];
        ["                         std::function<void(::urpc::Result<"; response_type m; ">)> done) {"];
        ["    return ::urpc::detail::ProxyCallAsync<"; name m; "Method>(channel_, request, timeout_ms, std::move(done));"];
        ["  }"];
        ["  // "; name m; ": sync convenience form (fast-fails on the urpc"];
        ["  // event-loop thread)."];
        ["  ::urpc::Result<"; response_type m; "> "; name m; "(const "; request_type m; "* request, uint64_t timeout_ms) {"];
        ["    return ::urpc::detail::ProxyCall<"; name m; "Method>(channel_, request, timeout_ms);"];
        ["  }"]]
  | kServerStreaming => lines [
        ["  // "; name m; ": server streaming (single request; read the"];
        ["  // response sequence from the returned reader)."];
        ["  std::unique_ptr<::urpc::ClientReader<"; response_type m; ">> "; name m; "(const "; request_type m; "* request, uint64_t timeout_ms) {"];
        ["    return ::urpc::OpenClientReader<"; name m; "Method>(channel_.lock(),"];
        ["        "; name m; "Method::service_name(), "; name m; "Method::method_name(), request, timeout_ms);"];
        ["  }"]]
  | kClientStreaming => lines [
        ["  // "; name m; ": client streaming (write requests, then Finish"];
        ["  // for the single response)."];
        ["  std::unique_ptr<::urpc::ClientWriter<"; request_type m; ", "; response_type m; ">> "; name m; "(uint64_t timeout_ms) {"];
        ["    return ::urpc::OpenClientWriter<"; name m; "Method>(channel_.lock(),"];
        ["        "; name m; "Method::service_name(), "; name m; "Method::method_name(), timeout_ms);"];
        ["  }"]]
  | kBidi => lines [
        ["  // "; name m; ": bidirectional streaming."];
        ["  std::unique_ptr<::urpc::ClientReaderWriter<"; request_type m; ", "; response_type m; ">> "; name m; "(uint64_t timeout_ms) {"];
        ["    return ::urpc::OpenClientReaderWriter<"; name m; "Method>(channel_.lock(),"];
        ["        "; name m; "Method::service_name(), "; name m; "Method::method_name(), timeout_ms);"];
        ["  }"]]
  end.
Definition EmitProxyMethod (out : string) (m : MethodModel) : string :=
  out +:+ proxy_method m.

(** The loop over a service's methods: a blank line between two of them. *)
Fixpoint separated (text : MethodModel → string) (ms : list MethodModel) : string :=
  match ms with
  | [] => EmptyString
  | [m] => text m
  | m :: ms => text m +:+ nl +:+ separated text ms
  end.

(** The registration of one method: [EmitRegister] writes this text out for each
    method, and [EmitRegisterCall], which nothing calls, is the same text. *)
Definition register_call (m : MethodModel) : string :=
  "  st = server." +:+
  (  match form m with
  | kUnary => lines [
        ["RegisterUnaryFor<"; name m; "Method>("];
        ["      "; name m; "Method::service_name(), "; name m; "Method::method_name(),"];
        ["      [&impl](::urpc::ServerContext& ctx, const "; request_type m; "* request,"];
        ["              ::urpc::UnaryDone<"; response_type m; "> done) {"];
        ["        try {"];
        ["          impl."; name m; "(ctx, request, done);"];
        ["        } catch (...) {"];
        ["          done(::urpc::Status(::urpc::StatusCode::kInternal,"];
        ["                              "; dq; "service handler raised an exception"; dq; "),"];
        ["               nullptr);"];
        ["        }"];
        ["      });"]]
  | kServerStreaming => lines [
        ["RegisterServerStreamingFor<"; name m; "Method>("];
        ["      "; name m; "Method::service_name(), "; name m; "Method::method_name(),"];
        ["      [&impl](::urpc::ServerContext& ctx, const "; request_type m; "* request,"];
        ["              ::urpc::ServerWriter<"; response_type m; ">& writer) {"];
        ["        try {"];
        ["          impl."; name m; "(ctx, request, writer);"];
        ["        } catch (...) {"];
        ["          writer.Finish(::urpc::Status("];
        ["              ::urpc::StatusCode::kInternal,"];
        ["              "; dq; "service handler raised an exception"; dq; "));"];
        ["        }"];
        ["      });"]]
  | kClientStreaming => lines [
        ["RegisterClientStreamingFor<"; name m; "Method>("];
        ["      "; name m; "Method::service_name(), "; name m; "Method::method_name(),"];
        ["      [&impl](::urpc::ServerContext& ctx,"];
        ["              ::urpc::ServerReader<"; request_type m; ">& reader,"];
        ["              ::urpc::UnaryDone<"; response_type m; "> done) {"];
        ["        try {"];
        ["          impl."; name m; "(ctx, reader, std::move(done));"];
        ["        } catch (...) {"];
        ["          done(::urpc::Status(::urpc::StatusCode::kInternal,"];
        ["                              "; dq; "service handler raised an exception"; dq; "),"];
        ["               nullptr);"];
        ["        }"];
        ["      });"]]
  | kBidi => lines [
        ["RegisterBidiFor<"; name m; "Method>("];
        ["      "; name m; "Method::service_name(), "; name m; "Method::method_name(),"];
        ["      [&impl](::urpc::ServerContext& ctx,"];
        ["              ::urpc::ServerReaderWriter<"; request_type m; ", "; response_type m; ">& stream) {"];
        ["        try {"];
        ["          impl."; name m; "(ctx, stream);"];
        ["        } catch (...) {"];
        ["          stream.Finish(::urpc::Status("];
        ["              ::urpc::StatusCode::kInternal,"];
        ["              "; dq; "service handler raised an exception"; dq; "));"];
        ["        }"];
        ["      });"]]
  end) +:+
  lines [["  if (!st.ok()) return st;"]].
Definition EmitRegisterCall (out : string) (m : MethodModel) : string :=
  out +:+ register_call m.

(** A row of the method table. *)
Definition table_row (m : MethodModel) : string :=
  lines [
    ["      {"; dq; name m; dq; ", "; dq; path m; dq; ", "; FormName (form m); "},"]].

Definition EmitInterface (out : string) (s : ServiceModel) : string :=
  let iface := "I" +:+ s_name s in
  out +:+
  lines [
    ["// Server-side pure virtual interface for "; full_name s; "."];
    ["// Inherit and override to implement the service; methods left"];
    ["// unoverridden answer UNIMPLEMENTED (FR-004)."];
    ["class "; iface; " {"];
    [" public:"];
    ["  "; iface; "() = default;"];
    ["  virtual ~"; iface; "() = default;"];
    ["  "; iface; "(const "; iface; "&) = delete;"];
    ["  "; iface; "& operator=(const "; iface; "&) = delete;"];
    []] +:+
  separated interface_method (methods s) +:+
  lines [
    [];
    ["  // Method table: mirrors the .proto service definition"];
    ["  // (registration + contract tests; declaration order preserved)."];
    ["  static constexpr ::urpc::MethodDescriptor kMethods[] = {"]] +:+
  cat (map table_row (methods s)) +:+
  lines [
    ["  };"];
    ["};"];
    []].

Definition EmitProxy (out : string) (s : ServiceModel) : string :=
  let proxy := s_name s +:+ "Proxy" in
  out +:+
  lines [
    ["// Client-side proxy for "; full_name s; " (inherits the"];
    ["// same interface; the typed members below are the client calling"];
    ["// surface - no connection-management members)."];
    ["class "; proxy; " : public I"; s_name s; " {"];
    [" public:"];
    ["  explicit "; proxy; "(const std::shared_ptr<::urpc::Channel>& channel)"];
    ["      : channel_(channel) {}"];
    ["  explicit "; proxy; "(const std::weak_ptr<::urpc::Channel>& channel)"];
    ["      : channel_(channel) {}"];
    ["  explicit "; proxy; "(const ::urpc::Client& client)"];
    ["      : channel_(client.channel_ref()) {}"];
    []] +:+
  separated proxy_method (methods s) +:+
  lines [
    [];
    [" private:"];
    ["  std::weak_ptr<::urpc::Channel> channel_;"];
    ["};"];
    []].

Definition EmitRegister (out : string) (s : ServiceModel) : string :=
  out +:+
  lines [
    ["// Registers every method of `impl` on `server`: one call publishes"];
    ["// the whole service. Fails when the service name is already"];
    ["// registered. Handler exceptions are contained per call"];
    ["// (INTERNAL to that call; the server stays alive)."];
    ["inline ::urpc::Status RegisterService(::urpc::Server& server, I"; s_name s; "& impl) {"];
    ["  ::urpc::Status st;"]] +:+
  cat (map register_call (methods s)) +:+
  lines [
    ["  return ::urpc::Status::Ok();"];
    ["}"];
    []].

(** The components of a package, in order: one namespace each. *)
Fixpoint open_parts (part package : string) : string :=
  match package with
  | EmptyString => lines [["namespace "; part; " {"]]
  | String c package =>
      if Ascii.eqb c "." then lines [["namespace "; part; " {"]] +:+ open_parts EmptyString package
      else open_parts (part +:+ String c EmptyString) package
  end.
Definition OpenNamespaces (package : string) : string :=
  lines [["namespace urpc {"]; ["namespace gen {"]] +:+ open_parts EmptyString package.

Fixpoint count_dots (package : string) : nat :=
  match package with
  | EmptyString => 0
  | String c package => (if Ascii.eqb c "." then 1 else 0) + count_dots package
  end.
Definition CloseNamespaces (package : string) : string :=
  cat (replicate (3 + count_dots package) (lines [["}  // namespace"]])).

Definition EmitTraitsInto (out : string) (s : ServiceModel) : string :=
  out +:+ cat (map EmitTraits (methods s)).

(** [s.substr(0, s.size() - 6)], in the unsigned type: a name of fewer than six
    characters is taken whole. *)
Definition strip_proto (s : string) : string :=
  let n := Z.of_nat (String.length s) in
  String.substring 0 (Z.to_nat (Z.min n (u64 (n - 6)))) s.

Definition EmitHeader (f : FileModel) : string :=
  let base := strip_proto (source_file f) in
  let header :=
    lines [
      ["// Generated by protoc-gen-urpc (urpc spec 003-typed-service-interface / 004-streaming-rpc)."];
      ["// source: "; source_file f];
      ["// DO NOT EDIT! Deterministic output; regenerate via the standard build."];
      ["#pragma once"];
      [];
      ["#include <cstddef>"];
      ["#include <cstdint>"];
      ["#include <functional>"];
      ["#include <memory>"];
      ["#include <string>"];
      [];
      ["#include "; dq; base; ".upb.h"; dq];
      [];
      ["#include <urpc/client.h>"];
      ["#include <urpc/proxy.h>"];
      ["#include <urpc/server.h>"];
      ["#include <urpc/service.h>"];
      ["#include <urpc/stream.h>"];
      []] +:+
    OpenNamespaces (package f) +:+ nl in
  foldl (λ header s,
    EmitRegister (EmitProxy (EmitInterface (EmitTraitsInto header s) s) s) s)
    header (services f) +:+
  CloseNamespaces (package f).

Definition EmitSource (f : FileModel) : string :=
  let base := strip_proto (source_file f) in
  lines [
    ["// Generated by protoc-gen-urpc (urpc spec 003-typed-service-interface / 004-streaming-rpc)."];
    ["// source: "; source_file f];
    ["// DO NOT EDIT! Deterministic output; regenerate via the standard build."];
    ["#include "; dq; base; ".service.h"; dq];
    [];
    ["// Interface, proxy and registration symbols are header-inline"];
    ["// (constexpr method table + inline templates); this translation"];
    ["// unit anchors the generated pair in the build graph."]].

(** ** The plugin (urpc_codegen.cc) *)

(** What the plugin reads of protoc's descriptors. *)
Record MethodDescriptor := mkMethodDescriptor {
  md_name : string;
  client_streaming : bool;
  server_streaming : bool;
  input_type : string;                       (* its full name *)
  output_type : string
}.
Record ServiceDescriptor := mkServiceDescriptor {
  sd_name : string;
  sd_full_name : string;
  sd_methods : list MethodDescriptor
}.
Record FileDescriptor := mkFileDescriptor {
  fd_name : string;
  fd_package : string;
  fd_services : list ServiceDescriptor
}.

Definition FormOf (m : MethodDescriptor) : MethodForm :=
  let cs := client_streaming m in
  let ss := server_streaming m in
  if cs && ss then kBidi
  else if cs then kClientStreaming
  else if ss then kServerStreaming
  else kUnary.

Definition ModelOf_method (m : MethodDescriptor) (service : ServiceDescriptor) (package : string)
    : MethodModel :=
  mkMethod (md_name m) (sd_full_name service)
    (CppTypeOf (input_type m)) (CppTypeOf (output_type m))
    (MsgInitOf package (input_type m)) (MsgInitOf package (output_type m))
    (MethodPath (sd_full_name service) (md_name m)) (FormOf m).

Definition ModelOf_service (package : string) (service : ServiceDescriptor) : ServiceModel :=
  mkService (sd_name service) (sd_full_name service)
    (map (λ m, ModelOf_method m service package) (sd_methods service)).

Definition ModelOf (file : FileDescriptor) : FileModel :=
  mkFile (fd_package file) (fd_name file) (map (ModelOf_service (fd_package file)) (fd_services file)).

(** The loop of [WriteOutput].  The stream's answers to [Next] are a list of
    buffer sizes, ended by the refusals; the result is what was copied into
    buffers and what [BackUp] was called with. *)
Fixpoint WriteOutput (buffers : list nat) (content : list ascii) : list ascii * option nat :=
  match content with
  | [] => ([], None)
  | _ :: _ =>
      match buffers with
      | [] => ([], None)                     (* [Next] fails *)
      | size :: buffers =>
          if (size =? 0)%nat then ([], None)
          else
            let n := if (length content <? size)%nat then length content else size in
            let rest := drop n content in
            let '(written, back) := WriteOutput buffers rest in
            (take n content ++ written,
             match rest with [] => Some (size - n)%nat | _ => back end)
      end
  end.

(** [Generate]: success, the error, and the files with their content. *)
Definition Generate (file : FileDescriptor) : bool * string * list (string * string) :=
  match fd_services file with
  | [] => (true, EmptyString, [])
  | _ =>
      let package := fd_package file in
      let file_name := fd_name file in
      if bool_decide (package = EmptyString) then
        (false, "urpc: a package is required for --urpc_out (file: " +:+ file_name +:+ ")", [])
      else
        let model := ModelOf file in
        let base := strip_proto file_name in
        (true, EmptyString,
         [(base +:+ ".service.h", EmitHeader model); (base +:+ ".service.cc", EmitSource model)])
  end.

(** ** Brackets

    [nest o c s n] is the depth of the bracket pair [o], [c] after [s], read at
    depth [n]; [None] when a bracket closes nothing. *)
Fixpoint nest (o c : ascii) (s : string) (n : nat) : option nat :=
  match s with
  | EmptyString => Some n
  | String x s =>
      if Ascii.eqb x o then nest o c s (S n)
      else if Ascii.eqb x c then match n with O => None | S n => nest o c s n end
      else nest o c s n
  end.

(** A text that leaves the depth as it was, and closes nothing before it. *)
Definition balanced (o c : ascii) (s : string) : Prop := ∀ n, nest o c s n = Some n.

Lemma nest_app o c s t n :
  nest o c (s +:+ t) n = match nest o c s n with Some n => nest o c t n | None => None end.
Proof.
  revert n. induction s as [|x s IH]; intros n; simpl; [done|].
  destruct (Ascii.eqb x o); [apply IH|]. destruct (Ascii.eqb x c); [|apply IH].
  destruct n; [done|apply IH].
Qed.

Lemma nest_balanced o c s t n : balanced o c s → nest o c (s +:+ t) n = nest o c t n.
Proof. intros H. by rewrite nest_app, H. Qed.

Lemma balanced_nil o c : balanced o c EmptyString.
Proof. done. Qed.
Lemma balanced_app o c s t : balanced o c s → balanced o c t → balanced o c (s +:+ t).
Proof. intros Hs Ht n. by rewrite nest_balanced. Qed.
Lemma balanced_cat_map {A} o c (f : A → string) l :
  Forall (λ x, balanced o c (f x)) l → balanced o c (cat (map f l)).
Proof. induction 1; [done|]. by apply balanced_app. Qed.

(** The two kinds of brackets. *)
Inductive bracket : ascii → ascii → Prop :=
  | braces : bracket "{" "}"
  | parens : bracket "(" ")".

(** Names without brackets. *)
Definition plain_char (x : ascii) : Prop := ∀ o c, bracket o c → x ≠ o ∧ x ≠ c.
Definition plain (s : string) : Prop := Forall plain_char (chars s).
Definition plain_method (m : MethodModel) : Prop :=
  plain (name m) ∧ plain (service_full_name m) ∧ plain (request_type m) ∧
  plain (response_type m) ∧ plain (request_init m) ∧ plain (response_init m) ∧ plain (path m).

Lemma plain_balanced s o c : plain s → bracket o c → balanced o c s.
Proof.
  intros Hs Hb n. revert n. induction s as [|x s IH]; intros n; [done|].
  apply Forall_cons in Hs as [Hx Hs]. destruct (Hx o c Hb) as [Ho Hc]. simpl.
  destruct (Ascii.eqb_spec x o); [done|]. destruct (Ascii.eqb_spec x c); [done|]. by apply IH.
Qed.

(** Runs through the text: literals are computed, plain pieces are skipped. *)
Ltac nest_text :=
  repeat first
    [ rewrite nest_app
    | match goal with
      | H : plain ?s |- context [nest ?o ?c ?s ?n] =>
          rewrite (plain_balanced s o c H ltac:(constructor) n)
      | H : balanced ?o ?c ?s |- context [nest ?o ?c ?s ?n] => rewrite (H n)
      end
    | progress cbn [nest lines cat foldr map dq nl FormName Ascii.eqb Bool.eqb] ].
Ltac balanced_text := intros n; unfold lines, cat, nl, dq; nest_text; reflexivity.

Lemma EmitTraits_balanced o c m : bracket o c → plain_method m → balanced o c (EmitTraits m).
Proof.
  intros Hb (? & ? & ? & ? & ? & ? & ?). unfold EmitTraits. destruct Hb, (form m); balanced_text.
Qed.

Lemma interface_method_balanced o c m :
  bracket o c → plain_method m → balanced o c (interface_method m).
Proof.
  intros Hb (? & ? & ? & ? & ? & ? & ?). unfold interface_method.
  destruct Hb, (form m); balanced_text.
Qed.

Lemma proxy_method_balanced o c m : bracket o c → plain_method m → balanced o c (proxy_method m).
Proof.
  intros Hb (? & ? & ? & ? & ? & ? & ?). unfold proxy_method.
  destruct Hb, (form m); balanced_text.
Qed.

Lemma register_call_balanced o c m : bracket o c → plain_method m → balanced o c (register_call m).
Proof.
  intros Hb (? & ? & ? & ? & ? & ? & ?). unfold register_call.
  destruct Hb, (form m); balanced_text.
Qed.

Lemma table_row_balanced o c m : bracket o c → plain_method m → balanced o c (table_row m).
Proof.
  intros Hb (? & ? & ? & ? & ? & ? & ?). unfold table_row. destruct Hb, (form m); balanced_text.
Qed.

Lemma separated_balanced o c text ms :
  bracket o c → (∀ m, plain_method m → balanced o c (text m)) → Forall plain_method ms →
  balanced o c (separated text ms).
Proof.
  intros Hb Ht Hms. induction Hms as [|m ms Hm Hms IH]; [done|].
  destruct ms as [|m' ms]; [by apply Ht|].
  apply balanced_app; [by apply Ht|]. apply balanced_app; [|exact IH]. by destruct Hb.
Qed.

Lemma map_balanced o c (text : MethodModel → string) ms :
  (∀ m, plain_method m → balanced o c (text m)) → Forall plain_method ms →
  balanced o c (cat (map text ms)).
Proof. intros Ht Hms. apply balanced_cat_map. eapply Forall_impl; [exact Hms|done]. Qed.

#[local] Hint Resolve EmitTraits_balanced interface_method_balanced proxy_method_balanced
  register_call_balanced table_row_balanced : core.

Definition plain_service (s : ServiceModel) : Prop :=
  plain (s_name s) ∧ plain (full_name s) ∧ Forall plain_method (methods s).

(** What one service adds to the header. *)
Definition service_text (s : ServiceModel) : string :=
  EmitRegister (EmitProxy (EmitInterface (EmitTraitsInto EmptyString s) s) s) s.

Lemma append_assoc (a b c : string) : (a +:+ b) +:+ c = a +:+ (b +:+ c).
Proof. induction a as [|x a IH]; [done|]. exact (f_equal (String x) IH). Qed.
Lemma append_nil (a : string) : a +:+ EmptyString = a.
Proof. induction a as [|x a IH]; [done|]. exact (f_equal (String x) IH). Qed.

Lemma service_text_append out s :
  EmitRegister (EmitProxy (EmitInterface (EmitTraitsInto out s) s) s) s = out +:+ service_text s.
Proof.
  unfold service_text, EmitRegister, EmitProxy, EmitInterface, EmitTraitsInto.
  by rewrite !append_assoc.
Qed.

Lemma service_text_balanced o c s : bracket o c → plain_service s → balanced o c (service_text s).
Proof.
  intros Hb (Hn & Hf & Hms).
  unfold service_text, EmitRegister, EmitProxy, EmitInterface, EmitTraitsInto. cbv zeta.
  pose proof (map_balanced o c EmitTraits (methods s) ltac:(auto) Hms).
  pose proof (separated_balanced o c interface_method (methods s) Hb ltac:(auto) Hms).
  pose proof (map_balanced o c table_row (methods s) ltac:(auto) Hms).
  pose proof (separated_balanced o c proxy_method (methods s) Hb ltac:(auto) Hms).
  pose proof (map_balanced o c register_call (methods s) ltac:(auto) Hms).
  generalize dependent (cat (map EmitTraits (methods s))). intros t1 Ht1.
  generalize dependent (separated interface_method (methods s)). intros t2 Ht2.
  generalize dependent (cat (map table_row (methods s))). intros t3 Ht3.
  generalize dependent (separated proxy_method (methods s)). intros t4 Ht4.
  generalize dependent (cat (map register_call (methods s))). intros t5 Ht5.
  destruct Hb; balanced_text.
Qed.

(** ** Namespaces *)
Definition depth_opened (o : ascii) (package : string) : nat :=
  if Ascii.eqb o "{" then 3 + count_dots package else 0.

Lemma open_parts_nest o c part package n :
  bracket o c → plain part → plain package →
  nest o c (open_parts part package) n =
    Some (if Ascii.eqb o "{" then S (count_dots package + n) else n).
Proof.
  intros Hb. revert part n. induction package as [|x package IH]; intros part n Hp Hpk; simpl.
  - destruct Hb; nest_text; reflexivity.
  - apply Forall_cons in Hpk as [Hx Hpk]. destruct (Ascii.eqb x ".").
    + rewrite nest_app.
      assert (nest o c (lines [["namespace "; part; " {"]]) n =
        Some (if Ascii.eqb o "{" then S n else n)) as ->
        by (destruct Hb; unfold lines; nest_text; reflexivity).
      rewrite IH; [|constructor|done]. destruct Hb; simpl; [|done]. do 2 f_equal. lia.
    + apply IH; [|done]. unfold plain. rewrite chars_app. apply Forall_app. split; [done|].
      by apply Forall_singleton.
Qed.

Lemma OpenNamespaces_nest o c package n :
  bracket o c → plain package →
  nest o c (OpenNamespaces package) n = Some (depth_opened o package + n)%nat.
Proof.
  intros Hb Hp. unfold OpenNamespaces, depth_opened. rewrite nest_app.
  destruct Hb; unfold lines; nest_text; rewrite open_parts_nest; try constructor; try done.
  simpl. do 2 f_equal. lia.
Qed.

Lemma CloseNamespaces_nest o c package n :
  bracket o c → nest o c (CloseNamespaces package) (depth_opened o package + n)%nat = Some n.
Proof.
  intros Hb. unfold CloseNamespaces, depth_opened. generalize (3 + count_dots package)%nat.
  intros k. destruct Hb; simpl.
  - induction k as [|k IH]; [done|]. simpl. exact IH.
  - induction k as [|k IH]; [done|]. simpl. exact IH.
Qed.

(** ** Names stay plain *)
Lemma plain_app s t : plain s → plain t → plain (s +:+ t).
Proof. unfold plain. rewrite chars_app. intros. by apply Forall_app. Qed.

Lemma plain_replace s from to : plain_char to → plain s → plain (ReplaceAll s from to).
Proof.
  intros Ht. induction s as [|x s IH]; intros Hs; [done|].
  apply Forall_cons in Hs as [Hx Hs]. constructor; [by destruct (Ascii.eqb x from)|by apply IH].
Qed.

Lemma plain_substring n m s : plain s → plain (String.substring n m s).
Proof.
  revert n m. induction s as [|x s IH]; intros n m Hs; [by destruct n, m|].
  apply Forall_cons in Hs as [Hx Hs]. destruct n, m; simpl; try by apply IH.
  - constructor.
  - constructor; [done|]. by apply IH.
Qed.

Lemma plain_lit s : forallb (λ x, negb (Ascii.eqb x "{" || Ascii.eqb x "}" || Ascii.eqb x "("
    || Ascii.eqb x ")")) (chars s) = true → plain s.
Proof.
  intros H. apply Forall_forall. intros x Hx o c Hb.
  rewrite forallb_forall in H. apply list_elem_of_In in Hx. specialize (H x Hx).
  destruct (Ascii.eqb_spec x "{"), (Ascii.eqb_spec x "}"), (Ascii.eqb_spec x "("),
    (Ascii.eqb_spec x ")"); try done. by destruct Hb.
Qed.

Definition plain_descriptor (file : FileDescriptor) : Prop :=
  plain (fd_name file) ∧ plain (fd_package file) ∧
  Forall (λ sd, plain (sd_name sd) ∧ plain (sd_full_name sd) ∧
    Forall (λ md, plain (md_name md) ∧ plain (input_type md) ∧ plain (output_type md))
      (sd_methods sd)) (fd_services file).

Lemma plain_CppTypeOf s : plain s → plain (CppTypeOf s).
Proof. apply plain_replace. intros o c Hb. by destruct Hb. Qed.

Lemma plain_MsgInitOf p s : plain p → plain s → plain (MsgInitOf p s).
Proof.
  intros Hp Hs. unfold MsgInitOf. apply plain_app; [done|]. apply plain_app; [by apply plain_lit|].
  apply plain_app; [|by apply plain_lit]. apply plain_replace; [intros o c Hb; by destruct Hb|].
  destruct (_ && _); [by apply plain_substring|done].
Qed.

Lemma ModelOf_plain file :
  plain_descriptor file → Forall plain_service (services (ModelOf file)).
Proof.
  intros (_ & Hp & Hs). simpl. apply Forall_map. eapply Forall_impl; [exact Hs|].
  intros sd (Hn & Hf & Hm). split_and!; [done..|]. simpl. apply Forall_map.
  eapply Forall_impl; [exact Hm|]. intros md (Hmn & Hi & Ho).
  split_and!; simpl; auto using plain_CppTypeOf, plain_MsgInitOf.
  unfold MethodPath. repeat apply plain_app; try done; by apply plain_lit.
Qed.

Lemma services_balanced o c ss out n :
  bracket o c → Forall plain_service ss →
  nest o c (foldl (λ header s,
    EmitRegister (EmitProxy (EmitInterface (EmitTraitsInto header s) s) s) s) out ss) n =
  nest o c out n.
Proof.
  intros Hb Hs. revert out. induction Hs as [|s ss Hs Hss IH]; intros out; simpl; [done|].
  rewrite IH, service_text_append, nest_app. destruct (nest o c out n); [|done].
  by apply service_text_balanced.
Qed.
