(* ===== verification/Generated.v ===== *)
(** * What the code generator writes

    Properties of the emitters and of the plugin: matching brackets, names,
    the bytes that reach protoc, and the registration of a generated service in
    the router of the core, for which the text that registers it is read back
    ([read_registrations], [read_traits]) and run ([RegisterService]). *)
From S2P Require Import Prelude Status CxxString Router Api Codegen.

(** ** Properties *)

(** The generated files have matching brackets.  For any .proto file whose
    names contain no brackets, every file that the plugin writes, whatever its
    services, methods and streaming forms, closes exactly the braces and the
    parentheses that it opens, and none before it is opened. *)
Theorem generated_brackets_match file o c filename text :
  bracket o c → plain_descriptor file → (filename, text) ∈ (Generate file).2 →
  nest o c text 0 = Some 0%nat.
Proof.
  intros Hb Hd Hin. pose proof (ModelOf_plain file Hd) as Hs. destruct Hd as (Hn & Hp & _).
  unfold Generate in Hin. destruct (fd_services file) as [|sd sds]; [by apply elem_of_nil in Hin|].
  destruct (bool_decide _); [by apply elem_of_nil in Hin|]. simpl in Hin.
  pose proof (plain_substring 0 (Z.to_nat (Z.min (Z.of_nat (String.length (fd_name file)))
    (u64 (Z.of_nat (String.length (fd_name file)) - 6)))) _ Hn) as Hbase.
  fold (strip_proto (fd_name file)) in Hbase.
  apply elem_of_cons in Hin as [[= -> ->]|Hin].
  - unfold EmitHeader. cbv zeta. rewrite nest_app, services_balanced by done. simpl package.
    pose proof (OpenNamespaces_nest o c (fd_package file) 0 Hb Hp) as Ho.
    pose proof (CloseNamespaces_nest o c (fd_package file) 0 Hb) as Hc.
    generalize dependent (depth_opened o (fd_package file)). intros k Ho Hc.
    generalize dependent (CloseNamespaces (fd_package file)). intros t2 Hc.
    generalize dependent (OpenNamespaces (fd_package file)). intros t1 Ho.
    change (source_file (ModelOf file)) with (fd_name file).
    destruct Hb; unfold lines, cat, nl, dq; nest_text; rewrite Ho; nest_text; exact Hc.
  - apply list_elem_of_singleton in Hin as [= -> ->]. unfold EmitSource. cbv zeta.
    change (source_file (ModelOf file)) with (fd_name file).
    destruct Hb; unfold lines, cat, nl, dq; nest_text; reflexivity.
Qed.

(** A concrete .proto file. *)
Definition echo_proto : FileDescriptor :=
  mkFileDescriptor "echo.proto" "example.v1"
    [mkServiceDescriptor "EchoService" "example.v1.EchoService"
       [mkMethodDescriptor "Echo" false false "example.v1.Req" "example.v1.Res";
        mkMethodDescriptor "Chat" true true "example.v1.Req" "example.v1.Res"]].

Lemma echo_proto_plain : plain_descriptor echo_proto.
Proof. split_and!; repeat first [by apply plain_lit | constructor]. Qed.

Lemma generated_brackets_match_witness :
  nest "{" "}" (EmitHeader (ModelOf echo_proto)) 0 = Some 0%nat.
Proof.
  apply (generated_brackets_match echo_proto "{" "}" "echo.service.h"); [constructor| |].
  - apply echo_proto_plain.
  - vm_compute. left.
Defined.

(** *** Paths and names *)
Definition no_char (x : ascii) (s : string) : Prop := x ∉ chars s.

Lemma split_at_char x (a b a' b' : list ascii) :
  x ∉ b → x ∉ b' → a ++ x :: b = a' ++ x :: b' → a = a' ∧ b = b'.
Proof.
  intros Hb Hb' H.
  assert (reverse b ++ x :: reverse a = reverse b' ++ x :: reverse a') as Hr.
  { apply (f_equal reverse) in H. rewrite !reverse_app, !reverse_cons, <-!(assoc_L (++)) in H. done. }
  assert (Hn : ∀ l, x ∉ l → x ∉ reverse l) by (intros l Hl; by rewrite elem_of_reverse).
  apply Hn in Hb, Hb'. clear H Hn.
  enough (reverse b = reverse b' ∧ reverse a = reverse a') as [E1 E2].
  { by apply (inj reverse) in E1, E2. }
  revert Hb Hb' Hr. generalize (reverse b), (reverse b'), (reverse a), (reverse a').
  induction l as [|y l IH]; intros [|y' l'] k k' Hl Hl' Hr; simpl in *.
  - by simplify_eq.
  - exfalso. apply Hl'. injection Hr as <- _. left.
  - exfalso. apply Hl. injection Hr as -> _. left.
  - injection Hr as <- Hr. destruct (IH l' k k') as [-> ->]; [set_solver..|done|done].
Qed.

Lemma MethodPath_inj s m s' m' :
  no_char "/" m → no_char "/" m' → MethodPath s m = MethodPath s' m' → s = s' ∧ m = m'.
Proof.
  unfold MethodPath, no_char. intros Hm Hm' H. apply (f_equal chars) in H.
  rewrite !chars_app in H. injection H as H.
  apply split_at_char in H as [H1 H2]; [|done..]. split; by apply chars_inj.
Qed.

Lemma chars_ReplaceAll s from to :
  chars (ReplaceAll s from to) = map (λ x, if Ascii.eqb x from then to else x) (chars s).
Proof. induction s as [|x s IH]; [done|]. exact (f_equal (cons _) IH). Qed.

(** C type names are faithful on names without underscores.  The upb type
    name of a message has no dots, and two full names that have no underscore
    get different type names; with underscores, [a.b_c] and [a_b.c] collide. *)
Theorem cpp_type_names s t :
  no_char "." (CppTypeOf s) ∧
  (no_char "_" s → no_char "_" t → CppTypeOf s = CppTypeOf t → s = t) ∧
  CppTypeOf "a.b_c" = CppTypeOf "a_b.c".
Proof.
  split_and!; [| |done].
  - unfold no_char, CppTypeOf. rewrite chars_ReplaceAll. intros (x & Hx & _)%list_elem_of_fmap.
    destruct (Ascii.eqb_spec x "."); [done|congruence].
  - unfold no_char, CppTypeOf. intros Hs Ht H. apply (f_equal chars) in H.
    rewrite !chars_ReplaceAll in H. apply chars_inj.
    revert Hs Ht H. generalize (chars s), (chars t). induction l as [|x l IH]; intros [|y l'] Hs Ht H;
      try done. injection H as Hxy H. f_equal; [|by apply IH; [set_solver..|]].
    destruct (Ascii.eqb_spec x "."), (Ascii.eqb_spec y "."); simplify_eq; try done;
      exfalso; [apply Ht|apply Hs]; left.
Qed.

(** A package of several components gives table names with dots.  The name
    of the mini table of a message of package [a.b] keeps the package's dots, so
    it is no C identifier. *)
Theorem msg_init_keeps_dots p rest :
  ¬ no_char "." p → ¬ no_char "." (MsgInitOf p (p +:+ "." +:+ rest)).
Proof.
  unfold no_char, MsgInitOf. intros Hp H. apply Hp. intros Hin. apply H.
  rewrite chars_app. set_solver.
Qed.

Lemma msg_init_keeps_dots_witness : ¬ no_char "." (MsgInitOf "a.b" "a.b.M").
Proof. apply (msg_init_keeps_dots "a.b" "M"). intros H. apply H. right. left. Defined.

(** *** The plugin's output *)
Definition room (buffers : list nat) : nat := sum_list buffers.

Lemma WriteOutput_cons size buffers content :
  content ≠ [] →
  WriteOutput (size :: buffers) content =
    if (size =? 0)%nat then ([], None)
    else
      (take size content ++ (WriteOutput buffers (drop size content)).1,
       match drop size content with
       | [] => Some (size - length content)%nat
       | _ => (WriteOutput buffers (drop size content)).2
       end).
Proof.
  intros Hne. destruct content as [|x content]; [done|].
  remember (x :: content) as l eqn:El. cbn [WriteOutput]. rewrite El at 1.
  destruct (size =? 0)%nat; [done|]. destruct (Nat.ltb_spec (length l) size) as [Hlt|Hge].
  - rewrite !take_ge, !drop_ge by lia. by destruct buffers.
  - destruct (WriteOutput buffers (drop size l)) as [w b]. simpl. f_equal.
    destruct (drop size l) eqn:E; [|done]. f_equal.
    apply (f_equal length) in E. rewrite length_drop in E. simpl in E. lia.
Qed.

(** What the plugin writes.  Whatever buffers protoc gives, the bytes written
    are a prefix of the content.  If the buffers are not empty and have room,
    all of it is written, and what was not used of the last buffer is given
    back; if they do not have room, the output is cut short, and nothing
    reports it. *)
Theorem write_output buffers content :
  (WriteOutput buffers content).1 `prefix_of` content ∧
  (Forall (λ n, 0 < n)%nat buffers →
    (length content ≤ room buffers →
      (WriteOutput buffers content).1 = content ∧
      (content ≠ [] → ∃ used back, (WriteOutput buffers content).2 = Some back ∧
         used `prefix_of` buffers ∧ (length content + back)%nat = room used))%nat ∧
    (room buffers < length content →
      length (WriteOutput buffers content).1 = room buffers ∧
      (WriteOutput buffers content).2 = None)%nat).
Proof.
  revert content. induction buffers as [|size buffers IH]; intros content.
  { destruct content as [|x content]; simpl; (split; [apply prefix_nil|]); intros _;
      split; intros; try lia; done. }
  destruct (decide (content = [])) as [->|Hne].
  { simpl. split; [done|]. intros _. split; [done|lia]. }
  rewrite WriteOutput_cons by done. destruct (Nat.eqb_spec size 0) as [->|Hs].
  { split; [apply prefix_nil|]. intros H. apply Forall_cons in H. lia. }
  destruct (IH (drop size content)) as [Hpre Hall]. cbn [fst snd].
  split; [rewrite <-(take_drop size content) at 3; by apply prefix_app|].
  intros [_ Hb]%Forall_cons. destruct (Hall Hb) as [Hfit Hcut]. rewrite length_drop in *.
  unfold room in *. simpl sum_list. split; intros Hlen.
  - destruct Hfit as [Hw Hback]; [lia|]. rewrite Hw, take_drop. split; [done|]. intros _.
    destruct (decide (drop size content = [])) as [E|E].
    + rewrite E. exists [size], (size - length content)%nat.
      assert (length content ≤ size)%nat by (apply (f_equal length) in E; rewrite length_drop in E; simpl in E; lia).
      split_and!; [done|apply prefix_cons, prefix_nil|simpl; lia].
    + destruct (Hback E) as (used & back & Hback' & Hpu & Hl).
      exists (size :: used), back. split_and!; [|by apply prefix_cons|].
      * by destruct (drop size content).
      * simpl. assert (size < length content)%nat; [|lia].
        destruct (Nat.lt_ge_cases size (length content)); [done|]. by rewrite drop_ge in E by lia.
  - destruct Hcut as [Hl Hn]; [lia|]. rewrite length_app, length_take, Hl. split; [lia|].
    destruct (drop size content) eqn:E; [|done].
    apply (f_equal length) in E. rewrite length_drop in E. simpl in E. lia.
Qed.

Lemma write_output_witness :
  (WriteOutput [4; 4]%nat (chars "hello")).1 = chars "hello".
Proof.
  assert (H : Forall (λ n, 0 < n)%nat [4; 4]%nat) by (repeat constructor).
  apply (proj1 (proj1 (proj2 (write_output [4; 4]%nat (chars "hello")) H) ltac:(simpl; lia))).
Defined.

(** *** A generated service in the router

    The generated [RegisterService] is C++ text, so it is read before it is run:
    the statements that register a method out of what [EmitRegister] writes, and
    the traits that they name out of what [EmitTraitsInto] writes. *)

(** The lines of a text. *)
Definition nl_char : ascii := Eval cbv in Ascii.ascii_of_nat 10.
Definition dq_char : ascii := Eval cbv in Ascii.ascii_of_nat 34.
Fixpoint lines_from (cur s : string) : list string :=
  match s with
  | EmptyString => match cur with EmptyString => [] | _ => [cur] end
  | String c s =>
      if Ascii.eqb c nl_char then cur :: lines_from EmptyString s
      else lines_from (cur +:+ String c EmptyString) s
  end.
Definition lines_of (s : string) : list string := lines_from EmptyString s.

(** What follows a prefix, and what comes before and from a character on. *)
Fixpoint strip (p s : string) : option string :=
  match p, s with
  | EmptyString, s => Some s
  | String a p, String b s => if Ascii.eqb a b then strip p s else None
  | _, _ => None
  end.
Fixpoint upto (x : ascii) (s : string) : string * string :=
  match s with
  | EmptyString => (EmptyString, EmptyString)
  | String c s' =>
      if Ascii.eqb c x then (EmptyString, s)
      else let '(a, b) := upto x s' in (String c a, b)
  end.

(** The traits of a text: the structs, and the strings that their functions
    [service_name] and [method_name] return. *)
Record Traits := mkTraits { t_struct : string; t_service : string; t_method : string }.
Fixpoint read_traits (struct service : string) (ls : list string) : list Traits :=
  match ls with
  | [] => []
  | l :: ls =>
      match strip "struct " l with
      | Some rest => read_traits (upto " " rest).1 EmptyString ls
      | None =>
          match strip ("  static const char* service_name() { return " +:+ dq) l with
          | Some rest => read_traits struct (upto dq_char rest).1 ls
          | None =>
              match strip ("  static const char* method_name() { return " +:+ dq) l with
              | Some rest => mkTraits struct service (upto dq_char rest).1 :: read_traits struct service ls
              | None => read_traits struct service ls
              end
          end
      end
  end.

(** A statement that registers a method: the member of [Server] that it calls,
    the struct it is instantiated with, the structs whose functions give the two
    names, and the method of [impl] that the handler calls. *)
Record Registration := mkRegistration {
  r_function : string;
  r_traits : string;
  r_service_of : string;
  r_method_of : string;
  r_impl : string
}.

(** [      T::service_name(), U::method_name(),] *)
Definition read_arguments (l : string) : option (string * string) :=
  l ← strip "      " l;
  let '(t, l) := upto ":" l in
  l ← strip "::service_name(), " l;
  let '(u, l) := upto ":" l in
  if String.eqb l "::method_name()," then Some (t, u) else None.

(** The first call of a method of [impl]. *)
Fixpoint read_impl (ls : list string) : option string :=
  match ls with
  | [] => None
  | l :: ls =>
      match strip "          impl." l with
      | Some rest => Some (upto "(" rest).1
      | None => read_impl ls
      end
  end.

(** [None] when a statement is not of the form that the generator writes. *)
Fixpoint read_registrations (ls : list string) : option (list Registration) :=
  match ls with
  | [] => Some []
  | l :: ls =>
      match strip "  st = server." l with
      | None => read_registrations ls
      | Some rest =>
          let '(f, rest) := upto "<" rest in
          match ls with
          | [] => None
          | l' :: ls' =>
              rest ← strip "<" rest;
              '(t, u) ← read_arguments l';
              m ← read_impl ls';
              rs ← read_registrations ls';
              Some (mkRegistration f (upto ">" rest).1 t u m :: rs)
          end
      end
  end.

(** *** Reading the generated text back *)

(** Names of a .proto file: identifiers, joined by dots. *)
Definition word (s : string) : Prop :=
  Forall (λ x, x ∉ [nl_char; dq_char; " "; "("; ":"; "<"; ">"; "/"]%char) (chars s).
Definition word_service (pkg : string) (sd : ServiceDescriptor) : Prop :=
  word pkg ∧ word (sd_name sd) ∧ word (sd_full_name sd) ∧
  Forall (λ md, word (md_name md) ∧ word (input_type md) ∧ word (output_type md)) (sd_methods sd).

Lemma word_no x s : word s → x ∈ [nl_char; dq_char; " "; "("; ":"; "<"; ">"; "/"]%char → no_char x s.
Proof. unfold word, no_char. rewrite Forall_forall. intros Hs Hx Hin. by apply (Hs x Hin). Qed.
Lemma no_char_app x s t : no_char x s → no_char x t → no_char x (s +:+ t).
Proof. unfold no_char. rewrite chars_app, elem_of_app. tauto. Qed.
Lemma no_char_cat x ps : Forall (no_char x) ps → no_char x (cat ps).
Proof. induction 1; [apply not_elem_of_nil|by apply no_char_app]. Qed.
Lemma no_char_lit x s : bool_decide (x ∉ chars s) = true → no_char x s.
Proof. apply bool_decide_eq_true. Qed.

Lemma lines_from_line cur l rest :
  no_char nl_char l → lines_from cur (l +:+ nl +:+ rest) = (cur +:+ l) :: lines_of rest.
Proof.
  revert cur. induction l as [|x l IH]; intros cur Hl.
  { by rewrite append_nil. }
  apply not_elem_of_cons in Hl as [Hx Hl]. specialize (IH (cur +:+ String x EmptyString) Hl).
  assert (E : (cur +:+ String x EmptyString) +:+ l = cur +:+ String x l) by by rewrite append_assoc.
  rewrite E in IH. rewrite <-IH.
  change (lines_from cur (String x (l +:+ nl +:+ rest)) =
    lines_from (cur +:+ String x EmptyString) (l +:+ nl +:+ rest)).
  cbn [lines_from]. destruct (Ascii.eqb_spec x nl_char); [congruence|done].
Qed.

Lemma lines_of_lines ls rest :
  Forall (Forall (no_char nl_char)) ls → lines_of (lines ls +:+ rest) = map cat ls ++ lines_of rest.
Proof.
  induction 1 as [|l ls Hl _ IH]; [done|]. unfold lines in *. cbn [map cat foldr].
  rewrite !append_assoc. unfold lines_of at 1. rewrite lines_from_line by by apply no_char_cat.
  cbn [map app]. f_equal. exact IH.
Qed.

Lemma upto_app x s t : no_char x s → upto x (s +:+ t) = (s +:+ (upto x t).1, (upto x t).2).
Proof.
  induction s as [|y s IH]; intros Hs; [apply surjective_pairing|].
  apply not_elem_of_cons in Hs as [Hx Hs]. simpl.
  destruct (Ascii.eqb_spec y x); [congruence|]. by rewrite IH.
Qed.

Definition word_method (m : MethodModel) : Prop :=
  word (name m) ∧ word (service_full_name m) ∧ no_char nl_char (request_type m) ∧
  no_char nl_char (response_type m) ∧ no_char nl_char (request_init m) ∧
  no_char nl_char (response_init m) ∧ no_char nl_char (path m).

(** Lines have no line breaks: pieces are literals or names. *)
Ltac no_breaks :=
  repeat first [ apply Forall_nil_2 | apply Forall_cons_2 ];
  first [ assumption | apply (word_no nl_char); [assumption|left] | by apply no_char_lit ].

(** A name ends where the next piece begins. *)
Lemma empty_append s : EmptyString +:+ s = s.
Proof. done. Qed.
Ltac name_ends :=
  repeat match goal with
  | Hw : word ?s |- context [upto ?x (?s +:+ ?t)] =>
      rewrite (upto_app x s t) by (apply (word_no x s Hw); set_solver)
  end.

Lemma traits_read m struct service rest :
  word_method m →
  read_traits struct service (lines_of (EmitTraits m +:+ rest)) =
    mkTraits (name m +:+ "Method") (service_full_name m) (name m) ::
    read_traits (name m +:+ "Method") (service_full_name m) (lines_of rest).
Proof.
  intros (? & ? & ? & ? & ? & ? & ?). unfold EmitTraits. rewrite lines_of_lines.
  - simpl. rewrite !empty_append. name_ends. simpl. by rewrite ?append_nil.
  - destruct (form m); no_breaks.
Qed.

(** The member of [Server] for a form. *)
Definition function_of (f : MethodForm) : string :=
  match f with
  | kUnary => "RegisterUnaryFor"
  | kServerStreaming => "RegisterServerStreamingFor"
  | kClientStreaming => "RegisterClientStreamingFor"
  | kBidi => "RegisterBidiFor"
  end.
Definition registration_of (m : MethodModel) : Registration :=
  let t := name m +:+ "Method" in mkRegistration (function_of (form m)) t t t (name m).

Lemma lines_join a l ls t : a +:+ lines (l :: ls) +:+ t = lines ((a :: l) :: ls) +:+ t.
Proof. unfold lines. cbn [map cat foldr]. by rewrite !append_assoc. Qed.

Lemma arguments_read s t :
  word s → word t →
  read_arguments ("      " +:+ s +:+ "Method::service_name(), " +:+ t +:+ "Method::method_name()," +:+ "") =
    Some (s +:+ "Method", t +:+ "Method").
Proof.
  intros Hs Ht. unfold read_arguments. simpl. rewrite !empty_append. name_ends. simpl.
  rewrite !empty_append. name_ends. done.
Qed.

Lemma registration_read m rest :
  word_method m →
  read_registrations (lines_of (register_call m +:+ rest)) =
    cons (registration_of m) <$> read_registrations (lines_of rest).
Proof.
  intros (Hn & ? & ? & ? & ? & ? & ?). unfold register_call, registration_of.
  rewrite !append_assoc. destruct (form m); rewrite lines_join.
  all: rewrite lines_of_lines by no_breaks.
  all: rewrite lines_of_lines by no_breaks.
  all: simpl; rewrite arguments_read by done; simpl; rewrite !empty_append; name_ends; simpl;
    rewrite ?append_nil; by destruct (read_registrations _).
Qed.

Definition traits_of (m : MethodModel) : Traits :=
  mkTraits (name m +:+ "Method") (service_full_name m) (name m).

(** What is read of a service's texts. *)
Lemma service_traits ms struct service :
  Forall word_method ms →
  read_traits struct service (lines_of (cat (map EmitTraits ms))) = map traits_of ms.
Proof.
  intros Hms. revert struct service. induction Hms as [|m ms Hm _ IH]; intros struct service; [done|].
  cbn [map cat foldr]. rewrite traits_read by done. f_equal. apply IH.
Qed.

Lemma service_registrations s :
  word (s_name s) → Forall word_method (methods s) →
  read_registrations (lines_of (EmitRegister "" s)) = Some (map registration_of (methods s)).
Proof.
  intros Hn Hms. unfold EmitRegister. rewrite empty_append, lines_of_lines by no_breaks.
  match goal with |- read_registrations (_ ++ ?l) = _ => change (read_registrations l = Some (map registration_of (methods s))) end.
  induction Hms as [|m ms Hm _ IH]; [by vm_compute|].
  cbn [map cat foldr]. rewrite append_assoc, registration_read by done.
  change (foldr String.append EmptyString (map register_call ms)) with (cat (map register_call ms)).
  by rewrite IH.
Qed.

(** *** The names of a model are words *)
Lemma no_char_replace x s from to : x ≠ to → no_char x s → no_char x (ReplaceAll s from to).
Proof.
  unfold no_char. rewrite chars_ReplaceAll. intros Ht Hs (y & Hy & Hin)%list_elem_of_fmap.
  destruct (Ascii.eqb y from); by subst.
Qed.
Lemma no_char_substring x n k s : no_char x s → no_char x (String.substring n k s).
Proof.
  revert n k. induction s as [|y s IH]; intros n k Hs; [by destruct n, k|].
  apply not_elem_of_cons in Hs as [Hx Hs]. destruct n, k; simpl; try by apply IH.
  - apply not_elem_of_nil.
  - apply not_elem_of_cons. split; [done|]. by apply IH.
Qed.

Lemma ModelOf_method_word pkg sd md :
  word pkg → word (sd_full_name sd) → word (md_name md) → word (input_type md) → word (output_type md) →
  word_method (ModelOf_method md sd pkg).
Proof.
  intros Hp Hs Hn Hi Ho.
  assert (Hnl : ∀ s, word s → no_char nl_char s) by (intros s Hw; apply (word_no nl_char s Hw); left).
  assert (HC : ∀ s, word s → no_char nl_char (CppTypeOf s)) by (intros; apply no_char_replace; [done|auto]).
  assert (HM : ∀ s, word s → no_char nl_char (MsgInitOf pkg s)).
  { intros s Hw. unfold MsgInitOf. repeat apply no_char_app; auto; try by apply no_char_lit.
    apply no_char_replace; [done|]. case_match; [apply no_char_substring|]; auto. }
  split_and!; simpl; auto. unfold MethodPath. repeat apply no_char_app; auto; by apply no_char_lit.
Qed.

Lemma append_inj_r a b c : a +:+ c = b +:+ c → a = b.
Proof. intros H%(f_equal chars). rewrite !chars_app in H. apply chars_inj. by apply (inj (.++ chars c)) in H. Qed.

(** The traits that a method's statement names. *)
Lemma find_traits m ms :
  NoDup (map name ms) → m ∈ ms →
  ∃ i, list_find (λ t, t_struct t = name m +:+ "Method") (map traits_of ms) = Some (i, traits_of m).
Proof.
  intros Hnd Hm.
  destruct (list_find_elem_of (λ t, t_struct t = name m +:+ "Method") (map traits_of ms) (traits_of m))
    as [[i t] Hf]; [by apply list_elem_of_fmap_2|done|].
  exists i. rewrite Hf. apply list_find_Some in Hf as (Hi & Ht & _).
  apply list_elem_of_lookup_2, list_elem_of_fmap in Hi as (m' & -> & Hm').
  apply append_inj_r in Ht. do 2 f_equal.
  apply list_elem_of_lookup in Hm as [j Hj], Hm' as [k Hk].
  assert (j = k) as ->; [|by simplify_eq].
  apply (NoDup_lookup (map name ms) j k (name m)); [done| |];
    rewrite list_lookup_fmap; [by rewrite Hj|rewrite Hk; simpl; congruence].
Qed.

(** Methods with different names have different paths. *)
Lemma paths_differ sd md md' :
  Forall (λ md, word (md_name md) ∧ word (input_type md) ∧ word (output_type md)) (sd_methods sd) →
  md ∈ sd_methods sd → md' ∈ sd_methods sd →
  MethodPath (sd_full_name sd) (md_name md) = MethodPath (sd_full_name sd) (md_name md') →
  md_name md = md_name md'.
Proof.
  rewrite Forall_forall. intros Hmd H1 H2 E.
  assert (Hw : ∀ d, d ∈ sd_methods sd → no_char "/" (md_name d)).
  { intros d Hd. destruct (Hmd d Hd) as (Hw & _). apply (word_no "/" _ Hw). set_solver. }
  by apply MethodPath_inj in E as [_ E]; [|apply Hw..].
Qed.

Section Registered.
(** The handler that calls a method of the implementation. *)
Context {UH SH : Type} (unary_of : string → UH) (stream_of : string → SH).

(** [Server::RegisterUnaryFor] and its like (unary.h, stream.h), by name. *)
Definition RegisterFor (function service method impl : string) (r : Router UH SH)
    : option (Status * Router UH SH) :=
  let stream form :=
    match RegisterStreamRaw service method form (stream_of impl) (Some r) with
    | (st, Some r') => Some (st, r')
    | (_, None) => None
    end in
  if String.eqb function "RegisterUnaryFor" then Some (RegisterUnaryRaw service method (unary_of impl) r)
  else if String.eqb function "RegisterServerStreamingFor" then stream Service.kServerStreaming
  else if String.eqb function "RegisterClientStreamingFor" then stream Service.kClientStreaming
  else if String.eqb function "RegisterBidiFor" then stream Service.kBidi
  else None.

(** The statements in their order; after each, [if (!st.ok()) return st;].
    [None] when the text does not compile. *)
Fixpoint run_registrations (ts : list Traits) (rs : list Registration) (r : Router UH SH)
    : option (Status * Router UH SH) :=
  match rs with
  | [] => Some (Ok, r)
  | g :: rs =>
      let find n := list_find (λ t, t_struct t = n) ts in
      '(_, _) ← find (r_traits g);
      '(_, t) ← find (r_service_of g);
      '(_, u) ← find (r_method_of g);
      '(st, r) ← RegisterFor (r_function g) (t_service t) (t_method u) (r_impl g) r;
      if ok st then run_registrations ts rs r else Some (st, r)
  end.

(** The generated [RegisterService], from the text of a service. *)
Definition RegisterService (traits_text register_text : string) (r : Router UH SH)
    : option (Status * Router UH SH) :=
  rs ← read_registrations (lines_of register_text);
  run_registrations (read_traits EmptyString EmptyString (lines_of traits_text)) rs r.

(** The entry that the path of a method of a .proto file should lead to, by the
    two markers of its declaration. *)
Definition declared_entry (md : MethodDescriptor) : HandlerEntry UH SH :=
  match client_streaming md, server_streaming md with
  | false, false => mkEntry Router.kUnary (Some (unary_of (md_name md))) None
  | false, true => mkEntry Router.kServerStreaming None (Some (stream_of (md_name md)))
  | true, false => mkEntry Router.kClientStreaming None (Some (stream_of (md_name md)))
  | true, true => mkEntry Router.kBidi None (Some (stream_of (md_name md)))
  end.


Lemma register_free md pkg sd r :
  let m := ModelOf_method md sd pkg in
  Find (api_path (sd_full_name sd) (md_name md)) r = None →
  RegisterFor (function_of (form m)) (service_full_name m) (name m) (name m) r =
    Some (Ok, mkRouter (<[api_path (sd_full_name sd) (md_name md) := declared_entry md]> (snapshot_ r))).
Proof.
  unfold Find. simpl. intros Hf. unfold RegisterFor, declared_entry, FormOf, RegisterUnaryRaw,
    RegisterStreamRaw, RegisterUnary, RegisterStream.
  destruct (client_streaming md), (server_streaming md); simpl;
    change (String "/" (sd_full_name sd +:+ "/" +:+ md_name md))
      with (api_path (sd_full_name sd) (md_name md)); by rewrite Hf.
Qed.

(** The statements of some of a service's methods, run one after the other. *)
Lemma run_methods pkg sd mds r :
  word_service pkg sd → NoDup (map md_name (sd_methods sd)) → NoDup (map md_name mds) →
  (∀ md, md ∈ mds → md ∈ sd_methods sd) →
  let s := ModelOf_service pkg sd in
  let path_of md := api_path (sd_full_name sd) (md_name md) in
  (∀ md, md ∈ mds → Find (path_of md) r = None) →
  ∃ r', run_registrations (map traits_of (methods s))
      (map registration_of (map (λ md, ModelOf_method md sd pkg) mds)) r = Some (Ok, r') ∧
    (∀ md, md ∈ mds → Find (path_of md) r' = Some (declared_entry md)) ∧
    ∀ p, p ∉ map path_of mds → Find p r' = Find p r.
Proof.
  intros (Hp & Hsn & Hfn & Hmd) Hnames Hnd Hin s path_of Hfree. revert r Hnd Hin Hfree.
  induction mds as [|md mds IH]; intros r Hnd Hin Hfree.
  { exists r. split_and!; [done| |done]. intros md Hm. by apply elem_of_nil in Hm. }
  apply NoDup_cons in Hnd as [Hnin Hnd]. set (m := ModelOf_method md sd pkg).
  destruct (find_traits m (methods s)) as [i Hi]; [simpl; by rewrite map_map| |].
  { simpl. apply list_elem_of_fmap. exists md. split; [done|]. apply Hin. left. }
  cbn [map run_registrations]. fold m.
  assert (E : ∀ x, x = name m +:+ "Method" → list_find (λ t, t_struct t = x) (map traits_of (methods s)) =
    Some (i, traits_of m)) by by intros ? ->.
  unfold registration_of at 1 2 3 4 5. cbn [r_traits r_service_of r_method_of r_function r_impl].
  rewrite !E by done. cbn [mbind option_bind t_service t_method traits_of].
  assert (HR := register_free md pkg sd r). cbv zeta in HR. fold m in HR.
  rewrite HR by (apply Hfree; left). clear HR. cbn [mbind option_bind]. change (ok Ok) with true. cbn match.
  set (r1 := mkRouter (<[path_of md := declared_entry md]> (snapshot_ r))).
  assert (Hdiff : ∀ md', md' ∈ mds → path_of md' ≠ path_of md).
  { intros md' Hin' Eq. apply (paths_differ sd md' md) in Eq; [|done|by apply Hin; right|apply Hin; left].
    apply Hnin. rewrite <-Eq. apply list_elem_of_fmap. eauto. }
  destruct (IH r1 Hnd) as (r' & Hrun & Hall & Hrest).
  { intros md' ?. apply Hin. by right. }
  { intros md' Hm. unfold Find, r1. simpl. rewrite lookup_insert_ne by (apply not_eq_sym; auto).
    apply Hfree. by right. }
  exists r'. split; [exact Hrun|]. split.
  - intros md' [->|Hm]%elem_of_cons; [|by apply Hall].
    rewrite Hrest; [unfold Find, r1; simpl; by rewrite lookup_insert_eq|].
    intros (md' & Hpm & Hm)%list_elem_of_fmap. by eapply Hdiff.
  - intros p [Hpp Hinp]%not_elem_of_cons. rewrite Hrest by done.
    unfold Find, r1. simpl. by rewrite lookup_insert_ne.
Qed.

(** C40: a generated service is registered whole, each method with the form that
    its declaration says.  The text that the generator writes for the traits and
    for [RegisterService] of any service whose methods have distinct names, when
    it is read and run on a router where none of its paths is taken, registers
    every method and returns OK: afterwards [/service/method] finds the handler
    that calls this method of the implementation, unary, server-streaming,
    client-streaming or bidirectional by the two [stream] markers of the
    declaration; and every other path finds what it found.  (What the handlers'
    lambdas do around the call of the implementation is not read.) *)
Theorem generated_service_routed pkg sd r :
  word_service pkg sd → NoDup (map md_name (sd_methods sd)) →
  let s := ModelOf_service pkg sd in
  let path_of md := "/" +:+ sd_full_name sd +:+ "/" +:+ md_name md in
  (∀ md, md ∈ sd_methods sd → Find (path_of md) r = None) →
  ∃ r', RegisterService (EmitTraitsInto "" s) (EmitRegister "" s) r = Some (Ok, r') ∧
    (∀ md, md ∈ sd_methods sd → Find (path_of md) r' = Some (declared_entry md)) ∧
    ∀ p, p ∉ map path_of (sd_methods sd) → Find p r' = Find p r.
Proof.
  intros Hw Hnd s path_of Hfree. pose proof Hw as (Hp & Hsn & Hfn & Hmd).
  assert (Hms : Forall word_method (methods s)).
  { simpl. apply Forall_map. eapply Forall_impl; [exact Hmd|]. intros md (? & ? & ?).
    by apply ModelOf_method_word. }
  unfold RegisterService. rewrite service_registrations by done. unfold EmitTraitsInto.
  rewrite empty_append, service_traits by done.
  by apply (run_methods pkg sd (sd_methods sd) r).
Qed.
End Registered.

Example echo_text :
  let sd := ModelOf_service "example" (mkServiceDescriptor "EchoService" "example.EchoService"
    [mkMethodDescriptor "Echo" false false "example.Req" "example.Res";
     mkMethodDescriptor "Chat" true true "example.Req" "example.Res"]) in
  read_registrations (lines_of (EmitRegister "" sd)) =
    Some [mkRegistration "RegisterUnaryFor" "EchoMethod" "EchoMethod" "EchoMethod" "Echo";
          mkRegistration "RegisterBidiFor" "ChatMethod" "ChatMethod" "ChatMethod" "Chat"] ∧
  read_traits "" "" (lines_of (EmitTraitsInto "" sd)) =
    [mkTraits "EchoMethod" "example.EchoService" "Echo"; mkTraits "ChatMethod" "example.EchoService" "Chat"].
Proof. split; vm_compute; reflexivity. Qed.

Lemma generated_service_routed_witness :
  let sd := mkServiceDescriptor "EchoService" "example.EchoService"
    [mkMethodDescriptor "Echo" false false "example.Req" "example.Res";
     mkMethodDescriptor "Watch" false true "example.Req" "example.Res";
     mkMethodDescriptor "Upload" true false "example.Req" "example.Res";
     mkMethodDescriptor "Chat" true true "example.Req" "example.Res"] in
  let s := ModelOf_service "example" sd in
  ∃ r', RegisterService (λ m, m) (λ m, m) (EmitTraitsInto "" s) (EmitRegister "" s) newRouter = Some (Ok, r') ∧
    Find "/example.EchoService/Echo" r' = Some (mkEntry Router.kUnary (Some "Echo") None) ∧
    Find "/example.EchoService/Watch" r' = Some (mkEntry Router.kServerStreaming None (Some "Watch")) ∧
    Find "/example.EchoService/Upload" r' = Some (mkEntry Router.kClientStreaming None (Some "Upload")) ∧
    Find "/example.EchoService/Chat" r' = Some (mkEntry Router.kBidi None (Some "Chat")) ∧
    Find "/example.EchoService/Nope" r' = None.
Proof.
  intros sd s.
  destruct (generated_service_routed (λ m, m) (λ m, m) "example" sd newRouter) as (r' & H1 & H2 & H3).
  - split_and!; repeat first [apply (bool_decide_unpack _); vm_compute; exact I | apply Forall_cons_2 | apply Forall_nil_2 | split].
  - apply (bool_decide_unpack _). vm_compute. exact I.
  - intros m Hm. unfold Find. simpl. apply lookup_empty.
  - exists r'. split; [exact H1|]. split_and!.
    + apply (H2 (mkMethodDescriptor "Echo" false false "example.Req" "example.Res")). left.
    + apply (H2 (mkMethodDescriptor "Watch" false true "example.Req" "example.Res")). right; left.
    + apply (H2 (mkMethodDescriptor "Upload" true false "example.Req" "example.Res")). right; right; left.
    + apply (H2 (mkMethodDescriptor "Chat" true true "example.Req" "example.Res")). right; right; right; left.
    + rewrite H3; [unfold Find; simpl; apply lookup_empty|]. apply (bool_decide_unpack _). vm_compute. exact I.
Defined.
