(* ===== verification/EndToEnd.v ===== *)
(** * A unary call from end to end

    The client channel and the server connection of a call, joined by what each
    hands to its HTTP/2 session: the header blocks and the bodies of one side are
    what the other side receives, the bodies cut into DATA chunks in any way. *)
From S2P Require Import Prelude Status CxxString Wire Codec Router Loop Platform.
From S2P Require Channel ChannelInv ChannelRun ChannelCalls.
From S2P Require ServerConn ServerInv ServerRun ServerCalls.

(** A header block as it is received. *)
Definition received (hs : list (string * string)) : gmap string string := list_to_map hs.

Section EndToEnd.
(** The client's environment and the server's. *)
Context (user : Channel.Out → Channel.World → list Channel.UOp).
Context (wire : Channel.Out → Channel.World → list Channel.SOp).
Context (submit : Channel.Out → Channel.World → Z).
Context (address : string) (tcp_connect : @connect_outcome unit).
Context (h : nat) (f : bytes → bytes) (spin depth : nat).
Context (router : Router nat nat) (limit : Z).

#[local] Abbreviation client := (ChannelRun.step user wire submit address tcp_connect).
#[local] Abbreviation server :=
  (ServerRun.run (ServerCalls.answering h f) (S depth) spin router limit).

(** The request of a call, and the state of the client once it is sent. *)
Definition request (path : string) (m : bytes) : Channel.Out :=
  Channel.SubmitRequest (Channel.request_headers address path) (EncodeFrame m []).

(** The session takes the request as stream [sid], and reports nothing then. *)
Definition submits (path : string) (m : bytes) (sid : Z) : Prop :=
  0 ≤ sid ∧ ∀ w, submit (request path m) w = sid ∧ wire (request path m) w = [].

Lemma run_call_ready id p m tm dn mrs sid w :
  Channel.state w = Channel.kReady → submits p m sid → Channel.stream_by_sid w !! sid = None →
  let w1 := Channel.run_call user wire submit address tcp_connect id p (EncodeFrame m []) tm dn mrs w in
  Channel.trace w1 = Channel.trace w ++ [request p m] ∧
  ∃ c, ChannelCalls.call_waiting mrs sid id c w1 ∧ Channel.done c = dn.
Proof.
  intros Hst [Hpos Hsub] Hsid. unfold Channel.run_call.
  assert (H : ∀ c w0, Channel.call_id c = id → Channel.completed c = false →
    Channel.decoder c = newFrameDecoder mrs → Channel.done c = dn →
    Channel.stream_by_sid w0 !! sid = None → Channel.trace w0 = Channel.trace w →
    let w1 := Channel.CallNow user wire submit address p (EncodeFrame m []) c w0 in
    Channel.trace w1 = Channel.trace w ++ [request p m] ∧
    ∃ c, ChannelCalls.call_waiting mrs sid id c w1 ∧ Channel.done c = dn).
  { intros c w0 Hid Hc Hdec Hdn Hs0 Ht0. unfold Channel.CallNow, Channel.call_session.
    fold (request p m). destruct (Hsub w0) as [-> _].
    destruct (Z.ltb_spec sid 0); [lia|].
    destruct (Hsub (Channel.record_out (request p m) w0)) as [_ ->]. simpl.
    rewrite Ht0. split; [done|]. 
    exists (Channel.mkCall (Channel.call_id c) sid (Channel.timeout_timer c) (Channel.decoder c)
      (Channel.done c) (Channel.completed c)). split; [|done].
    split_and!; simpl; try done; rewrite ?Hid; by rewrite lookup_insert_eq. }
  destruct (Z.ltb_spec 0 tm) as [Htm|Htm].
  - destruct (SetTimer tm (Channel.TCallTimeout id) (Channel.loop w)) as [timer l]. simpl.
    rewrite Hst. by apply H.
  - rewrite Hst. by apply H.
Qed.

(** The request's header block, as the server reads it. *)
Lemma request_received p :
  let hs := received (Channel.request_headers address p) in
  hs !! ":path" = Some p ∧ ServerConn.grpc_content_type hs = true ∧ hs !! "grpc-timeout" = None.
Proof. split_and!; try done. Qed.

End EndToEnd.

(** ** A concrete call *)
Definition demo_client : Channel.World :=
  ChannelRun.step (λ _ _, []) (λ _ _, []) (λ _ _, 1) "127.0.0.1:80" (Connecting tt)
    (ChannelRun.EvConnected Ok) Channel.new_world.

Definition demo_router : Router nat nat :=
  mkRouter {[ "/a.S/M" := mkEntry kUnary (Some 7%nat) (None : option nat) ]}.

