(* ===== verification/TypedEnd.v ===== *)
(** * Typed calls from end to end

    The typed API on top of the core: a typed unary call through the client's
    lambda, the channel, the server connection and the wrapper of a typed
    handler and back; and a typed stream reader fed by the channel's callbacks. *)
From S2P Require Import Prelude Status CxxString Wire Codec Router Loop Platform Arena Api.
From S2P Require UnaryServer UnaryClient StreamClient.
From S2P Require Channel ChannelInv ChannelRun ChannelCalls.
From S2P Require ServerConn ServerInv ServerRun ServerCalls EndToEnd.

#[local] Abbreviation received := EndToEnd.received.

(** ** The reply of a typed handler *)
Section Typed.
Context {M : MethodTraits}.

(** What the wrapper of UnaryServer.v gives to [done] for a handler that answers
    with [g]. *)
Definition wrapper_reply (g : ReqType → Status * option ResType) (data : bytes) : Status * bytes :=
  match last (UnaryServer.trace (UnaryServer.raw_handler (λ _, false)
    (reenter_to (UnaryServer.do_op (λ _, false)) (UnaryServer.answers g) 1) 0 data UnaryServer.new_world)) with
  | Some (UnaryServer.Done _ st payload) => (st, payload)
  | _ => (Ok, [])
  end.

Lemma wrapper_reply_eq g data : wrapper_reply g data = UnaryServer.unary_reply g true data.
Proof.
  unfold wrapper_reply, UnaryServer.unary_reply, UnaryServer.raw_handler. rewrite new_eq. cbn match.
  destruct (ParseRequest data) as [req|]; [|done].
  unfold UnaryServer.call_out, UnaryServer.answers. simpl.
  destruct (g req) as [st res] eqn:Hg. simpl. unfold UnaryServer.typed_done.
  destruct (if ok st then res else None) as [r|]; [|done]. by destruct (EncodeResponse r).
Qed.

(** The result of a call to a handler that answers with [g]. *)
Definition call_outcome (g : ReqType → Status * option ResType) (q : ReqType)
    : Status * option ResType :=
  let '(st, res) := g q in
  if ok st then
    match res with
    | None => UnaryClient.typed_result true Ok []
    | Some a =>
        match EncodeResponse a with
        | None => (UnaryServer.response_encode_failed, None)
        | Some _ => (Ok, Some a)
        end
    end
  else (st, None).
End Typed.

Section EndToEnd.
Context (user : Channel.Out → Channel.World → list Channel.UOp).
Context (wire : Channel.Out → Channel.World → list Channel.SOp).
Context (submit : Channel.Out → Channel.World → Z).
Context (address : string) (tcp_connect : @connect_outcome unit).

#[local] Abbreviation client := (ChannelRun.step user wire submit address tcp_connect).
#[local] Abbreviation client_run := (fold_left (λ w e, client e w)).

(** What the client's session reports for a reply, its body cut into [chunks]. *)
Definition reply_events (sid : Z) (st : Status) (chunks : list bytes) : list ChannelRun.Event :=
  if ok st then
    ChannelRun.EvHeaders sid (received ServerConn.response_headers) ::
    map (λ b, ChannelRun.EvData sid (Some b)) chunks ++
    [ChannelRun.EvHeaders sid (received ServerConn.ok_trailers)]
  else [ChannelRun.EvHeaders sid (received (ServerConn.trailers_only_headers (code st) (message st)))].

(** The reply as the call's callback gets it. *)
Definition received_reply (st : Status) (payload : bytes) : Status * bytes :=
  if ok st then (Ok, payload) else (st, []).

Lemma deliver_reply mrs sid id c w st payload chunks :
  ChannelCalls.call_waiting mrs sid id c w → - 2 ^ 31 ≤ code st < 2 ^ 31 →
  0 ≤ mrs → fits mrs payload → concat chunks = EncodeFrame payload [] →
  Channel.trace (client_run (reply_events sid st chunks) w) =
    Channel.trace w ++ [Channel.UserDone id (Channel.done c) (received_reply st payload).1
                          (received_reply st payload).2].
Proof.
  intros Hc Hr Hm Hf Hcat. unfold reply_events, received_reply. destruct (ok st) eqn:Hst.
  - destruct (ChannelCalls.deliver_unary user wire submit address tcp_connect mrs sid id c w
      (received ServerConn.response_headers) payload chunks (received ServerConn.ok_trailers) "0")
      as [E _]; try done. 
  - destruct Hc as (Hs & Hb & Hc & Hid & Hd & Hdec).
    set (hs := received (ServerConn.trailers_only_headers (code st) (message st))).
    assert (H1 : hs !! "grpc-status" = Some (pretty (code st))).
    { unfold hs, EndToEnd.received, ServerConn.trailers_only_headers. simpl.
      rewrite !lookup_insert_ne by done. by rewrite lookup_insert_eq. }
    assert (H2 : hs !! "grpc-message" = Some (message st)).
    { unfold hs, EndToEnd.received, ServerConn.trailers_only_headers. simpl.
      rewrite !lookup_insert_ne by done. by rewrite lookup_insert_eq. }
    clearbody hs. simpl. unfold Channel.OnHeadersComplete.
    rewrite Hs, Hb, Hc, H1, Hdec. unfold GrpcStatusFromInt. rewrite stoi_pretty by done.
    rewrite ChannelCalls.trace_Complete by done. rewrite Hid. do 3 f_equal.
    unfold Channel.grpc_message. rewrite H2. by destruct st.
Qed.

(** ** A typed unary call *)
Section Unary.
Context {M : MethodTraits} (h : nat) (g : ReqType → Status * option ResType) (spin depth : nat).
Context (router : Router nat nat) (limit : Z).

#[local] Abbreviation server :=
  (ServerRun.run (ServerCalls.replying h (wrapper_reply g)) (S depth) spin router limit).
#[local] Abbreviation quiet := (reenter_to (UnaryClient.do_op (λ _, false)) (λ _ _, []) 0).

(** What the typed client makes of the reply, when upb reads what it wrote. *)
Lemma reply_outcome q buf :
  ParseRequest buf = Some q → (∀ a b, EncodeResponse a = Some b → ParseResponse b = Some a) →
  let '(st, payload) := wrapper_reply g buf in
  UnaryClient.typed_result true (received_reply st payload).1 (received_reply st payload).2 =
  call_outcome g q.
Proof.
  intros Hq Hres. rewrite wrapper_reply_eq. unfold UnaryServer.unary_reply, call_outcome. simpl.
  rewrite Hq. destruct (g q) as [st res]. destruct (ok st) eqn:Hst.
  - destruct res as [a|].
    + destruct (EncodeResponse a) as [b|] eqn:Ha.
      * unfold received_reply, UnaryClient.typed_result. rewrite Hst. simpl. by rewrite (Hres _ _ Ha).
      * done.
    + unfold received_reply. by rewrite Hst.
  - unfold received_reply, UnaryClient.typed_result. rewrite Hst. simpl. by rewrite Hst.
Qed.

End Unary.

(** ** A typed stream of responses *)

(** The core's callbacks of the stream [id], as its typed state gets them. *)
Definition stream_event (id : Z) (o : Channel.Out) : option StreamClient.Event :=
  match o with
  | Channel.UserMessage i _ st m => if decide (i = id) then Some (StreamClient.EvMessage st m) else None
  | Channel.UserComplete i _ st => if decide (i = id) then Some (StreamClient.EvComplete st) else None
  | _ => None
  end.

Lemma stream_event_messages id on_m ms :
  omap (stream_event id) (map (Channel.UserMessage id on_m Ok) ms) = map (StreamClient.EvMessage Ok) ms.
Proof. induction ms as [|m ms IH]; [done|]. simpl. rewrite decide_True by done. by f_equal. Qed.

Lemma stream_event_flushed id q st : omap (stream_event id) (ChannelCalls.flushed q st) = [].
Proof.
  unfold ChannelCalls.flushed. induction q as [|o q IH]; [done|]. simpl.
  by destruct (Channel.cb o).
Qed.

(** Typed responses of a stream are read in order, then its status.  When a
    live stream's responses encode the messages [xs], come in order and cut in
    any way, and are followed by trailers, what the channel tells the typed
    stream makes its reader return each message in order and then the
    trailers' status, without waiting. *)
Theorem typed_stream_end_to_end {M : MethodTraits} xs ms limit id sid s w hs chunks trailers gs on_m on_c v :
  mapM EncodeResponse xs = Some ms →
  (∀ a b, EncodeResponse a = Some b → ParseResponse b = Some a) →
  ChannelCalls.stream_ready id sid s w → Channel.st_decoder s = newFrameDecoder limit →
  Channel.events s = Channel.mkEvents (Some on_m) (Some on_c) →
  hs !! "grpc-status" = None → hs !! ":status" = Some "200" →
  trailers !! "grpc-status" = Some gs →
  0 ≤ limit → Forall (fits limit) ms → concat chunks = frames ms →
  StreamClient.messages v = [] → StreamClient.arenas_fine (StreamClient.arenas v) →
  let w' := client_run (ChannelRun.EvHeaders sid hs ::
              map (λ b, ChannelRun.EvData sid (Some b)) chunks ++ [ChannelRun.EvHeaders sid trailers]) w in
  let st := mkStatus (GrpcStatusFromInt gs kInternal) (Channel.grpc_message trailers) in
  let events := omap (stream_event id) (drop (length (Channel.trace w)) (Channel.trace w')) in
  ∃ rs v', StreamClient.read_n (λ _, false) (S (length xs)) (StreamClient.deliver_all events v) = Some (rs, v') ∧
    map UnaryClient.shown rs = map (λ x, (Ok, Some x)) xs ++ [StreamClient.end_result st] ∧
    StreamClient.chan v' = StreamClient.chan v ∧ StreamClient.terminated v' = true ∧
    StreamClient.terminal v' = st.
Proof.
  intros Hxs Hres Hr Hdec Hev Hh H200 Ht Hl Hms Hcat Hm Hf w' st events.
  assert (He : events = map (StreamClient.EvMessage Ok) ms ++ [StreamClient.EvComplete st]).
  { subst events w'.
    pose proof (ChannelCalls.deliver_stream user wire submit address tcp_connect limit id sid s w hs ms
      chunks trailers gs on_m on_c Hr Hdec Hev Hh H200 Ht Hl Hms Hcat) as E.
    cbv zeta in E. fold st in E. rewrite E, drop_app_length, !omap_app. simpl.
    rewrite decide_True by done. f_equal.
    - apply stream_event_messages.
    - by rewrite stream_event_flushed. }
  rewrite He.
  destruct (StreamClient.deliver_to_end ms st v Hm) as (H1 & H2 & H3 & H4).
  set (v1 := StreamClient.deliver_all _ v) in *.
  destruct (StreamClient.read_all (λ _, false) ms v1) as (rs & v' & E & Hrs & _); [done|done|by rewrite H4|].
  assert (Hlen : length ms = length xs) by (symmetry; by eapply length_mapM).
  exists rs, v'. rewrite <-Hlen. split; [exact E|].
  destruct (StreamClient.read_n_end _ _ _ _ _ E) as (Ec & Et & Es).
  split; [|by rewrite Ec, Et, Es; split_and!; [apply StreamClient.deliver_all_chan|..]].
  rewrite Hrs, H3. f_equal.
  apply mapM_Some in Hxs. clear -Hxs Hres.
  induction Hxs as [|x m xs ms Hx _ IH]; [done|]. simpl. f_equal; [|exact IH].
  unfold StreamClient.decoded. simpl. by rewrite (Hres _ _ Hx).
Qed.
End EndToEnd.

(** ** Witnesses *)
Section Demo.
#[local] Existing Instance demo_traits.

(** Traits under which upb reads what it wrote. *)
Lemma demo_reads_back a b : EncodeResponse a = Some b → ParseResponse b = Some a.
Proof. simpl. destruct a; [done|]. intros [= <-]. simpl. done. Qed.

(** The handler fails when the request is empty. *)
Definition demo_handler (m : bytes) : Status * option bytes :=
  match m with
  | [] => (mkStatus kUnavailable "no", None)
  | _ => (Ok, Some (m ++ m))
  end.

#[local] Abbreviation demo_quiet :=
  (reenter_to (UnaryClient.do_op (M := demo_traits) (λ _, false)) (λ _ _, []) 0).


Lemma typed_stream_end_to_end_witness :
  ∃ rs v', StreamClient.read_n (M := demo_traits) (λ _, false) 2
      (StreamClient.deliver_all [StreamClient.EvMessage Ok [chr 10; chr 4]; StreamClient.EvComplete (mkStatus 5 "gone")]
         StreamClient.demo_stream) = Some (rs, v') ∧
    map (UnaryClient.shown (M := demo_traits)) rs = [(Ok, Some [chr 4]); (mkStatus 5 "gone", None)].
Proof.
  destruct (typed_stream_end_to_end (M := demo_traits) (λ _ _, []) (λ _ _, []) (λ _ _, 1) "127.0.0.1:80"
    (Connecting tt) [[chr 4]] [[chr 10; chr 4]] 1024 7 1 ChannelCalls.demo_stream
    ChannelCalls.demo_stream_world ChannelCalls.demo_200 [frames [[chr 10; chr 4]]]
    ChannelCalls.demo_trailers "5" 3 4 StreamClient.demo_stream) as (rs & v' & E & Hrs & _); try done.
  - apply demo_reads_back.
  - repeat constructor; simpl; lia.
  - apply StreamClient.demo_fine.
  - exists rs, v'. split; [exact E|exact Hrs].
Defined.
End Demo.
