(* ===== verification/StreamEnd.v ===== *)
(** * A server-streaming call from end to end

    The channel's stream and the connection's call, joined as in EndToEnd.v: one
    request message, cut in any way, any number of responses, and the status. *)
From S2P Require Import Prelude Status CxxString Wire Codec Router Loop Platform SessionSpec.
From S2P Require Channel ChannelInv ChannelRun ChannelCalls ChannelSends.
From S2P Require Import ServerConn ServerInv ServerRun ServerCalls ServerStreams.
From S2P Require EndToEnd.

#[local] Abbreviation drained := ChannelCalls.drained.

(** A handler that reads its request when it is started. *)
Definition reading_handler (rcb : closure) (o : Out) (w : World) : list ReOp :=
  match o with UserStream _ sid => [ApiRead sid rcb] | _ => [] end.

Lemma reading_handler_passive rcb : passive (reading_handler rcb).
Proof. intros o w Ho. destruct o; try done. by destruct (Ho h sid). Qed.

(** ** The request of a server-streaming call

    The handler reads when it is started, and does [replies] when its read is
    answered. *)
Section Serve.
Context (oracle : Out → World → list ReOp) (h rcb : closure) (sid : Z) (m : bytes).
Context (replies : list ReOp).
Context (Hstart : ∀ w, oracle (UserStream h sid) w = [ApiRead sid rcb]).
Context (Hread : ∀ w, oracle (UserRead rcb Ok false m) w = replies).
Context (spin depth : nat) (router : Router nat nat) (limit : Z).
#[local] Abbreviation re := (env oracle spin (S (S depth))).
#[local] Abbreviation server := (run oracle (S (S depth)) spin router limit).
#[local] Abbreviation inner := (run oracle depth spin router limit).
#[local] Abbreviation data chunks w :=
  (fold_left (λ v b, OnData re sid (Some b) false v) chunks w).
(** What the handler does inside its read. *)
#[local] Abbreviation reply w := (inner (map EvOp replies) w).

(** A call of the method that has not been ended. *)
Definition serving (dis : bool) (c : Call) : Prop :=
  request_done c = false ∧ call_form c = kServerStreaming ∧ has_handler c = true ∧
  stream (entry c) = Some h ∧ dispatched c = dis ∧ read_finished c = false ∧ read_cb c = None.

(** The start of the handler, and the read in it. *)
Definition started (f : Call → Call) (w : World) : World :=
  (on_call sid f w) <| ctxs ::= <[sid := StreamCtx None]> |>
    <| trace ::= λ t, t ++ [UserStream h sid; UserRead rcb Ok false m] |>.

Lemma OnData_chunk c b d w :
  calls w !! sid = Some c → request_done c = false → call_form c ≠ kUnary →
  decoder_wf (decoder c) → decoder_waiting (decoder c) → Consume b (decoder c) = (Ok, d) →
  OnData re sid (Some b) false w =
    (deliver_messages re (length (messages_ d)) sid (on_call sid (λ c, c <| decoder := d |>) w)).2.
Proof.
  intros Hc Hd Hf Hwf Hw HC. unfold OnData. rewrite Hc, Hd.
  assert (match b with [] => (Ok, decoder c) | _ :: _ => Consume b (decoder c) end = (Ok, d)) as ->.
  { destruct b; [|done]. rewrite Consume_nil in HC by done. done. }
  change (ok Ok) with true. cbn [negb]. rewrite decide_False by done.
  destruct (deliver_messages _ _ _ _) as [go w']. by destruct go.
Qed.

Lemma read_first re' cb c w :
  ctxs w !! sid = Some (StreamCtx (Some m)) → calls w !! sid = Some c → read_finished c = false →
  ctx_ReadMessage re' sid cb w =
    call_out re' (UserRead cb Ok false m) (w <| ctxs ::= <[sid := StreamCtx None]> |>).
Proof. intros Hx Hc Hr. unfold ctx_ReadMessage. by rewrite Hx, Hc, Hr. Qed.

Lemma dispatch_reads c w :
  calls w !! sid = Some c → dispatched c = false → stream (entry c) = Some h → read_finished c = false →
  DispatchStream re sid (Some m) w = reply (started (λ c, c <| dispatched := true |>) w).
Proof using Hstart Hread.
  intros Hc Hdis He Hrf. unfold DispatchStream. rewrite Hc, Hdis, He. unfold call_out.
  match goal with |- env _ _ _ _ ?x = _ => set (w1 := x) end.
  change (env oracle spin (S (S depth)) (UserStream h sid) w1) with
    (fold_left (λ w op, do_op (env oracle spin (S depth)) spin op w) (oracle (UserStream h sid) w1) w1).
  rewrite Hstart. cbn [fold_left]. unfold do_op, with_stream_ctx, with_ctx.
  assert (Hx : ctxs w1 !! sid = Some (StreamCtx (Some m))) by apply lookup_insert_eq.
  rewrite Hx. rewrite (read_first _ rcb (c <| dispatched := true |>)); [|done| |done].
  - unfold call_out. cbn [env]. rewrite Hread, (fold_ops oracle spin depth router limit). f_equal.
    unfold w1, started, record_out. simpl. by rewrite insert_insert_eq, <-(assoc_L (++)).
  - unfold w1. simpl. by rewrite lookup_alter_eq, Hc.
Qed.

(** The message starts the handler; what it does there only sends. *)
Lemma deliver_first c w :
  calls w !! sid = Some c → serving false c → messages_ (decoder c) = [m] →
  let w1 := started (λ c, c <| decoder := drained (decoder c) |> <| dispatched := true |>) w in
  sends_only sid w1 (reply w1) →
  (deliver_messages re 1 sid w).2 = reply w1.
Proof using Hstart Hread.
  intros Hc (Hd & Hf & Hh & He & Hdis & Hrf & Hrc) Hm w1 Hso. cbn [deliver_messages].
  rewrite Hc. unfold TakeMessage. rewrite Hm. rewrite decide_True by done. rewrite Hdis. cbn [snd].
  match goal with |- context [on_call sid ?f w] => set (g := f) end.
  rewrite (dispatch_reads (g c)); [|by apply calls_on_call_eq|done..].
  assert (E : started (λ c, c <| dispatched := true |>) (on_call sid g w) = w1).
  { unfold w1, started. rewrite on_call_on_call. do 2 f_equal. apply on_call_ext. intros c0 Hc0.
    rewrite Hc in Hc0. injection Hc0 as <-. unfold g. f_equal. unfold ChannelCalls.drained.
    rewrite Hm. by destruct c as [? []]. }
  rewrite E. destruct (proj2 Hso (c <| decoder := drained (decoder c) |> <| dispatched := true |>))
    as (q & i & hs & Hc').
  { unfold w1, started. simpl. by rewrite lookup_alter_eq, Hc. }
  unfold deref. by rewrite Hc'.
Qed.

(** Chunks without bytes change nothing. *)
Lemma empty_chunks chunks c w :
  calls w !! sid = Some c → request_done c = false → call_form c ≠ kUnary →
  messages_ (decoder c) = [] → concat chunks = [] → data chunks w = w.
Proof.
  intros Hc Hd Hf Hm. induction chunks as [|b chunks IH]; [done|].
  cbn [fold_left concat]. intros [-> E]%app_eq_nil.
  assert (OnData re sid (Some []) false w = w) as ->; [|by apply IH].
  unfold OnData. rewrite Hc, Hd. change (ok Ok) with true. cbn [negb].
  rewrite decide_False by done. rewrite Hm. cbn [length deliver_messages andb].
  apply on_call_id. intros c' Hc'. simplify_eq. by destruct c.
Qed.

(** Chunks of the request start the handler, which reads it. *)
Lemma first_chunks chunks c d w :
  calls w !! sid = Some c → serving false c → messages_ (decoder c) = [] →
  decoder_wf (decoder c) → decoder_waiting (decoder c) →
  feed (decoder c) chunks = (Ok, d) → messages_ d = [m] → pending_bytes d = [] →
  (∀ d', let w1 := started (λ c, c <| decoder := d' |> <| dispatched := true |>) w in
         sends_only sid w1 (reply w1)) →
  ∃ d', data chunks w = reply (started (λ c, c <| decoder := d' |> <| dispatched := true |>) w) ∧
    messages_ d' = [].
Proof using Hstart Hread.
  revert w c. induction chunks as [|b chunks IH]; intros w c Hc Hs Hq Hwf Hw Hfeed Hm Hp Hso;
    cbn [fold_left feed] in *.
  { injection Hfeed as <-. congruence. }
  destruct (Consume b (decoder c)) as [st d1] eqn:HC.
  destruct (Consume_view _ _ _ _ Hwf HC) as (Hwf1 & _ & Hok).
  destruct (ok st) eqn:Hst; [|by simplify_eq]. destruct (Hok eq_refl) as [-> Hw1].
  pose proof Hs as (Hd & Hf & Hh & He & Hdis & Hrf & Hrc).
  rewrite (OnData_chunk c b d1 w) by (try done; by rewrite Hf).
  set (w1 := on_call sid (λ c, c <| decoder := d1 |>) w).
  assert (Hc1 : calls w1 !! sid = Some (c <| decoder := d1 |>)) by by apply calls_on_call_eq.
  assert (Est : ∀ d', started (λ c, c <| decoder := d' |> <| dispatched := true |>) w1 =
    started (λ c, c <| decoder := d' |> <| dispatched := true |>) w).
  { intros d'. unfold started, w1. by rewrite on_call_on_call. }
  destruct (messages_ d1) as [|m1 q] eqn:Eq1.
  - cbn [length deliver_messages snd].
    destruct (IH w1 (c <| decoder := d1 |>)) as (d' & -> & Hd'); try done.
    { intros d'. cbv zeta. rewrite Est. apply Hso. }
    exists d'. by rewrite Est.
  - destruct (ChannelCalls.feed_last chunks d1 d m m1 q) as (-> & -> & Hnil & _); try done.
    assert (E1 : started (λ c, c <| decoder := drained (decoder c) |> <| dispatched := true |>) w1 =
      started (λ c, c <| decoder := drained d1 |> <| dispatched := true |>) w).
    { unfold started, w1. by rewrite on_call_on_call. }
    cbn [length]. rewrite (deliver_first (c <| decoder := d1 |>)) by (try done; rewrite E1; apply Hso).
    rewrite E1. exists (drained d1). split; [|done].
    destruct (proj2 (Hso (drained d1)) (c <| decoder := drained d1 |> <| dispatched := true |>))
      as (q & i & hs & Hc').
    { unfold started. simpl. by rewrite lookup_alter_eq, Hc. }
    eapply empty_chunks; [exact Hc'|done|simpl; by rewrite Hf|done|done].
Qed.

(** The end of the request is noted: the handler is not told until it reads. *)
Definition ended (c : Call) : Call :=
  c <| request_done := true |> <| request_half_closed := true |> <| read_finished := true |>.

Lemma half_close c w :
  calls w !! sid = Some c → serving true c → messages_ (decoder c) = [] →
  OnData re sid None true w = on_call sid ended w.
Proof.
  intros Hc (Hd & Hf & Hh & He & Hdis & Hrf & Hrc) Hq. unfold OnData. rewrite Hc, Hd.
  change (ok Ok) with true. cbn [negb]. rewrite decide_False by by rewrite Hf.
  rewrite Hq. cbn [length deliver_messages andb].
  assert (on_call sid (λ c0, c0 <| decoder := decoder c |>) w = w) as ->.
  { apply on_call_id. intros c' Hc'. simplify_eq. by destruct c. }
  unfold FinishRequest. rewrite Hc, Hd, Hh, Hf, Hdis. cbn [negb].
  unfold DeliverRead. rewrite !on_call_on_call, (calls_on_call_eq _ _ _ _ Hc).
  simpl read_finished. rewrite Hrf. simpl read_cb. rewrite Hrc. cbn [negb orb].
  reflexivity.
Qed.

Lemma open_streaming re' hs p e w :
  hs !! ":path" = Some p → grpc_content_type hs = true → hs !! "grpc-timeout" = None →
  Find p router = Some e → form e = kServerStreaming → calls w !! sid = None →
  OnHeadersComplete re' router limit sid hs false w =
    w <| calls ::= <[sid := open_call limit p (now_ms w) (Some e) default_call]> |>.
Proof.
  intros Hp Hct Ht He Hf Hn. unfold OnHeadersComplete. rewrite Hp, Hct, He, Hn. simpl default.
  unfold arm_deadline. rewrite Ht. simpl call_form. rewrite Hf.
  rewrite bool_decide_false by (intros [?|?]; done). by rewrite andb_false_r.
Qed.

Lemma fold_stream_data chunks w :
  fold_left (λ w e, step oracle (S (S depth)) spin router limit e w)
    (map (λ b, EvData sid (Some b) false) chunks) w = data chunks w.
Proof. revert w. induction chunks as [|b chunks IH]; intros w; simpl; [done|]. apply IH. Qed.

(** A request, from its headers to its end: the handler is started, is given
    the message, and finds the stream ready for responses. *)
Lemma serve_request hs p e chunks w :
  destroyed w = false → alive w = true → sid ∉ opened w → calls w !! sid = None → bodies w = [] →
  running_ (loop w) = true → pending_ (loop w) = [] →
  hs !! ":path" = Some p → grpc_content_type hs = true → hs !! "grpc-timeout" = None →
  Find p router = Some e → form e = kServerStreaming → stream e = Some h →
  0 ≤ limit → fits limit m → concat chunks = EncodeFrame m [] →
  (∀ w, writable false sid w → sends_only sid w (reply w)) →
  ∃ w1, writable false sid w1 ∧ trace w1 = trace w ++ [UserStream h sid; UserRead rcb Ok false m] ∧
    server (EvHeaders sid hs false :: map (λ b, EvData sid (Some b) false) chunks ++
            [EvData sid None true]) w = on_call sid ended (reply w1).
Proof using Hstart Hread.
  intros Hd Ha Ho Hn Hb Hrun Hpend Hp Hct Ht He Hf Hs Hl Hm Hcat Hso.
  unfold run at 1. simpl fold_left. rewrite fold_left_app, fold_stream_data.
  unfold announce. rewrite decide_False by done.
  rewrite (open_streaming _ hs p e) by done.
  set (c := open_call limit p _ (Some e) default_call).
  match goal with |- context [fold_left _ chunks ?x] => set (w1 := x) end.
  assert (Hc1 : calls w1 !! sid = Some c) by (simpl; by rewrite lookup_insert_eq).
  assert (Hsv : serving false c) by (by split_and!).
  assert (Hwr : ∀ d, writable false sid (started (λ c, c <| decoder := d |> <| dispatched := true |>) w1)).
  { intros d. split; try done.
    - eexists. split; [by (simpl; rewrite lookup_alter_eq, lookup_insert_eq)|by split_and!].
    - exists None. apply lookup_insert_eq.
    - simpl. set_solver. }
  destruct (first_chunks chunks c ((newFrameDecoder limit) <| messages_ := [m] |>) w1)
    as (d & E & Hq); [done..| | | | | |].
  - unfold decoder_waiting. simpl. unfold kPrefixLen. lia.
  - apply feed_frames; [done|by rewrite Forall_singleton|by rewrite frames_single].
  - done.
  - done.
  - intros d. by apply Hso.
  - eexists. split; [exact (Hwr d)|]. split; [done|]. rewrite E. cbn [fold_left].
    destruct (proj2 (Hso _ (Hwr d)) (c <| decoder := d |> <| dispatched := true |>)) as (q & i & hs' & Hc2).
    { simpl. by rewrite lookup_alter_eq, lookup_insert_eq. }
    match goal with |- step _ _ _ _ _ _ ?x = _ => set (w2 := x) in * end.
    change (step _ _ _ _ _ (EvData sid None true) w2) with (OnData re sid None true w2).
    by eapply half_close.
Qed.
End Serve.

(** A handler that answers its request with a chain of writes, each made in the
    callback of the one before. *)
Section Chain.
Context (oracle : Out → World → list ReOp) (Hframes : unmoved oracle).
Context (h rcb : closure) (sid : Z) (m msg : bytes) (cb : closure).
Context (l : list (bytes * closure)) (st : Status).
Context (Hstart : ∀ w, oracle (UserStream h sid) w = [ApiRead sid rcb]).
Context (Hread : ∀ w, oracle (UserRead rcb Ok false m) w = [ApiWrite sid msg (Some cb)]).
Context (Hchain : chained oracle sid cb l st).
Context (spin depth : nat) (router : Router nat nat) (limit : Z).

Lemma serve_chain hs p e chunks w :
  destroyed w = false → alive w = true → sid ∉ opened w → calls w !! sid = None → bodies w = [] →
  running_ (loop w) = true → pending_ (loop w) = [] →
  hs !! ":path" = Some p → grpc_content_type hs = true → hs !! "grpc-timeout" = None →
  Find p router = Some e → form e = kServerStreaming → stream e = Some h →
  0 ≤ limit → fits limit m → concat chunks = EncodeFrame m [] →
  ∃ log, trace (run oracle (S (S depth)) spin router limit (EvHeaders sid hs false ::
      map (λ b, EvData sid (Some b) false) chunks ++ [EvData sid None true] ++
      concat (replicate (S (length l)) (drain_round sid))) w) =
    trace w ++ [UserStream h sid; UserRead rcb Ok false m] ++
    [SendHeaders sid response_headers false; SendData sid (EncodeFrame msg []) false] ++
    chain_trace sid cb l st ++ [LogCall "call_end" log].
Proof using Hframes Hstart Hread Hchain.
  intros Hd Ha Ho Hc Hb Hrun Hpend Hpa Hct Htm Hfind Hf Hs Hl Hm Hcat.
  assert (Hw : ∀ w, writable false sid w →
    let w' := run oracle depth spin router limit [EvOp (ApiWrite sid msg (Some cb))] w in
    pumping sid (Some cb) [] w' ∧
    trace w' = trace w ++ [SendHeaders sid response_headers false; SendData sid (EncodeFrame msg []) false] ∧
    sends_only sid w w').
  { intros w0 Hw0. by apply (first_write oracle Hframes spin depth router limit false). }
  destruct (serve_request oracle h rcb sid m _ Hstart Hread spin depth router limit hs p e chunks w)
    as (w1 & Hw1 & Ht1 & Erun); try done.
  { intros w0 Hw0. by destruct (Hw w0 Hw0) as (_ & _ & ?). }
  destruct (Hw w1 Hw1) as (Hp2 & Ht2 & _).
  apply (pumping_on_call _ _ _ ended) in Hp2; [|done].
  assert (∀ (x : Event) a b c, x :: a ++ b ++ c = (x :: a ++ b) ++ c) as ->
    by (intros; simpl; by rewrite (assoc_L (++))).
  rewrite runs_app, Erun.
  destruct (chain_served oracle Hframes spin (S depth) router limit sid cb l st _ Hp2 Hchain) as [log Hlog].
  exists log. etrans; [exact Hlog|]. cbv zeta in Ht2.
  change (trace (on_call _ _ ?x)) with (trace x). by rewrite Ht2, Ht1, <-!(assoc_L (++)).
Qed.
End Chain.

(** The bodies of a trace. *)
Definition sent_bodies (t : list Out) : list bytes :=
  omap (λ o, match o with SendData _ b _ => Some b | _ => None end) t.

Lemma chain_bodies sid msg cb l st :
  concat (sent_bodies ([SendHeaders sid response_headers false; SendData sid (EncodeFrame msg []) false] ++
    chain_trace sid cb l st)) = frames (msg :: l.*1).
Proof.
  unfold sent_bodies, frames. cbn [app omap list_omap map concat]. f_equal.
  revert cb. induction l as [|[m cb'] l IH]; intros cb; [done|].
  cbn [chain_trace omap list_omap fmap list_fmap map concat fst]. f_equal. exact (IH cb').
Qed.

(** ** The call *)
Section StreamEnd.
Context (user : Channel.Out → Channel.World → list Channel.UOp).
Context (wire : Channel.Out → Channel.World → list Channel.SOp).
Context (submit : Channel.Out → Channel.World → Z).
Context (address : string) (tcp_connect : @connect_outcome unit).
Context (h rcb : closure) (spin depth : nat) (router : Router nat nat) (limit : Z).

#[local] Abbreviation client := (ChannelRun.step user wire submit address tcp_connect).
#[local] Abbreviation server := (run (reading_handler rcb) (S (S depth)) spin router limit).

Definition request_body (sid : Z) (m : bytes) : Channel.Out :=
  Channel.SendData sid (EncodeFrame m []) true.

(** The session takes the stream as [sid], and reports nothing while it does. *)
Definition opens (p : string) (m : bytes) (sid : Z) : Prop :=
  0 < sid ∧ ∀ w, submit (ChannelSends.open_request address p) w = sid ∧
    wire (ChannelSends.open_request address p) w = [] ∧
    wire (request_body sid m) w = [].

(** The opening and the half-closing send of a server-streaming call; [fl] is the
    callback of the send. *)
Definition run_server_streaming (id : Z) (p : string) (m : bytes) (fl : option closure)
    (ev : Channel.StreamEvents) (tm : Z) (w : Channel.World) : Channel.World :=
  Channel.run_stream_send user wire id (EncodeFrame m []) fl true
    (Channel.run_open_stream user wire submit address tcp_connect id p ev tm w).

Lemma run_server_streaming_sent id p m fl on_m on_c tm sid w :
  Channel.state w = Channel.kReady → Channel.session w = true → opens p m sid →
  let ev := Channel.mkEvents (Some on_m) (Some on_c) in
  let w1 := run_server_streaming id p m fl ev tm w in
  Channel.trace w1 = Channel.trace w ++ [ChannelSends.open_request address p; request_body sid m] ∧
  Channel.bodies w1 = Channel.bodies w ++ [(sid, (id, fl))] ∧ Channel.session w1 = true ∧
  ∃ s, ChannelCalls.stream_ready id sid s w1 ∧
    Channel.st_decoder s = newFrameDecoder (Channel.max_receive_size w) ∧
    Channel.events s = ev ∧ Channel.out_queue s = [].
Proof.
  intros Hst Hse [Hpos Hop] ev w1.
  destruct (ChannelSends.stream_opens user wire submit address tcp_connect id p ev on_c tm sid w)
    as (Et & Eb & _ & _ & timer & Hs); [done..| |].
  { intros w0. destruct (Hop w0) as (? & ? & _). done. }
  destruct (ChannelSends.stream_sends user wire id sid _ (EncodeFrame m []) fl true _ Hs)
    as (Et2 & Eb2 & Hse2 & _ & Hsr); [by intros w0; destruct (Hop w0) as (_ & _ & ?)|].
  unfold w1, run_server_streaming. rewrite Et2, Eb2, Et, Eb, <-(assoc_L (++)).
  split_and!; [done..|]. by eexists.
Qed.

(** The writes of the handler, the rounds in which the session consumes what it
    holds, and the end. *)
Definition responding (sid : Z) (msgs : list bytes) (st : Status) : list Event :=
  map (λ msg, EvOp (ApiWrite sid msg None)) msgs ++
  concat (replicate (length msgs) (drain_round sid)) ++ [EvOp (ApiFinish sid st)].

(** The status as it is read from its trailers. *)
Lemma status_received st :
  - 2 ^ 31 ≤ code st < 2 ^ 31 →
  let hs := EndToEnd.received (status_trailers st) in
  hs !! "grpc-status" = Some (pretty (code st)) ∧
  mkStatus (GrpcStatusFromInt (pretty (code st)) kInternal) (Channel.grpc_message hs) = st.
Proof.
  intros Hr hs. split.
  - unfold hs, EndToEnd.received, status_trailers. simpl.
    rewrite lookup_insert_ne by done. by rewrite lookup_insert_eq.
  - unfold Channel.grpc_message, hs, EndToEnd.received, status_trailers. simpl.
    rewrite lookup_insert_eq. unfold GrpcStatusFromInt. rewrite stoi_pretty by done. by destruct st.
Qed.

(** A server-streaming call works end to end.  On a connected channel and a
    connection that serves the method, within the receive limits of both sides,
    opening the stream and sending its request hands the session the headers
    and one half-closing body; these, the body cut in any way, start the
    handler, whose read gets the message; up to 65 responses that the handler
    then writes, and the status it finishes with when the session has consumed
    them, leave as headers, one body for each response in order, and trailers;
    and these, the bodies cut in any way, make the client call the message
    callback once for each response, in order, and then the terminal callback
    once, with the handler's status. *)
Theorem streaming_call_end_to_end id p m on_m on_c tm sid w sid' e v req msg msgs st resp :
  Channel.state w = Channel.kReady → Channel.session w = true → opens p m sid →
  destroyed v = false → alive v = true → sid' ∉ opened v → calls v !! sid' = None →
  bodies v = [] → running_ (loop v) = true → pending_ (loop v) = [] →
  Find p router = Some e → form e = kServerStreaming → stream e = Some h →
  0 ≤ limit → fits limit m → concat req = EncodeFrame m [] →
  (length msgs ≤ 64)%nat → - 2 ^ 31 ≤ code st < 2 ^ 31 →
  0 ≤ Channel.max_receive_size w → Forall (fits (Channel.max_receive_size w)) (msg :: msgs) →
  concat resp = frames (msg :: msgs) →
  let w1 := run_server_streaming id p m None (Channel.mkEvents (Some on_m) (Some on_c)) tm w in
  Channel.trace w1 = Channel.trace w ++
    [Channel.SubmitRequestOpen (Channel.request_headers address p);
     Channel.SendData sid (EncodeFrame m []) true] ∧
  (∃ log, trace (server
      (EvHeaders sid' (EndToEnd.received (Channel.request_headers address p)) false ::
       map (λ b, EvData sid' (Some b) false) req ++ [EvData sid' None true] ++
       responding sid' (msg :: msgs) st) v) =
    trace v ++ [UserStream h sid'; UserRead rcb Ok false m] ++
      SendHeaders sid' response_headers false ::
      map (λ b, SendData sid' (EncodeFrame b []) false) (msg :: msgs) ++
      [SendTrailers sid' (status_trailers st); LogCall "call_end" log]) ∧
  Channel.trace (fold_left (λ w e, client e w)
      (ChannelRun.EvHeaders sid (EndToEnd.received response_headers) ::
       map (λ b, ChannelRun.EvData sid (Some b)) resp ++
       [ChannelRun.EvHeaders sid (EndToEnd.received (status_trailers st))]) w1) =
    Channel.trace w1 ++ map (Channel.UserMessage id on_m Ok) (msg :: msgs) ++
      [Channel.UserComplete id on_c st].
Proof.
  intros Hst Hse Hop Hd Ha Ho Hn Hb Hrun Hpend He Hf Hs Hl Hm Hreq Hlen Hcode Hmrs Hms Hresp w1.
  destruct (run_server_streaming_sent id p m None on_m on_c tm sid w)
    as (Et & _ & _ & s & Hsr & Hdec & Hev & Hq);
    [done..|]. fold w1 in Et, Hsr. split_and!.
  - exact Et.
  - destruct (EndToEnd.request_received address p) as (Hp & Hct & Htm).
    destruct (serve_request (reading_handler rcb) h rcb sid' m [] (λ _, eq_refl) (λ _, eq_refl)
      spin depth router limit (EndToEnd.received (Channel.request_headers address p)) p e req v)
      as (v1 & Hv1 & Ht & Erun); [done..|].
    destruct (serve_responses (reading_handler rcb) (passive_unmoved _ (reading_handler_passive rcb))
      spin (S (S depth)) router limit sid' msg msgs st (on_call sid' ended v1)) as [log Hlog];
      [by apply writable_on_call|done|]. exists log.
    assert (∀ (x : Event) a b c, x :: a ++ b ++ c = (x :: a ++ b) ++ c) as ->
      by (intros; simpl; by rewrite (assoc_L (++))).
    rewrite runs_app, Erun. change (map EvOp []) with (@nil Event). unfold responding.
    cbn [length]. etrans; [exact Hlog|]. simpl. by rewrite Ht, <-(assoc_L (++)).
  - destruct (status_received st Hcode) as [Hgs Est].
    rewrite (ChannelCalls.deliver_stream user wire submit address tcp_connect
      (Channel.max_receive_size w) id sid s w1 (EndToEnd.received response_headers) (msg :: msgs) resp
      _ _ on_m on_c Hsr Hdec Hev eq_refl eq_refl Hgs Hmrs Hms Hresp).
    by rewrite Hq, Est.
Qed.
End StreamEnd.

(** ** A concrete call *)
Definition demo_stream_router : Router nat nat :=
  mkRouter {[ "/a.S/L" := mkEntry kServerStreaming (None : option nat) (Some 7%nat) ]}.

Lemma streaming_call_end_to_end_witness :
  let m := [chr 1; chr 2] in
  let msgs := [[]; [chr 5; chr 6]] in
  let st := mkStatus kUnavailable "no more" in
  let w1 := run_server_streaming (λ _ _, []) (λ _ _, []) (λ _ _, 1) "127.0.0.1:80" (Connecting tt)
    1 "/a.S/L" m None (Channel.mkEvents (Some 3%nat) (Some 4%nat)) 0 EndToEnd.demo_client in
  ∃ log, trace (run (reading_handler 9) 2 0 demo_stream_router 1024
      (EvHeaders 1 (EndToEnd.received (Channel.request_headers "127.0.0.1:80" "/a.S/L")) false ::
       map (λ b, EvData 1 (Some b) false) [EncodeFrame m []] ++ [EvData 1 None true] ++
       responding 1 ([chr 4] :: msgs) st) new_world) =
    trace new_world ++ [UserStream 7 1; UserRead 9 Ok false m] ++
      SendHeaders 1 response_headers false ::
      map (λ b, SendData 1 (EncodeFrame b []) false) ([chr 4] :: msgs) ++
      [SendTrailers 1 (status_trailers st); LogCall "call_end" log].
Proof.
  intros m msgs st w1.
  apply (streaming_call_end_to_end (λ _ _, []) (λ _ _, []) (λ _ _, 1) "127.0.0.1:80" (Connecting tt)
    7 9 0 0 demo_stream_router 1024 1 "/a.S/L" m 3 4 0 1 EndToEnd.demo_client 1
    (mkEntry kServerStreaming None (Some 7%nat)) new_world [EncodeFrame m []] [chr 4] msgs st
    [frames ([chr 4] :: msgs)]); try reflexivity.
  - split; [lia|]. intros w. split_and!; reflexivity.
  - apply not_elem_of_empty.
  - lia.
  - split; simpl; lia.
  - simpl. lia.
  - vm_compute. split; congruence.
  - vm_compute. congruence.
  - repeat constructor; vm_compute; congruence.
Defined.
