(* ===== verification/TypedStream.v ===== *)
(** * A typed server-streaming call from end to end

    The typed server of StreamServer.v is the environment of the connection's
    model: what its wrapper asks of the core is what happens inside the core's
    call outs.  The client's side is StreamClient.v over Channel.v. *)
From S2P Require Import Prelude Status CxxString Wire Codec Router Loop Platform Arena.
From S2P Require Import Api.
From S2P Require Channel ChannelInv ChannelRun ChannelCalls UnaryClient StreamClient.
From S2P Require Import ServerConn ServerInv ServerRun ServerCalls ServerStreams.
From S2P Require StreamServer StreamServerRun.
From S2P Require EndToEnd TypedEnd StreamEnd.

(** ** The typed server as the connection's environment *)
Section Server.
Context {M : MethodTraits} (sid : Z) (ms : list ResType) (buf : bytes).

(** The typed stream whose handler writes [ms], when its read of the request is
    answered with [data]. *)
#[local] Abbreviation typed_run st eos data :=
  (StreamServerRun.run Service.kServerStreaming (λ _, false) (λ _ _, false)
     (StreamServerRun.writing st eos data ms None) 2).
Definition typed_begin (st : Status) (eos : bool) (data : bytes) : StreamServer.World :=
  typed_run st eos data [StreamServer.OpBody] StreamServer.new_stream.
(** The same after the first [n] writes have been answered. *)
Definition typed_answered (n : nat) : StreamServer.World :=
  typed_run Ok false buf (StreamServerRun.answering 1 (replicate n Ok)) (typed_begin Ok false buf).

(** The calls of the core's context. *)
Definition core_op (o : StreamServer.Out) : option ReOp :=
  match o with
  | StreamServer.CoreRead tok => Some (ApiRead sid tok)
  | StreamServer.CoreWrite tok payload => Some (ApiWrite sid payload (Some tok))
  | StreamServer.CoreFinish _ st => Some (ApiFinish sid st)
  | _ => None
  end.

(** The stream's body reads, and does the rest when its read is answered; the
    answer to a write does what is new then. *)
Definition typed_server (o : Out) (w : World) : list ReOp :=
  match o with
  | UserStream _ _ => omap core_op (take 1 (StreamServer.trace (typed_begin Ok false buf)))
  | UserRead _ st eos data => omap core_op (drop 1 (StreamServer.trace (typed_begin st eos data)))
  | UserWrite tok _ => omap core_op
      (drop (length (StreamServer.trace (typed_answered (pred tok)))) (StreamServer.trace (typed_answered tok)))
  | _ => []
  end.

Context (q : ReqType) (ps : list bytes).
Context (Hparse : ParseRequest buf = Some q) (Hms : mapM EncodeResponse ms = Some ps) (Hne : ps ≠ []).
#[local] Set Default Proof Using "Hparse Hms Hne".

Lemma typed_begin_trace :
  StreamServer.trace (typed_begin Ok false buf) =
    StreamServer.CoreRead 0 :: StreamServer.ServerStreamingHandler q 0 :: StreamServerRun.written 1 ps.
Proof.
  destruct (StreamServerRun.serve_stream (λ _, false) Ok false buf ms None 0) as (H & _).
  unfold typed_begin. rewrite H, (StreamServerRun.sendable_all 1 ms ps Hms).
  unfold StreamServerRun.request_trace. rewrite Hparse. simpl.
  destruct ps; [done|]. by rewrite app_nil_r.
Qed.

Lemma typed_answered_trace n :
  (n ≤ length ps)%nat → n ≠ 0%nat →
  StreamServer.trace (typed_answered n) = StreamServer.trace (typed_begin Ok false buf) ++
    map StreamServer.WriteAnswered (seq 1 n) ++
    (if (length ps =? n)%nat then [StreamServer.CoreFinish StreamServer.ByAuto Ok] else []).
Proof.
  intros Hn H0. destruct (StreamServerRun.serve_stream (λ _, false) Ok false buf ms None 0) as (_ & _ & H).
  cbv zeta in H. rewrite (StreamServerRun.sendable_all 1 ms ps Hms) in H.
  unfold typed_answered, typed_begin. rewrite H by (rewrite ?length_replicate; by eauto).
  rewrite length_replicate. by destruct ps.
Qed.

(** The writes of the handler, with the tokens of their lambdas. *)
Fixpoint typed_writes (tok : nat) (ps : list bytes) : list (bytes * option closure) :=
  match ps with [] => [] | p :: ps => (p, Some tok) :: typed_writes (S tok) ps end.

Lemma written_ops tok l :
  omap core_op (StreamServerRun.written tok l) = map (λ mc, ApiWrite sid mc.1 mc.2) (typed_writes tok l).
Proof using Type. revert tok. induction l as [|p l IH]; intros tok; [done|]. simpl. by rewrite IH. Qed.

Lemma typed_starts h w : typed_server (UserStream h sid) w = [ApiRead sid 0].
Proof. unfold typed_server. by rewrite typed_begin_trace. Qed.

Lemma typed_replies cb w :
  typed_server (UserRead cb Ok false buf) w = map (λ mc, ApiWrite sid mc.1 mc.2) (typed_writes 1 ps).
Proof. unfold typed_server. rewrite typed_begin_trace. simpl. apply written_ops. Qed.

Lemma typed_acks tok w :
  (1 ≤ tok ≤ length ps)%nat →
  typed_server (UserWrite tok Ok) w = if (length ps =? tok)%nat then [ApiFinish sid Ok] else [].
Proof.
  intros Ht. unfold typed_server.
  assert (E : StreamServer.trace (typed_answered tok) = StreamServer.trace (typed_answered (pred tok)) ++
    StreamServer.WriteAnswered tok ::
    (if (length ps =? tok)%nat then [StreamServer.CoreFinish StreamServer.ByAuto Ok] else [])).
  { rewrite typed_answered_trace by lia. destruct tok as [|[|tok]]; [lia| |].
    - simpl pred. unfold typed_answered. simpl. done.
    - simpl pred. rewrite typed_answered_trace by lia.
      rewrite (proj2 (Nat.eqb_neq (length ps) (S tok))) by lia.
      rewrite (seq_S (S tok)), map_app, app_nil_r, <-!(assoc_L (++)). done. }
  rewrite E, drop_app_length. simpl. by destruct (_ =? _)%nat.
Qed.

Lemma typed_unmoved : unmoved typed_server.
Proof using Type. intros o s w Ho. by destruct o. Qed.

(** *** The stream of responses *)
Definition typed_msgs (tok : nat) (l : list bytes) : list OutMsg :=
  map (λ mc, mkOutMsg (EncodeFrame mc.1 []) mc.2) (typed_writes tok l).

Lemma typed_msgs_cbs tok l : map out_cb (typed_msgs tok l) = map Some (seq tok (length l)).
Proof using Type. revert tok. induction l as [|p l IH]; intros tok; [done|]. unfold typed_msgs in *. simpl. by rewrite IH. Qed.

Lemma length_typed_msgs tok l : length (typed_msgs tok l) = length l.
Proof using Type. unfold typed_msgs. rewrite length_map. revert tok. induction l as [|p l IH]; intros tok; simpl; auto. Qed.

(** All writes but the last are acknowledged without consequence. *)
Lemma typed_calm n :
  n = length ps → Forall (calm typed_server) (removelast (map Some (seq 1 n))).
Proof.
  intros ->. pose proof (nil_length_inv ps) as H0.
  assert (Hl : length ps = S (pred (length ps))) by (destruct (length ps); [by destruct Hne; apply H0|done]).
  rewrite Hl, seq_S, map_app. simpl map. rewrite removelast_last.
  apply Forall_map, Forall_seq. intros tok Ht w. simpl calm.
  rewrite typed_acks by lia. by rewrite (proj2 (Nat.eqb_neq _ _)) by lia.
Qed.

Context (spin depth : nat) (router : Router nat nat) (limit : Z).
#[local] Abbreviation runs d := (run typed_server d spin router limit).
#[local] Abbreviation replies := (map (λ mc, ApiWrite sid mc.1 mc.2) (typed_writes 1 ps)).

Lemma typed_replies_run p l w :
  ps = p :: l → (length l ≤ 64)%nat → writable false sid w →
  let w' := runs depth (map EvOp replies) w in
  pumping sid (Some 1%nat) (typed_msgs 2 l) w' ∧
  trace w' = trace w ++ [SendHeaders sid response_headers false;
                         SendData sid (EncodeFrame p []) false] ∧
  sends_only sid w w'.
Proof.
  intros E Hlen Hw. rewrite E. cbn [typed_writes map].
  change (EvOp ?a :: ?b) with ([EvOp a] ++ b). rewrite runs_app.
  pose proof (typed_unmoved) as Hu. simpl fst. simpl snd.
  destruct (first_write _ Hu spin depth router limit false sid p (Some 1%nat) w Hw) as (Hp & Ht & Hs).
  destruct (writes_queue _ Hu spin depth router limit sid (Some 1%nat) [] (typed_writes 2 l) _ Hp)
    as (Hp2 & Ht2 & Hs2).
  { simpl. rewrite <-(length_map (λ mc, mkOutMsg (EncodeFrame mc.1 []) mc.2)).
    change (map _ _) with (typed_msgs 2 l). by rewrite length_typed_msgs. }
  rewrite map_map. split_and!; [exact Hp2|etrans; [exact Ht2|exact Ht]|by etrans].
Qed.

(** A typed server-streaming call at the server: the wrapper's handler is given
    the request, its writes leave one by one, each when the one before was
    consumed, and the last is followed by the end. *)
Lemma serve_typed_stream h path e hs p l chunks w :
  ps = p :: l → (length l ≤ 64)%nat →
  destroyed w = false → alive w = true → sid ∉ opened w → calls w !! sid = None → bodies w = [] →
  running_ (loop w) = true → pending_ (loop w) = [] →
  hs !! ":path" = Some path → grpc_content_type hs = true → hs !! "grpc-timeout" = None →
  Find path router = Some e → form e = kServerStreaming → stream e = Some h →
  0 ≤ limit → fits limit buf → concat chunks = EncodeFrame buf [] →
  ∃ log, trace (runs (S (S depth)) (EvHeaders sid hs false ::
      map (λ b, EvData sid (Some b) false) chunks ++ [EvData sid None true] ++
      concat (replicate (length ps) (drain_round sid))) w) =
    trace w ++ [UserStream h sid; UserRead 0 Ok false buf;
      SendHeaders sid response_headers false; SendData sid (EncodeFrame p []) false] ++
    pump_trace sid (Some 1%nat) (typed_msgs 2 l) ++
    [UserWrite (length ps) Ok; SendTrailers sid (status_trailers Ok); LogCall "call_end" log].
Proof.
  intros E Hlen Hd Ha Ho Hn Hb Hrun Hpend Hpa Hct Htm Hfind Hf Hs Hl Hm Hcat.
  pose proof (typed_unmoved) as Hu.
  destruct (StreamEnd.serve_request typed_server h 0%nat sid buf replies
    (typed_starts h) (typed_replies 0%nat) spin depth router limit hs path e chunks w)
    as (w1 & Hw1 & Ht1 & Erun); [done..| |].
  { intros w0 Hw0. by destruct (typed_replies_run p l w0 E Hlen Hw0) as (_ & _ & ?). }
  destruct (typed_replies_run p l w1 E Hlen Hw1) as (Hp2 & Ht2 & _).
  apply (pumping_on_call _ _ _ StreamEnd.ended) in Hp2; [|done].
  assert (∀ (x : Event) a b c, x :: a ++ b ++ c = (x :: a ++ b) ++ c) as ->
    by (intros; simpl; by rewrite (assoc_L (++))).
  rewrite runs_app, Erun. cbv zeta in Ht2.
  assert (Et : trace (on_call sid StreamEnd.ended (runs depth (map EvOp replies) w1)) =
    trace w ++ [UserStream h sid; UserRead 0 Ok false buf;
      SendHeaders sid response_headers false; SendData sid (EncodeFrame p []) false]).
  { change (trace (on_call _ _ ?x)) with (trace x). by rewrite Ht2, Ht1, <-(assoc_L (++)). }
  revert Hp2 Et. generalize (on_call sid StreamEnd.ended (runs depth (map EvOp replies) w1)).
  intros w2 Hp2 Et.
  assert (Hps : length ps = S (length l)) by by rewrite E.
  rewrite Hps, replicate_S_end, concat_app, runs_app.
  change (concat [drain_round sid]) with (drain_round sid).
  destruct (drain_rounds _ Hu spin (S (S depth)) router limit sid (Some 1%nat) (typed_msgs 2 l) w2)
    as [Ht3 Hp3]; [|exact Hp2|].
  { rewrite typed_msgs_cbs. change (Some 1%nat :: map Some (seq 2 (length l))) with
      (map Some (seq 1 (S (length l)))). by apply typed_calm. }
  rewrite typed_msgs_cbs, length_typed_msgs in *.
  assert (Hlast : List.last (map Some (seq 2 (length l))) (Some 1%nat) = Some (S (length l))).
  { rewrite <-last_from with (d := None). change (Some 1%nat :: map Some (seq 2 (length l))) with
      (map Some (seq 1 (S (length l)))). rewrite seq_S, map_app. simpl map. by rewrite last_last. }
  rewrite Hlast in Hp3.
  destruct (finishing_round _ Hu spin (S depth) router limit sid (S (length l)) Ok _ Hp3) as [log Hlog].
  { intros w0. rewrite typed_acks by lia. by rewrite Hps, Nat.eqb_refl. }
  exists log. etrans; [exact Hlog|]. by rewrite Ht3, Et, <-!(assoc_L (++)).
Qed.
End Server.

(** ** The call *)
Section Call.
Context {M : MethodTraits}.
Context (user : Channel.Out → Channel.World → list Channel.UOp).
Context (wire : Channel.Out → Channel.World → list Channel.SOp).
Context (submit : Channel.Out → Channel.World → Z).
Context (address : string) (tcp_connect : @connect_outcome unit).
Context (h : closure) (g : ReqType → list ResType) (spin depth : nat).
Context (router : Router nat nat) (limit : Z).

#[local] Abbreviation client_run :=
  (fold_left (λ w e, ChannelRun.step user wire submit address tcp_connect e w)).

(** What the client's core is asked for when a typed reader is opened. *)
Lemma open_reader_sent wire_debug id service method q buf tm :
  EncodeRequest q = Some buf →
  let v := StreamClient.OpenClientReader (λ _, false) wire_debug id StreamClient.OpenChan service method q tm in
  StreamClient.trace v = [StreamClient.CoreOpenStream (api_path service method) tm;
                          StreamClient.CoreStreamSend id (EncodeFrame buf []) None true] ∧
  StreamClient.messages v = [] ∧ StreamClient.arenas_fine (StreamClient.arenas v) ∧
  StreamClient.chan v = StreamClient.OpenChan.
Proof.
  intros He. unfold StreamClient.OpenClientReader, StreamClient.SendSingleRequest, StreamClient.Open,
    StreamClient.ChannelOpenStreamRaw. simpl.
  rewrite andb_false_r. simpl. rewrite He. simpl. split_and!; [done|done| |done].
  change (StreamClient.arenas_fine (upb_Arena_Free (news no_arenas) (allocated no_arenas))).
  rewrite free_allocated by by split.
  split; [by apply skipped_wf|]. intros p. simpl. rewrite lookup_empty. by intros [? ?].
Qed.

(** C3: a typed server-streaming call works end to end.  When upb reads what it
    wrote and memory suffices, opening a typed reader with request [q] gives
    the channel the path and one framed request; the channel sends it and
    closes its side; at the server, the typed wrapper reads the request and
    runs the handler, whose responses [g q], up to 65, leave as one body each, in
    order, and the stream is finished with OK when the last was consumed; and
    what the client receives, cut in any way, makes the typed reader return the
    messages of [g q], in order, and then the end of the stream.  There is at
    least one response (a handler that returns without any is finished with
    UNIMPLEMENTED) and at most 65 (one is with the session and 64 wait; the next
    would be dropped).  The headers are without grpc-timeout whatever the timeout
    [tm], which the contract of the wire protocol asks for. *)
Theorem typed_streaming_end_to_end wire_debug service method q buf p l tm id on_m on_c sid e sid' w u req resp :
  EncodeRequest q = Some buf → ParseRequest buf = Some q →
  (∀ a b, EncodeResponse a = Some b → ParseResponse b = Some a) →
  mapM EncodeResponse (g q) = Some (p :: l) → (length l ≤ 64)%nat →
  let path := api_path service method in
  Channel.state w = Channel.kReady → Channel.session w = true →
  StreamEnd.opens wire submit address path buf sid →
  destroyed u = false → alive u = true → sid' ∉ opened u → calls u !! sid' = None →
  bodies u = [] → running_ (loop u) = true → pending_ (loop u) = [] →
  Find path router = Some e → form e = kServerStreaming → stream e = Some h →
  0 ≤ limit → fits limit buf → concat req = EncodeFrame buf [] →
  0 ≤ Channel.max_receive_size w → Forall (fits (Channel.max_receive_size w)) (p :: l) →
  concat resp = frames (p :: l) →
  let v := StreamClient.OpenClientReader (λ _, false) wire_debug id StreamClient.OpenChan service method q tm in
  let w1 := StreamEnd.run_server_streaming user wire submit address tcp_connect id path buf None
    (Channel.mkEvents (Some on_m) (Some on_c)) tm w in
  let w2 := client_run (ChannelRun.EvHeaders sid (EndToEnd.received response_headers) ::
      map (λ b, ChannelRun.EvData sid (Some b)) resp ++
      [ChannelRun.EvHeaders sid (EndToEnd.received (status_trailers Ok))]) w1 in
  let events := omap (TypedEnd.stream_event id) (drop (length (Channel.trace w1)) (Channel.trace w2)) in
  StreamClient.trace v = [StreamClient.CoreOpenStream path tm;
                          StreamClient.CoreStreamSend id (EncodeFrame buf []) None true] ∧
  Channel.trace w1 = Channel.trace w ++
    [Channel.SubmitRequestOpen (Channel.request_headers address path);
     Channel.SendData sid (EncodeFrame buf []) true] ∧
  (∃ log, trace (run (typed_server sid' (g q) buf) (S (S depth)) spin router limit
      (EvHeaders sid' (EndToEnd.received (Channel.request_headers address path)) false ::
       map (λ b, EvData sid' (Some b) false) req ++ [EvData sid' None true] ++
       concat (replicate (S (length l)) (drain_round sid'))) u) =
    trace u ++ [UserStream h sid'; UserRead 0 Ok false buf;
      SendHeaders sid' response_headers false; SendData sid' (EncodeFrame p []) false] ++
    pump_trace sid' (Some 1%nat) (typed_msgs 2 l) ++
    [UserWrite (S (length l)) Ok; SendTrailers sid' (status_trailers Ok); LogCall "call_end" log]) ∧
  ∃ rs v', StreamClient.read_n (λ _, false) (S (length (g q))) (StreamClient.deliver_all events v) =
      Some (rs, v') ∧
    map UnaryClient.shown rs = map (λ x, (Ok, Some x)) (g q) ++ [(Ok, None)].
Proof.
  intros Henc Hparse Hres Hms Hlen path Hst Hse Hop Hd Ha Ho Hn Hb Hrun Hpend He Hf Hs Hl Hm Hreq
    Hmrs Hfit Hresp v w1 w2 events.
  destruct (open_reader_sent wire_debug id service method q buf tm Henc) as (Hv & Hvm & Hva & _).
  destruct (StreamEnd.run_server_streaming_sent user wire submit address tcp_connect id path buf None on_m on_c
    tm sid w Hst Hse Hop) as (Et & _ & _ & s & Hsr & Hdec & Hev & _).
  destruct (EndToEnd.request_received address path) as (Hp & Hct & Htm).
  split_and!; [exact Hv|exact Et| |].
  - by apply (serve_typed_stream sid' (g q) buf q (p :: l) Hparse Hms (λ E, ltac:(discriminate E))
      spin depth router limit h path e _ p l req u).
  - destruct (StreamEnd.status_received Ok) as [Hgs Est]; [vm_compute; split; congruence|].
    destruct (TypedEnd.typed_stream_end_to_end user wire submit address tcp_connect (g q) (p :: l)
      (Channel.max_receive_size w) id sid s w1 (EndToEnd.received response_headers) resp
      (EndToEnd.received (status_trailers Ok)) _ on_m on_c v Hms Hres Hsr Hdec Hev eq_refl eq_refl Hgs
      Hmrs Hfit Hresp Hvm Hva) as (rs & v' & Er & Esh & _).
    exists rs, v'. split; [exact Er|]. rewrite Esh, Est. done.
Qed.
End Call.

(** ** A concrete call *)
Section Demo.
#[local] Existing Instance demo_traits.

Lemma typed_streaming_end_to_end_witness :
  ∃ log, trace (run (typed_server (M := demo_traits) 1 [[chr 5]; [chr 5; chr 5]] [chr 10; chr 5])
      2 0 StreamEnd.demo_stream_router 1024
      (EvHeaders 1 (EndToEnd.received (Channel.request_headers "127.0.0.1:80" "/a.S/L")) false ::
       map (λ b, EvData 1 (Some b) false) [EncodeFrame [chr 10; chr 5] []] ++ [EvData 1 None true] ++
       concat (replicate 2 (drain_round 1))) new_world) =
    trace new_world ++ [UserStream 7 1; UserRead 0 Ok false [chr 10; chr 5];
      SendHeaders 1 response_headers false; SendData 1 (EncodeFrame [chr 10; chr 5] []) false] ++
    pump_trace 1 (Some 1%nat) (typed_msgs 2 [[chr 10; chr 5; chr 5]]) ++
    [UserWrite 2 Ok; SendTrailers 1 (status_trailers Ok); LogCall "call_end" log].
Proof.
  destruct (typed_streaming_end_to_end (M := demo_traits) (λ _ _, []) (λ _ _, []) (λ _ _, 1) "127.0.0.1:80"
    (Connecting tt) 7 (λ q, [q; q ++ q]) 0 0 StreamEnd.demo_stream_router 1024 false "a.S" "L"
    [chr 5] [chr 10; chr 5] [chr 10; chr 5] [[chr 10; chr 5; chr 5]] 0 1 3 4 1
    (mkEntry kServerStreaming None (Some 7%nat)) 1 EndToEnd.demo_client new_world
    [EncodeFrame [chr 10; chr 5] []] [frames [[chr 10; chr 5]; [chr 10; chr 5; chr 5]]])
    as (_ & _ & [log H] & _); try reflexivity.
  - apply TypedEnd.demo_reads_back.
  - simpl. lia.
  - split; [lia|]. intros w. split_and!; reflexivity.
  - apply not_elem_of_empty.
  - lia.
  - split; simpl; lia.
  - vm_compute. congruence.
  - repeat constructor; vm_compute; congruence.
  - exists log. exact H.
Defined.
End Demo.
