(* ===== verification/TypedChain.v ===== *)
(** * A typed stream of any length from end to end

    The handlers of StreamChain.v as the environment of the connection's model:
    each write is made in the callback of the one before, so that the stream may
    be longer than the send queue.  The client's side is that of TypedStream.v. *)
From S2P Require Import Prelude Status CxxString Wire Codec Router Loop Platform Arena.
From S2P Require Import Api.
From S2P Require Channel ChannelInv ChannelRun ChannelCalls UnaryClient StreamClient.
From S2P Require Import ServerConn ServerInv ServerRun ServerCalls ServerStreams.
From S2P Require StreamServer StreamServerRun StreamChain.
From S2P Require EndToEnd TypedEnd StreamEnd TypedStream.

Section Server.
Context {M : MethodTraits} (sid : Z) (handler : StreamServer.Out → StreamServer.World → list StreamServer.Op).
Context (data : bytes).
#[local] Abbreviation ops := (omap (TypedStream.core_op sid)).
#[local] Abbreviation begin := (StreamChain.typed_begin handler).
#[local] Abbreviation answered := (StreamChain.typed_answered handler data).

(** What the typed stream asks of the core's context, as it happens inside the
    core's call outs; [data] is the request that the stream was begun with. *)
Definition chain_core (o : Out) (w : World) : list ReOp :=
  match o with
  | UserStream _ _ => ops (take 1 (StreamServer.trace (begin Ok false data)))
  | UserRead _ st eos data => ops (drop 1 (StreamServer.trace (begin st eos data)))
  | UserWrite tok _ => ops
      (drop (length (StreamServer.trace (answered (pred tok)))) (StreamServer.trace (answered tok)))
  | _ => []
  end.

Context (q : ReqType) (Hq : ParseRequest data = Some q).
Context (L : list (ResType * nat)) (ps : list bytes) (Hps : mapM EncodeResponse L.*1 = Some ps).
Context (HL : StreamChain.chains handler q L).
#[local] Set Default Proof Using "Hq Hps HL".

Lemma chain_unmoved : unmoved chain_core.
Proof using Type. intros o s w Ho. by destruct o. Qed.

Lemma same_length : length L = length ps.
Proof using Hps.
  pose proof (Forall2_length _ _ _ (proj1 (mapM_Some _ _ _) Hps)) as Hl. by rewrite length_fmap in Hl.
Qed.

Lemma entry k p : ps !! k = Some p → ∃ m cb, L !! k = Some (m, cb).
Proof using Hps.
  intros Hk. destruct (lookup_lt_is_Some_2 L k) as [[m cb] ?]; [|by exists m, cb].
  rewrite same_length. by eapply lookup_lt_Some.
Qed.

Lemma begin_trace p : ps !! 0%nat = Some p →
  StreamServer.trace (begin Ok false data) =
    [StreamServer.CoreRead 0; StreamServer.ServerStreamingHandler q 0; StreamServer.CoreWrite 1 p].
Proof.
  intros Hp. destruct (entry 0 p Hp) as (m & cb & Hm).
  exact (StreamChain.typed_runs handler q data Hq L ps Hps HL 0 m cb p Hm Hp).
Qed.

Lemma chain_starts p h w : ps !! 0%nat = Some p → chain_core (UserStream h sid) w = [ApiRead sid 0].
Proof. intros Hp. unfold chain_core. by rewrite (begin_trace p). Qed.

Lemma chain_replies p cb w :
  ps !! 0%nat = Some p → chain_core (UserRead cb Ok false data) w = [ApiWrite sid p (Some 1%nat)].
Proof. intros Hp. unfold chain_core. by rewrite (begin_trace p). Qed.

Lemma next_part {A} (l1 l2 : list A) a l3 l4 :
  l1 ++ (l2 ++ a :: l3) ++ l4 = (l1 ++ l2 ++ [a]) ++ l3 ++ l4.
Proof using Type. by rewrite <-!(assoc_L (++)). Qed.

(** The answer to the [k]th write. *)
Lemma chain_acks k w :
  (k < length ps)%nat →
  chain_core (UserWrite (S k) Ok) w =
    match ps !! S k with
    | Some p => [ApiWrite sid p (Some (S (S k)))]
    | None => [ApiFinish sid Ok]
    end.
Proof.
  intros Hk. destruct (lookup_lt_is_Some_2 ps k Hk) as [p Hp]. destruct (entry k p Hp) as (m & cb & Hm).
  unfold chain_core. cbn [pred].
  rewrite (StreamChain.typed_runs handler q data Hq L ps Hps HL k m cb p Hm Hp).
  pose proof (StreamChain.nth_sent L ps k m cb p Hm Hp) as Hz.
  destruct (ps !! S k) as [p'|] eqn:Hp'.
  - destruct (entry (S k) p' Hp') as (m' & cb' & Hm').
    rewrite (StreamChain.typed_runs handler q data Hq L ps Hps HL (S k) m' cb' p' Hm' Hp').
    rewrite (take_S_r _ _ _ Hz), StreamChain.chain_trace_snoc.
    rewrite length_take_le by (pose proof (lookup_lt_Some _ _ _ Hz); lia).
    rewrite (next_part _ _ (StreamServer.CoreWrite (S k) p)
      [StreamServer.WriteAnswered (S k); StreamServer.UserDelivered cb Ok]), drop_app_length. done.
  - apply lookup_ge_None in Hp'. assert (HkL : S k = length L) by (rewrite same_length; lia).
    rewrite (StreamChain.typed_finishes handler q data Hq L ps Hps HL k m cb p Hm Hp HkL).
    assert (length (zip ps L.*2) = S k) as Hlen by (rewrite length_zip_with, length_fmap, same_length in *; lia).
    rewrite <-(firstn_all (zip ps L.*2)) at 2. rewrite Hlen, (take_S_r _ _ _ Hz), StreamChain.chain_trace_snoc.
    rewrite length_take_le by (pose proof (lookup_lt_Some _ _ _ Hz); lia).
    rewrite (next_part _ _ (StreamServer.CoreWrite (S k) p)
      [StreamServer.WriteAnswered (S k); StreamServer.UserDelivered cb Ok]), drop_app_length. done.
Qed.

(** The writes after the first, with the tokens of their lambdas. *)
Definition numbered (tok : nat) (l : list bytes) : list (bytes * closure) := zip l (seq tok (length l)).

Lemma core_chained l : ∀ k, (k < length ps)%nat → drop (S k) ps = l →
  chained chain_core sid (S k) (numbered (S (S k)) l) Ok.
Proof.
  induction l as [|p l IH]; intros k Hk Hd.
  - intros w. rewrite chain_acks by done. by rewrite (lookup_ge_None_2 ps) by by apply drop_nil_inv.
  - assert (Hp : ps !! S k = Some p).
    { pose proof (lookup_drop ps (S k) 0) as E. rewrite Hd, Nat.add_0_r in E. by rewrite <-E. }
    split.
    + intros w. rewrite chain_acks by done. by rewrite Hp.
    + apply IH; [by eapply lookup_lt_Some|].
      rewrite <-Nat.add_1_r, <-drop_drop, Hd. done.
Qed.

Context (spin depth : nat) (router : Router nat nat) (limit : Z).

(** What the stream puts on the wire. *)
Definition long_response (p : bytes) (l : list bytes) : list Out :=
  [SendHeaders sid response_headers false; SendData sid (EncodeFrame p []) false] ++
  chain_trace sid 1%nat (numbered 2 l) Ok.

Lemma serve_long_stream h path e hs p l chunks w :
  ps = p :: l → destroyed w = false → alive w = true → sid ∉ opened w → calls w !! sid = None →
  bodies w = [] → running_ (loop w) = true → pending_ (loop w) = [] →
  hs !! ":path" = Some path → grpc_content_type hs = true → hs !! "grpc-timeout" = None →
  Find path router = Some e → form e = kServerStreaming → stream e = Some h →
  0 ≤ limit → fits limit data → concat chunks = EncodeFrame data [] →
  ∃ log, trace (run chain_core (S (S depth)) spin router limit (EvHeaders sid hs false ::
      map (λ b, EvData sid (Some b) false) chunks ++ [EvData sid None true] ++
      concat (replicate (length ps) (drain_round sid))) w) =
    trace w ++ [UserStream h sid; UserRead 0 Ok false data] ++ long_response p l ++ [LogCall "call_end" log].
Proof.
  intros E Hd Ha Ho Hc Hb Hrun Hpend Hpa Hct Htm Hfind Hf Hs Hl Hm Hcat.
  assert (Hp0 : ps !! 0%nat = Some p) by by rewrite E.
  assert (Hch : chained chain_core sid 1 (numbered 2 l) Ok).
  { apply (core_chained l 0); rewrite E; [simpl; lia|done]. }
  assert (length ps = S (length (numbered 2 l))) as ->.
  { unfold numbered. rewrite E, length_zip_with, length_seq. simpl. lia. }
  destruct (StreamEnd.serve_chain chain_core chain_unmoved h 0%nat sid data p 1%nat (numbered 2 l) Ok
    (λ w, chain_starts p h w Hp0) (λ w, chain_replies p 0%nat w Hp0) Hch spin depth router limit
    hs path e chunks w) as [log Hlog]; [done..|].
  exists log. etrans; [exact Hlog|]. unfold long_response. by rewrite <-!(assoc_L (++)).
Qed.
End Server.

(** ** The call *)
Section Call.
Context {M : MethodTraits}.
Context (user : Channel.Out → Channel.World → list Channel.UOp).
Context (wire : Channel.Out → Channel.World → list Channel.SOp).
Context (submit : Channel.Out → Channel.World → Z).
Context (address : string) (tcp_connect : @connect_outcome unit).
Context (handler : StreamServer.Out → StreamServer.World → list StreamServer.Op).
Context (h : closure) (spin depth : nat) (router : Router nat nat) (limit : Z).

#[local] Abbreviation client_run :=
  (fold_left (λ w e, ChannelRun.step user wire submit address tcp_connect e w)).

(** What the typed reader is told of the call that its channel has made. *)
Definition reader_events (id sid : Z) (resp : list bytes) (w1 : Channel.World) : list StreamClient.Event :=
  let w2 := client_run (ChannelRun.EvHeaders sid (EndToEnd.received response_headers) ::
      map (λ b, ChannelRun.EvData sid (Some b)) resp ++
      [ChannelRun.EvHeaders sid (EndToEnd.received (status_trailers Ok))]) w1 in
  omap (TypedEnd.stream_event id) (drop (length (Channel.trace w1)) (Channel.trace w2)).

(** C4: a typed stream of any positive length works end to end.  A handler that writes one
    message, and each other one when the one before was delivered, is served to
    the end of any such list: opening a typed reader with request [q] gives
    the channel the path and one framed request, which it sends, closing its side;
    at the server the wrapper reads the request and runs the handler, whose
    messages leave as one body each, in order, never more than one with the
    session, and the stream is finished with OK when the last was consumed; and
    these bodies, cut in any way, make the typed reader return the messages, in
    order, and then the end of the stream: a loop that reads until there is no
    value counts them all, and finishing gives OK.  The list has one message or
    more: a handler that returns without a write is finished with UNIMPLEMENTED.
    The headers are without grpc-timeout whatever the timeout [tm], which the
    contract of the wire protocol asks for. *)
Theorem long_stream_end_to_end wire_debug service method q buf L p l tm id on_m on_c sid e sid' w u req resp :
  EncodeRequest q = Some buf → ParseRequest buf = Some q →
  (∀ a b, EncodeResponse a = Some b → ParseResponse b = Some a) →
  StreamChain.chains handler q L → mapM EncodeResponse L.*1 = Some (p :: l) →
  let path := api_path service method in
  Channel.state w = Channel.kReady → Channel.session w = true →
  StreamEnd.opens wire submit address path buf sid →
  destroyed u = false → alive u = true → sid' ∉ opened u → calls u !! sid' = None →
  bodies u = [] → running_ (loop u) = true → pending_ (loop u) = [] →
  Find path router = Some e → form e = kServerStreaming → stream e = Some h →
  0 ≤ limit → fits limit buf → concat req = EncodeFrame buf [] →
  0 ≤ Channel.max_receive_size w → Forall (fits (Channel.max_receive_size w)) (p :: l) →
  concat resp = concat (StreamEnd.sent_bodies (long_response sid' p l)) →
  let v := StreamClient.OpenClientReader (λ _, false) wire_debug id StreamClient.OpenChan service method q tm in
  let w1 := StreamEnd.run_server_streaming user wire submit address tcp_connect id path buf None
    (Channel.mkEvents (Some on_m) (Some on_c)) tm w in
  StreamClient.trace v = [StreamClient.CoreOpenStream path tm;
                          StreamClient.CoreStreamSend id (EncodeFrame buf []) None true] ∧
  Channel.trace w1 = Channel.trace w ++
    [Channel.SubmitRequestOpen (Channel.request_headers address path);
     Channel.SendData sid (EncodeFrame buf []) true] ∧
  (∃ log, trace (run (chain_core sid' handler buf) (S (S depth)) spin router limit
      (EvHeaders sid' (EndToEnd.received (Channel.request_headers address path)) false ::
       map (λ b, EvData sid' (Some b) false) req ++ [EvData sid' None true] ++
       concat (replicate (S (length l)) (drain_round sid'))) u) =
    trace u ++ [UserStream h sid'; UserRead 0 Ok false buf] ++ long_response sid' p l ++
    [LogCall "call_end" log]) ∧
  ∃ rs v', StreamClient.read_n (λ _, false) (S (length L))
      (StreamClient.deliver_all (reader_events id sid resp w1) v) = Some (rs, v') ∧
    StreamClient.read_values (λ _, false) (S (length L))
      (StreamClient.deliver_all (reader_events id sid resp w1) v) = Some (length L, v') ∧
    map UnaryClient.shown rs = map (λ x, (Ok, Some x)) L.*1 ++ [(Ok, None)] ∧
    StreamClient.ReaderFinish false v' = Some (Ok, v').
Proof.
  intros Henc Hparse Hres HL Hms path Hst Hse Hop Hd Ha Ho Hn Hb Hrun Hpend He Hf Hs Hl Hm Hreq
    Hmrs Hfit Hresp v w1.
  destruct (TypedStream.open_reader_sent wire_debug id service method q buf tm Henc) as (Hv & Hvm & Hva & Hvc).
  destruct (StreamEnd.run_server_streaming_sent user wire submit address tcp_connect id path buf None on_m on_c
    tm sid w Hst Hse Hop) as (Et & _ & _ & s & Hsr & Hdec & Hev & _).
  destruct (EndToEnd.request_received address path) as (Hp & Hct & Htm).
  assert (Hbodies : concat resp = frames (p :: l)).
  { rewrite Hresp. unfold long_response. rewrite StreamEnd.chain_bodies. unfold numbered.
    by rewrite fst_zip by by rewrite length_seq. }
  split_and!; [exact Hv|exact Et| |].
  - by apply (serve_long_stream sid' handler buf q Hparse L (p :: l) Hms HL spin depth router limit h path e _ p l req u).
  - destruct (StreamEnd.status_received Ok) as [Hgs Est]; [vm_compute; split; congruence|].
    destruct (TypedEnd.typed_stream_end_to_end user wire submit address tcp_connect L.*1 (p :: l)
      (Channel.max_receive_size w) id sid s w1 (EndToEnd.received response_headers) resp
      (EndToEnd.received (status_trailers Ok)) _ on_m on_c v Hms Hres Hsr Hdec Hev eq_refl eq_refl Hgs
      Hmrs Hfit Hbodies Hvm Hva) as (rs & v' & Er & Esh & Ec & Ete & Etl).
    exists rs, v'. rewrite length_fmap in Er. split; [exact Er|].
    rewrite Est in Esh. rewrite <-(length_fmap fst L).
    split; [by eapply (StreamClient.read_values_all _ (λ x, x)); [rewrite length_fmap; exact Er|exact Esh]|].
    split; [exact Esh|].
    rewrite Est in Etl. unfold StreamClient.ReaderFinish, StreamClient.ChannelOnLoopThreadRaw.
    by rewrite Ec, (Hvc : StreamClient.chan v = _), Ete, Etl.
Qed.
End Call.

(** ** A concrete call *)
Section Demo.
#[local] Existing Instance demo_traits.
#[local] Abbreviation first := ([chr 10; chr 1] : bytes).
#[local] Abbreviation second := ([chr 10; chr 2; chr 3] : bytes).

Lemma long_stream_end_to_end_witness :
  ∃ log, trace (run (chain_core (M := demo_traits) 1 StreamChain.demo_chain [chr 10; chr 5])
      2 0 StreamEnd.demo_stream_router 1024
      (EvHeaders 1 (EndToEnd.received (Channel.request_headers "127.0.0.1:80" "/a.S/L")) false ::
       map (λ b, EvData 1 (Some b) false) [EncodeFrame [chr 10; chr 5] []] ++ [EvData 1 None true] ++
       concat (replicate 2 (drain_round 1))) new_world) =
    trace new_world ++ [UserStream 7 1; UserRead 0 Ok false [chr 10; chr 5]] ++
    long_response 1 first [second] ++ [LogCall "call_end" log].
Proof.
  destruct (long_stream_end_to_end (M := demo_traits) (λ _ _, []) (λ _ _, []) (λ _ _, 1) "127.0.0.1:80"
    (Connecting tt) StreamChain.demo_chain 7 0 0 StreamEnd.demo_stream_router 1024 false "a.S" "L"
    [chr 5] [chr 10; chr 5] [([chr 1], 0%nat); ([chr 2; chr 3], 1%nat)] first [second] 0 1 3 4 1
    (mkEntry kServerStreaming None (Some 7%nat)) 1 EndToEnd.demo_client new_world
    [EncodeFrame [chr 10; chr 5] []] [frames [first; second]])
    as (_ & _ & [log H] & _); try reflexivity.
  - apply TypedEnd.demo_reads_back.
  - apply StreamChain.demo_chains.
  - split; [lia|]. intros w. split_and!; reflexivity.
  - apply not_elem_of_empty.
  - lia.
  - split; simpl; lia.
  - vm_compute. congruence.
  - repeat constructor; vm_compute; congruence.
  - exists log. exact H.
Defined.
End Demo.
