(* ===== verification/BidiEnd.v ===== *)
(** * A conversation on a bidirectional stream

    The server's side of a stream whose handler answers each message it reads and
    reads again: one message at a time, each cut in any way, until the client
    ends its side.  The callbacks of the handler may be new ones at each message. *)
From S2P Require Import Prelude Status CxxString Wire Codec Router Loop Platform SessionSpec.
From S2P Require ChannelCalls.
From S2P Require Import ServerConn ServerInv ServerRun ServerCalls ServerStreams.
From S2P Require StreamEnd.

#[local] Abbreviation drained_decoder := ChannelCalls.drained.
#[local] Abbreviation at_boundary := ChannelCalls.at_boundary.

Section Talk.
Context (oracle : Out → World → list ReOp) (Hframes : unmoved oracle).
(** The messages [ms]; the callbacks of the [k]th read and write. *)
Context (h : closure) (rcb wcb : nat → closure) (f : bytes → bytes) (sid : Z) (ms : list bytes).
Context (Hstart : ∀ w, oracle (UserStream h sid) w = [ApiRead sid (rcb 0)]).
Context (Hread : ∀ k m w, ms !! k = Some m → oracle (UserRead (rcb k) Ok false m) w =
  [ApiWrite sid (f m) (Some (wcb k)); ApiRead sid (rcb (S k))]).
Context (Hend : ∀ w, oracle (UserRead (rcb (length ms)) Ok true []) w = [ApiFinish sid Ok]).
Context (Hcalm : ∀ k m w, ms !! k = Some m → oracle (UserWrite (wcb k) Ok) w = []).
Context (spin depth : nat) (router : Router nat nat) (limit : Z).
#[local] Abbreviation re := (env oracle spin (S (S depth))).
#[local] Abbreviation server := (run oracle (S (S depth)) spin router limit).
#[local] Abbreviation inner := (run oracle (S depth) spin router limit).
#[local] Abbreviation data chunks w :=
  (fold_left (λ v b, OnData re sid (Some b) false v) chunks w).

(** A stream whose handler waits for a message ([cb] is its read, if it has been
    made) and whose decoder is [d]. *)
Definition listening (cb : option closure) (d : FrameDecoder) (c : Call) : Prop :=
  request_done c = false ∧ call_form c = kBidi ∧ has_handler c = true ∧ dispatched c = true ∧
  read_finished c = false ∧ request_half_closed c = false ∧ pending_msgs c = [] ∧
  read_cb c = cb ∧ decoder c = d.

Definition waits (k : nat) (d : FrameDecoder) (w : World) : Prop :=
  ctxs w !! sid = Some (StreamCtx None) ∧ ∃ c, calls w !! sid = Some c ∧ listening (Some (rcb k)) d c.

Lemma sends_waits cb d c w w' :
  calls w !! sid = Some c → listening cb d c → sends_only sid w w' →
  ctxs w' = ctxs w ∧ ∃ c', calls w' !! sid = Some c' ∧ listening cb d c'.
Proof using Type.
  intros Hc Hl [Hx Hs]. split; [done|]. destruct (Hs c Hc) as (q & i & hs & Hc').
  eexists. split; [exact Hc'|]. exact Hl.
Qed.

(** The world in which the handler is given a message. *)
Definition given (k : nat) (m : bytes) (d : FrameDecoder) (w : World) : World :=
  (on_call sid (λ c, c <| decoder := d |> <| read_cb := None |>) w)
    <| trace ::= λ t, t ++ [UserRead (rcb k) Ok false m] |>.

(** What it does: write and read again. *)
Lemma handler_replies hs k m d w :
  ms !! k = Some m → writable hs sid w → (∃ d, waits k d w) →
  let w' := re (UserRead (rcb k) Ok false m) (given k m d w) in
  pumping sid (Some (wcb k)) [] w' ∧ waits (S k) d w' ∧
  trace w' = trace w ++ [UserRead (rcb k) Ok false m] ++ opening hs sid ++ [SendData sid (EncodeFrame (f m) []) false].
Proof using Hframes Hread router limit.
  intros Hk Hw (d0 & Hx & c & Hc & Hl). cbv zeta.
  rewrite (env_ops oracle spin (S depth) router limit _ _ _ (Hread k m _ Hk)).
  change (map EvOp [?a; ?b]) with ([EvOp a] ++ [EvOp b]). rewrite runs_app.
  set (g := λ c : Call, c <| decoder := d |> <| read_cb := None |>).
  assert (Hw1 : writable hs sid (given k m d w)).
  { assert (writable hs sid (on_call sid g w)) as [] by by apply writable_on_call. by split. }
  destruct (first_write oracle Hframes spin (S depth) router limit hs sid (f m) (Some (wcb k)) _ Hw1) as (Hp & Ht & Hs).
  assert (Hc1 : calls (given k m d w) !! sid = Some (g c)) by (simpl; by rewrite lookup_alter_eq, Hc).
  assert (Hl1 : listening None d (g c)) by (destruct Hl as (? & ? & ? & ? & ? & ? & ? & ? & ?); by split_and!).
  destruct (sends_waits None d _ _ _ Hc1 Hl1 Hs) as (Hx2 & c2 & Hc2 & Hl2).
  revert Hp Ht Hx2 Hc2. generalize (inner [EvOp (ApiWrite sid (f m) (Some (wcb k)))] (given k m d w)).
  intros w2 Hp Ht Hx2 Hc2. change (ctxs (given k m d w)) with (ctxs w) in Hx2.
  destruct Hl2 as (Hrd & Hf & Hh & Hdis & Hrf & Hhc & Hpm & Hrc & Hde).
  assert (E : inner [EvOp (ApiRead sid (rcb (S k)))] w2 = on_call sid (λ c, c <| read_cb := Some (rcb (S k)) |>) w2).
  { unfold run. cbn [fold_left]. unfold step, do_op, with_stream_ctx, with_ctx.
    rewrite Hx2, Hx. unfold ctx_ReadMessage. by rewrite Hx2, Hx, Hc2, Hrf, Hpm, Hhc, Hrc. }
  rewrite E. split_and!.
  - by apply pumping_on_call.
  - split; [simpl; by rewrite Hx2|]. eexists. split; [apply calls_on_call_eq, Hc2|]. by split_and!.
  - change (trace (on_call _ _ ?x)) with (trace x). rewrite Ht. simpl. by rewrite <-(assoc_L (++)).
Qed.

Lemma deliver_one hs k m d c w :
  ms !! k = Some m → calls w !! sid = Some c → listening (Some (rcb k)) d c → messages_ d = [m] →
  writable hs sid w → ctxs w !! sid = Some (StreamCtx None) →
  (deliver_messages re 1 sid w).2 = re (UserRead (rcb k) Ok false m) (given k m (drained_decoder d) w).
Proof using Hframes Hread router limit.
  intros Hk Hc Hl Hm Hw Hx.
  destruct (handler_replies hs k m (drained_decoder d) w Hk Hw) as (_ & (_ & c' & Hc' & _) & _).
  { exists d. split; [done|]. by exists c. }
  destruct Hl as (Hrd & Hf & Hh & Hdis & Hrf & Hhc & Hpm & Hrc & Hde).
  cbn [deliver_messages]. rewrite Hc. unfold TakeMessage. rewrite Hde, Hm.
  rewrite decide_False by by rewrite Hf. cbn [snd].
  match goal with |- context [on_call sid ?g w] => set (g1 := g) end.
  unfold DeliverRead. rewrite (calls_on_call_eq _ _ _ _ Hc).
  change (read_finished (g1 c)) with (read_finished c). rewrite Hrf.
  change (read_cb (g1 c)) with (read_cb c). rewrite Hrc.
  change (negb (ok Ok) || false) with false. cbn match. rewrite on_call_on_call. unfold call_out.
  match goal with |- deref sid (re _ ?x) = _ => assert (x = given k m (drained_decoder d) w) as -> end.
  { unfold given, g1, ChannelCalls.drained. rewrite Hm. simpl. destruct d; reflexivity. }
  unfold deref. by rewrite Hc'.
Qed.

(** The chunks of a message. *)
Lemma hear chunks hs k d d1 m w :
  ms !! k = Some m → writable hs sid w → waits k d w → decoder_wf d → decoder_waiting d → messages_ d = [] →
  feed d chunks = (Ok, d1) → messages_ d1 = [m] → pending_bytes d1 = [] →
  let w' := data chunks w in
  pumping sid (Some (wcb k)) [] w' ∧ waits (S k) (drained_decoder d1) w' ∧
  trace w' = trace w ++ [UserRead (rcb k) Ok false m] ++ opening hs sid ++ [SendData sid (EncodeFrame (f m) []) false].
Proof using Hframes Hread router limit.
  intros Hk. revert w d. induction chunks as [|b chunks IH]; intros w d Hw (Hx & c & Hc & Hl) Hwf Hwt Hq Hfeed Hm Hp;
    cbn [fold_left feed] in *.
  { injection Hfeed as <-. congruence. }
  pose proof Hl as (Hrd & Hf & Hh & Hdis & Hrf & Hhc & Hpm & Hrc & Hde).
  destruct (Consume b d) as [st d2] eqn:HC.
  destruct (Consume_view _ _ _ _ Hwf HC) as (Hwf2 & _ & Hok).
  destruct (ok st) eqn:Hst; [|by simplify_eq]. destruct (Hok eq_refl) as [-> Hw2].
  rewrite (StreamEnd.OnData_chunk oracle sid spin depth c b d2 w);
    [|done|done|by rewrite Hf|by rewrite Hde|by rewrite Hde|by rewrite Hde].
  set (w1 := on_call sid (λ c, c <| decoder := d2 |>) w).
  assert (Hc1 : calls w1 !! sid = Some (c <| decoder := d2 |>)) by by apply calls_on_call_eq.
  assert (Hwr : writable hs sid w1) by by apply writable_on_call.
  assert (Hl1 : listening (Some (rcb k)) d2 (c <| decoder := d2 |>)) by by split_and!.
  destruct (messages_ d2) as [|m1 q] eqn:Eq2.
  - cbn [length deliver_messages snd]. change (trace w) with (trace w1).
    apply (IH w1 d2); try done. split; [exact Hx|]. by eexists.
  - destruct (ChannelCalls.feed_last chunks d2 d1 m m1 q) as (-> & -> & Hnil & ->); try done.
    cbn [length]. rewrite (deliver_one hs k m d2 (c <| decoder := d2 |>)) by done.
    destruct (handler_replies hs k m (drained_decoder d2) w1 Hk Hwr) as (Hp' & Hwa & Ht').
    { exists d2. split; [exact Hx|]. by eexists. }
    assert (E : given k m (drained_decoder d2) w1 = given k m (drained_decoder d2) w).
    { unfold given, w1. by rewrite on_call_on_call. }
    rewrite E in *. destruct Hwa as (Hx3 & c3 & Hc3 & Hl3).
    pose proof Hl3 as (Hrd3 & Hf3 & _ & _ & _ & _ & _ & _ & Hde3).
    rewrite (StreamEnd.empty_chunks oracle sid spin depth chunks c3);
      [|done|done|by rewrite Hf3|by rewrite Hde3|done].
    split_and!; [done| |exact Ht']. split; [done|]. by exists c3.
Qed.

(** ** The conversation *)

(** One exchange: a message is read and its answer sent and consumed. *)
Definition exchange (hs : bool) (k : nat) (m : bytes) : list Out :=
  UserRead (rcb k) Ok false m :: opening hs sid ++
  [SendData sid (EncodeFrame (f m) []) false; UserWrite (wcb k) Ok].
Definition exchange_events (chunks : list bytes) : list Event :=
  map (λ b, EvData sid (Some b) false) chunks ++ drain_round sid.

Lemma exchanges chunks hs k d m w :
  ms !! k = Some m → writable hs sid w → waits k d w → at_boundary limit d → fits limit m →
  concat chunks = EncodeFrame m [] →
  let w' := server (exchange_events chunks) w in
  writable true sid w' ∧ (∃ d', at_boundary limit d' ∧ waits (S k) d' w') ∧
  trace w' = trace w ++ exchange hs k m.
Proof using Hframes Hread Hcalm.
  intros Hk Hw Hwa Hd Hm Hcat. cbv zeta. unfold exchange_events. rewrite runs_app.
  assert (E : server (map (λ b, EvData sid (Some b) false) chunks) w = data chunks w).
  { apply StreamEnd.fold_stream_data. }
  rewrite E. destruct (ChannelCalls.boundary_waits _ _ Hd) as [Hwf Hwt].
  destruct (ChannelCalls.feed_boundary limit d m chunks Hd Hm Hcat) as [Hfeed Hp].
  destruct (hear chunks hs k d (d <| messages_ := [m] |>) m w Hk Hw Hwa Hwf Hwt) as (Hp1 & Hwa1 & Ht1); try done.
  { by destruct Hd as (_ & _ & _ & _ & _ & _ & ?). }
  destruct (last_round oracle spin (S (S depth)) router limit sid (Some (wcb k)) _
    (λ w, Hcalm k m w Hk) Hp1) as (Hw2 & Ht2 & Hs2).
  split_and!; [exact Hw2| |].
  - eexists. split; [apply ChannelCalls.boundary_drained, Hd|].
    destruct Hwa1 as (Hx1 & c1 & Hc1 & Hl1).
    destruct (sends_waits (Some (rcb (S k))) _ c1 _ _ Hc1 Hl1 Hs2) as (Hx2 & Hc2).
    split; [by rewrite Hx2|exact Hc2].
  - rewrite Ht2, Ht1. unfold exchange, ack. rewrite <-!(assoc_L (++)). by destruct hs.
Qed.

Definition heard (l : list (bytes * list bytes)) : Prop :=
  Forall (λ mc, fits limit mc.1 ∧ concat mc.2 = EncodeFrame mc.1 []) l.

(** The exchanges from the [k]th on. *)
Fixpoint exchanges_from (k : nat) (l : list bytes) : list Out :=
  match l with
  | [] => []
  | m :: l => exchange true k m ++ exchanges_from (S k) l
  end.

Lemma talk l : ∀ k d w,
  drop k ms = l.*1 → writable true sid w → waits k d w → at_boundary limit d → heard l →
  let w' := server (concat (map (λ mc, exchange_events mc.2) l)) w in
  writable true sid w' ∧ (∃ d', at_boundary limit d' ∧ waits (k + length l) d' w') ∧
  trace w' = trace w ++ exchanges_from k l.*1.
Proof using Hframes Hread Hcalm.
  induction l as [|[m chunks] l IH]; intros k d w Hms Hw Hwa Hd Hl.
  - split_and!; [done|exists d; by rewrite Nat.add_0_r|]. by rewrite app_nil_r.
  - apply Forall_cons in Hl as [[Hm Hcat] Hl]. cbn [map concat]. cbv zeta. rewrite runs_app.
    assert (Hk : ms !! k = Some m).
    { pose proof (lookup_drop ms k 0) as E. rewrite Hms, Nat.add_0_r in E. by rewrite <-E. }
    destruct (exchanges chunks true k d m w Hk Hw Hwa Hd Hm Hcat) as (Hw1 & (d1 & Hd1 & Hwa1) & Ht1).
    assert (Hms' : drop (S k) ms = l.*1) by by rewrite <-Nat.add_1_r, <-drop_drop, Hms.
    destruct (IH (S k) d1 _ Hms' Hw1 Hwa1 Hd1 Hl) as (Hw2 & Hd2 & Ht2).
    split_and!; [exact Hw2|cbn [length]; rewrite <-plus_n_Sm; exact Hd2|].
    etrans; [exact Ht2|]. cbv zeta in Ht1. by rewrite Ht1, <-(assoc_L (++)).
Qed.

Lemma talk_ends d w :
  writable true sid w → waits (length ms) d w → messages_ d = [] →
  ∃ log, trace (server [EvData sid None true] w) =
    trace w ++ [UserRead (rcb (length ms)) Ok true []; SendTrailers sid (status_trailers Ok); LogCall "call_end" log].
Proof using Hframes Hend.
  intros Hw (Hx & c & Hc & Hrd & Hf & Hh & Hdis & Hrf & Hhc & Hpm & Hrc & Hde) Hq.
  unfold run. cbn [fold_left]. unfold step, OnData. rewrite Hc, Hrd. change (ok Ok) with true. cbn [negb].
  rewrite decide_False by by rewrite Hf. rewrite Hde, Hq. cbn [length deliver_messages andb].
  assert (on_call sid (λ c0, c0 <| decoder := d |>) w = w) as ->.
  { apply on_call_id. intros c' Hc'. simplify_eq. by destruct c. }
  unfold FinishRequest. rewrite Hc, Hrd, Hh, Hf, Hdis. cbn [negb].
  unfold DeliverRead. rewrite !on_call_on_call, (calls_on_call_eq _ _ _ _ Hc).
  simpl read_finished. rewrite Hrf. simpl read_cb. rewrite Hrc.
  change (negb (ok Ok) || true) with true. cbn match. unfold call_out.
  match goal with |- context [on_call sid ?g w] =>
    set (g1 := g); change (re ?o _) with (re o (record_out o (on_call sid g w))) end.
  rewrite (env_ops oracle spin (S depth) router limit _ _ _ (Hend _)).
  assert (Hw1 : writable true sid (record_out (UserRead (rcb (length ms)) Ok true []) (on_call sid g1 w))).
  { assert (writable true sid (on_call sid g1 w)) as [] by by apply writable_on_call. by split. }
  destruct (finish_drained oracle Hframes spin (S depth) router limit sid Ok _ (writable_drained _ _ Hw1))
    as [log Hlog].
  exists log. etrans; [exact Hlog|]. simpl. by rewrite <-(assoc_L (++)).
Qed.

Lemma talk_starts hs p e w :
  destroyed w = false → alive w = true → sid ∉ opened w → calls w !! sid = None → bodies w = [] →
  running_ (loop w) = true → pending_ (loop w) = [] →
  hs !! ":path" = Some p → grpc_content_type hs = true → hs !! "grpc-timeout" = None →
  Find p router = Some e → form e = kBidi → stream e = Some h →
  let w' := server [EvHeaders sid hs false] w in
  writable false sid w' ∧ waits 0 (newFrameDecoder limit) w' ∧ trace w' = trace w ++ [UserStream h sid].
Proof using Hstart.
  clear Hframes Hread Hend Hcalm wcb f ms. intros Hd Ha Ho Hn Hb Hrun Hpend Hp Hct Ht He Hf Hs. cbv zeta.
  unfold run. cbn [fold_left]. unfold step, announce. rewrite decide_False by done.
  unfold OnHeadersComplete. rewrite Hp, Hct, He. simpl calls. rewrite Hn. simpl default.
  unfold arm_deadline. rewrite Ht. simpl call_form. rewrite Hf.
  rewrite bool_decide_true by by right. simpl has_handler. cbn [andb].
  set (c := open_call limit p _ (Some e) default_call).
  unfold DispatchStream. simpl calls. rewrite lookup_insert_eq. simpl dispatched. cbn match.
  simpl stream. rewrite Hs. unfold call_out.
  match goal with |- context [re _ ?x] => set (w1 := x) end.
  rewrite (env_ops oracle spin (S depth) router limit _ _ _ (Hstart _)).
  set (g := λ c : Call, c <| dispatched := true |>).
  assert (Hc1 : calls w1 !! sid = Some (g c)) by (simpl; by rewrite lookup_alter_eq, lookup_insert_eq).
  assert (Hx1 : ctxs w1 !! sid = Some (StreamCtx None)) by apply lookup_insert_eq.
  assert (E : inner [EvOp (ApiRead sid (rcb 0))] w1 = on_call sid (λ c, c <| read_cb := Some (rcb 0) |>) w1).
  { unfold run. cbn [fold_left]. unfold step, do_op, with_stream_ctx, with_ctx.
    rewrite Hx1. cbn match. unfold ctx_ReadMessage. by rewrite Hx1, Hc1. }
  cbn [map]. rewrite E. split_and!; [| |done].
  - apply writable_on_call; [done|]. split; [exists (g c); split; [exact Hc1|]; by split_and!
      |by exists None|done|simpl; set_solver|done|done].
  - split; [exact Hx1|]. eexists. split; [apply calls_on_call_eq, Hc1|]. by split_and!.
Qed.

(** A conversation of at least one message, from its headers to its end. *)
Definition conversation (l : list bytes) : list Out :=
  match l with
  | [] => []
  | m :: l => exchange false 0 m ++ exchanges_from 1 l
  end.

Lemma conversation_served hs p e l w :
  destroyed w = false → alive w = true → sid ∉ opened w → calls w !! sid = None → bodies w = [] →
  running_ (loop w) = true → pending_ (loop w) = [] →
  hs !! ":path" = Some p → grpc_content_type hs = true → hs !! "grpc-timeout" = None →
  Find p router = Some e → form e = kBidi → stream e = Some h →
  0 ≤ limit → heard l → ms = l.*1 → l ≠ [] →
  ∃ log, trace (server (EvHeaders sid hs false ::
      concat (map (λ mc, exchange_events mc.2) l) ++ [EvData sid None true]) w) =
    trace w ++ UserStream h sid :: conversation ms ++
    [UserRead (rcb (length ms)) Ok true []; SendTrailers sid (status_trailers Ok); LogCall "call_end" log].
Proof using Hframes Hstart Hread Hend Hcalm.
  intros Hd Ha Ho Hn Hb Hrun Hpend Hp Hct Ht He Hf Hs Hl0 Hl Hms Hne.
  destruct (talk_starts hs p e w) as (Hw0 & Hwa0 & Ht0); [done..|].
  change (EvHeaders sid hs false :: ?x) with ([EvHeaders sid hs false] ++ x). rewrite !runs_app.
  revert Hw0 Hwa0 Ht0. generalize (server [EvHeaders sid hs false] w). intros w0 Hw0 Hwa0 Ht0.
  destruct l as [|[m chunks] l]; [done|]. apply Forall_cons in Hl as [[Hm Hcat] Hl].
  cbn [map concat]. rewrite runs_app.
  assert (Hk : ms !! 0%nat = Some m) by by rewrite Hms.
  destruct (exchanges chunks false 0 (newFrameDecoder limit) m w0 Hk Hw0 Hwa0
    (ChannelCalls.new_at_boundary _ Hl0) Hm Hcat) as (Hw1 & (d1 & Hd1 & Hwa1) & Ht1).
  destruct (talk l 1 d1 _ (f_equal (drop 1) Hms) Hw1 Hwa1 Hd1 Hl) as (Hw2 & (d2 & Hd2 & Hwa2) & Ht2).
  assert (Hlen : (1 + length l)%nat = length ms) by by rewrite Hms, length_fmap.
  rewrite Hlen in Hwa2.
  destruct (talk_ends d2 _ Hw2 Hwa2) as [log Hlog]; [by destruct Hd2 as (_ & _ & _ & _ & _ & _ & ?)|].
  exists log. etrans; [exact Hlog|]. cbv zeta in Ht1, Ht2. rewrite Ht2, Ht1, Ht0.
  rewrite Hms. cbn [fmap list_fmap conversation fst]. rewrite <-!(assoc_L (++)). done.
Qed.
End Talk.
