(* ===== verification/BenchCore.v ===== *)
(** * The core benchmarks (core/bench/bench_core.cpp)

    The program that drives the core without the typed layer: the handlers it
    registers, the sink its client collects a stream in, and what an iteration of
    its benchmarks makes of the result.  The handlers are an environment of the
    connection's model; a lambda with what it captures is a closure. *)
From S2P Require Import Prelude Status CxxString Wire Codec Router Loop Platform SessionSpec.
From S2P Require Channel ChannelInv ChannelRun ChannelCalls ChannelSends.
From S2P Require Import ServerConn ServerInv ServerRun ServerCalls ServerStreams.
From S2P Require EndToEnd StreamEnd BidiEnd.

Definition kAddr : string := "127.0.0.1:23090".
Definition kMessagesPerStream : Z := 1000.
Definition kPayloadBytes : nat := 1024.

Definition Framed (payload : bytes) : bytes := EncodeFrame payload [].

(** ** The client's sink *)

(** The messages that arrived, and the promise of the status; setting it twice
    throws. *)
Record Sink := mkSink {
  messages : list bytes;
  future : option Status;
  future_error : bool
}.
#[export] Instance eta_Sink : EtaRecord Sink := λ s,
  mkSink (messages s) (future s) (future_error s).
Definition new_sink : Sink := mkSink [] None false.

Definition on_message (st : Status) (msg : bytes) (s : Sink) : Sink :=
  if negb (ok st) then s else s <| messages ::= λ q, q ++ [msg] |>.
Definition on_complete (st : Status) (s : Sink) : Sink :=
  match future s with
  | None => s <| future := Some st |>
  | Some _ => s <| future_error := true |>
  end.

(** [WaitMessage], once its wait has ended: [None] when it timed out. *)
Definition WaitMessage (s : Sink) : option (bytes * Sink) :=
  match messages s with
  | [] => None
  | m :: q => Some (m, s <| messages := q |>)
  end.
Definition Count (s : Sink) : nat := length (messages s).

(** What the callbacks of stream [id] make of the sink. *)
Definition sink_event (id : Z) (o : Channel.Out) (s : Sink) : Sink :=
  match o with
  | Channel.UserMessage id' _ st msg => if id' =? id then on_message st msg s else s
  | Channel.UserComplete id' _ st => if id' =? id then on_complete st s else s
  | _ => s
  end.
Definition collect (id : Z) (t : list Channel.Out) (s : Sink) : Sink :=
  fold_left (λ s o, sink_event id o s) t s.

(** ** The server's handlers *)

(** The lambdas given to a stream's context, with what they capture; the
    context is that of the stream. *)
Inductive BenchFn :=
  | DownloadRead (sid : Z)
  | DownloadSent (sid n i : Z)
  | ChatArm (sid : Z)
  | ChatSent.
#[export] Instance BenchFn_eq_dec : EqDecision BenchFn.
Proof. solve_decision. Defined.
#[export] Instance BenchFn_countable : Countable BenchFn.
Proof.
  refine (inj_countable'
    (λ f, match f with
          | DownloadRead sid => inl (inl sid)
          | DownloadSent sid n i => inl (inr (sid, n, i))
          | ChatArm sid => inr (inl sid)
          | ChatSent => inr (inr ())
          end)
    (λ x, match x with
          | inl (inl sid) => DownloadRead sid
          | inl (inr (sid, n, i)) => DownloadSent sid n i
          | inr (inl sid) => ChatArm sid
          | inr (inr _) => ChatSent
          end) _).
  by intros [].
Defined.

(** The closure that a lambda is. *)
Definition fn (f : BenchFn) : closure := encode_nat f.
Lemma decode_fn f : decode_nat (fn f) = Some f.
Proof. apply decode_encode_nat. Qed.

Definition payload : bytes := replicate kPayloadBytes "x"%char.

(** [arm] of the download: the next message, or the end. *)
Definition download_arm (sid n : Z) (st : Status) (i : Z) : list ReOp :=
  if negb (ok st) then []
  else if n <=? i then [ApiFinish sid Ok]
  else [ApiWrite sid payload (Some (fn (DownloadSent sid n i)))].

(** The callback of its read.  A count that [int] does not hold is undefined
    behaviour of [atoi]; nothing is assumed to follow it. *)
Definition download_read (sid : Z) (st : Status) (eos : bool) (msg : bytes) : list ReOp :=
  if negb (ok st) || eos then []
  else match atoi (String.string_of_list_ascii msg) with
       | Some n => download_arm sid n Ok 0
       | None => []
       end.

(** [arm] of the chat: echo and read again. *)
Definition echo_of (msg : bytes) : bytes := chars "echo:" ++ msg.
Definition chat_arm (sid : Z) (st : Status) (eos : bool) (msg : bytes) : list ReOp :=
  if negb (ok st) then []
  else if eos then [ApiFinish sid Ok]
  else [ApiWrite sid (echo_of msg) (Some (fn ChatSent)); ApiRead sid (fn (ChatArm sid))].

(** The three handlers, as the router refers to them. *)
Definition h_echo : closure := 0%nat.
Definition h_download : closure := 1%nat.
Definition h_chat : closure := 2%nat.

Definition bench_server (o : Out) (w : World) : list ReOp :=
  match o with
  | UserUnary h sid request => if (h =? h_echo)%nat then [ApiRespond sid Ok request] else []
  | UserStream h sid =>
      if (h =? h_download)%nat then [ApiRead sid (fn (DownloadRead sid))]
      else if (h =? h_chat)%nat then [ApiRead sid (fn (ChatArm sid))]
      else []
  | UserRead cb st eos msg =>
      match decode_nat cb with
      | Some (DownloadRead sid) => download_read sid st eos msg
      | Some (ChatArm sid) => chat_arm sid st eos msg
      | _ => []
      end
  | UserWrite cb st =>
      match decode_nat cb with
      | Some (DownloadSent sid n i) => download_arm sid n st (i + 1)
      | _ => []
      end
  | _ => []
  end.

(** ** The environment: [CoreBenchEnv] *)
Record CoreBenchEnv := mkEnv { router_ : Router nat nat; server_ : bool; client_ : bool; ok_ : bool }.

(** Its constructor: what the loops and the server answer to [Start]. *)
Definition newEnv (server_loop client_loop : bool) (started : Status) : CoreBenchEnv :=
  let '(st, r) := RegisterUnary "/bench.Core/Echo" (Some h_echo) newRouter in
  if negb (ok st) then mkEnv r false false false
  else
    let r := (RegisterStream "/bench.Core/Download" kServerStreaming (Some h_download) r).2 in
    let r := (RegisterStream "/bench.Core/Chat" kBidi (Some h_chat) r).2 in
    if negb server_loop || negb client_loop then mkEnv r false false false
    else if negb (ok started) then mkEnv r false false false
    else mkEnv r true true true.

(** The router that the server serves: its entries are pointers to closures. *)
Definition bench_router : Router nat nat := router_ (newEnv true true Ok).

(** ** Iterations *)

(** What an iteration reports: the error it skips with, or the items and bytes
    it sets; [iterations] is the benchmark library's count. *)
Definition Report : Type := string + (Z * Z).

(** [BM_CoreUnaryEchoRoundTrip] after the call has ended. *)
Definition unary_report (iterations : Z) (st : Status) : string + Z :=
  if negb (ok st) then inl ("call failed: " +:+ message st) else inr (iterations + 1).

(** [BM_CoreServerStreamingThroughput] after its waits. *)
Definition streaming_report (iterations id : Z) (s : Sink) : Report :=
  if id =? 0 then inl "open stream failed"
  else match future s with
       | None => inl "stream incomplete"
       | Some st =>
           if negb (ok st) then inl "stream failed"
           else
             let got := Z.of_nat (Count s) in
             if negb (got =? kMessagesPerStream) then inl "message count mismatch"
             else inr (iterations * kMessagesPerStream + got,
                       iterations * kMessagesPerStream * Z.of_nat kPayloadBytes +
                       got * Z.of_nat kPayloadBytes)
       end.

(** An iteration of [BM_CoreBidiRoundTrip] after its wait. *)
Definition bidi_report (iterations : Z) (s : Sink) : (string + Z) * Sink :=
  match WaitMessage s with
  | None => (inl "round trip failed", s)
  | Some (got, s) =>
      if decide (got = chars "echo:ping") then (inr (iterations + 1), s)
      else (inl "round trip failed", s)
  end.

Lemma bench_routes :
  Find "/bench.Core/Echo" bench_router = Some (mkEntry kUnary (Some h_echo) None) ∧
  Find "/bench.Core/Download" bench_router = Some (mkEntry kServerStreaming None (Some h_download)) ∧
  Find "/bench.Core/Chat" bench_router = Some (mkEntry kBidi None (Some h_chat)).
Proof. by vm_compute. Qed.

Lemma bench_unmoved : unmoved bench_server.
Proof. intros o s w Ho. by destruct o. Qed.

(** ** The download at the server *)
Section Download.
Context (spin : nat) (router : Router nat nat) (limit : Z).
#[local] Abbreviation runs d := (run bench_server d spin router limit).

Lemma download_reads sid n m cb w :
  atoi (String.string_of_list_ascii m) = Some n → cb = fn (DownloadRead sid) → 0 < n →
  bench_server (UserRead cb Ok false m) w = [ApiWrite sid payload (Some (fn (DownloadSent sid n 0)))].
Proof.
  intros Hn -> Hpos. unfold bench_server. rewrite decode_fn. unfold download_read. simpl. rewrite Hn.
  unfold download_arm. simpl. by destruct (Z.leb_spec n 0); [lia|].
Qed.

Lemma download_sent sid n i w :
  bench_server (UserWrite (fn (DownloadSent sid n i)) Ok) w = download_arm sid n Ok (i + 1).
Proof. unfold bench_server. by rewrite decode_fn. Qed.

(** The writes after the first, with their callbacks. *)
Definition download_writes (sid n : Z) : list (bytes * closure) :=
  map (λ i, (payload, fn (DownloadSent sid n i))) (seqZ 1 (n - 1)).

Lemma download_chained sid n :
  0 < n → chained bench_server sid (fn (DownloadSent sid n 0)) (download_writes sid n) Ok.
Proof.
  intros Hn. unfold download_writes.
  assert (Hk : ∀ k i, i + 1 + Z.of_nat k = n → chained bench_server sid (fn (DownloadSent sid n i))
    (map (λ i, (payload, fn (DownloadSent sid n i))) (seqZ (i + 1) (Z.of_nat k))) Ok).
  { induction k as [|k IH]; intros i Hi.
    - intros w. rewrite download_sent. unfold download_arm. simpl.
      by destruct (Z.leb_spec n (i + 1)); [|lia].
    - rewrite seqZ_cons by lia. replace (Z.pred (Z.of_nat (S k))) with (Z.of_nat k) by lia.
      split; [|apply IH; lia]. intros w. rewrite download_sent. unfold download_arm. simpl.
      by destruct (Z.leb_spec n (i + 1)); [lia|]. }
  specialize (Hk (Z.to_nat (n - 1)) 0). rewrite Z2Nat.id in Hk by lia. apply Hk. lia.
Qed.

(** The whole response to a request for [n] messages. *)
Definition download_response (sid n : Z) : list Out :=
  [SendHeaders sid response_headers false; SendData sid (Framed payload) false] ++
  chain_trace sid (fn (DownloadSent sid n 0)) (download_writes sid n) Ok.

Lemma serve_download depth sid hs e m n chunks w :
  atoi (String.string_of_list_ascii m) = Some n → 0 < n →
  destroyed w = false → alive w = true → sid ∉ opened w → calls w !! sid = None → bodies w = [] →
  running_ (loop w) = true → pending_ (loop w) = [] →
  hs !! ":path" = Some "/bench.Core/Download" → grpc_content_type hs = true →
  hs !! "grpc-timeout" = None →
  Find "/bench.Core/Download" router = Some e → form e = kServerStreaming →
  stream e = Some h_download → 0 ≤ limit → fits limit m → concat chunks = Framed m →
  ∃ log, trace (runs (S (S depth)) (EvHeaders sid hs false ::
      map (λ b, EvData sid (Some b) false) chunks ++ [EvData sid None true] ++
      concat (replicate (Z.to_nat n) (drain_round sid))) w) =
    trace w ++ [UserStream h_download sid; UserRead (fn (DownloadRead sid)) Ok false m] ++
    download_response sid n ++ [LogCall "call_end" log].
Proof.
  intros Hn Hpos Hd Ha Ho Hc Hb Hrun Hpend Hpa Hct Htm Hfind Hf Hs Hl Hm Hcat.
  assert (Z.to_nat n = S (length (download_writes sid n))) as ->.
  { unfold download_writes. rewrite length_map, length_seqZ. lia. }
  apply (StreamEnd.serve_chain bench_server bench_unmoved h_download (fn (DownloadRead sid)) sid m
    payload (fn (DownloadSent sid n 0)) (download_writes sid n) Ok (λ _, eq_refl)
    (λ w, download_reads sid n m _ w Hn eq_refl Hpos) (download_chained sid n Hpos)
    spin depth router limit hs "/bench.Core/Download" e chunks w); done.
Qed.
End Download.

(** ** The chat at the server *)
Lemma chat_reads sid m w :
  bench_server (UserRead (fn (ChatArm sid)) Ok false m) w =
    [ApiWrite sid (echo_of m) (Some (fn ChatSent)); ApiRead sid (fn (ChatArm sid))].
Proof. unfold bench_server. by rewrite decode_fn. Qed.
Lemma chat_arm_ends sid w :
  bench_server (UserRead (fn (ChatArm sid)) Ok true []) w = [ApiFinish sid Ok].
Proof. unfold bench_server. by rewrite decode_fn. Qed.
Lemma chat_sent w : bench_server (UserWrite (fn ChatSent) Ok) w = [].
Proof. unfold bench_server. by rewrite decode_fn. Qed.

(** What a stream of [ms] is answered with. *)
Definition chat_trace (sid : Z) (ms : list bytes) : list Out :=
  UserStream h_chat sid ::
  BidiEnd.conversation (λ _, fn (ChatArm sid)) (λ _, fn ChatSent) echo_of sid ms ++
  [UserRead (fn (ChatArm sid)) Ok true []; SendTrailers sid (status_trailers Ok)].

Section Chat.
Context (spin depth : nat) (router : Router nat nat) (limit : Z).

Lemma chat_served sid hs e l w :
  destroyed w = false → alive w = true → sid ∉ opened w → calls w !! sid = None → bodies w = [] →
  running_ (loop w) = true → pending_ (loop w) = [] →
  hs !! ":path" = Some "/bench.Core/Chat" → grpc_content_type hs = true → hs !! "grpc-timeout" = None →
  Find "/bench.Core/Chat" router = Some e → form e = kBidi → stream e = Some h_chat →
  0 ≤ limit → BidiEnd.heard limit l → l ≠ [] →
  ∃ log, trace (run bench_server (S (S depth)) spin router limit (EvHeaders sid hs false ::
      concat (map (λ mc, BidiEnd.exchange_events sid mc.2) l) ++ [EvData sid None true]) w) =
    trace w ++ chat_trace sid l.*1 ++ [LogCall "call_end" log].
Proof.
  intros. destruct (BidiEnd.conversation_served bench_server bench_unmoved h_chat (λ _, fn (ChatArm sid))
    (λ _, fn ChatSent) echo_of sid l.*1 (λ _, eq_refl) (λ _ m w _, chat_reads sid m w) (chat_arm_ends sid)
    (λ _ _ w _, chat_sent w) spin depth router limit hs "/bench.Core/Chat" e l w) as [log Hlog]; [done..|].
  exists log. etrans; [exact Hlog|]. unfold chat_trace. cbn [app]. by rewrite <-(assoc_L (++)).
Qed.

(** The echo on a bidirectional stream.  A stream of at least one message,
    each cut in any way and each followed by the consumption of its answer, makes
    the chat handler of the benchmark send one frame for each message, its text
    after "echo:", in order, the headers before the first; each answer is
    acknowledged before the next message is read; and the end of the client's
    side makes it send the trailers with OK. *)
Theorem chat_echoes sid hs e l w :
  destroyed w = false → alive w = true → sid ∉ opened w → calls w !! sid = None → bodies w = [] →
  running_ (loop w) = true → pending_ (loop w) = [] →
  hs !! ":path" = Some "/bench.Core/Chat" → grpc_content_type hs = true → hs !! "grpc-timeout" = None →
  Find "/bench.Core/Chat" router = Some e → form e = kBidi → stream e = Some h_chat →
  0 ≤ limit → BidiEnd.heard limit l → l ≠ [] →
  ∃ log, trace (run bench_server (S (S depth)) spin router limit (EvHeaders sid hs false ::
      concat (map (λ mc, BidiEnd.exchange_events sid mc.2) l) ++ [EvData sid None true]) w) =
    trace w ++ chat_trace sid l.*1 ++ [LogCall "call_end" log].
Proof. apply chat_served. Qed.
End Chat.

(** ** The download from end to end *)

Lemma download_bodies sid n :
  0 < n → concat (StreamEnd.sent_bodies (download_response sid n)) = frames (replicate (Z.to_nat n) payload).
Proof.
  intros Hn. unfold download_response. etrans; [apply StreamEnd.chain_bodies|].
  replace (Z.to_nat n) with (S (Z.to_nat (n - 1))) by lia. cbn [replicate]. do 2 f_equal.
  unfold download_writes. rewrite <-(length_seqZ 1 (n - 1)). generalize (seqZ 1 (n - 1)). intros l.
  induction l as [|x l IH]; [done|]. cbn [map length replicate fmap list_fmap fst]. f_equal. exact IH.
Qed.

Lemma collect_app id t1 t2 s : collect id (t1 ++ t2) s = collect id t2 (collect id t1 s).
Proof. apply fold_left_app. Qed.

Lemma collect_stream id on_m on_c ms st s :
  future s = None →
  collect id (map (Channel.UserMessage id on_m Ok) ms ++ [Channel.UserComplete id on_c st]) s =
    mkSink (messages s ++ ms) (Some st) (future_error s).
Proof.
  intros Hf. rewrite collect_app.
  assert (collect id (map (Channel.UserMessage id on_m Ok) ms) s =
    mkSink (messages s ++ ms) None (future_error s)) as ->.
  { revert s Hf. induction ms as [|m ms IH]; intros s Hf.
    - rewrite app_nil_r. destruct s. by rewrite <-Hf.
    - unfold collect in *. cbn [map fold_left]. unfold sink_event at 2. rewrite Z.eqb_refl.
      unfold on_message. cbn [negb ok]. rewrite IH; [|done]. simpl. by rewrite <-(assoc_L (++)). }
  unfold collect. cbn [fold_left sink_event]. by rewrite Z.eqb_refl.
Qed.

Section Call.
Context (wire : Channel.Out → Channel.World → list Channel.SOp).
Context (submit : Channel.Out → Channel.World → Z) (tcp_connect : @connect_outcome unit).
Context (spin depth : nat).

(** The benchmark's callbacks make no calls of the channel. *)
Definition bench_user (o : Channel.Out) (w : Channel.World) : list Channel.UOp := [].
#[local] Abbreviation client_run :=
  (fold_left (λ w e, ChannelRun.step bench_user wire submit kAddr tcp_connect e w)).

(** A channel that is connected and idle. *)
Definition connected (w : Channel.World) : Prop :=
  Channel.state w = Channel.kReady ∧ Channel.session w = true ∧ Channel.bodies w = [] ∧
  running_ (Channel.loop w) = true ∧ pending_ (Channel.loop w) = [] ∧
  Channel.max_receive_size w = 2 ^ 20.

(** A connection of the benchmark's server that is idle. *)
Definition accepted (v : World) : Prop :=
  destroyed v = false ∧ alive v = true ∧ bodies v = [] ∧ running_ (loop v) = true ∧
  pending_ (loop v) = [].

(** The calls of an iteration of [BM_CoreServerStreamingThroughput]. *)
Definition download_calls (id : Z) (m : bytes) (on_m on_c flush : Channel.closure) : list ChannelRun.Event :=
  [ChannelRun.EvApi (Channel.ApiOpenStream "/bench.Core/Download"
     (Channel.mkEvents (Some on_m) (Some on_c)) 30000);
   ChannelRun.EvApi (Channel.ApiStreamSend id (Framed m) (Some flush) true);
   ChannelRun.EvWake].

Lemma download_sent_request m on_m on_c flush sid w :
  connected w → StreamEnd.opens wire submit kAddr "/bench.Core/Download" m sid →
  let id := Channel.next_call_id w in
  let w1 := client_run (download_calls id m on_m on_c flush) w in
  Channel.trace w1 = Channel.trace w ++
    [ChannelSends.open_request kAddr "/bench.Core/Download"; Channel.SendData sid (Framed m) true] ∧
  Channel.bodies w1 = [(sid, (id, Some flush))] ∧ Channel.session w1 = true ∧
  ∃ s, ChannelCalls.stream_ready id sid s w1 ∧ Channel.st_decoder s = newFrameDecoder (2 ^ 20) ∧
    Channel.events s = Channel.mkEvents (Some on_m) (Some on_c) ∧ Channel.out_queue s = [].
Proof.
  intros (Hst & Hse & Hb & Hr & Hp & Hmrs) Hop id w1.
  destruct (ChannelSends.api_open_send bench_user wire submit kAddr tcp_connect "/bench.Core/Download"
    (Channel.mkEvents (Some on_m) (Some on_c)) on_c 30000 (Framed m) (Some flush) true w)
    as (l & n & i & o & E); [done..|].
  unfold w1, download_calls, id. rewrite E. clear E.
  match goal with |- context [Channel.run_open_stream _ _ _ _ _ _ _ _ _ ?x] => set (w0 := x) end.
  destruct (StreamEnd.run_server_streaming_sent bench_user wire submit kAddr tcp_connect
    (Channel.next_call_id w) "/bench.Core/Download" m (Some flush) on_m on_c 30000 sid w0) as (Et & Eb & Es & s & H & Hd & He & Hq);
    [done..|].
  unfold StreamEnd.run_server_streaming in *. fold (Framed m) in *.
  split_and!; [exact Et|by rewrite Eb; simpl; rewrite Hb|exact Es|].
  exists s. rewrite Hd. simpl. by rewrite Hmrs.
Qed.

(** *** The unary echo *)
Lemma echo_replies sid m w : bench_server (UserUnary h_echo sid m) w = [ApiRespond sid Ok m].
Proof. done. Qed.

(** The unary benchmark makes its round trip.  On a connected channel and a
    connection of the benchmark's server, the call of an iteration gives the
    session one request; the echo handler gets its bytes and sends them back;
    and the callback of the call is run once, with OK and the bytes that were
    sent, so that the iteration counts. *)
Theorem echo_end_to_end m dn w sid v sid' req resp iterations :
  connected w → Channel.stream_by_sid w !! sid = None →
  EndToEnd.submits wire submit kAddr "/bench.Core/Echo" m sid →
  accepted v → sid' ∉ opened v → calls v !! sid' = None → fits (2 ^ 20) m →
  concat req = Framed m → concat resp = Framed m →
  let id := Channel.next_call_id w in
  let w1 := client_run [ChannelRun.EvApi (Channel.ApiCall "/bench.Core/Echo" (Framed m) 5000 (Some dn));
                        ChannelRun.EvWake] w in
  Channel.trace w1 = Channel.trace w ++
    [Channel.SubmitRequest (Channel.request_headers kAddr "/bench.Core/Echo") (Framed m)] ∧
  (∃ log, trace (run bench_server (S depth) spin bench_router (2 ^ 20)
      (EvHeaders sid' (EndToEnd.received (Channel.request_headers kAddr "/bench.Core/Echo")) false ::
       map (λ b, EvData sid' (Some b) false) req ++ [EvData sid' None true]) v) =
    trace v ++ [UserUnary h_echo sid' m; SendHeaders sid' response_headers false;
      SendData sid' (Framed m) false; SendTrailers sid' ok_trailers; LogCall "call_end" log]) ∧
  ∃ st, Channel.trace (client_run (ChannelRun.EvHeaders sid (EndToEnd.received response_headers) ::
      map (λ b, ChannelRun.EvData sid (Some b)) resp ++
      [ChannelRun.EvHeaders sid (EndToEnd.received ok_trailers)]) w1) =
    Channel.trace w1 ++ [Channel.UserDone id (Some dn) st m] ∧
  unary_report iterations st = inr (iterations + 1).
Proof.
  intros (Hst & Hse & Hb & Hr & Hp & Hmrs) Hsid Hsub (Hd & Ha & Hb' & Hr' & Hp') Ho Hc Hfit Hreq Hresp id w1.
  destruct (ChannelSends.api_call bench_user wire submit kAddr tcp_connect "/bench.Core/Echo" (Framed m)
    5000 (Some dn) w Hr Hp) as (w0 & E & E1 & E2 & E3).
  fold id in E. rewrite Hmrs in E. unfold w1. rewrite E.
  destruct (EndToEnd.run_call_ready bench_user wire submit kAddr tcp_connect id "/bench.Core/Echo" m 5000
    (Some dn) (2 ^ 20) sid w0) as (Ht & c & Hcw & Hdn); [by rewrite E1|done|by rewrite E2|].
  destruct (EndToEnd.request_received kAddr "/bench.Core/Echo") as (Hpa & Hct & Htm).
  destruct bench_routes as (Hfind & _). fold (Framed m) in *. split_and!.
  - by rewrite Ht, E3.
  - by apply (unary_by h_echo (λ m, (Ok, m)) bench_server echo_replies bench_unmoved spin depth bench_router
      (2 ^ 20) sid' _ "/bench.Core/Echo" _ m req v eq_refl Hd Ho Hc Hpa Hct Htm Hfind).
  - exists Ok. split; [|done].
    destruct (ChannelCalls.deliver_unary bench_user wire submit kAddr tcp_connect (2 ^ 20) sid id c
      (Channel.run_call bench_user wire submit kAddr tcp_connect id "/bench.Core/Echo" (Framed m) 5000
        (Some dn) (2 ^ 20) w0) (EndToEnd.received response_headers) m resp
      (EndToEnd.received ok_trailers) "0") as [Eq _]; try done.
    rewrite Eq. by rewrite Hdn.
Qed.

(** *** The download *)

(** What the session reports of the response, its body cut in any way. *)
Definition download_reports (sid : Z) (resp : list bytes) : list ChannelRun.Event :=
  ChannelRun.EvSession (Channel.SConsumed sid 0) ::
  ChannelRun.EvHeaders sid (EndToEnd.received response_headers) ::
  map (λ b, ChannelRun.EvData sid (Some b)) resp ++
  [ChannelRun.EvHeaders sid (EndToEnd.received (status_trailers Ok))].

Lemma payload_fits : fits (2 ^ 20) payload.
Proof. split; vm_compute; congruence. Qed.

Lemma download_received n id sid on_m on_c flush resp s w :
  0 < n → Channel.bodies w = [(sid, (id, Some flush))] → Channel.session w = true →
  ChannelCalls.stream_ready id sid s w → Channel.st_decoder s = newFrameDecoder (2 ^ 20) →
  Channel.events s = Channel.mkEvents (Some on_m) (Some on_c) → Channel.out_queue s = [] →
  concat resp = frames (replicate (Z.to_nat n) payload) →
  Channel.trace (client_run (download_reports sid resp) w) = Channel.trace w ++
    Channel.UserFlushed flush Ok :: map (Channel.UserMessage id on_m Ok) (replicate (Z.to_nat n) payload) ++
    [Channel.UserComplete id on_c Ok].
Proof.
  intros Hn Hb Hse Hsr Hdec Hev Hq Hresp. unfold download_reports.
  change (client_run (?a :: ?b) ?x) with (client_run b (client_run [a] x)).
  destruct (ChannelSends.body_consumed bench_user id sid s (Some flush) w Hsr Hse Hb)
    as (Et & _ & _ & _ & Hsr2); [done|].
  change (client_run [ChannelRun.EvSession (Channel.SConsumed sid 0)] w) with
    (Channel.do_sop bench_user (Channel.SConsumed sid 0) w).
  destruct (StreamEnd.status_received Ok) as [Hgs Est]; [vm_compute; split; congruence|].
  rewrite (ChannelCalls.deliver_stream bench_user wire submit kAddr tcp_connect (2 ^ 20) id sid _ _
    (EndToEnd.received response_headers) (replicate (Z.to_nat n) payload) resp _ _ on_m on_c Hsr2
    Hdec Hev eq_refl eq_refl Hgs); [|done| |done].
  - simpl Channel.out_queue. by rewrite Et, Hq, Est, <-(assoc_L (++)).
  - apply Forall_replicate, payload_fits.
Qed.

(** C5: the streaming benchmark receives its messages.  On a connected channel and
    a connection of the benchmark's server, opening the download with a request
    for [n] messages gives the session the headers and one half-closing body;
    these, the body cut in any way, start the handler, which reads the count and
    writes each message when the one before was consumed, for any number that an
    [int] holds, and then finishes the stream; and what its [n] bodies put on
    the wire, cut in any way, leaves exactly [n] payloads in the client's sink
    and sets its future, once, to OK: an iteration for the 1000 messages of the
    benchmark reports all of them.  The count is positive, and the client's
    connection is idle.  The headers are without grpc-timeout although the stream
    is opened with a timeout of 30000: the code never sends one, which the wire
    protocol's contract asks for when there is a deadline. *)
Theorem download_end_to_end m n on_m on_c flush w sid v sid' req resp iterations :
  atoi (String.string_of_list_ascii m) = Some n → 0 < n → fits (2 ^ 20) m →
  connected w → StreamEnd.opens wire submit kAddr "/bench.Core/Download" m sid →
  accepted v → sid' ∉ opened v → calls v !! sid' = None →
  concat req = Framed m → concat resp = concat (StreamEnd.sent_bodies (download_response sid' n)) →
  let id := Channel.next_call_id w in
  let w1 := client_run (download_calls id m on_m on_c flush) w in
  let w2 := client_run (download_reports sid resp) w1 in
  let s := collect id (drop (length (Channel.trace w1)) (Channel.trace w2)) new_sink in
  Channel.trace w1 = Channel.trace w ++
    [Channel.SubmitRequestOpen (Channel.request_headers kAddr "/bench.Core/Download");
     Channel.SendData sid (Framed m) true] ∧
  (∃ log, trace (run bench_server (S (S depth)) spin bench_router (2 ^ 20)
      (EvHeaders sid' (EndToEnd.received (Channel.request_headers kAddr "/bench.Core/Download")) false ::
       map (λ b, EvData sid' (Some b) false) req ++ [EvData sid' None true] ++
       concat (replicate (Z.to_nat n) (drain_round sid'))) v) =
    trace v ++ [UserStream h_download sid'; UserRead (fn (DownloadRead sid')) Ok false m] ++
    download_response sid' n ++ [LogCall "call_end" log]) ∧
  s = mkSink (replicate (Z.to_nat n) payload) (Some Ok) false ∧
  (id ≠ 0 → n = kMessagesPerStream →
   streaming_report iterations id s =
     inr ((iterations + 1) * kMessagesPerStream,
          (iterations + 1) * kMessagesPerStream * Z.of_nat kPayloadBytes)).
Proof.
  intros Hm Hn Hfit Hw Hop (Hd & Ha & Hb & Hr & Hp) Ho Hc Hreq Hresp id w1 w2 s.
  destruct (download_sent_request m on_m on_c flush sid w Hw Hop) as (Et & Eb & Ese & st & Hsr & Hdec & Hev & Hq).
  fold id w1 in Et, Eb, Ese, Hsr.
  assert (Es : s = mkSink (replicate (Z.to_nat n) payload) (Some Ok) false).
  { unfold s, w2. rewrite (download_received n id sid on_m on_c flush resp st w1) by
      (try done; by rewrite Hresp, download_bodies).
    rewrite drop_app_length. cbn [collect fold_left sink_event].
    change (fold_left _ ?l ?x) with (collect id l x). by rewrite collect_stream. }
  destruct (EndToEnd.request_received kAddr "/bench.Core/Download") as (Hpa & Hct & Htm).
  split_and!; [exact Et| |exact Es|].
  - destruct bench_routes as (_ & Hfind & _).
    eapply serve_download; [exact Hm|exact Hn|done..|exact Hfind|done|done|lia|exact Hfit|exact Hreq].
  - intros Hid ->. rewrite Es. unfold streaming_report. rewrite (proj2 (Z.eqb_neq _ _) Hid).
    cbn [future ok negb]. unfold Count. cbn [messages].
    rewrite length_replicate, Z2Nat.id by (unfold kMessagesPerStream; lia).
    rewrite Z.eqb_refl. cbn [negb]. do 2 f_equal; ring.
Qed.

(** *** The chat *)
Definition ping : bytes := chars "ping".

(** The loop of [BM_CoreBidiRoundTrip]: each iteration sends a ping and waits for
    what arrives, here cut as [answers] say; the first response starts with
    headers.  It ends early with what it skips with. *)
Fixpoint chat_iterations (iterations id sid : Z) (flush : closure) (hss : list (gmap string string))
    (answers : list (list bytes)) (w : Channel.World) (s : Sink) : (string + Z) * Channel.World * Sink :=
  match answers with
  | [] => (inr iterations, w, s)
  | a :: answers =>
      let w' := client_run (ChannelSends.exchange id sid (Framed ping) flush hss a) w in
      let s := collect id (drop (length (Channel.trace w)) (Channel.trace w')) s in
      match bidi_report iterations s with
      | (inl err, s) => (inl err, w', s)
      | (inr n, s) => chat_iterations n id sid flush [] answers w' s
      end
  end.

(** The trace of one iteration. *)
Definition iteration_trace (id sid : Z) (on_m flush : closure) : list Channel.Out :=
  [Channel.SendData sid (Framed ping) false; Channel.UserFlushed flush Ok;
   Channel.UserMessage id on_m Ok (echo_of ping)].

Lemma chat_iterates on_m on_c flush id sid answers : ∀ hss w iterations,
  ChannelSends.talking (2 ^ 20) (Channel.mkEvents (Some on_m) on_c) id sid w →
  (∀ w, wire (Channel.SendData sid (Framed ping) false) w = []) →
  Forall ChannelSends.opens_response hss →
  Forall (λ a, concat a = Framed (echo_of ping)) answers →
  ∃ w', chat_iterations iterations id sid flush hss answers w new_sink =
    (inr (iterations + Z.of_nat (length answers)), w', new_sink) ∧
    ChannelSends.talking (2 ^ 20) (Channel.mkEvents (Some on_m) on_c) id sid w' ∧
    Channel.trace w' = Channel.trace w ++
      concat (replicate (length answers) (iteration_trace id sid on_m flush)).
Proof.
  induction answers as [|a answers IH]; intros hss w iterations Hw Hwire Hhss Ha.
  { exists w. simpl. rewrite Z.add_0_r, app_nil_r. done. }
  apply Forall_cons in Ha as [Ha Has]. cbn [chat_iterations].
  destruct (ChannelSends.talk_exchange bench_user wire submit kAddr tcp_connect (λ _ _, eq_refl)
    (2 ^ 20) on_m on_c id sid (Framed ping) flush (echo_of ping) hss a w Hw Hwire) as [Hw' Et];
    [split; vm_compute; congruence|done|done|].
  cbv zeta in Et. rewrite Et, drop_app_length. cbn [collect fold_left sink_event]. rewrite Z.eqb_refl.
  change (bidi_report iterations _) with (inr (A := string) (iterations + 1), new_sink).
  destruct (IH [] _ (iterations + 1) Hw' Hwire) as (w2 & E & Hw2 & Et2); [done|done|].
  exists w2. cbn [length replicate concat]. rewrite E. split_and!; [|exact Hw2|].
  - do 3 f_equal. lia.
  - rewrite Et2, Et, <-(assoc_L (++)). done.
Qed.

(** What the session is asked for by the chat's stream, which it takes as [sid]
    and reports nothing about meanwhile. *)
Definition chats (sid : Z) : Prop :=
  0 < sid ∧
  (∀ w, submit (ChannelSends.open_request kAddr "/bench.Core/Chat") w = sid ∧
        wire (ChannelSends.open_request kAddr "/bench.Core/Chat") w = []) ∧
  (∀ w, wire (Channel.SendData sid (Framed ping) false) w = []) ∧
  (∀ w, wire (Channel.SendData sid [] true) w = []).

Definition chat_opens (on_m on_c : Channel.closure) : list ChannelRun.Event :=
  [ChannelRun.EvApi (Channel.ApiOpenStream "/bench.Core/Chat"
     (Channel.mkEvents (Some on_m) (Some on_c)) 30000); ChannelRun.EvWake].
Definition chat_closes (id sid : Z) : list ChannelRun.Event :=
  [ChannelRun.EvApi (Channel.ApiStreamCloseSend id); ChannelRun.EvWake;
   ChannelRun.EvHeaders sid (EndToEnd.received (status_trailers Ok))].

(** C6: the chat benchmark makes its round trips.  On a connected channel and a
    connection of the benchmark's server, any number of iterations, each sending
    a ping whose frame arrives cut in any way and reading the answer, cut in any
    way, succeed: each finds its own answer in the sink and leaves the sink
    empty, and the future is not set before the caller closes its side, which
    makes the server finish the stream and sets it, once, to OK.  There is at
    least one ping.  The headers are without grpc-timeout although the stream is
    opened with a timeout of 30000, against the wire protocol's contract. *)
Theorem chat_end_to_end on_m on_c flush w sid v sid' pings answers iterations :
  connected w → chats sid → accepted v → sid' ∉ opened v → calls v !! sid' = None →
  pings ≠ [] → length answers = length pings →
  Forall (λ c, concat c = Framed ping) pings → Forall (λ a, concat a = Framed (echo_of ping)) answers →
  let id := Channel.next_call_id w in
  let w1 := client_run (chat_opens on_m on_c) w in
  ∃ w2, chat_iterations iterations id sid flush [EndToEnd.received response_headers] answers w1 new_sink =
    (inr (iterations + Z.of_nat (length answers)), w2, new_sink) ∧
  let w3 := client_run (chat_closes id sid) w2 in
  collect id (drop (length (Channel.trace w2)) (Channel.trace w3)) new_sink = mkSink [] (Some Ok) false ∧
  Channel.trace w3 = Channel.trace w ++
    [Channel.SubmitRequestOpen (Channel.request_headers kAddr "/bench.Core/Chat")] ++
    concat (replicate (length answers) (iteration_trace id sid on_m flush)) ++
    [Channel.SendData sid [] true; Channel.UserComplete id on_c Ok] ∧
  ∃ log, trace (run bench_server (S (S depth)) spin bench_router (2 ^ 20)
      (EvHeaders sid' (EndToEnd.received (Channel.request_headers kAddr "/bench.Core/Chat")) false ::
       concat (map (BidiEnd.exchange_events sid') pings) ++ [EvData sid' None true]) v) =
    trace v ++ chat_trace sid' (replicate (length pings) ping) ++ [LogCall "call_end" log].
Proof.
  intros (Hst & Hse & Hb & Hr & Hp & Hmrs) (Hpos & Hop & Hw1 & Hw2) (Hd & Ha & Hb' & Hr' & Hp') Ho Hc
    Hne Hlen Hpings Hans id w1.
  destruct (ChannelSends.talk_opens bench_user wire submit kAddr tcp_connect (λ _ _, eq_refl) "/bench.Core/Chat"
    (Channel.mkEvents (Some on_m) (Some on_c)) on_c 30000 sid w) as [Ht1 Et1]; try done.
  { by rewrite Hmrs. }
  rewrite Hmrs in Ht1. fold (chat_opens on_m on_c) in Ht1, Et1. fold w1 id in Ht1, Et1.
  destruct (chat_iterates on_m (Some on_c) flush id sid answers [EndToEnd.received response_headers]
    w1 iterations Ht1 Hw1) as (w2 & E & Ht2 & Et2); [by repeat constructor|done|].
  exists w2. split; [exact E|]. intros w3.
  destruct (StreamEnd.status_received Ok) as [Hgs Est]; [vm_compute; split; congruence|].
  assert (Et3 : Channel.trace w3 = Channel.trace w2 ++
    [Channel.SendData sid [] true; Channel.UserComplete id on_c Ok]).
  { unfold w3, chat_closes.
    rewrite (ChannelSends.talk_closes bench_user wire submit kAddr tcp_connect (λ _ _, eq_refl) (2 ^ 20)
      (Some on_m) on_c id sid (EndToEnd.received (status_trailers Ok)) _ w2 Ht2 Hw2 Hgs).
    by rewrite Est. }
  split_and!.
  - rewrite Et3, drop_app_length. cbn [collect fold_left sink_event]. by rewrite Z.eqb_refl.
  - rewrite Et3, Et2, Et1, <-!(assoc_L (++)). done.
  - destruct (EndToEnd.request_received kAddr "/bench.Core/Chat") as (Hpa & Hct & Htm).
    destruct bench_routes as (_ & _ & Hfind).
    destruct (chat_served spin depth bench_router (2 ^ 20) sid'
      (EndToEnd.received (Channel.request_headers kAddr "/bench.Core/Chat")) (mkEntry kBidi None (Some h_chat))
      (map (pair ping) pings) v) as [log Hlog]; try done.
    + apply Forall_map. eapply Forall_impl; [exact Hpings|]. intros c Hcat. split; [|exact Hcat].
      split; vm_compute; congruence.
    + by destruct pings.
    + exists log. rewrite map_map in Hlog. etrans; [exact Hlog|]. do 2 f_equal.
      unfold chat_trace. do 3 f_equal. clear. induction pings as [|c l IH]; [done|]. simpl. by rewrite <-IH.
Qed.
End Call.

(** ** The benchmark's own iteration *)
Definition demo_client : Channel.World :=
  Channel.do_uop (Channel.ApiSetMaxReceiveSize (2 ^ 20)) EndToEnd.demo_client.

Lemma download_end_to_end_witness :
  let m := chars (pretty kMessagesPerStream) in
  let step := ChannelRun.step bench_user (λ _ _, []) (λ _ _, 1) kAddr (Connecting tt) in
  let w1 := fold_left (λ w e, step e w) (download_calls 1 m 3 4 5) demo_client in
  let w2 := fold_left (λ w e, step e w)
    (download_reports 1 (StreamEnd.sent_bodies (download_response 1 kMessagesPerStream))) w1 in
  streaming_report 0 1 (collect 1 (drop (length (Channel.trace w1)) (Channel.trace w2)) new_sink) =
    inr (1000, 1024000).
Proof.
  intros m step w1 w2.
  destruct (download_end_to_end (λ _ _, []) (λ _ _, 1) (Connecting tt) 0 0 m kMessagesPerStream
    3 4 5 demo_client 1 new_world 1 [Framed m] (StreamEnd.sent_bodies (download_response 1 kMessagesPerStream)) 0)
    as (_ & _ & _ & H).
  - vm_compute. reflexivity.
  - reflexivity.
  - split; vm_compute; congruence.
  - split_and!; reflexivity.
  - split; [lia|]. intros w. split_and!; reflexivity.
  - split_and!; reflexivity.
  - apply not_elem_of_empty.
  - reflexivity.
  - reflexivity.
  - reflexivity.
  - apply H; [vm_compute; congruence|reflexivity].
Defined.

Lemma chat_echoes_witness :
  let m := [chr 104; chr 105] in
  ∃ log, trace (run bench_server 2 0 bench_router 1024
      (EvHeaders 1 (EndToEnd.received (Channel.request_headers kAddr "/bench.Core/Chat")) false ::
       concat (map (λ mc, BidiEnd.exchange_events 1 mc.2) [(m, [take 3 (Framed m); drop 3 (Framed m)])]) ++
       [EvData 1 None true]) new_world) =
    trace new_world ++ chat_trace 1 [m] ++ [LogCall "call_end" log].
Proof.
  intros m. apply (chat_echoes 0 0 bench_router 1024 1
    (EndToEnd.received (Channel.request_headers kAddr "/bench.Core/Chat"))
    (mkEntry kBidi None (Some h_chat)) [(m, [take 3 (Framed m); drop 3 (Framed m)])] new_world);
    try reflexivity.
  - apply not_elem_of_empty.
  - lia.
  - constructor; [|constructor]. split; [split; vm_compute; congruence|reflexivity].
  - discriminate.
Defined.

Lemma chat_end_to_end_witness :
  let step := ChannelRun.step bench_user (λ _ _, []) (λ _ _, 1) kAddr (Connecting tt) in
  let w1 := fold_left (λ w e, step e w) (chat_opens 3 4) demo_client in
  let answer := Framed (echo_of ping) in
  ∃ w2, chat_iterations (λ _ _, []) (λ _ _, 1) (Connecting tt) 0 1 1 5
    [EndToEnd.received response_headers] [[answer]; [take 1 answer; drop 1 answer]] w1 new_sink =
    (inr 2, w2, new_sink).
Proof.
  intros step w1 answer.
  destruct (chat_end_to_end (λ _ _, []) (λ _ _, 1) (Connecting tt) 0 0 3 4 5 demo_client 1 new_world 1
    [[Framed ping]; [Framed ping]] [[answer]; [take 1 answer; drop 1 answer]] 0) as (w2 & E & _).
  - split_and!; reflexivity.
  - split; [lia|]. split_and!; intros w; [split; reflexivity|reflexivity|reflexivity].
  - split_and!; reflexivity.
  - apply not_elem_of_empty.
  - reflexivity.
  - discriminate.
  - reflexivity.
  - repeat constructor.
  - repeat constructor.
  - exists w2. exact E.
Defined.

Lemma echo_end_to_end_witness :
  let m := replicate 64 "a"%char in
  let step := ChannelRun.step bench_user (λ _ _, []) (λ _ _, 1) kAddr (Connecting tt) in
  let w1 := fold_left (λ w e, step e w)
    [ChannelRun.EvApi (Channel.ApiCall "/bench.Core/Echo" (Framed m) 5000 (Some 3%nat)); ChannelRun.EvWake]
    demo_client in
  ∃ st, Channel.trace (fold_left (λ w e, step e w)
      (ChannelRun.EvHeaders 1 (EndToEnd.received response_headers) ::
       map (λ b, ChannelRun.EvData 1 (Some b)) [take 7 (Framed m); drop 7 (Framed m)] ++
       [ChannelRun.EvHeaders 1 (EndToEnd.received ok_trailers)]) w1) =
    Channel.trace w1 ++ [Channel.UserDone 1 (Some 3%nat) st m] ∧ unary_report 0 st = inr 1.
Proof.
  intros m step w1.
  destruct (echo_end_to_end (λ _ _, []) (λ _ _, 1) (Connecting tt) 0 0 m 3 demo_client 1 new_world 1
    [Framed m] [take 7 (Framed m); drop 7 (Framed m)] 0) as (_ & _ & H).
  - split_and!; reflexivity.
  - reflexivity.
  - split; [lia|]. intros w. split; reflexivity.
  - split_and!; reflexivity.
  - apply not_elem_of_empty.
  - reflexivity.
  - split; vm_compute; congruence.
  - reflexivity.
  - reflexivity.
  - exact H.
Defined.
