(* ===== verification/BenchUnary.v ===== *)
(** * The unary benchmarks (api/bench/bench_unary.cpp)

    What the typed unary benchmarks make of their calls.  [SerialRTT] makes one
    blocking call after the other.  [FourInFlightThroughput]
    is two threads: the benchmark's, which makes four calls and waits, and the
    channel's loop, which runs their callbacks one at a time; both work on the
    same counters.  Their steps interleave in any order. *)
From S2P Require Import Prelude Status CxxString Codec Api Arena.
From S2P Require UnaryServer UnaryClient TypedEnd.

Definition kPayloadBytes : nat := 1024.
Definition g_payload : bytes := replicate kPayloadBytes "x"%char.
Definition batch : nat := 4.

(** [SerialRTT]: the result of a call either ends the benchmark or not. *)
Definition serial_report {A} (r : UnaryClient.Result A) : option string :=
  if negb (UnaryClient.result_ok r) then Some (ToString (UnaryClient.status_ r)) else None.

(** ** A call after the other

    The generated accessors of the messages are parameters. *)
Section Serial.
Context {M : MethodTraits} (request_of : bytes → ReqType) (text : ReqType → bytes) (response_of : bytes → ResType).

Definition MakeRequest : ReqType := request_of g_payload.

(** The handler of [SetupOnce]. *)
Definition echo_handler (req : ReqType) : Status * option ResType := (Ok, Some (response_of (text req))).

(** One iteration, when the core answers its call with [st] and [payload]. *)
#[local] Abbreviation event := (UnaryClient.do_event (λ _, false)
  (reenter_to (UnaryClient.do_op (λ _, false)) (λ _ _, []) 0)).
Definition serial_call (t : nat) (w : UnaryClient.World) : UnaryClient.World :=
  event (UnaryClient.EvCall t false "example.EchoService" "Echo" MakeRequest 5000) w.
Definition serial_iteration (t : nat) (st : Status) (payload : bytes) (w : UnaryClient.World) : UnaryClient.World :=
  event (UnaryClient.EvReturn t)
    (event (UnaryClient.EvAnswer (length (UnaryClient.made w)) st payload) (serial_call t w)).

(** The serial benchmark makes its round trip.  On an open channel, after any
    calls, an iteration gives the core one request of 1 KiB; the echo handler's
    wrapper answers it with OK and the same text; and that answer makes the
    blocked call return its message, so that the benchmark goes on. *)
Theorem serial_round_trip es t buf payload :
  let w := fold_left (λ w e, event e w) es UnaryClient.new_channel in
  UnaryClient.channel_alive w = true → UnaryClient.closed_ w = false →
  text MakeRequest = g_payload →
  EncodeRequest MakeRequest = Some buf → ParseRequest buf = Some MakeRequest →
  EncodeResponse (response_of g_payload) = Some payload → ParseResponse payload = Some (response_of g_payload) →
  UnaryClient.trace (serial_call t w) = UnaryClient.trace w ++
    [UnaryClient.CoreCall (length (UnaryClient.made w)) "/example.EchoService/Echo" (EncodeFrame buf []) 5000] ∧
  TypedEnd.wrapper_reply echo_handler buf = (Ok, payload) ∧
  ∃ r, UnaryClient.returned (serial_iteration t Ok payload w) = UnaryClient.returned w ++ [(t, r)] ∧
    UnaryClient.shown r = (Ok, Some (response_of g_payload)) ∧ serial_report r = None.
Proof.
  intros w Hal Hc Htext Hq Hpq Hr Hpr. split_and!.
  - apply (UnaryClient.sync_call_returns (λ _, false) es t "example.EchoService" "Echo" MakeRequest 5000
      buf Ok payload); done.
  - rewrite TypedEnd.wrapper_reply_eq. unfold UnaryServer.unary_reply. simpl. rewrite Hpq.
    unfold echo_handler. by rewrite Htext, Hr.
  - destruct (UnaryClient.sync_call_returns (λ _, false) es t "example.EchoService" "Echo" MakeRequest 5000
      buf Ok payload) as (_ & _ & r & Hs & Hret & _); [done..|].
    exists r. split; [exact Hret|]. unfold UnaryClient.typed_result in Hs. simpl in Hs. rewrite Hpr in Hs.
    split; [exact Hs|]. unfold serial_report, UnaryClient.result_ok. destruct r as [st [[x p]|]]; [|done].
    by injection Hs as -> ->.
Qed.
End Serial.

(** ** The batch *)

(** A callback on the loop's thread: the status of its call and what it has
    still to do. *)
Inductive CbPhase := AddFailed | AddCompleted | Notify.

Inductive Verdict := Stalled | Failures | Processed (items : nat).

(** The benchmark's thread: calls to make, a check of the wait's predicate (the
    last one after the timeout), about to block in the wait, blocked in it, the
    two loads after it, and the end of the iteration. *)
Inductive Waiter :=
  | Calling (n : nat)
  | Checking (timed_out : bool)
  | AboutToBlock
  | Blocked
  | LoadCompleted
  | LoadFailed
  | Finished (v : Verdict).

Record Batch := mkBatch {
  completed : nat;
  failed : nat;
  waiter : Waiter;
  waiting : list Status;                    (* calls that have ended, whose callbacks wait *)
  running : option (Status * CbPhase);      (* the callback that runs *)
  results : list Status                     (* ghost: the ends of the calls made *)
}.
#[export] Instance eta_Batch : EtaRecord Batch := λ b,
  mkBatch (completed b) (failed b) (waiter b) (waiting b) (running b) (results b).

(** An iteration stores 0 in both counters and makes its calls. *)
Definition new_batch : Batch := mkBatch 0 0 (Calling batch) [] None [].

(** The steps of the callback. *)
Definition run_callback (b : Batch) : Batch :=
  match running b with
  | None => b
  | Some (st, AddFailed) =>
      (if negb (ok st) then b <| failed ::= S |> else b) <| running := Some (st, AddCompleted) |>
  | Some (st, AddCompleted) => b <| completed ::= S |> <| running := Some (st, Notify) |>
  | Some (st, Notify) =>
      (match waiter b with Blocked => b <| waiter := Checking false |> | _ => b end)
        <| running := None |>
  end.

(** The steps of the benchmark's thread. *)
Definition run_waiter (b : Batch) : Batch :=
  match waiter b with
  | Calling O => b <| waiter := Checking false |>
  | Checking timed_out =>
      if (completed b =? batch)%nat then b <| waiter := LoadCompleted |>
      else if timed_out then b <| waiter := LoadCompleted |>
      else b <| waiter := AboutToBlock |>
  | AboutToBlock => b <| waiter := Blocked |>
  | LoadCompleted =>
      if negb (completed b =? batch)%nat then b <| waiter := Finished Stalled |>
      else b <| waiter := LoadFailed |>
  | LoadFailed =>
      if (0 <? failed b)%nat then b <| waiter := Finished Failures |>
      else b <| waiter := Finished (Processed batch) |>
  | _ => b
  end.

(** [CallAsync]; the call may end with any status. *)
Definition call_async (st : Status) (b : Batch) : Batch :=
  match waiter b with
  | Calling (S n) =>
      b <| waiter := Calling n |> <| waiting ::= λ l, l ++ [st] |> <| results ::= λ l, l ++ [st] |>
  | _ => b
  end.

Inductive step : Batch → Batch → Prop :=
  | step_call st b : step b (call_async st b)
  | step_end b st l1 l2 :                          (* calls end in any order *)
      running b = None → waiting b = l1 ++ st :: l2 →
      step b (b <| waiting := l1 ++ l2 |> <| running := Some (st, AddFailed) |>)
  | step_callback b : step b (run_callback b)
  | step_waiter b : step b (run_waiter b)
  | step_timeout b : waiter b = Blocked → step b (b <| waiter := Checking true |>)
  | step_spurious b : waiter b = Blocked → step b (b <| waiter := Checking false |>).

Definition reachable : Batch → Prop := rtc step new_batch.

(** ** What is counted *)
Definition failing (l : list Status) : nat := length (filter (λ st, ok st = false) l).
#[global] Arguments failing : simpl never.

(** The callbacks that have not reached each counter. *)
Definition uncompleted (b : Batch) : nat :=
  length (waiting b) + match running b with
                       | Some (_, AddFailed) | Some (_, AddCompleted) => 1
                       | _ => 0
                       end.
Definition uncounted (b : Batch) : nat :=
  failing (waiting b) + match running b with
                        | Some (st, AddFailed) => failing [st]
                        | _ => 0
                        end.
Definition to_call (b : Batch) : nat := match waiter b with Calling n => n | _ => 0 end.

Record Inv (b : Batch) : Prop := {
  inv_completed : (completed b + uncompleted b = length (results b))%nat;
  inv_failed : (failed b + uncounted b = failing (results b))%nat;
  inv_calls : (length (results b) + to_call b = batch)%nat;
  inv_loaded : waiter b = LoadFailed → completed b = batch;
  inv_verdict : ∀ v, waiter b = Finished v → v = Stalled ∨ completed b = batch ∧
    (v = if (0 <? failing (results b))%nat then Failures else Processed batch)
}.

Lemma failing_app l1 l2 : failing (l1 ++ l2) = (failing l1 + failing l2)%nat.
Proof. unfold failing. by rewrite filter_app, length_app. Qed.
Lemma failing_cons st l : failing (st :: l) = (failing [st] + failing l)%nat.
Proof. apply (failing_app [st]). Qed.
Lemma failing_one st : failing [st] = if ok st then 0%nat else 1%nat.
Proof. unfold failing. rewrite filter_cons. by destruct (ok st). Qed.

(** When all four callbacks have completed, every failure is counted. *)
Lemma all_counted b : Inv b → completed b = batch → failed b = failing (results b).
Proof.
  intros [Hc Hf Hn _ _] E. rewrite E in Hc.
  assert (uncompleted b = 0%nat) as Hu by lia. unfold uncompleted, uncounted in *.
  destruct (waiting b) as [|st l]; [|simpl in Hu; lia].
  destruct (running b) as [[st []]|]; simpl in *; lia.
Qed.

Lemma new_batch_Inv : Inv new_batch.
Proof. by split. Qed.

Lemma call_async_Inv st b : Inv b → Inv (call_async st b).
Proof.
  intros [Hc Hf Hn Hl Hv]. unfold call_async.
  destruct (waiter b) as [[|n]|to| | | | |v] eqn:Hw; try by split; rewrite ?Hw.
  split; simpl; try done.
  - unfold uncompleted in *. simpl. rewrite !length_app. simpl. lia.
  - unfold uncounted in *. simpl. rewrite !failing_app. lia.
  - unfold to_call in *. rewrite Hw in Hn. simpl. rewrite length_app. simpl. lia.
Qed.

Lemma end_Inv b st l1 l2 :
  running b = None → waiting b = l1 ++ st :: l2 → Inv b →
  Inv (b <| waiting := l1 ++ l2 |> <| running := Some (st, AddFailed) |>).
Proof.
  intros Hr Hw [Hc Hf Hn Hl Hv]. split; simpl; try done.
  - unfold uncompleted in *. simpl. rewrite Hr, Hw, !length_app in *. simpl in *. lia.
  - unfold uncounted in *. simpl. rewrite Hr, Hw, failing_app, (failing_cons st l2) in Hf.
    rewrite failing_app. lia.
Qed.

(** Once all have completed, only notifications are left. *)
Lemma completed_all b : Inv b → completed b = batch →
  waiting b = [] ∧ ∀ st ph, running b = Some (st, ph) → ph = Notify.
Proof.
  intros [Hc _ Hn _ _] E. rewrite E in Hc. assert (uncompleted b = 0%nat) as Hu by lia.
  unfold uncompleted in Hu. split; [destruct (waiting b); [done|simpl in Hu; lia]|].
  intros st ph Hr. rewrite Hr in Hu. destruct ph; [lia|lia|done].
Qed.

Lemma run_callback_Inv b : Inv b → Inv (run_callback b).
Proof.
  intros HI. pose proof (completed_all b HI) as Hall. destruct HI as [Hc Hf Hn Hl Hv]. unfold run_callback.
  destruct (running b) as [[st []]|] eqn:Hr; [..|by split; rewrite ?Hr].
  - assert (waiter b = LoadFailed ∨ (∃ v, waiter b = Finished v ∧ v ≠ Stalled) → False) as Hno.
    { intros [H|(v & H & Hne)].
      - destruct (Hall (Hl H)) as [_ Hp]. by specialize (Hp st AddFailed eq_refl).
      - destruct (Hv v H) as [?|[E _]]; [done|]. destruct (Hall E) as [_ Hp].
        by specialize (Hp st AddFailed eq_refl). }
    assert (Hv' : ∀ v, waiter b = Finished v → v = Stalled).
    { intros v H. destruct (Hv v H) as [?|[E _]]; [done|]. exfalso. apply Hno. right. exists v. split; [done|].
      intros ->. destruct (Hall E) as [_ Hp]. by specialize (Hp st AddFailed eq_refl). }
    unfold uncompleted, uncounted in *. rewrite Hr in *. rewrite failing_one in Hf.
    destruct (ok st); split; unfold uncompleted, uncounted; simpl; try done; try lia;
      intros v H; left; by apply Hv'.
  - assert (Hv' : ∀ v, waiter b = Finished v → v = Stalled).
    { intros v H. destruct (Hv v H) as [?|[E _]]; [done|].
      destruct (Hall E) as [_ Hp]. by specialize (Hp st AddCompleted eq_refl). }
    unfold uncompleted, uncounted in *. rewrite Hr in *.
    split; unfold uncompleted, uncounted; simpl; try done; try lia; [|intros v H; left; by apply Hv'].
    intros H. destruct (Hall (Hl H)) as [_ Hp]. by specialize (Hp st AddCompleted eq_refl).
  - unfold uncompleted, uncounted in *. rewrite Hr in *.
    unfold to_call in *.
    destruct (waiter b) eqn:Hw; split; unfold uncompleted, uncounted, to_call; simpl;
      rewrite ?Hw; try done; try lia.
Qed.

Lemma run_waiter_Inv b : Inv b → Inv (run_waiter b).
Proof.
  intros HI. pose proof (all_counted b HI) as Hcnt. destruct HI as [Hc Hf Hn Hl Hv]. unfold run_waiter.
  destruct (waiter b) as [[|n]|to| | | | |v] eqn:Hw; try by split; rewrite ?Hw.
  - unfold to_call in Hn. rewrite Hw in Hn. by split.
  - unfold to_call in Hn. rewrite Hw in Hn. by destruct (completed b =? batch)%nat, to; split.
  - unfold to_call in Hn. rewrite Hw in Hn. by split.
  - unfold to_call in Hn. rewrite Hw in Hn. destruct (Nat.eqb_spec (completed b) batch) as [E|E]; simpl.
    + by split.
    + split; try done. intros v [= <-]. by left.
  - unfold to_call in Hn. rewrite Hw in Hn. rewrite (Hcnt (Hl eq_refl)).
    destruct (0 <? failing (results b))%nat eqn:Hz; split; try done;
      simpl; intros v [= <-]; right; by rewrite Hz, (Hl eq_refl).
Qed.

Lemma batch_step_Inv b b' : Inv b → step b b' → Inv b'.
Proof.
  intros HI Hs. destruct Hs as [st b|b st l1 l2 Hr Hw|b|b|b Hw|b Hw].
  - by apply call_async_Inv.
  - by apply end_Inv.
  - by apply run_callback_Inv.
  - by apply run_waiter_Inv.
  - destruct HI as [Hc Hf Hn Hl Hv]. unfold to_call in Hn. rewrite Hw in Hn. by split.
  - destruct HI as [Hc Hf Hn Hl Hv]. unfold to_call in Hn. rewrite Hw in Hn. by split.
Qed.

Lemma reachable_batch_Inv b : reachable b → Inv b.
Proof.
  unfold reachable. generalize new_batch_Inv. generalize new_batch.
  intros b0 HI Hr. induction Hr as [|b0 b1 b2 Hs _ IH]; [done|]. by apply IH, (batch_step_Inv b0).
Qed.

(** ** Verdicts *)

Lemma failing_none l : failing l = 0%nat ↔ Forall (λ st, ok st = true) l.
Proof.
  induction l as [|st l IH]; [by split|]. rewrite failing_cons, failing_one, Forall_cons.
  destruct (ok st); simpl; [rewrite IH; naive_solver|split; [lia|naive_solver]].
Qed.

Lemma failing_some l : (0 < failing l)%nat → Exists (λ st, ok st = false) l.
Proof.
  induction l as [|st l IH]; [unfold failing; simpl; lia|]. rewrite failing_cons, failing_one.
  destruct (ok st) eqn:E; [right; apply IH; lia|by left].
Qed.

(** C30: the verdict of a batch is right, whatever the interleaving.  An iteration
    of [FourInFlightThroughput] that ends has made four calls; it reports four
    items only when all of them ended with OK, and failures only when all four
    callbacks have completed and one of the calls has failed: a callback counts
    its failure before it counts itself, so that no failure is missed. *)
Theorem batch_verdict_sound b v :
  reachable b → waiter b = Finished v →
  length (results b) = batch ∧
  match v with
  | Stalled => True
  | Failures => completed b = batch ∧ Exists (λ st, ok st = false) (results b)
  | Processed n => n = batch ∧ completed b = batch ∧ Forall (λ st, ok st = true) (results b)
  end.
Proof.
  intros HI%reachable_batch_Inv Hw. destruct HI as [Hc Hf Hn Hl Hv].
  unfold to_call in Hn. rewrite Hw in Hn. split; [lia|].
  destruct (Hv v Hw) as [->|[E Ev]]; [done|]. destruct (Nat.ltb_spec 0 (failing (results b))) as [Hz|Hz].
  - subst v. split; [done|]. by apply failing_some.
  - subst v. split_and!; [done|done|]. apply failing_none. lia.
Qed.

(** Runs of the two threads, for concrete interleavings. *)
Inductive Act := Call (st : Status) | End | Callback | Wait | Timeout.
Definition act (a : Act) (b : Batch) : Batch :=
  match a with
  | Call st => call_async st b
  | End => match running b, waiting b with
           | None, st :: l => b <| waiting := l |> <| running := Some (st, AddFailed) |>
           | _, _ => b
           end
  | Callback => run_callback b
  | Wait => run_waiter b
  | Timeout => match waiter b with Blocked => b <| waiter := Checking true |> | _ => b end
  end.
Definition acts (l : list Act) : Batch := fold_left (λ b a, act a b) l new_batch.

Lemma act_reaches a b : rtc step b (act a b).
Proof.
  destruct a as [st| | | |]; simpl.
  - apply rtc_once, step_call.
  - destruct (running b) eqn:Hr; [done|]. destruct (waiting b) as [|st l] eqn:Hw; [done|].
    apply rtc_once. by apply (step_end b st [] l).
  - apply rtc_once, step_callback.
  - apply rtc_once, step_waiter.
  - destruct (waiter b) eqn:Hw; try done. by apply rtc_once, step_timeout.
Qed.

Lemma acts_reachable l : reachable (acts l).
Proof.
  unfold reachable, acts. generalize new_batch. induction l as [|a l IH]; intros b; [done|].
  cbn [fold_left]. etrans; [apply act_reaches|apply IH].
Qed.

Definition run_all : list Act := concat (replicate batch [End; Callback; Callback; Callback]).
Definition call_all (sts : list Status) : list Act := map Call sts ++ [Wait].
Definition oks : list Status := [Ok; Ok; Ok; Ok].

(** The wake-up of the last callback can be lost.  The counters are atomics that
    change without the mutex: the thread that has just seen three callbacks can
    block after the fourth has notified; of the steps of both threads none is left
    then, and the thread waits for the timeout of two seconds, or for a spurious
    wake-up. *)
Theorem wakeup_lost :
  ∃ b, reachable b ∧ completed b = batch ∧ waiting b = [] ∧ running b = None ∧ waiter b = Blocked ∧
    run_callback b = b ∧ run_waiter b = b ∧ ∀ st, call_async st b = b.
Proof.
  exists (acts (call_all oks ++ take 13 run_all ++ [Wait] ++ drop 13 run_all ++ [Wait])).
  split; [apply acts_reachable|]. by vm_compute.
Qed.

(** The benchmark can end under a callback.  The last callback notifies a
    condition variable that is a local of the benchmark: an iteration can succeed
    before it does, and one that stalls leaves callbacks that have still to count. *)
Theorem callback_outlives_batch :
  (∃ b st, reachable b ∧ waiter b = Finished (Processed batch) ∧ running b = Some (st, Notify)) ∧
  (∃ b, reachable b ∧ waiter b = Finished Stalled ∧ waiting b ≠ []).
Proof.
  split.
  - exists (acts (call_all oks ++ take 15 run_all ++ [Wait; Wait; Wait; Wait])), Ok.
    split; [apply acts_reachable|]. by vm_compute.
  - exists (acts (call_all oks ++ [Wait; Wait; Timeout; Wait; Wait])).
    split; [apply acts_reachable|]. by vm_compute.
Qed.

Lemma batch_verdict_sound_witness :
  let bad := mkStatus kUnavailable "gone" in
  let b := acts (call_all [Ok; bad; Ok; Ok] ++ run_all ++ [Wait; Wait; Wait]) in
  waiter b = Finished Failures ∧ Exists (λ st, ok st = false) (results b).
Proof.
  intros bad b. split; [reflexivity|].
  destruct (batch_verdict_sound b Failures (acts_reachable _) eq_refl) as (_ & _ & H). exact H.
Defined.

(** ** A concrete iteration *)
Section Demo.
#[local] Existing Instance demo_traits.

Lemma serial_round_trip_witness :
  ∃ r, UnaryClient.returned (serial_iteration (M := demo_traits) (λ b, b) 1 Ok (chr 10 :: g_payload)
      UnaryClient.new_channel) = [(1%nat, r)] ∧
    UnaryClient.shown r = (Ok, Some g_payload) ∧ serial_report r = None.
Proof.
  destruct (serial_round_trip (M := demo_traits) (λ b, b) (λ b, b) (λ b, b) [] 1
    (chr 10 :: g_payload) (chr 10 :: g_payload)) as (_ & _ & r & Hr & Hs & Hn); try reflexivity.
  exists r. split; [exact Hr|]. split; [exact Hs|exact Hn].
Defined.
End Demo.
