(* ===== verification/BenchStreaming.v ===== *)
(** * The streaming benchmarks (api/bench/bench_streaming.cc)

    The typed handlers of the streaming benchmarks, as the handlers of
    StreamServer.v, and what the throughput benchmark makes of its stream.  The
    generated accessors of the messages are parameters: the size that a download
    request asks for, and the chunk with given data. *)
From S2P Require Import Prelude Status CxxString Wire Codec Router Loop Platform Arena Api.
From S2P Require Channel ChannelRun UnaryClient StreamClient ServerConn ServerRun ServerStreams.
From S2P Require Import StreamServer StreamServerRun StreamChain.
From S2P Require EndToEnd TypedEnd StreamEnd TypedStream TypedChain.

Definition kChunksPerStream : Z := 1000.
Definition kChunkBytes : Z := 8.

Section Download.
Context {M : MethodTraits} (file_size : ReqType → Z) (chunk : bytes → ResType).

(** The bytes of the [idx]th chunk: [take] times the low byte of its index. *)
Definition chunk_data (take idx : Z) : bytes := replicate (Z.to_nat take) (chr (Z.land idx 255)).

(** The lambda given to a write, with what it captures. *)
Definition chunk_sent (size next next_idx : Z) : nat := encode_nat (size, next, next_idx).

(** [arm]: the next chunk of a file of [size] bytes of which [sent] were sent. *)
Definition download_arm (size sent idx : Z) : list Op :=
  if size <=? sent then []
  else
    let take := Z.min kChunkBytes (size - sent) in
    [OpWrite (Some (chunk (chunk_data take idx)))
       (Some (chunk_sent size (u64 (sent + take)) (u32 (idx + 1))))].

Definition download_handler (o : Out) (w : World) : list Op :=
  match o with
  | ServerStreamingHandler req _ => download_arm (file_size req) 0 0
  | UserDelivered cb st =>
      match decode_nat cb with
      | Some (size, next, next_idx) => if negb (ok st) then [] else download_arm size next next_idx
      | None => []
      end
  | _ => []
  end.

(** The chunks of a file, with the callbacks of their writes. *)
Definition chunk_count (size : Z) : Z := (size + 7) / kChunkBytes.
Definition chunk_length (size k : Z) : Z := Z.min kChunkBytes (size - kChunkBytes * k).
Definition file_chunks (size : Z) : list (ResType * nat) :=
  map (λ k, (chunk (chunk_data (chunk_length size k) (u32 k)),
             chunk_sent size (kChunkBytes * k + chunk_length size k) (u32 (k + 1))))
    (seqZ 0 (chunk_count size)).

Lemma chunk_count_spec size k : 0 ≤ size → k < chunk_count size ↔ kChunkBytes * k < size.
Proof.
  intros Hs. unfold chunk_count, kChunkBytes.
  pose proof (Z.div_mod (size + 7) 8). pose proof (Z.mod_pos_bound (size + 7) 8). lia.
Qed.

Lemma file_chunk size k :
  0 ≤ size → file_chunks size !! k =
    if kChunkBytes * Z.of_nat k <? size
    then Some (chunk (chunk_data (chunk_length size (Z.of_nat k)) (u32 (Z.of_nat k))),
               chunk_sent size (kChunkBytes * Z.of_nat k + chunk_length size (Z.of_nat k)) (u32 (Z.of_nat k + 1)))
    else None.
Proof.
  intros Hs. unfold file_chunks. rewrite list_lookup_fmap.
  pose proof (chunk_count_spec size (Z.of_nat k) Hs) as Hc.
  destruct (Z.ltb_spec (kChunkBytes * Z.of_nat k) size) as [Hk|Hk].
  - rewrite lookup_seqZ_lt by (apply Hc; lia). done.
  - rewrite lookup_seqZ_ge by lia. done.
Qed.

Lemma u32_idem_succ k : u32 (u32 k + 1) = u32 (k + 1).
Proof. unfold u32. by rewrite Zplus_mod_idemp_l. Qed.

Lemma arm_chunk size k :
  0 ≤ size < 2 ^ 64 → 
  download_arm size (kChunkBytes * Z.of_nat k) (u32 (Z.of_nat k)) = next_write (file_chunks size) k.
Proof.
  intros [Hs Hb]. unfold download_arm, next_write. rewrite file_chunk by done.
  destruct (Z.leb_spec size (kChunkBytes * Z.of_nat k)) as [H|H].
  - by destruct (Z.ltb_spec (kChunkBytes * Z.of_nat k) size); [lia|].
  - destruct (Z.ltb_spec (kChunkBytes * Z.of_nat k) size); [|lia]. unfold chunk_length, kChunkBytes in *.
    rewrite u32_idem_succ, u64_small by lia. done.
Qed.

(** The handler chains the chunks of the file. *)
Lemma download_chains req :
  0 ≤ file_size req < 2 ^ 64 → chains download_handler req (file_chunks (file_size req)).
Proof.
  intros Hs. split.
  - intros p w. exact (arm_chunk (file_size req) 0 Hs).
  - intros k m cb w Hk. rewrite file_chunk in Hk by lia.
    destruct (Z.ltb_spec (kChunkBytes * Z.of_nat k) (file_size req)) as [Hlt|]; [|done].
    injection Hk as <- <-. unfold download_handler, chunk_sent. rewrite decode_encode_nat. cbn [negb ok].
    change (negb (ok Ok)) with false. cbn match.
    rewrite <-(arm_chunk (file_size req) (S k) Hs). unfold chunk_length, kChunkBytes in *.
    destruct (Z.le_gt_cases (file_size req) (8 * Z.of_nat (S k))) as [Hend|Hmore].
    + unfold download_arm. rewrite !(proj2 (Z.leb_le _ _)) by lia. done.
    + rewrite Z.min_l by lia. f_equal; [lia|f_equal; lia].
Qed.

(** The data of the chunks, in order. *)
Definition file_data (size : Z) : list bytes :=
  map (λ k, chunk_data (chunk_length size k) (u32 k)) (seqZ 0 (chunk_count size)).

Lemma file_data_size size : 0 ≤ size → Z.of_nat (length (concat (file_data size))) = size.
Proof.
  intros Hs. unfold file_data.
  assert (Hn : ∀ n, Z.of_nat n ≤ chunk_count size →
    Z.of_nat (length (concat (map (λ k, chunk_data (chunk_length size k) (u32 k)) (seqZ 0 (Z.of_nat n))))) =
    Z.min size (kChunkBytes * Z.of_nat n)).
  { induction n as [|n IH]; intros Hle; [simpl; unfold kChunkBytes; lia|].
    rewrite seqZ_S, map_app, concat_app, length_app, Nat2Z.inj_add, IH by lia. simpl.
    rewrite app_nil_r. unfold chunk_data. rewrite length_replicate.
    pose proof (proj1 (chunk_count_spec size (Z.of_nat n) Hs)).
    unfold chunk_length, kChunkBytes in *. lia. }
  pose proof (Z.div_mod (size + 7) 8). pose proof (Z.mod_pos_bound (size + 7) 8).
  specialize (Hn (Z.to_nat (chunk_count size))). unfold chunk_count, kChunkBytes in *.
  rewrite Z2Nat.id in Hn by lia. rewrite Hn; lia.
Qed.

(** What [BM_ServerStreamingThroughput] makes of the messages it got and the
    status of its stream. *)
Definition throughput_report (iterations : Z) (fin : Status) (got : nat) : string + Z :=
  if negb (ok fin) || negb (Z.of_nat got =? kChunksPerStream) then inl "stream incomplete"
  else inr (iterations * kChunksPerStream + Z.of_nat got).

(** C21: the download streams the file.  For a request for [size] bytes, any
    64-bit number, the handler gives the core one chunk at a time, each when the
    one before was delivered; no chunk is empty or longer than 8 bytes, together
    they are exactly [size] bytes, and the stream is finished with OK after the
    last; a request for none is answered with UNIMPLEMENTED.  The 8000 bytes of
    the benchmark are the 1000 chunks that its iteration expects. *)
Theorem download_streams_file req data ps iterations :
  let size := file_size req in
  ParseRequest data = Some req → 0 ≤ size < 2 ^ 64 →
  mapM EncodeResponse (map chunk (file_data size)) = Some ps →
  (size = 0 → trace (typed_begin download_handler Ok false data) =
     [CoreRead 0; ServerStreamingHandler req 0; CoreFinish ByWrapper no_responses]) ∧
  (0 < size → trace (typed_answered download_handler data (length ps)) =
     [CoreRead 0; ServerStreamingHandler req 0] ++ chain_trace 1 (zip ps (file_chunks size).*2) ++
     [CoreFinish ByAuto Ok]) ∧
  Z.of_nat (length (concat (file_data size))) = size ∧
  Forall (λ c, 0 < Z.of_nat (length c) ≤ kChunkBytes) (file_data size) ∧
  (size = kChunksPerStream * kChunkBytes →
   throughput_report iterations Ok (length ps) = inr ((iterations + 1) * kChunksPerStream)).
Proof.
  intros size Hreq Hs Hps. fold size in Hs. pose proof (download_chains req Hs) as HL. fold size in HL.
  assert (HLs : (file_chunks size).*1 = map chunk (file_data size)).
  { unfold file_chunks, file_data. change (?f <$> ?l) with (map f l). by rewrite !map_map. }
  assert (Hlen : length ps = Z.to_nat (chunk_count size)).
  { pose proof (Forall2_length _ _ _ (proj1 (mapM_Some _ _ _) Hps)) as E.
    unfold file_data in E. by rewrite !length_map, length_seqZ in E. }
  assert (HlenL : length (file_chunks size) = length ps).
  { unfold file_chunks. by rewrite length_map, length_seqZ. }
  pose proof (chunk_count_spec size 0 (proj1 Hs)) as H0. rewrite Z.mul_0_r in H0.
  rewrite <-HLs in Hps. split_and!.
  - intros Hz. apply (typed_empty download_handler req data Hreq (file_chunks size) HL).
    apply nil_length_inv. rewrite HlenL, Hlen. lia.
  - intros Hpos. rewrite <-HlenL.
    apply (typed_full download_handler req data Hreq (file_chunks size) ps Hps HL).
    intros E. rewrite E in HlenL. simpl in HlenL. lia.
  - apply file_data_size, Hs.
  - unfold file_data. apply Forall_map, Forall_forall. intros k [? Hk]%elem_of_seqZ.
    pose proof (proj1 (chunk_count_spec size k (proj1 Hs))).
    unfold chunk_data, chunk_length, kChunkBytes in *. rewrite length_replicate. lia.
  - intros Hsz. rewrite Hlen. unfold throughput_report.
    assert (chunk_count size = kChunksPerStream) as -> by by rewrite Hsz.
    rewrite Z2Nat.id, Z.eqb_refl by (unfold kChunksPerStream; lia).
    change (negb (ok Ok) || negb true) with false. cbn match. f_equal. ring.
Qed.
End Download.

(** ** The chat *)
Section Chat.
Context {M : MethodTraits} (echo : ReqType → ResType).

(** [arm], the callback of every read: copy the text and the number of the
    message, [echo], write, and read again. *)
Definition chat_arm (st : Status) (eos : bool) (msg : option (ReqType * nat)) : list Op :=
  if negb (ok st) then []
  else if eos then [OpFinish Ok]
  else match msg with
       | Some (m, _) => [OpWrite (Some (echo m)) None; OpRead 0]
       | None => []                         (* a null message: its text is read *)
       end.

Definition chat_handler (o : Out) (w : World) : list Op :=
  match o with
  | BidiHandler => [OpRead 0]
  | UserRead _ st eos msg => chat_arm st eos msg
  | _ => []
  end.

#[local] Abbreviation op d :=
  (do_op (λ _, false) Service.kBidi (λ _ _, false)
    (reenter_to (do_op (λ _, false) Service.kBidi (λ _ _, false)) chat_handler d)).
#[local] Abbreviation run d := (run Service.kBidi (λ _, false) (λ _ _, false) chat_handler d).

(** The stream between two messages: the handler's read is with the core. *)
Definition listening (k : nat) (w : World) : Prop :=
  writable w ∧ reads w !! (2 * k)%nat = Some (UserReadFn 0) ∧ next_tok w = (2 * k + 1)%nat ∧
  news (arenas w) = (2 * k + 1)%nat ∧ in_flight w = 0%nat ∧ handler_returned w = false.

(** The core answers the read with a message, and then the write of its echo. *)
Definition exchange (k : nat) (data : bytes) : list Op :=
  [OpAnswerRead (2 * k) Ok false data; OpAnswerWrite (2 * k + 1) Ok].
Definition exchange_trace (k : nat) (m : ReqType) (p : bytes) : list Out :=
  [UserRead 0 Ok false (Some (m, (2 * k + 1)%nat)); CoreWrite (2 * k + 1) p; CoreRead (2 * S k);
   WriteAnswered (2 * k + 1)].

#[local] Abbreviation re := (reenter_to (do_op (λ _, false) Service.kBidi (λ _ _, false)) chat_handler).

Lemma chat_ops d o w : re (S d) o w = fold_left (λ w o, op d o w) (chat_handler o w) w.
Proof. reflexivity. Qed.
Lemma chat_quiet d o w : chat_handler o w = [] → re d o w = w.
Proof. intros E. destruct d; [done|]. by rewrite chat_ops, E. Qed.

(** A read of the handler. *)
Lemma chat_read d w :
  views w = true → throwing w = false →
  op d (OpRead 0) w = w <| asked_reads ::= λ l, l ++ [0%nat] |> <| next_tok ::= S |>
    <| reads ::= <[next_tok w := UserReadFn 0]> |> <| trace ::= λ t, t ++ [CoreRead (next_tok w)] |>.
Proof.
  intros Hv Hth. unfold do_op. rewrite Hth, Hv. cbn [has_reader andb]. unfold ReadMessage, core_read, call_out.
  by rewrite chat_quiet.
Qed.

(** A write of the handler. *)
Lemma chat_write d m p w :
  EncodeResponse m = Some p → writable w →
  op d (OpWrite (Some m) None) w = wrote_one p w.
Proof.
  intros Hm (Hwf & Hf & Hv & Hth). unfold do_op. rewrite Hth, Hv. cbn [has_writer andb]. unfold Write.
  cbv beta iota zeta. rewrite Hf, new_eq. cbn match. rewrite Hm. cbn [snd]. unfold core_write, call_out.
  rewrite chat_quiet by done. unfold wrote_one, free. simpl. by rewrite free_allocated.
Qed.

Lemma chat_begins d :
  listening 0 (run (S d) [OpBody] new_stream) ∧
  trace (run (S d) [OpBody] new_stream) = [BidiHandler; CoreRead 0].
Proof.
  unfold StreamServerRun.run, step. cbn [fold_left]. unfold do_op at 1 3. cbn [throwing new_stream started].
  unfold body, form_body, bidi_body, make_reader. cbv beta iota zeta. rewrite new_eq. cbv beta iota zeta.
  unfold call_out. rewrite chat_ops. cbn [chat_handler fold_left].
  match goal with |- context [op d (OpRead 0) ?x] => set (w1 := x) end.
  rewrite (chat_read d w1) by done. unfold contain, raise. cbn match. simpl throwing.
  split; [|done]. split; [|by split_and!].
  split; [apply allocated_wf, no_arenas_accounted|done].
Qed.

(** The read is answered: the handler writes the echo and reads again. *)
Lemma chat_hears d k data m p w :
  listening k w → ParseRequest data = Some m → EncodeResponse (echo m) = Some p →
  let w' := op (S d) (OpAnswerRead (2 * k) Ok false data) w in
  writable w' ∧ reads w' !! (2 * S k)%nat = Some (UserReadFn 0) ∧ next_tok w' = (2 * S k + 1)%nat ∧
  news (arenas w') = (2 * S k + 1)%nat ∧ in_flight w' = 1%nat ∧ handler_returned w' = false ∧
  writes w' !! (2 * k + 1)%nat = Some (CountedFn None) ∧
  trace w' = trace w ++ [UserRead 0 Ok false (Some (m, (2 * k + 1)%nat)); CoreWrite (2 * k + 1) p; CoreRead (2 * S k)].
Proof.
  intros (Hw & Hr & Hn & Ha & Hi & Hret) Hm Hp. pose proof Hw as (Hwf & Hf & Hv & Hth). cbv zeta.
  assert (E : op (S d) (OpAnswerRead (2 * k) Ok false data) w =
    run_read (λ _, false) (λ _ _, false) (re (S d)) (2 * k) (UserReadFn 0) Ok false data w).
  { unfold do_op. by rewrite Hth, Hr. }
  rewrite E. clear E. unfold run_read, run_user_read. change (false || negb (ok Ok)) with false. cbn match.
  cbv beta iota zeta. rewrite new_eq. cbn match. rewrite Hm. unfold call_out. rewrite chat_ops.
  cbn [chat_handler]. unfold chat_arm. change (negb (ok Ok)) with false. cbn [fold_left].
  match goal with |- context [op d (OpWrite _ _) ?x] => set (w1 := x) end.
  assert (Hw1 : writable w1) by (split; [by apply allocated_wf|done]).
  rewrite (chat_write d (echo m) p w1 Hp Hw1), chat_read by done.
  assert (Hn1 : next_tok w1 = (2 * k + 1)%nat) by exact Hn.
  assert (Hwf2 : arenas_wf (upb_Arena_Free (news (arenas w)) (skipped (allocated (arenas w))))).
  { by apply free_wf, skipped_wf, allocated_wf. }
  unfold wrote_one, free. simpl. rewrite Hn, Ha, Hi.
  split_and!; try done.
  - by rewrite <-Ha.
  - replace (S (2 * k + 1)) with (2 * S k)%nat by lia. rewrite lookup_insert_eq. done.
  - lia.
  - rewrite Ha in *. unfold upb_Arena_Free. case_decide; simpl; rewrite Ha; lia.
  - by rewrite lookup_insert_eq.
  - replace (S (2 * k + 1)) with (2 * S k)%nat by lia. by rewrite <-!(assoc_L (++)).
Qed.

Lemma chat_exchange d k data m p w :
  listening k w → ParseRequest data = Some m → EncodeResponse (echo m) = Some p →
  let w' := run (S d) (exchange k data) w in
  listening (S k) w' ∧ trace w' = trace w ++ exchange_trace k m p.
Proof.
  intros Hl Hm Hp. unfold StreamServerRun.run, exchange. cbn [fold_left]. unfold step at 2 4.
  destruct (chat_hears d k data m p w Hl Hm Hp) as (Hw & Hr & Hn & Ha & Hi & Hret & Hws & Ht).
  revert Hw Hr Hn Ha Hi Hret Hws Ht.
  generalize (op (S d) (OpAnswerRead (2 * k) Ok false data) w). intros w1 Hw Hr Hn Ha Hi Hret Hws Ht.
  pose proof Hw as (Hwf & Hf & Hv & Hth). unfold step, do_op. rewrite Hth, Hws.
  unfold run_write, tell, OnDelivered. cbv beta iota zeta. cbn [in_flight].
  change (in_flight (w1 <| writes ::= delete (2 * k + 1)%nat |> <| trace ::= λ t, t ++ [WriteAnswered (2 * k + 1)] |>))
    with (in_flight w1). rewrite Hi. cbn [Nat.eqb]. unfold MaybeAutoFinish.
  simpl in_flight. simpl handler_returned. rewrite Hi, Hret. cbn [pred Nat.eqb negb orb].
  split; [|simpl; rewrite Ht; by rewrite <-(assoc_L (++))].
  split; [done|]. split_and!; try done. simpl. by rewrite Hi.
Qed.

(** The operations and the trace of a conversation. *)
Fixpoint exchanges (k : nat) (datas : list bytes) : list Op :=
  match datas with
  | [] => [OpAnswerRead (2 * k) Ok true []]
  | data :: datas => exchange k data ++ exchanges (S k) datas
  end.
Fixpoint exchanges_trace (k : nat) (mps : list (ReqType * bytes)) : list Out :=
  match mps with
  | [] => [UserRead 0 Ok true None; CoreFinish ByWriter Ok]
  | (m, p) :: mps => exchange_trace k m p ++ exchanges_trace (S k) mps
  end.

Lemma chat_ends d k w :
  listening k w →
  trace (op (S d) (OpAnswerRead (2 * k) Ok true []) w) =
    trace w ++ [UserRead 0 Ok true None; CoreFinish ByWriter Ok].
Proof.
  intros (Hw & Hr & _). pose proof Hw as (Hwf & Hf & Hv & Hth).
  assert (E : op (S d) (OpAnswerRead (2 * k) Ok true []) w =
    run_read (λ _, false) (λ _ _, false) (re (S d)) (2 * k) (UserReadFn 0) Ok true [] w).
  { unfold do_op. by rewrite Hth, Hr. }
  rewrite E. unfold run_read, run_user_read. cbn [orb]. cbn match. cbv beta iota zeta.
  unfold call_out. rewrite chat_ops. cbn [chat_handler]. unfold chat_arm.
  change (negb (ok Ok)) with false. cbn [fold_left]. unfold do_op. simpl throwing. rewrite Hth.
  simpl views. rewrite Hv. cbn [has_writer andb]. unfold Finish. simpl finished. rewrite Hf. cbn [snd].
  unfold call_out. rewrite chat_quiet by done. simpl. by rewrite <-(assoc_L (++)).
Qed.

Lemma chat_goes_on d datas : ∀ k mps w,
  listening k w → Forall2 (λ data mp, ParseRequest data = Some mp.1 ∧
    EncodeResponse (echo mp.1) = Some mp.2) datas mps →
  trace (run (S d) (exchanges k datas) w) = trace w ++ exchanges_trace k mps.
Proof.
  induction datas as [|data datas IH]; intros k mps w Hl Hf; inversion Hf as [|? [m p] ? mps' [Hm Hp] Hf']; subst.
  - cbn [exchanges exchanges_trace]. unfold StreamServerRun.run, step. cbn [fold_left]. by apply chat_ends.
  - cbn [exchanges exchanges_trace]. unfold StreamServerRun.run. rewrite fold_left_app.
    destruct (chat_exchange d k data m p w Hl Hm Hp) as [Hl' Ht].
    etrans; [apply (IH (S k) mps' _ Hl' Hf')|]. cbv zeta in Ht. rewrite Ht. by rewrite <-(assoc_L (++)).
Qed.

(** The typed chat echoes.  In a bidirectional stream whose messages parse
    and whose echoes can be encoded, the handler of the benchmark reads each
    message, writes its echo and reads again, one after the other, each message
    in its own arena, and finishes the stream with OK when the client's side has
    ended. *)
Theorem typed_chat_echoes d datas mps :
  Forall2 (λ data mp, ParseRequest data = Some mp.1 ∧ EncodeResponse (echo mp.1) = Some mp.2) datas mps →
  trace (run (S d) (OpBody :: exchanges 0 datas) new_stream) =
    [BidiHandler; CoreRead 0] ++ exchanges_trace 0 mps.
Proof.
  intros Hf. destruct (chat_begins d) as [Hl Ht]. change (OpBody :: ?l) with ([OpBody] ++ l).
  unfold StreamServerRun.run in *. rewrite fold_left_app.
  etrans; [apply (chat_goes_on d datas 0 mps _ Hl Hf)|]. by rewrite Ht.
Qed.
End Chat.

(** ** Concrete streams *)
Section Demo.
#[local] Existing Instance demo_traits.

Lemma download_streams_file_witness :
  let size := λ req : bytes, 8 * Z.of_nat (length req) - 3 in
  ∃ ps, trace (typed_answered (M := demo_traits) (download_handler size (λ b, b)) [chr 10; chr 1; chr 1] 2) =
    [CoreRead 0; ServerStreamingHandler (M := demo_traits) [chr 1; chr 1] 0] ++
    chain_trace (M := demo_traits) 1 (zip ps (file_chunks (M := demo_traits) (λ b, b) 13).*2) ++
    [CoreFinish ByAuto Ok] ∧ length ps = 2%nat.
Proof.
  intros size. exists (map (cons (chr 10)) (file_data 13)). split; [|reflexivity].
  destruct (download_streams_file (M := demo_traits) size (λ b, b) [chr 1; chr 1] [chr 10; chr 1; chr 1]
    (map (cons (chr 10)) (file_data 13)) 0) as (_ & H & _).
  - reflexivity.
  - vm_compute. split; congruence.
  - vm_compute. reflexivity.
  - apply H. vm_compute. reflexivity.
Defined.

Lemma typed_chat_echoes_witness :
  trace (run (M := demo_traits) Service.kBidi (λ _, false) (λ _ _, false) (chat_handler (M := demo_traits) (λ b, b)) 1
    (OpBody :: exchanges (M := demo_traits) 0 [[chr 10; chr 7]]) new_stream) =
  [BidiHandler; CoreRead 0] ++ exchanges_trace (M := demo_traits) 0 [([chr 7], [chr 10; chr 7])].
Proof.
  apply (typed_chat_echoes (M := demo_traits) (λ b, b) 0 [[chr 10; chr 7]] [([chr 7], [chr 10; chr 7])]).
  repeat constructor.
Defined.
End Demo.
