(* ===== verification/TypedChat.v ===== *)
(** * A typed conversation from end to end

    The chat of BenchStreaming.v with both ends: its handler as the environment of
    the connection's model, and the loop of [BM_BidiRoundTrip] as the caller of the
    typed view, whose calls go to a channel.  Each round trip writes one message,
    whose bytes arrive cut in any way, and reads its echo. *)
From S2P Require Import Prelude Status CxxString Wire Codec Router Loop Platform Arena.
From S2P Require Import Api.
From S2P Require Channel ChannelInv ChannelRun ChannelCalls ChannelSends UnaryClient StreamClient.
From S2P Require Import ServerConn ServerInv ServerRun ServerCalls ServerStreams.
From S2P Require StreamServer StreamServerRun.
From S2P Require EndToEnd TypedEnd StreamEnd TypedStream BidiEnd BenchStreaming.

(** ** The server *)
Section Server.
Context {M : MethodTraits} (echo : ReqType → ResType) (sid : Z) (datas : list bytes).
#[local] Abbreviation ops := (omap (TypedStream.core_op sid)).
#[local] Abbreviation typed_run :=
  (StreamServerRun.run Service.kBidi (λ _, false) (λ _ _, false) (BenchStreaming.chat_handler echo) 1).

(** The typed stream after [k] messages, and with the next one. *)
Definition spoken (k : nat) : StreamServer.World :=
  typed_run (StreamServer.OpBody :: concat (imap BenchStreaming.exchange (take k datas))) StreamServer.new_stream.
Definition heard (k : nat) (st : Status) (eos : bool) (data : bytes) : StreamServer.World :=
  typed_run [StreamServer.OpAnswerRead (2 * k) st eos data] (spoken k).

(** What the typed stream asks of the core's context between two of its states. *)
Definition asked (w w' : StreamServer.World) : list ReOp :=
  ops (drop (length (StreamServer.trace w)) (StreamServer.trace w')).

(** The typed stream as it works inside the core's call outs, for a client that
    sends [datas]: its [k]th read has the token [2 * k], its write the next. *)
Definition chat_core (o : Out) (w : World) : list ReOp :=
  match o with
  | UserStream _ _ => ops (StreamServer.trace (spoken 0))
  | UserRead tok st eos data =>
      let k := Nat.div2 tok in asked (spoken k) (heard k st eos data)
  | UserWrite tok st =>
      let k := Nat.div2 tok in
      let v := heard k Ok false (default [] (datas !! k)) in
      asked v (typed_run [StreamServer.OpAnswerWrite tok st] v)
  | _ => []
  end.

(** What a message is answered with. *)
Definition reply (data : bytes) : bytes :=
  default [] (m ← ParseRequest data; EncodeResponse (echo m)).
Definition answered (data : bytes) : Prop :=
  ∃ m p, ParseRequest data = Some m ∧ EncodeResponse (echo m) = Some p.

Context (Hdatas : Forall answered datas).

Lemma spoken_S k data :
  datas !! k = Some data → spoken (S k) = typed_run (BenchStreaming.exchange k data) (spoken k).
Proof using Type.
  intros Hk. unfold spoken. rewrite (take_S_r _ _ _ Hk), imap_app, concat_app.
  unfold StreamServerRun.run. rewrite app_comm_cons, fold_left_app. f_equal. cbn [imap concat].
  rewrite app_nil_r, length_take_le; [by rewrite Nat.add_0_r|].
  apply lookup_lt_Some in Hk. lia.
Qed.

Lemma answered_reply k data :
  datas !! k = Some data → ∃ m, ParseRequest data = Some m ∧ EncodeResponse (echo m) = Some (reply data).
Proof using Hdatas.
  intros Hk. destruct (proj1 (Forall_lookup _ _) Hdatas _ _ Hk) as (m & p & Hm & Hp).
  exists m. split; [done|]. unfold reply. rewrite Hm. simpl. by rewrite Hp.
Qed.

Lemma spoken_listens k : (k ≤ length datas)%nat → BenchStreaming.listening k (spoken k).
Proof using Hdatas.
  induction k as [|k IH]; intros Hk.
  - apply (BenchStreaming.chat_begins echo 0).
  - destruct (lookup_lt_is_Some_2 datas k) as [data Hd]; [lia|].
    destruct (answered_reply k data Hd) as (m & Hm & Hp). rewrite (spoken_S _ _ Hd).
    by apply (BenchStreaming.chat_exchange echo 0 k data m (reply data) _ (IH ltac:(lia)) Hm Hp).
Qed.

Lemma div2_even k : Nat.div2 (2 * k) = k.
Proof using Type. apply Nat.div2_double. Qed.
Lemma div2_odd k : Nat.div2 (2 * k + 1) = k.
Proof using Type. rewrite Nat.add_1_r. apply Nat.div2_succ_double. Qed.

Lemma core_starts h w : chat_core (UserStream h sid) w = [ApiRead sid 0].
Proof using Type.
  change (ops (StreamServer.trace (typed_run [StreamServer.OpBody] StreamServer.new_stream)) = [ApiRead sid 0]).
  by rewrite (proj2 (BenchStreaming.chat_begins echo 0)).
Qed.

(** The [k]th message: its echo is written and the next read made. *)
Lemma heard_next k data m :
  datas !! k = Some data → ParseRequest data = Some m → EncodeResponse (echo m) = Some (reply data) →
  StreamServer.trace (heard k Ok false data) = StreamServer.trace (spoken k) ++
    [StreamServer.UserRead 0 Ok false (Some (m, (2 * k + 1)%nat));
     StreamServer.CoreWrite (2 * k + 1) (reply data); StreamServer.CoreRead (2 * S k)].
Proof using Hdatas.
  intros Hk Hm Hp. assert (Hl : (k ≤ length datas)%nat) by (apply lookup_lt_Some in Hk; lia).
  by apply (BenchStreaming.chat_hears echo 0 k data m (reply data) _ (spoken_listens k Hl) Hm Hp).
Qed.

Lemma core_replies k data w :
  datas !! k = Some data →
  chat_core (UserRead (2 * k) Ok false data) w =
    [ApiWrite sid (reply data) (Some (2 * k + 1)%nat); ApiRead sid (2 * S k)].
Proof using Hdatas.
  intros Hk. destruct (answered_reply k data Hk) as (m & Hm & Hp). unfold chat_core, asked.
  rewrite div2_even, (heard_next k data m Hk Hm Hp), drop_app_length. done.
Qed.

Lemma core_acks k data w :
  datas !! k = Some data → chat_core (UserWrite (2 * k + 1) Ok) w = [].
Proof using Hdatas.
  intros Hk. destruct (answered_reply k data Hk) as (m & Hm & Hp). unfold chat_core, asked.
  rewrite div2_odd, Hk. cbn [default from_option id].
  assert (Hl : (k ≤ length datas)%nat) by (apply lookup_lt_Some in Hk; lia).
  pose proof (proj2 (BenchStreaming.chat_exchange echo 0 k data m (reply data) _ (spoken_listens k Hl) Hm Hp)) as Ht.
  change (typed_run (BenchStreaming.exchange k data) (spoken k)) with
    (typed_run [StreamServer.OpAnswerWrite (2 * k + 1) Ok] (heard k Ok false data)) in Ht.
  cbv zeta in Ht. rewrite Ht, (heard_next k data m Hk Hm Hp).
  unfold BenchStreaming.exchange_trace.
  change [?a; ?b; ?c; ?d] with ([a; b; c] ++ [d]). by rewrite (assoc_L (++)), drop_app_length.
Qed.

Lemma core_ends w : chat_core (UserRead (2 * length datas) Ok true []) w = [ApiFinish sid Ok].
Proof using Hdatas.
  unfold chat_core, asked. rewrite div2_even.
  pose proof (BenchStreaming.chat_ends echo 0 (length datas) _ (spoken_listens _ (le_n _))) as Ht.
  etrans; [apply (f_equal (λ t, ops (drop _ t)) Ht)|]. by rewrite drop_app_length.
Qed.

Lemma core_unmoved : unmoved chat_core.
Proof using Type. intros o s w Ho. by destruct o. Qed.

Context (spin depth : nat) (router : Router nat nat) (limit : Z).

Lemma typed_chat_served h hs path e chunks w :
  destroyed w = false → alive w = true → sid ∉ opened w → calls w !! sid = None → bodies w = [] →
  running_ (loop w) = true → pending_ (loop w) = [] →
  hs !! ":path" = Some path → grpc_content_type hs = true → hs !! "grpc-timeout" = None →
  Find path router = Some e → form e = kBidi → stream e = Some h → 0 ≤ limit →
  Forall2 (λ data c, fits limit data ∧ concat c = EncodeFrame data []) datas chunks → datas ≠ [] →
  ∃ log, trace (run chat_core (S (S depth)) spin router limit (EvHeaders sid hs false ::
      concat (map (BidiEnd.exchange_events sid) chunks) ++ [EvData sid None true]) w) =
    trace w ++ UserStream h sid ::
    BidiEnd.conversation (Nat.mul 2) (λ k, (2 * k + 1)%nat) reply sid datas ++
    [UserRead (2 * length datas) Ok true []; SendTrailers sid (status_trailers Ok); LogCall "call_end" log].
Proof using Hdatas.
  intros Hd Ha Ho Hc Hb Hr Hp Hpa Hct Htm He Hf Hs Hl Hch Hne.
  assert (Hlen : length datas = length chunks) by by eapply Forall2_length.
  assert (E : BidiEnd.heard limit (zip datas chunks)).
  { apply Forall_lookup. intros i [data c] Hi. apply lookup_zip_with_Some in Hi as (d' & c' & [= -> ->] & Hi1 & Hi2).
    by apply (Forall2_lookup_lr _ _ _ _ _ _ Hch Hi1 Hi2). }
  assert (E1 : (zip datas chunks).*1 = datas) by (apply fst_zip; lia).
  destruct (BidiEnd.conversation_served chat_core core_unmoved h (Nat.mul 2) (λ k, (2 * k + 1)%nat) reply sid
    datas (core_starts h) core_replies core_ends core_acks spin depth router limit hs path e
    (zip datas chunks) w) as [log Hlog]; try done.
  { by destruct datas, chunks. }
  exists log. rewrite <-Hlog. do 4 f_equal.
  clear -Hlen. revert chunks Hlen. induction datas as [|d l IH]; intros [|c chunks] Hlen; try done.
  cbn [zip zip_with map concat snd]. f_equal. apply IH. by injection Hlen.
Qed.
End Server.

(** ** The caller *)
Section Caller.
Context {M : MethodTraits}.
Context (wire : Channel.Out → Channel.World → list Channel.SOp).
Context (submit : Channel.Out → Channel.World → Z) (address : string).
Context (tcp_connect : @connect_outcome unit).

(** The view's lambdas make no calls of the channel. *)
Definition no_calls (o : Channel.Out) (w : Channel.World) : list Channel.UOp := [].
#[local] Abbreviation client_run :=
  (fold_left (λ w e, ChannelRun.step no_calls wire submit address tcp_connect e w)).

(** The stream's lambdas, and its ids in the channel and in the session. *)
Context (on_m on_c : Channel.closure) (id sid : Z).

(** The core's call that a call of the view is. *)
Definition core_call (o : StreamClient.Out) : ChannelRun.Event :=
  match o with
  | StreamClient.CoreOpenStream path tm =>
      ChannelRun.EvApi (Channel.ApiOpenStream path (Channel.mkEvents (Some on_m) (Some on_c)) tm)
  | StreamClient.CoreStreamSend i body tok close =>
      ChannelRun.EvApi (Channel.ApiStreamSend i body tok close)
  | StreamClient.CoreStreamCloseSend i => ChannelRun.EvApi (Channel.ApiStreamCloseSend i)
  end.
Definition core_calls (v v' : StreamClient.World) : list ChannelRun.Event :=
  map core_call (drop (length (StreamClient.trace v)) (StreamClient.trace v')).

(** What a callback of the core is for the stream's state. *)
Definition told (o : Channel.Out) : option StreamClient.Event :=
  match o with
  | Channel.UserFlushed tok st => Some (StreamClient.EvFlushed tok st)
  | _ => TypedEnd.stream_event id o
  end.

(** The channel takes [es]; the stream's state is told of it. *)
Definition happens (es : list ChannelRun.Event) (v : StreamClient.World) (w : Channel.World) :
    StreamClient.World * Channel.World :=
  let w' := client_run es w in
  (StreamClient.deliver_all (omap told (drop (length (Channel.trace w)) (Channel.trace w'))) v, w').

(** An iteration of [BM_BidiRoundTrip]: while the write waits, its message is
    sent and consumed, and the answer arrives, for the first one after the
    headers [hss]; without a result it waits for ever. *)
Definition round_trip (m : ReqType) (hss : list (gmap string string)) (answer : list bytes)
    (v : StreamClient.World) (w : Channel.World) :
    option (string + ResType) * StreamClient.World * Channel.World :=
  match StreamClient.Write (λ _, false) false (Some m) v with
  | (inl _, v) => (Some (inl "write failed"), v, w)
  | (inr tok, v1) =>
      let '(v2, w) := happens (core_calls v v1 ++
        [ChannelRun.EvWake; ChannelRun.EvSession (Channel.SConsumed sid 0); ChannelRun.EvWake] ++
        map (ChannelRun.EvHeaders sid) hss ++ map (λ b, ChannelRun.EvData sid (Some b)) answer) v1 w in
      match StreamClient.Write_get tok v2 with
      | None => (None, v2, w)
      | Some false => (Some (inl "write failed"), v2, w)
      | Some true =>
          match StreamClient.Read (λ _, false) v2 with
          | None => (None, v2, w)
          | Some (r, v3) =>
              match ok (UnaryClient.status_ r), UnaryClient.value_ r with
              | true, Some (res, _) => (Some (inr res), v3, w)
              | _, _ => (Some (inl "read failed"), v3, w)
              end
          end
      end
  end.

Fixpoint round_trips (hss : list (gmap string string)) (l : list (ReqType * list bytes))
    (v : StreamClient.World) (w : Channel.World) :
    option (string + list ResType) * StreamClient.World * Channel.World :=
  match l with
  | [] => (Some (inr []), v, w)
  | (m, answer) :: l =>
      match round_trip m hss answer v w with
      | (Some (inr res), v, w) =>
          match round_trips [] l v w with
          | (Some (inr rs), v, w) => (Some (inr (res :: rs)), v, w)
          | ends => ends
          end
      | (Some (inl err), v, w) => (Some (inl err), v, w)
      | (None, v, w) => (None, v, w)
      end
  end.

(** The end: [WritesDone], and [Finish], which waits for the trailers. *)
Definition ends_chat (trailers : gmap string string) (v : StreamClient.World) (w : Channel.World) :
    option Status * StreamClient.World * Channel.World :=
  let v1 := StreamClient.WritesDone v in
  let v2 := (StreamClient.ReaderWriterFinish false v1).1 in
  let '(v3, w) := happens (core_calls v v2 ++ [ChannelRun.EvWake; ChannelRun.EvHeaders sid trailers]) v2 w in
  match (StreamClient.ReaderWriterFinish false v3).2 with
  | Some (st, v4) => (Some st, v4, w)
  | None => (None, v3, w)
  end.

(** A view between two round trips. *)
Definition resting (v : StreamClient.World) : Prop :=
  StreamClient.chan v = StreamClient.OpenChan ∧ StreamClient.id v = id ∧ StreamClient.messages v = [] ∧
  StreamClient.terminated v = false ∧ StreamClient.writes_done_ v = false ∧
  StreamClient.arenas_fine (StreamClient.arenas v).

#[local] Abbreviation talking limit :=
  (ChannelSends.talking limit (Channel.mkEvents (Some on_m) (Some on_c)) id sid).

(** A write gives the core one framed message. *)
Lemma view_writes m buf v :
  resting v → EncodeRequest m = Some buf →
  ∃ v', StreamClient.Write (λ _, false) false (Some m) v = (inr (StreamClient.next_tok v), v') ∧
    core_calls v v' =
      [ChannelRun.EvApi (Channel.ApiStreamSend id (EncodeFrame buf []) (Some (StreamClient.next_tok v)) false)] ∧
    StreamClient.flushes v' !! StreamClient.next_tok v = Some None ∧
    StreamClient.next_tok v' = S (StreamClient.next_tok v) ∧ resting v'.
Proof using Type.
  intros (Hc & Hi & Hm & Ht & Hw & Hf) He.
  unfold StreamClient.Write, StreamClient.ChannelOnLoopThreadRaw. rewrite Ht, Hc, new_eq, He. cbn match.
  cbv beta iota zeta. unfold StreamClient.ChannelStreamSendRaw. simpl StreamClient.chan. rewrite Hc.
  eexists. split; [reflexivity|]. split_and!.
  - unfold core_calls. simpl. rewrite drop_app_length. simpl. by rewrite Hi.
  - simpl. by rewrite lookup_insert_eq.
  - done.
  - split_and!; try done. simpl. destruct Hf as [Hwf Hr]. rewrite free_allocated by done.
    split; [by apply skipped_wf|]. intros p Hp%Hr. simpl. lia.
Qed.

(** A read of the message that has arrived. *)
Lemma view_reads payload res v :
  StreamClient.messages v = [payload] → StreamClient.arenas_fine (StreamClient.arenas v) →
  ParseResponse payload = Some res →
  ∃ p v', StreamClient.Read (λ _, false) v = Some (UnaryClient.mkResult Ok (Some (res, p)), v') ∧
    StreamClient.messages v' = [] ∧ StreamClient.arenas_fine (StreamClient.arenas v') ∧
    StreamClient.same_end v v' ∧ StreamClient.id v' = StreamClient.id v ∧
    StreamClient.writes_done_ v' = StreamClient.writes_done_ v ∧
    StreamClient.next_tok v' = StreamClient.next_tok v.
Proof using Type.
  intros Hm Hf Hp. destruct (StreamClient.Read (λ _, false) v) as [[r v']|] eqn:E.
  - pose proof (StreamClient.Read_end _ _ _ _ E) as He. unfold StreamClient.Read in E. rewrite Hm in E.
    injection E as E. assert (Hf' : StreamClient.arenas_fine (StreamClient.arenas v')).
    { eapply StreamClient.Decode_fine; [exact E|exact Hf]. }
    unfold StreamClient.Decode in E. rewrite new_eq, Hp in E. cbn match in E. injection E as <- <-.
    do 2 eexists. by split_and!.
  - unfold StreamClient.Read in E. by rewrite Hm in E.
Qed.

(** One round trip. *)
Lemma round_trip_echoes m buf payload res hss answer limit v w :
  resting v → talking limit w → (∀ w, wire (Channel.SendData sid (EncodeFrame buf []) false) w = []) →
  EncodeRequest m = Some buf → ParseResponse payload = Some res → fits limit payload →
  Forall ChannelSends.opens_response hss → concat answer = EncodeFrame payload [] →
  ∃ v' w', round_trip m hss answer v w = (Some (inr res), v', w') ∧ resting v' ∧ talking limit w' ∧
    StreamClient.next_tok v' = S (StreamClient.next_tok v) ∧
    Channel.trace w' = Channel.trace w ++
      [Channel.SendData sid (EncodeFrame buf []) false; Channel.UserFlushed (StreamClient.next_tok v) Ok;
       Channel.UserMessage id on_m Ok payload].
Proof using Type.
  intros Hv Hw Hwire Henc Hres Hfit Hhss Hcat. unfold round_trip.
  destruct (view_writes m buf v Hv Henc) as (v1 & -> & -> & Hfl & Htok & Hv1).
  set (tok := StreamClient.next_tok v) in *.
  change ([ChannelRun.EvApi ?a] ++ [?b; ?c; ?d] ++ ?l) with ([ChannelRun.EvApi a; b; c; d] ++ l).
  destruct (ChannelSends.talk_exchange no_calls wire submit address tcp_connect (λ _ _, eq_refl) limit on_m
    (Some on_c) id sid (EncodeFrame buf []) tok payload hss answer w Hw Hwire Hfit Hhss Hcat) as [Hw' Et].
  cbv zeta in Hw', Et. unfold happens. cbv zeta. unfold ChannelSends.exchange in Hw', Et.
  rewrite Et, drop_app_length. cbn [omap list_omap told TypedEnd.stream_event].
  rewrite decide_True by done. cbv beta iota. cbn [StreamClient.deliver_all fold_left StreamClient.deliver].
  destruct Hv1 as (Hc & Hi & Hm & Ht & Hd & Hf).
  match goal with |- context [StreamClient.Write_get tok ?x] => set (v2 := x) end.
  assert (Hg : StreamClient.Write_get tok v2 = Some true).
  { unfold StreamClient.Write_get, v2. simpl. by rewrite lookup_alter_eq, Hfl. }
  rewrite Hg.
  destruct (view_reads payload res v2) as (p & v3 & -> & Hm3 & Hf3 & (Hc3 & Ht3 & _) & Hi3 & Hd3 & Hn3);
    [unfold v2; simpl; by rewrite Hm|exact Hf|exact Hres|].
  simpl UnaryClient.status_. simpl UnaryClient.value_. cbn [ok code Ok].
  do 2 eexists. split; [reflexivity|]. split_and!; [|exact Hw'|by rewrite Hn3|exact Et].
  split_and!; [by rewrite Hc3|by rewrite Hi3|done|by rewrite Ht3|by rewrite Hd3|done].
Qed.

(** A message with its bytes, those of its echo, and how both arrive. *)
Record Trip := mkTrip {
  request : ReqType; sent : bytes; response : ResType; returned : bytes;
  up : list bytes; down : list bytes
}.
Record trip_ok (limit : Z) (t : Trip) : Prop := {
  trip_encoded : EncodeRequest (request t) = Some (sent t);
  trip_decoded : ParseResponse (returned t) = Some (response t);
  trip_fits : fits limit (returned t);
  trip_down : concat (down t) = EncodeFrame (returned t) []
}.

(** What the round trips are for the channel; the tokens of the writes count up. *)
Fixpoint trips_trace (tok : nat) (l : list Trip) : list Channel.Out :=
  match l with
  | [] => []
  | t :: l =>
      [Channel.SendData sid (EncodeFrame (sent t) []) false; Channel.UserFlushed tok Ok;
       Channel.UserMessage id on_m Ok (returned t)] ++ trips_trace (S tok) l
  end.

Lemma round_trips_echo limit l : ∀ hss v w,
  resting v → talking limit w → (∀ body close w, wire (Channel.SendData sid body close) w = []) →
  Forall ChannelSends.opens_response hss → Forall (trip_ok limit) l →
  ∃ v' w', round_trips hss (map (λ t, (request t, down t)) l) v w = (Some (inr (map response l)), v', w') ∧
    resting v' ∧ talking limit w' ∧
    Channel.trace w' = Channel.trace w ++ trips_trace (StreamClient.next_tok v) l.
Proof using Type.
  induction l as [|t l IH]; intros hss v w Hv Hw Hwire Hhss Hl.
  { exists v, w. by rewrite app_nil_r. }
  apply Forall_cons in Hl as [[Henc Hdec Hfit Hdown] Hl]. cbn [map round_trips].
  destruct (round_trip_echoes (request t) (sent t) (returned t) (response t) hss (down t) limit v w Hv Hw
    (λ w, Hwire _ _ w) Henc Hdec Hfit Hhss Hdown) as (v1 & w1 & -> & Hv1 & Hw1 & Hn & Et).
  destruct (IH [] v1 w1 Hv1 Hw1 Hwire (Forall_nil_2 _) Hl) as (v2 & w2 & -> & Hv2 & Hw2 & Et2).
  exists v2, w2. split; [done|]. split; [done|]. split; [done|].
  rewrite Et2, Et, Hn, <-(assoc_L (++)). done.
Qed.

(** [Finish], when the sending side is closed. *)
Lemma finish_waits v :
  StreamClient.chan v = StreamClient.OpenChan → StreamClient.writes_done_ v = true →
  StreamClient.ReaderWriterFinish false v =
    (v, if StreamClient.terminated v then Some (StreamClient.terminal v, v) else None).
Proof using Type.
  intros Hc Hd. unfold StreamClient.ReaderWriterFinish, StreamClient.WritesDone. rewrite Hd. cbv zeta.
  unfold StreamClient.ChannelOnLoopThreadRaw. by rewrite Hc.
Qed.

(** The stream ends: [Finish] returns the status of the trailers. *)
Lemma chat_ended limit trailers gs v w :
  resting v → talking limit w → (∀ w, wire (Channel.SendData sid [] true) w = []) →
  trailers !! "grpc-status" = Some gs →
  let st := mkStatus (GrpcStatusFromInt gs kInternal) (Channel.grpc_message trailers) in
  ∃ v' w', ends_chat trailers v w = (Some st, v', w') ∧
    Channel.trace w' = Channel.trace w ++ [Channel.SendData sid [] true; Channel.UserComplete id on_c st].
Proof using Type.
  intros (Hc & Hi & Hm & Ht & Hd & Hf) Hw Hwire Htr st. unfold ends_chat. cbv zeta.
  set (v1 := StreamClient.WritesDone v).
  assert (Hv1 : StreamClient.chan v1 = StreamClient.OpenChan ∧ StreamClient.writes_done_ v1 = true ∧
    StreamClient.trace v1 = StreamClient.trace v ++ [StreamClient.CoreStreamCloseSend id]).
  { unfold v1, StreamClient.WritesDone, StreamClient.ChannelStreamCloseSendRaw. rewrite Hd.
    simpl StreamClient.chan. rewrite Hc. by rewrite Hi. }
  destruct Hv1 as (Hc1 & Hd1 & Ht1). rewrite (finish_waits v1) by done. cbn [fst].
  unfold core_calls. rewrite Ht1, drop_app_length. cbn [map core_call app].
  pose proof (ChannelSends.talk_closes no_calls wire submit address tcp_connect (λ _ _, eq_refl) limit
    (Some on_m) on_c id sid trailers gs w Hw Hwire Htr) as Et.
  unfold happens. cbv zeta. rewrite Et, drop_app_length. cbn [omap list_omap told TypedEnd.stream_event].
  rewrite decide_True by done. cbn [StreamClient.deliver_all fold_left StreamClient.deliver].
  rewrite finish_waits by done. cbn [snd]. simpl StreamClient.terminated. simpl StreamClient.terminal.
  by do 2 eexists.
Qed.

(** Opening the view; the caller's thread does not wait. *)
Definition opens_chat (wire_debug : bool) (service method : string) (tm : Z) (w : Channel.World) :
    StreamClient.World * Channel.World :=
  let v := StreamClient.OpenClientWriter wire_debug id StreamClient.OpenChan service method tm in
  happens (map core_call (StreamClient.trace v) ++ [ChannelRun.EvWake]) v w.

(** A session that takes the stream as [sid] and reports nothing meanwhile. *)
Definition session_takes (path : string) : Prop :=
  0 < sid ∧
  (∀ w, submit (ChannelSends.open_request address path) w = sid ∧
        wire (ChannelSends.open_request address path) w = []) ∧
  ∀ body close w, wire (Channel.SendData sid body close) w = [].

Lemma chat_opened wire_debug service method tm w :
  let path := api_path service method in
  Channel.state w = Channel.kReady → Channel.session w = true → Channel.bodies w = [] →
  running_ (Channel.loop w) = true → pending_ (Channel.loop w) = [] → 0 ≤ Channel.max_receive_size w →
  session_takes path → id = Channel.next_call_id w →
  ∃ v w1, opens_chat wire_debug service method tm w = (v, w1) ∧ resting v ∧ StreamClient.next_tok v = 0%nat ∧
    talking (Channel.max_receive_size w) w1 ∧
    Channel.trace w1 = Channel.trace w ++ [ChannelSends.open_request address path].
Proof using Type.
  intros path Hst Hse Hb Hr Hp Hmrs (Hpos & Hsub & _) ->. unfold opens_chat. cbv zeta.
  set (v := StreamClient.OpenClientWriter _ _ _ _ _ _).
  assert (Hv : StreamClient.trace v = [StreamClient.CoreOpenStream path tm] ∧
    resting v ∧ StreamClient.next_tok v = 0%nat).
  { unfold v, StreamClient.OpenClientWriter, StreamClient.Open, StreamClient.ChannelOpenStreamRaw. simpl.
    rewrite andb_false_r. split; [done|]. split; [|done]. split_and!; try done.
    split; [by split|]. intros p. simpl. rewrite lookup_empty. by intros [? ?]. }
  destruct Hv as (-> & Hv & Hn). cbn [map core_call app].
  destruct (ChannelSends.talk_opens no_calls wire submit address tcp_connect (λ _ _, eq_refl) path
    (Channel.mkEvents (Some on_m) (Some on_c)) on_c tm sid w Hst Hse Hb Hr Hp eq_refl Hpos Hmrs Hsub) as [Ht Et].
  unfold happens. cbv zeta. rewrite Et, drop_app_length. exists v. eexists. split; [reflexivity|]. done.
Qed.
End Caller.

(** ** Both ends *)
Section Chat.
Context {M : MethodTraits} (echo : ReqType → ResType).
Context (wire : Channel.Out → Channel.World → list Channel.SOp).
Context (submit : Channel.Out → Channel.World → Z) (address : string).
Context (tcp_connect : @connect_outcome unit).
Context (h : closure) (spin depth : nat) (router : Router nat nat) (limit : Z).

(** A message whose bytes the server reads and echoes. *)
Record trip_served (t : Trip) : Prop := {
  trip_parsed : ParseRequest (sent t) = Some (request t);
  trip_echoed : EncodeResponse (echo (request t)) = Some (returned t);
  trip_response : response t = echo (request t);
  trip_taken : fits limit (sent t);
  trip_up : concat (up t) = EncodeFrame (sent t) []
}.

(** What the server makes of the messages [l]. *)
Definition chat_response (sid : Z) (l : list Trip) : list Out :=
  BidiEnd.conversation (Nat.mul 2) (λ k, (2 * k + 1)%nat) (reply echo) sid (map sent l).

Lemma served_reply t : trip_served t → reply echo (sent t) = returned t.
Proof. intros []. unfold reply. rewrite trip_parsed0. simpl. by rewrite trip_echoed0. Qed.

(** The bodies it sends are the echoes. *)
Lemma chat_bodies sid l :
  Forall trip_served l →
  StreamEnd.sent_bodies (chat_response sid l) = map (λ t, EncodeFrame (returned t) []) l.
Proof.
  assert (Hfrom : ∀ l k, Forall trip_served l →
    StreamEnd.sent_bodies (BidiEnd.exchanges_from (Nat.mul 2) (λ k, (2 * k + 1)%nat) (reply echo) sid k
      (map sent l)) = map (λ t, EncodeFrame (returned t) []) l).
  { clear l. induction l as [|t l IH]; intros k Hl; [done|]. apply Forall_cons in Hl as [Ht Hl].
    cbn. f_equal; [by rewrite served_reply|]. by apply IH. }
  intros Hl. destruct l as [|t l]; [done|]. apply Forall_cons in Hl as [Ht Hl].
  cbn. f_equal; [by rewrite served_reply|]. by apply Hfrom.
Qed.

(** C7: A typed conversation works end to end.  On a connected channel and a
    connection that serves the method with the benchmark's chat handler, when upb
    reads what it wrote and memory suffices, a caller that opens the stream and
    makes any number of round trips, each of one message that arrives cut in any
    way and one echo that does, gets the echo of each message and never waits for
    ever; what the channel sends is the headers and one body for each message,
    each answered before the next; the handler's stream sends the echoes, one
    body each, in order; and closing the caller's side makes the handler finish
    the stream, so that the caller's Finish returns OK.  There is at least one
    round trip.  The headers are without grpc-timeout whatever the timeout [tm],
    which the contract of the wire protocol asks for; and WritesDone gives the
    session its empty body and returns, where the interface's contract says that
    it blocks until this was delivered. *)
Theorem typed_chat_end_to_end wire_debug service method tm on_m on_c sid e sid' w u l :
  let path := api_path service method in
  let id := Channel.next_call_id w in
  Channel.state w = Channel.kReady → Channel.session w = true → Channel.bodies w = [] →
  running_ (Channel.loop w) = true → pending_ (Channel.loop w) = [] → 0 ≤ Channel.max_receive_size w →
  session_takes wire submit address sid path →
  destroyed u = false → alive u = true → sid' ∉ opened u → calls u !! sid' = None → bodies u = [] →
  running_ (loop u) = true → pending_ (loop u) = [] →
  Find path router = Some e → form e = kBidi → stream e = Some h → 0 ≤ limit →
  Forall (trip_ok (Channel.max_receive_size w)) l → Forall trip_served l → l ≠ [] →
  ∃ v1 w1 v2 w2 v3 w3,
    opens_chat wire submit address tcp_connect on_m on_c id wire_debug service method tm w = (v1, w1) ∧
    round_trips wire submit address tcp_connect on_m on_c id sid [EndToEnd.received response_headers]
      (map (λ t, (request t, down t)) l) v1 w1 = (Some (inr (map (λ t, echo (request t)) l)), v2, w2) ∧
    ends_chat wire submit address tcp_connect on_m on_c id sid (EndToEnd.received (status_trailers Ok)) v2 w2 =
      (Some Ok, v3, w3) ∧
    Channel.trace w3 = Channel.trace w ++ [ChannelSends.open_request address path] ++
      trips_trace on_m id sid 0 l ++ [Channel.SendData sid [] true; Channel.UserComplete id on_c Ok] ∧
    (∃ log, trace (run (chat_core echo sid' (map sent l)) (S (S depth)) spin router limit
        (EvHeaders sid' (EndToEnd.received (Channel.request_headers address path)) false ::
         concat (map (BidiEnd.exchange_events sid') (map up l)) ++ [EvData sid' None true]) u) =
      trace u ++ UserStream h sid' :: chat_response sid' l ++
      [UserRead (2 * length l) Ok true []; SendTrailers sid' (status_trailers Ok); LogCall "call_end" log]) ∧
    StreamEnd.sent_bodies (chat_response sid' l) = map (λ t, EncodeFrame (returned t) []) l.
Proof.
  intros path id Hst Hse Hb Hr Hp Hmrs Hsess Hd Ha Ho Hc Hbu Hru Hpu He Hf Hs Hlim Hok Hserved Hne.
  destruct (chat_opened wire submit address tcp_connect on_m on_c id sid wire_debug service method tm w)
    as (v1 & w1 & E1 & Hv1 & Hn1 & Hw1 & Et1); [done..|].
  pose proof Hsess as (_ & _ & Hwire).
  destruct (round_trips_echo wire submit address tcp_connect on_m on_c id sid _ l
    [EndToEnd.received response_headers] v1 w1 Hv1 Hw1 Hwire) as (v2 & w2 & E2 & Hv2 & Hw2 & Et2);
    [by repeat constructor|exact Hok|].
  destruct (StreamEnd.status_received Ok) as [Hgs Est]; [vm_compute; split; congruence|].
  destruct (chat_ended wire submit address tcp_connect on_m on_c id sid _ _ _ v2 w2 Hv2 Hw2 (Hwire _ _) Hgs)
    as (v3 & w3 & E3 & Et3). cbv zeta in E3, Et3. rewrite Est in E3, Et3.
  exists v1, w1, v2, w2, v3, w3. split_and!; [exact E1| |exact E3| | |by apply chat_bodies].
  - rewrite E2. do 4 f_equal. apply map_ext_Forall. eapply Forall_impl; [exact Hserved|]. by intros t [].
  - rewrite Et3, Et2, Et1, Hn1, <-!(assoc_L (++)). done.
  - destruct (EndToEnd.request_received address path) as (Hpa & Hct & Htm).
    destruct (typed_chat_served echo sid' (map sent l)) with (spin := spin) (depth := depth) (router := router)
      (limit := limit) (h := h) (hs := EndToEnd.received (Channel.request_headers address path)) (path := path)
      (e := e) (chunks := map up l) (w := u) as [log Hlog]; try done.
    + apply Forall_map. eapply Forall_impl; [exact Hserved|]. intros t []. by exists (request t), (returned t).
    + clear -Hserved. induction Hserved as [|t l [] _ IH]; constructor; done.
    + by destruct l.
    + exists log. rewrite length_map in Hlog. exact Hlog.
Qed.
End Chat.

(** ** A concrete conversation *)
Section Demo.
#[local] Existing Instance demo_traits.
#[local] Abbreviation data := ([chr 10; chr 7] : bytes).

Definition demo_trip : Trip (M := demo_traits) :=
  mkTrip (M := demo_traits) [chr 7] data [chr 7] data
    [take 3 (EncodeFrame data []); drop 3 (EncodeFrame data [])] [EncodeFrame data []].
Definition demo_chat_router : Router nat nat := (RegisterStream "/a.S/C" kBidi (Some 7%nat) newRouter).2.

Lemma typed_chat_end_to_end_witness :
  ∃ v1 w1 v2 w2,
    opens_chat (λ _ _, []) (λ _ _, 1) "127.0.0.1:80" (Connecting tt) 3 4 1 false "a.S" "C" 30000
      EndToEnd.demo_client = (v1, w1) ∧
    round_trips (M := demo_traits) (λ _ _, []) (λ _ _, 1) "127.0.0.1:80" (Connecting tt) 3 4 1 1
      [EndToEnd.received response_headers]
      [([chr 7], [EncodeFrame data []]); ([chr 7], [EncodeFrame data []])] v1 w1 =
    (Some (inr [[chr 7]; [chr 7]]), v2, w2).
Proof.
  destruct (typed_chat_end_to_end (M := demo_traits) (λ b, b) (λ _ _, []) (λ _ _, 1) "127.0.0.1:80"
    (Connecting tt) 7 0 0 demo_chat_router 1024 false "a.S" "C" 30000 3 4 1
    (mkEntry kBidi None (Some 7%nat)) 1 EndToEnd.demo_client new_world [demo_trip; demo_trip])
    as (v1 & w1 & v2 & w2 & _ & _ & E1 & E2 & _); try reflexivity.
  - vm_compute. congruence.
  - split; [lia|]. by split.
  - apply not_elem_of_empty.
  - lia.
  - repeat constructor; vm_compute; congruence.
  - repeat constructor; vm_compute; congruence.
  - done.
  - exists v1, w1, v2, w2. split; [exact E1|exact E2].
Defined.
End Demo.
